(* ===== verification/_CoqProject ===== *)
-Q . S2P
Prelude.v
Field.v
Gf16.v
Kernels.v
Dispatch.v
Simd.v
LinAlg.v
Matrix.v
ReedSolomon.v
RsApply.v
RsReconstruct.v
Gf16Properties.v
RsProperties.v
Md5.v
Crc32.v
Packet.v
PacketFacts.v
PathFacts.v
CrcTable.v
Decoder.v
DecoderFacts.v
Blocks.v
BlocksFacts.v
Verify.v
VerifyFacts.v
VerifyOutcome.v
VerifyCollect.v
VerifyLocated.v
VerifyTotal.v
Report.v
ReportFacts.v
Repair.v
Progress.v
ProgressFacts.v
RepairFacts.v
RepairSound.v
RepairChunks.v
RepairRun.v
Cli.v
PacketProperties.v
ScanProperties.v
ReportProperties.v
ProgressProperties.v
RepairRestore.v
RepairRename.v
RepairProperties.v
RestoreProperties.v
CliProperties.v
CliRestore.v
