(* ===== verification/Prelude.v ===== *)
(** * par2engine: a verification development

    par2engine checks and repairs sets of files with PAR2 recovery data.  Its
    parts, from the bottom up: package gf16 multiplies byte slices by elements
    of GF(2^16), with tables, scalar loops and vector kernels; package rs
    inverts Vandermonde matrices over that field and reconstructs missing
    shards; package par2 loads a set ([NewDecoder]), finds the set's blocks on
    disk by a rolling CRC32 and MD5 ([VerifyScans]), and rebuilds what is damaged
    ([Repair]); the command gopar drives it.

    ** Conventions

    A Go function is a function into [result] below: a value, an error named by
    its message, or a panic.  Loops without a bound in the source run with fuel,
    running out of which is a panic, and theorems that say [Ok] or "never
    panics" therefore say that the loop ends.  A w-bit integer is a [Z] with its
    wrap-around written out where it can happen; a byte slice, array or string
    is a [list Z] of bytes; a map is a [gmap], and where the code ranges over
    one the order is a parameter.  Concurrency enters in three ways: the
    goroutines of a matrix product interleave by an explicit schedule
    (ReedSolomon.v), a block scan runs against an arbitrary environment that
    sets the shared flags (Blocks.v), and the matches reach the collector in any
    order (Verify.v).  What a context's [Err] answers is an oracle argument.

    Allocation: [make] panics for more than 2^48 bytes ([makeslice]).  The
    sizes that a packet gives without a limit are modelled with it
    ([make_bytes]: the window of the rolling checksum and the padded last block,
    whose size is that of a slice).  Other buffers are no larger than the data on
    disk or in memory that they are for, a slice that verification has
    allocated, or the options MemoryLimit and MaxPacketSize; these are taken to
    fit, and running out of memory is not modelled.

    ** Files

    Prelude.v: results, widths, byte and word lists, folds, tactics.

    Package gf16 (src/gf16): Field.v, the polynomial arithmetic and the ring laws
    of the reference product; Gf16.v, [init], [Times], [Inverse], [Div], [Pow];
    Kernels.v, the scalar slice kernels; Dispatch.v, the exported operations on
    every build, against the interface [VectorKernels]; Simd.v, the generated
    vector kernels, which discharge it; Gf16Properties.v, the theorems: the
    tables are right, T is a field, every kernel on every build multiplies each
    element, and what panics.

    Package rs (src/rs): LinAlg.v, elimination over any [BinaryField]; Matrix.v,
    src/rs/matrix.go; ReedSolomon.v, src/rs/rs.go; RsApply.v and RsReconstruct.v,
    their proofs; RsProperties.v, the theorems: elimination inverts or reports
    singularity, parallel application is matrix product on every schedule, and
    reconstruction restores the data.

    Package par2 (src/par2), loading: Md5.v and Crc32.v, the checksums,
    executable, with src/par2/checksummer.go; CrcTable.v, src/par2/crc_table.go;
    Packet.v, src/par2/packet.go, with PacketFacts.v and PathFacts.v; Decoder.v,
    src/par2/decoder.go, with DecoderFacts.v.  PacketProperties.v: round trips of
    packets and packet streams, confinement of file names, the rolling CRC32, the
    lookup table, the invariant [decoder_ok] of a loaded set.

    Package par2, verification (src/par2/scan.go): Blocks.v, the block scanner,
    proved in BlocksFacts.v against the interface [LookupSpec] of the lookup
    table; Verify.v, [VerifyScans] and its phases.  VerifyFacts.v has the
    invariant [verifying] of the phases (what is recorded of a file is so),
    VerifyOutcome.v intact sets and the counts of the collector, VerifyCollect.v
    what it records, VerifyLocated.v the invariant on the locations of blocks,
    VerifyTotal.v the reasons for a panic and for an error ([failure]); Report.v and ReportFacts.v, the listing at
    the start and the report; Progress.v and ProgressFacts.v, the messages to the
    progress channel.  ScanProperties.v: the scan finds the blocks and only
    those, a verdict that nothing is needed is right, a located block has the
    bytes the set describes, verification fails only for a [failure] and panics
    only for slices that cannot be allocated.  The collector records the first
    location that is delivered for a block; the counts of blocks at that point do
    not depend on the order of delivery ([collector_first_come]), but the hash
    phase that follows looks at the locations, and whether it has a file rebuilt
    or renamed can ([verdict_depends_on_delivery]).  ReportProperties.v: what the
    user is told agrees with the counts and with the disk.
    ProgressProperties.v: progress ends at what was read, which need not be the
    total.

    Package par2, repair (src/par2/repair.go): Repair.v, [Repair] from the
    renames to the last installed file, as a small monad over the pipeline's
    state (directory, open sources and outputs, names of temp files).  Every
    system call may fail: an [Env] answers for it.  RepairFacts.v has the
    triples of the operations that hold whatever fails, RepairSound.v the plan
    and what a repair never does; RepairChunks.v the arithmetic of blocks and
    chunks, RepairRun.v the triples [runs] of a pipeline whose system calls
    succeed, RepairRestore.v the composition; RepairRename.v shows that the renames
    at the start keep what the repair needs.  RepairProperties.v: a repair that
    reports success has put back files with the MD5s of the set, a repair that
    fails has damaged no file of the set, what a single rename does, the chunks
    of a plan cover every block once.  RestoreProperties.v, the other direction:
    after verification, with right recovery data and a system that refuses
    nothing, [Repair] does succeed, and every file has its original contents.
    Its conditions on candidates, on renames and on the end of files that have
    grown are needed: [candidate_of_the_set_is_lost], [rename_destroys_blocks]
    and [grown_file_tail_misread] are runs that go wrong without them, and
    [rename_file_outcome] and [tail_read_back] say of every run what they show.

    Command gopar (src/cmd/gopar/main.go): Cli.v, flags, limits, candidates, the
    two commands and their exit codes, and the profiles around a run; a [CliEnv]
    gives the directory, what [filepath.Glob] and [filepath.Rel] answer, where
    profiles lie and what they leave, the schedules and the system calls.
    CliProperties.v: which exit codes there are, and that exit code 0 means that
    every file of the set is on disk with its MD5.  CliRestore.v:
    [gopar repair] ends with exit code 0 and the original contents.

    ** How the theorems meet

    [NewDecoder] establishes [decoder_ok]; [VerifyScans] needs it and leaves
    [set_ready], [all_located] and the counts; these, with what the set and the
    disk promise ([promised]), are [recoverable], from which [pipeline_restores]
    follows chunk by chunk with the reconstruction theorem of package rs, which
    in turn stands on the field laws and kernels of package gf16.
    [verify_and_repair] joins them, and [cli_repair_restores] is the end of the
    chain: the same from the command line to the exit code.

    ** Bounds and fuel

    The table bootstrap and polynomial loops have the fuel of their word width;
    probing a lookup table has its size, of which at most a quarter is taken;
    reading packets has the length of the file, since each turn consumes a
    header; the sliding window has the length of its data, since each turn
    advances.  Lookup tables are proved for sets of up to 2^29 checksums, the
    ends of chunks to be those of the grid for files and slices that together
    stay below 2^63.

    ** Not modelled

    Logging other than the listing and the report of a verification; the
    percentage of a progress message, a floating-point number that reaches
    nothing but the terminal, and [newProgressReporter], which prints it.  The
    usage text and signals
    of gopar ([printUsage], [setupLoggerAndContext]), and the contents of its
    profiles.  The operating system's calls below opening, reading,
    writing and renaming by name (openSandbox, the symbolic links it resolves,
    file permissions).  The assembler's encoding of instructions
    (src/gf16/gf16_avx2.s is generated by asm.go, which is modelled, and stub.go
    declares it); src/cmd/genperf and src/tools.go.  A VerifyScans that returns
    an error leaves no decoder state in the model.  Error messages keep their
    fixed text and drop the formatted arguments.  *)

From stdpp Require Export base tactics list numbers option strings sets.
From Stdlib Require Export ZArith Lia Bool.

#[global] Open Scope Z_scope.

(** ** Go results

    A Go function either returns normally, returns a non-nil [error], or
    panics.  Errors are identified by their message; the two sentinel errors of
    package rs are messages too. *)

Inductive result (A : Type) : Type :=
  | Ok (a : A)
  | Err (e : string)
  | Panic (msg : string).
Arguments Ok {A} _.
Arguments Err {A} _%_string.
Arguments Panic {A} _%_string.

Definition is_ok {A} (r : result A) : bool :=
  match r with Ok _ => true | _ => false end.

Definition no_panic {A} (r : result A) : Prop :=
  match r with Panic _ => False | _ => True end.

#[export] Instance result_ret : MRet result := fun _ a => Ok a.

#[export] Instance result_bind : MBind result := fun _ _ f r =>
  match r with
  | Ok a => f a
  | Err e => Err e
  | Panic m => Panic m
  end.

#[export] Instance result_fmap : FMap result := fun _ _ f r =>
  match r with
  | Ok a => Ok (f a)
  | Err e => Err e
  | Panic m => Panic m
  end.

#[export] Instance result_eq_dec `{EqDecision A} : EqDecision (result A).
Proof. solve_decision. Defined.

(** [errors.New] under a guard, and a panic under a guard. *)
Definition err_if (b : bool) (e : string) : result unit :=
  if b then Err e else Ok tt.
Definition panic_if (b : bool) (e : string) : result unit :=
  if b then Panic e else Ok tt.

(** A slice index: Go panics when it is out of range. *)
Definition oob : string := "index out of range".

Definition index_at {A} (l : list A) (i : Z) : result A :=
  if i <? 0 then Panic oob
  else match l !! Z.to_nat i with Some x => Ok x | None => Panic oob end.

Definition set_at {A} (l : list A) (i : Z) (x : A) : result (list A) :=
  if (0 <=? i) && (i <? Z.of_nat (length l)) then Ok (<[Z.to_nat i := x]> l)
  else Panic oob.

(** [l[lo:hi]], which panics unless [0 <= lo <= hi <= len(l)] (the capacity of
    the slices this program takes sub-slices of is their length). *)
Definition slice_at {A} (l : list A) (lo hi : Z) : result (list A) :=
  if (0 <=? lo) && (lo <=? hi) && (hi <=? Z.of_nat (length l))
  then Ok (take (Z.to_nat (hi - lo)) (drop (Z.to_nat lo) l))
  else Panic "slice bounds out of range".

(** Counted [for] loops: [foldM f s is] runs the body over the indices. *)
Fixpoint foldM {S A} (f : S → A → result S) (s : S) (l : list A) : result S :=
  match l with
  | [] => Ok s
  | x :: l' => s' ← f s x; foldM f s' l'
  end.

Lemma foldM_app {S A} (f : S → A → result S) s l1 l2 :
  foldM f s (l1 ++ l2) = (s' ← foldM f s l1; foldM f s' l2).
Proof.
  revert s; induction l1 as [|x l1 IH]; intros s; simpl; [done|].
  destruct (f s x); simpl; auto.
Qed.

(** [range lo hi] lists the values of [i] in [for i := lo; i < hi; i++]. *)
Fixpoint count_from (lo : Z) (n : nat) : list Z :=
  match n with
  | O => []
  | S n' => lo :: count_from (lo + 1) n'
  end.

Definition range (lo hi : Z) : list Z := count_from lo (Z.to_nat (hi - lo)).

Lemma range_seqZ lo hi : range lo hi = seqZ lo (hi - lo).
Proof.
  unfold range. destruct (Z.le_ge_cases lo hi) as [Hle|Hge].
  - assert (∃ n, hi - lo = n ∧ 0 <= n) as (n & -> & Hn) by (exists (hi - lo); lia).
    clear Hle. revert lo. pattern n. apply natlike_ind; [done| |done].
    clear n Hn. intros n Hn IH lo. rewrite Z2Nat.inj_succ by done. simpl.
    rewrite IH, (seqZ_cons lo (Z.succ n)), Z.pred_succ by lia. done.
  - rewrite seqZ_nil by lia. by replace (Z.to_nat (hi - lo)) with O by lia.
Qed.

Lemma range_nil lo hi : hi <= lo → range lo hi = [].
Proof. intros H. rewrite range_seqZ. by apply seqZ_nil; lia. Qed.

Lemma range_cons lo hi : lo < hi → range lo hi = lo :: range (lo + 1) hi.
Proof.
  intros H. rewrite !range_seqZ, (seqZ_cons lo) by lia. f_equal. f_equal; lia.
Qed.

Lemma elem_of_range lo hi i : i ∈ range lo hi ↔ lo <= i < hi.
Proof. rewrite range_seqZ, elem_of_seqZ. lia. Qed.

Lemma range_length lo hi : length (range lo hi) = Z.to_nat (hi - lo).
Proof. rewrite range_seqZ. apply length_seqZ. Qed.

Lemma range_lookup lo hi (i : nat) :
  lo + Z.of_nat i < hi → range lo hi !! i = Some (lo + Z.of_nat i).
Proof. intros H. rewrite range_seqZ. apply lookup_seqZ. lia. Qed.

Lemma range_NoDup lo hi : NoDup (range lo hi).
Proof. rewrite range_seqZ. apply NoDup_seqZ. Qed.

Lemma range_app lo mid hi : lo <= mid <= hi → range lo hi = range lo mid ++ range mid hi.
Proof.
  intros H. rewrite !range_seqZ. replace (hi - lo) with ((mid - lo) + (hi - mid)) by lia.
  rewrite seqZ_app by lia. do 2 f_equal; lia.
Qed.

(** Induction on the length of a range, from its first index. *)
Lemma range_ind (P : Z → Prop) (hi : Z) :
  (∀ lo, hi <= lo → P lo) → (∀ lo, lo < hi → P (lo + 1) → P lo) → ∀ lo, P lo.
Proof.
  intros H0 HS lo. destruct (Z.le_gt_cases hi lo) as [Hle|Hgt]; [by apply H0|].
  assert (∃ n, 0 <= n ∧ lo = hi - n) as (n & Hn & ->) by (exists (hi - lo); lia).
  clear Hgt. pattern n. apply natlike_ind; [apply H0; lia| |done].
  intros m Hm IH. apply HS; [lia|]. by replace (hi - Z.succ m + 1) with (hi - m) by lia.
Qed.

(** Invariant rules for counted loops; the invariant may mention the index.
    Total correctness: a body that always succeeds and keeps [I]. *)
Lemma foldM_inv {S} (f : S → Z → result S) (I : Z → S → Prop) (hi lo : Z) (s : S) :
  lo <= hi → I lo s →
  (∀ i s, lo <= i < hi → I i s → ∃ s', f s i = Ok s' ∧ I (i + 1) s') →
  ∃ s', foldM f s (range lo hi) = Ok s' ∧ I hi s'.
Proof.
  revert lo s. refine (range_ind _ hi _ _).
  - intros lo Hlo s Hle HI _. rewrite range_nil by done. exists s.
    split; [done|]. by replace hi with lo by lia.
  - intros lo Hlo IH s _ HI Hf. rewrite range_cons by done. simpl.
    destruct (Hf lo s) as (s1 & -> & HI1); [lia|done|]. simpl.
    apply IH; [lia|done|]. intros i s2 Hi. apply Hf. lia.
Qed.

(** Partial correctness: what the body keeps whenever it does not stop holds
    at the end of a loop that was not stopped. *)
Lemma foldM_ok_inv {S} (f : S → Z → result S) (I : Z → S → Prop) (hi lo : Z) (s s' : S) :
  lo <= hi → I lo s →
  (∀ i s s', lo <= i < hi → I i s → f s i = Ok s' → I (i + 1) s') →
  foldM f s (range lo hi) = Ok s' → I hi s'.
Proof.
  revert lo s. refine (range_ind _ hi _ _).
  - intros lo Hlo s Hle HI _. rewrite range_nil by done. intros [= <-].
    by replace hi with lo by lia.
  - intros lo Hlo IH s _ HI Hf. rewrite range_cons by done. simpl.
    destruct (f s lo) as [s1| |] eqn:Hs; simpl; [|done..]. apply IH; [lia| |].
    + by apply (Hf lo s); [lia|..].
    + intros i s2 s3 Hi. apply Hf. lia.
Qed.

(** A body that may also stop with an error, of which [E] holds. *)
Lemma foldM_inv_err {S} (f : S → Z → result S) (I : Z → S → Prop)
    (E : Z → string → S → Prop) (hi lo : Z) (s : S) :
  lo <= hi → I lo s →
  (∀ i s, lo <= i < hi → I i s →
     (∃ s', f s i = Ok s' ∧ I (i + 1) s') ∨ (∃ e, f s i = Err e ∧ E i e s)) →
  (∃ s', foldM f s (range lo hi) = Ok s' ∧ I hi s') ∨
  (∃ i e s', lo <= i < hi ∧ I i s' ∧ foldM f s (range lo hi) = Err e ∧ E i e s').
Proof.
  revert lo s. refine (range_ind _ hi _ _).
  - intros lo Hlo s Hle HI _. rewrite range_nil by done. left. exists s.
    split; [done|]. by replace hi with lo by lia.
  - intros lo Hlo IH s _ HI Hf. rewrite range_cons by done. simpl.
    destruct (Hf lo s) as [(s1 & -> & HI1)|(e & -> & HE)]; [lia|done| |].
    + simpl. destruct (IH s1) as [?|(i & e & s' & Hi & ?)]; [lia|done| |by left|].
      * intros i s2 Hi. apply Hf. lia.
      * right. exists i, e, s'. split; [lia|done].
    + right. exists lo, e, s. split; [lia|done].
Qed.

(** ** Machine-width integers *)

Definition u8 (z : Z) : Prop := 0 <= z < 256.
Definition u16 (z : Z) : Prop := 0 <= z < 65536.
Definition u32 (z : Z) : Prop := 0 <= z < 4294967296.

(** Conversions of Go's fixed-width types. *)
Definition wrap8 (z : Z) : Z := z mod 256.
Definition wrap16 (z : Z) : Z := z mod 65536.
Definition wrap32 (z : Z) : Z := z mod 4294967296.
Definition wrap64 (z : Z) : Z := z mod 18446744073709551616.

(** [math.MaxInt] on a 64-bit host, [uint64(^uint(0) >> 1)]. *)
Definition maxInt : Z := 9223372036854775807.

(** [int64] of an unsigned 64-bit value, and the sum of two int64 (or int) values. *)
Definition int64 (z : Z) : Z :=
  if z <? 9223372036854775808 then z else z - 18446744073709551616.
Definition plus64 (x y : Z) : Z := int64 (wrap64 (x + y)).

(** [make([]byte, n)].  The runtime panics on a length that is negative or more
    than its address space, 48 bits on 64-bit hosts.  (That the memory itself
    runs out is not a panic but the end of the process, and not modelled.) *)
Definition maxAlloc : Z := 281474976710656.
Definition makeslice : string := "makeslice: len out of range".
Definition make_bytes (n : Z) : result (list Z) :=
  if (n <? 0) || (maxAlloc <? n) then Panic makeslice else Ok (replicate (Z.to_nat n) 0).

#[export] Instance u8_dec z : Decision (u8 z).
Proof. unfold u8; solve_decision. Defined.
#[export] Instance u16_dec z : Decision (u16 z).
Proof. unfold u16; solve_decision. Defined.
#[export] Instance u32_dec z : Decision (u32 z).
Proof. unfold u32; solve_decision. Defined.

Lemma int64_small x : 0 <= x <= maxInt → int64 x = x.
Proof. unfold int64, maxInt. intros H. by destruct (Z.ltb_spec x 9223372036854775808); [|lia]. Qed.

Lemma int64_wrap x : 0 <= x <= maxInt → int64 (wrap64 x) = x.
Proof.
  intros H. unfold wrap64. rewrite Z.mod_small by (unfold maxInt in H; lia). by apply int64_small.
Qed.

Lemma plus64_small x y : 0 <= x + y <= maxInt → plus64 x y = x + y.
Proof. apply int64_wrap. Qed.

Lemma make_bytes_ok n : 0 <= n <= maxAlloc → make_bytes n = Ok (replicate (Z.to_nat n) 0).
Proof.
  intros [H1 H2]. unfold make_bytes. by rewrite (proj2 (Z.ltb_ge n 0) H1), (proj2 (Z.ltb_ge maxAlloc n) H2).
Qed.

Lemma make_bytes_inv n l : make_bytes n = Ok l → 0 <= n <= maxAlloc ∧ l = replicate (Z.to_nat n) 0.
Proof.
  unfold make_bytes. destruct (Z.ltb_spec n 0), (Z.ltb_spec maxAlloc n); cbn [orb]; try done. by intros [= <-].
Qed.

Lemma make_bytes_panics n : maxAlloc < n → make_bytes n = Panic makeslice.
Proof. intros H. unfold make_bytes. by rewrite (proj2 (Z.ltb_lt maxAlloc n) H), orb_true_r. Qed.

Create HintDb width.

(** [zlia] is [lia] with the width predicates unfolded. *)
Ltac zlia := unfold u8, u16, u32, wrap8, wrap16, wrap32, wrap64 in *; lia.

(** [dlia] also knows what quotients and remainders by constants are. *)
Ltac dlia := unfold u8, u16, u32, wrap8, wrap16, wrap32, wrap64 in *;
  Z.to_euclidean_division_equations; lia.

(** [zbool] decides a goal by cases on every integer comparison in it. *)
Ltac zbool := repeat match goal with
  | |- context [?a =? ?b] => destruct (Z.eqb_spec a b)
  | |- context [?a <? ?b] => destruct (Z.ltb_spec a b)
  | |- context [?a <=? ?b] => destruct (Z.leb_spec a b)
  end; cbn [andb orb negb]; first [done | congruence | exfalso; lia | lia | idtac].

(** [decided] proves a closed decidable proposition by evaluating its decision. *)
Ltac decided := match goal with
  |- ?P => refine (bool_decide_eq_true_1 P _); vm_compute; reflexivity end.

Lemma wrap8_u8 z : u8 (wrap8 z).
Proof. apply Z.mod_pos_bound. lia. Qed.
Lemma wrap16_u16 z : u16 (wrap16 z).
Proof. apply Z.mod_pos_bound. lia. Qed.
Lemma wrap32_u32 z : u32 (wrap32 z).
Proof. apply Z.mod_pos_bound. lia. Qed.
Lemma wrap8_id z : u8 z → wrap8 z = z.
Proof. apply Z.mod_small. Qed.
Lemma wrap16_id z : u16 z → wrap16 z = z.
Proof. apply Z.mod_small. Qed.
Lemma wrap32_id z : u32 z → wrap32 z = z.
Proof. apply Z.mod_small. Qed.

(** *** Bits *)

Lemma testbit_bound n z i : 0 <= z < 2 ^ n → n <= i → Z.testbit z i = false.
Proof.
  intros [H0 H1] Hi. destruct (Z.eq_dec z 0) as [->|Hz]; [apply Z.testbit_0_l|].
  apply Z.bits_above_log2; [lia|].
  assert (Z.log2 z < n) by (apply Z.log2_lt_pow2; lia). lia.
Qed.

Lemma bound_testbit n z :
  0 <= n → 0 <= z → (∀ i, n <= i → Z.testbit z i = false) → z < 2 ^ n.
Proof.
  intros Hn Hz Hb. destruct (Z.eq_dec z 0) as [->|Hz0]; [lia|].
  apply Z.log2_lt_pow2; [lia|].
  destruct (Z.lt_ge_cases (Z.log2 z) n) as [?|Hge]; [done|].
  specialize (Hb _ Hge). rewrite Z.bit_log2 in Hb by lia. done.
Qed.

Lemma lxor_bound n a b :
  0 <= n → 0 <= a < 2 ^ n → 0 <= b < 2 ^ n → 0 <= Z.lxor a b < 2 ^ n.
Proof.
  intros Hn Ha Hb. assert (0 <= Z.lxor a b) as H0 by (apply Z.lxor_nonneg; lia).
  split; [done|]. apply bound_testbit; [done..|]. intros i Hi.
  by rewrite Z.lxor_spec, (testbit_bound n a), (testbit_bound n b).
Qed.

Lemma land_bound_l n a b : 0 <= n → 0 <= a < 2 ^ n → 0 <= Z.land a b < 2 ^ n.
Proof.
  intros Hn Ha. assert (0 <= Z.land a b) as H0 by (apply Z.land_nonneg; lia).
  split; [done|]. apply bound_testbit; [done..|]. intros i Hi.
  by rewrite Z.land_spec, (testbit_bound n a).
Qed.

Lemma lxor_u8 a b : u8 a → u8 b → u8 (Z.lxor a b).
Proof. apply (lxor_bound 8). lia. Qed.
Lemma lxor_u16 a b : u16 a → u16 b → u16 (Z.lxor a b).
Proof. apply (lxor_bound 16). lia. Qed.
Lemma lxor_u32 a b : u32 a → u32 b → u32 (Z.lxor a b).
Proof. apply (lxor_bound 32). lia. Qed.

Lemma u16_0 : u16 0.
Proof. zlia. Qed.
Lemma u8_u16 z : u8 z → u16 z.
Proof. zlia. Qed.

#[export] Hint Resolve wrap8_u8 wrap16_u16 wrap32_u32 lxor_u8 lxor_u16 lxor_u32
  u16_0 u8_u16 : width.

Lemma wrap16_land z : wrap16 z = Z.land z 65535.
Proof. symmetry. apply (Z.land_ones z 16). lia. Qed.
Lemma wrap8_land z : wrap8 z = Z.land z 255.
Proof. symmetry. apply (Z.land_ones z 8). lia. Qed.
Lemma wrap32_land z : wrap32 z = Z.land z 4294967295.
Proof. symmetry. apply (Z.land_ones z 32). lia. Qed.

Lemma lxor_cancel_l a b : Z.lxor a (Z.lxor a b) = b.
Proof. by rewrite <- Z.lxor_assoc, Z.lxor_nilpotent, Z.lxor_0_l. Qed.

Lemma lxor_cancel_r a b : Z.lxor (Z.lxor a b) b = a.
Proof. by rewrite Z.lxor_assoc, Z.lxor_nilpotent, Z.lxor_0_r. Qed.

Lemma lxor_swap a b c : Z.lxor a (Z.lxor b c) = Z.lxor b (Z.lxor a c).
Proof. by rewrite <- !Z.lxor_assoc, (Z.lxor_comm a b). Qed.

Lemma lxor_interchange a b c d :
  Z.lxor (Z.lxor a b) (Z.lxor c d) = Z.lxor (Z.lxor a c) (Z.lxor b d).
Proof. rewrite !Z.lxor_assoc. f_equal. apply lxor_swap. Qed.

(** Bitwise equations between integers that only use [lxor], [land], [lor] and
    constant shifts. *)
Create Rewrite HintDb bits.
#[export] Hint Rewrite Z.lxor_spec Z.land_spec Z.lor_spec : bits.
#[export] Hint Rewrite Z.shiftl_spec Z.shiftr_spec using lia : bits.

Ltac bitwise i := apply Z.bits_inj'; intros i ?; autorewrite with bits.

Lemma wrap8_lxor a b : wrap8 (Z.lxor a b) = Z.lxor (wrap8 a) (wrap8 b).
Proof. rewrite !wrap8_land. bitwise i. by destruct (Z.testbit 255 i), (Z.testbit a i), (Z.testbit b i). Qed.

Lemma shiftl_lxor a b n : Z.shiftl (Z.lxor a b) n = Z.lxor (Z.shiftl a n) (Z.shiftl b n).
Proof. apply Z.shiftl_lxor. Qed.

(** Every integer below [2^n] is generated by the powers of two under [lxor]. *)
Lemma bits_ind (P : Z → Prop) (n : nat) :
  P 0 →
  (∀ a b, P a → P b → P (Z.lxor a b)) →
  (∀ i, 0 <= i < Z.of_nat n → P (2 ^ i)) →
  ∀ a, 0 <= a < 2 ^ Z.of_nat n → P a.
Proof.
  intros H0 Hx. induction n as [|n IH]; intros Hb a Ha.
  - replace a with 0 by lia. done.
  - assert (0 < 2 ^ Z.of_nat n) as Hp by (apply Z.pow_pos_nonneg; lia).
    assert (2 ^ Z.of_nat (S n) = 2 * 2 ^ Z.of_nat n) as Hpow.
    { rewrite Nat2Z.inj_succ, Z.pow_succ_r; lia. }
    destruct (Z.lt_ge_cases a (2 ^ Z.of_nat n)) as [Hlt|Hge].
    + apply IH; [|lia]. intros i Hi. apply Hb. lia.
    + assert (a = Z.lxor (2 ^ Z.of_nat n) (a - 2 ^ Z.of_nat n)) as ->.
      { rewrite <- Z.add_nocarry_lxor; [lia|].
        apply Z.bits_inj'. intros i Hi. rewrite Z.land_spec, Z.testbit_0_l.
        rewrite Z.pow2_bits_eqb by lia. destruct (Z.eqb_spec (Z.of_nat n) i) as [<-|]; [|done].
        rewrite (testbit_bound (Z.of_nat n)); [done|lia|lia]. }
      apply Hx; [apply Hb; lia|]. apply IH; [|lia]. intros i Hi. apply Hb. lia.
Qed.

(** ** Little-endian integers in byte lists *)

Definition bytes (l : list Z) : Prop := Forall u8 l.

#[export] Instance bytes_dec l : Decision (bytes l).
Proof. unfold bytes; apply _. Defined.

(** [binary.LittleEndian.UintN] on a list of bytes, least significant first. *)
Fixpoint le_combine (l : list Z) : Z :=
  match l with
  | [] => 0
  | b :: l' => b + 256 * le_combine l'
  end.

(** [binary.LittleEndian.PutUintN]. *)
Fixpoint le_split (n : nat) (z : Z) : list Z :=
  match n with
  | O => []
  | S n' => z mod 256 :: le_split n' (z / 256)
  end.

Lemma le_split_length n z : length (le_split n z) = n.
Proof. revert z; induction n; intros z; simpl; auto. Qed.

Lemma le_split_bytes n z : bytes (le_split n z).
Proof.
  revert z; induction n as [|n IH]; intros z; simpl; [constructor|].
  constructor; [apply Z.mod_pos_bound; lia|apply IH].
Qed.

Lemma le_combine_split n z : le_combine (le_split n z) = z mod 256 ^ Z.of_nat n.
Proof.
  revert z; induction n as [|n IH]; intros z; [simpl; by rewrite Z.mod_1_r|].
  simpl le_split. simpl le_combine. rewrite IH.
  rewrite Nat2Z.inj_succ, Z.pow_succ_r by lia.
  rewrite Z.rem_mul_r; [lia..|]. apply Z.pow_pos_nonneg; lia.
Qed.

Lemma le_split_combine l : bytes l → le_split (length l) (le_combine l) = l.
Proof.
  induction l as [|b l IH]; intros Hl; simpl; [done|].
  apply Forall_cons in Hl as [Hb Hl]. unfold u8 in Hb.
  rewrite Z.mul_comm, Z.mod_add, Z.div_add by lia.
  rewrite Z.mod_small, Z.div_small by lia. by rewrite Z.add_0_l, IH.
Qed.

Lemma le_combine_bound l : bytes l → 0 <= le_combine l < 256 ^ Z.of_nat (length l).
Proof.
  induction l as [|b l IH]; intros Hl; [simpl; lia|].
  apply Forall_cons in Hl as [Hb Hl]. specialize (IH Hl). unfold u8 in Hb.
  simpl length. rewrite Nat2Z.inj_succ, Z.pow_succ_r by lia. simpl le_combine. lia.
Qed.

#[export] Hint Rewrite le_split_length : bits.

(** ** Lists *)

Lemma Forall_take' {A} (P : A → Prop) n l : Forall P l → Forall P (take n l).
Proof. apply Forall_take. Qed.

Lemma Forall_drop' {A} (P : A → Prop) n l : Forall P l → Forall P (drop n l).
Proof. apply Forall_drop. Qed.

Lemma index_at_lookup {A} (l : list A) i x :
  0 <= i → l !! Z.to_nat i = Some x → index_at l i = Ok x.
Proof. intros Hi Hl. unfold index_at. rewrite (proj2 (Z.ltb_ge i 0)) by lia. by rewrite Hl. Qed.

Lemma set_at_ok {A} (l : list A) i x :
  0 <= i < Z.of_nat (length l) → set_at l i x = Ok (<[Z.to_nat i := x]> l).
Proof.
  intros Hi. unfold set_at. rewrite (proj2 (Z.leb_le 0 i)) by lia.
  by rewrite (proj2 (Z.ltb_lt i _)) by lia.
Qed.

Lemma slice_at_ok {A} (l : list A) lo hi :
  0 <= lo <= hi → hi <= Z.of_nat (length l) →
  slice_at l lo hi = Ok (take (Z.to_nat (hi - lo)) (drop (Z.to_nat lo) l)).
Proof.
  intros H1 H2. unfold slice_at. rewrite (proj2 (Z.leb_le 0 lo)) by lia.
  rewrite (proj2 (Z.leb_le lo hi)) by lia. by rewrite (proj2 (Z.leb_le hi _)) by lia.
Qed.

(** Loops with a stride: the values of [i] in [for i := lo; i < hi; i += st]. *)
Definition range_by (st lo hi : Z) : list Z :=
  (λ k, lo + st * k) <$> range 0 ((hi - lo + st - 1) / st).

Lemma foldM_fmap {S A B} (f : S → B → result S) (g : A → B) s (l : list A) :
  foldM f s (g <$> l) = foldM (λ s a, f s (g a)) s l.
Proof.
  revert s; induction l as [|a l IH]; intros s; simpl; [done|].
  destruct (f s (g a)); simpl; auto.
Qed.

Lemma foldM_ext {S A} (f g : S → A → result S) s (l : list A) :
  (∀ s a, a ∈ l → f s a = g s a) → foldM f s l = foldM g s l.
Proof.
  revert s; induction l as [|a l IH]; intros s H; simpl; [done|].
  rewrite H by set_solver. destruct (g s a); simpl; [|done..].
  apply IH. intros. apply H. set_solver.
Qed.

(** ** Sixteen-bit elements stored in byte slices *)

(** [binary.LittleEndian.Uint16(l[i:])]. *)
Definition getU16 (l : list Z) (i : Z) : result Z :=
  a ← index_at l i; b ← index_at l (i + 1); Ok (le_combine [a; b]).

(** [binary.LittleEndian.PutUint16(l[i:], v)]. *)
Definition putU16 (l : list Z) (i v : Z) : result (list Z) :=
  l ← set_at l i (v mod 256); set_at l (i + 1) (v / 256 mod 256).

(** A byte slice as an array of little-endian 16-bit elements, and back. *)
Fixpoint to_words (l : list Z) : list Z :=
  match l with
  | a :: b :: l' => le_combine [a; b] :: to_words l'
  | _ => []
  end.

Fixpoint of_words (ws : list Z) : list Z :=
  match ws with
  | [] => []
  | w :: ws' => le_split 2 w ++ of_words ws'
  end.

(** Induction on a list two elements at a time. *)
Lemma pairs_ind {A} (P : list A → Prop) :
  P [] → (∀ a, P [a]) → (∀ a b l, P l → P (a :: b :: l)) → ∀ l, P l.
Proof.
  intros H0 H1 H2. fix IH 1. intros [|a [|b l]]; [done|apply H1|]. apply H2, IH.
Qed.

Lemma of_words_length ws : length (of_words ws) = (2 * length ws)%nat.
Proof. induction ws; simpl; lia. Qed.

Lemma of_words_bytes ws : bytes (of_words ws).
Proof.
  induction ws as [|w ws IH]; [constructor|].
  apply Forall_app. split; [apply (le_split_bytes 2)|apply IH].
Qed.

Lemma to_words_length l : length (to_words l) = (length l / 2)%nat.
Proof.
  pattern l. apply pairs_ind; [done|done|]. intros a b l' IH. simpl length. rewrite IH.
  change (S (S (length l'))) with (2 + length l')%nat.
  replace (2 + length l')%nat with (1 * 2 + length l')%nat by lia.
  by rewrite Nat.div_add_l.
Qed.

Lemma to_words_u16 l : bytes l → Forall u16 (to_words l).
Proof.
  pattern l. apply pairs_ind; [intros; constructor|intros; constructor|].
  intros a b l' IH [Ha [Hb Hl]%Forall_cons]%Forall_cons. constructor; [|auto].
  simpl. zlia.
Qed.

Lemma to_of_words ws : Forall u16 ws → to_words (of_words ws) = ws.
Proof.
  induction ws as [|w ws IH]; intros Hw; [done|].
  apply Forall_cons in Hw as [Hw Hws].
  change (le_combine (le_split 2 w) :: to_words (of_words ws) = w :: ws).
  rewrite le_combine_split, IH by done. f_equal. apply Z.mod_small. apply Hw.
Qed.

Lemma of_to_words l : bytes l → Nat.Even (length l) → of_words (to_words l) = l.
Proof.
  pattern l. apply pairs_ind; [done|intros a _ [k Hk]; simpl in Hk; lia|].
  intros a b l' IH Hb [k Hk].
  change (le_split 2 (le_combine [a; b]) ++ of_words (to_words l') = a :: b :: l').
  apply Forall_cons in Hb as [Ha Hb]. apply Forall_cons in Hb as [Hb Hl].
  rewrite IH; [|done|exists (k - 1)%nat; simpl in Hk; lia].
  pose proof (le_split_combine [a; b]) as Hs. simpl length in Hs.
  rewrite Hs; [done|]. by apply Forall_cons_2; [|apply Forall_cons_2].
Qed.

Lemma to_words_lookup l k a b :
  l !! (2 * k)%nat = Some a → l !! (2 * k + 1)%nat = Some b →
  to_words l !! k = Some (le_combine [a; b]).
Proof.
  revert l. induction k as [|k IH]; intros l.
  - destruct l as [|a' [|b' l]]; simpl; [done|done|]. by intros [= ->] [= ->].
  - replace (2 * S k)%nat with (S (S (2 * k)))%nat by lia.
    destruct l as [|a' [|b' l]]; simpl; [done|done|]. intros Ha Hb.
    apply IH; [done|]. by rewrite <- Hb.
Qed.

Lemma of_words_lookup ws k w :
  ws !! k = Some w →
  of_words ws !! (2 * k)%nat = Some (w mod 256) ∧
  of_words ws !! (2 * k + 1)%nat = Some (w / 256 mod 256).
Proof.
  revert ws. induction k as [|k IH]; intros [|w' ws]; simpl; try done.
  - by intros [= ->].
  - replace (k + S (k + 0))%nat with (S (2 * k)) by lia.
    replace (S (2 * k) + 1)%nat with (S (2 * k + 1)) by lia. simpl. apply IH.
Qed.

Lemma to_words_app l1 l2 :
  Nat.Even (length l1) → to_words (l1 ++ l2) = to_words l1 ++ to_words l2.
Proof.
  pattern l1. apply pairs_ind; [done|intros a [k Hk]; simpl in Hk; lia|].
  intros a b l IH [k Hk]. simpl. f_equal. apply IH. exists (k - 1)%nat. simpl in Hk. lia.
Qed.

Lemma of_words_app ws1 ws2 : of_words (ws1 ++ ws2) = of_words ws1 ++ of_words ws2.
Proof. induction ws1 as [|w ws1 IH]; [done|]. simpl. by rewrite IH. Qed.

Lemma getU16_ok l i a b :
  0 <= i → l !! Z.to_nat i = Some a → l !! S (Z.to_nat i) = Some b →
  getU16 l i = Ok (le_combine [a; b]).
Proof.
  intros Hi Ha Hb. unfold getU16. rewrite (index_at_lookup l i a) by done.
  cbn [mbind result_bind].
  rewrite (index_at_lookup l (i + 1) b); [done|lia|].
  by replace (Z.to_nat (i + 1)) with (S (Z.to_nat i)) by lia.
Qed.

(** *** Slices rewritten from the front

    [progress r o i] is a slice that held [o] after its first [i] bytes have
    been overwritten with those of [r]. *)
Definition progress (r o : list Z) (i : nat) : list Z := take i r ++ drop i o.

Section Progress.
Context (r o : list Z) (Hlen : length r = length o).

Lemma progress_0 : progress r o 0 = o.
Proof. done. Qed.

Lemma progress_all i : (length o <= i)%nat → progress r o i = r.
Proof.
  intros Hi. unfold progress. rewrite drop_ge, take_ge by lia. apply app_nil_r.
Qed.

Lemma progress_length i : (i <= length o)%nat → length (progress r o i) = length o.
Proof. intros Hi. unfold progress. rewrite length_app, length_take, length_drop. lia. Qed.

Lemma progress_lookup_ge i j : (i <= j)%nat → (i <= length o)%nat → progress r o i !! j = o !! j.
Proof.
  intros Hij Hi. unfold progress.
  rewrite lookup_app_r; rewrite length_take; [|lia].
  rewrite lookup_drop. f_equal. lia.
Qed.

Lemma progress_insert i x :
  r !! i = Some x → <[i := x]> (progress r o i) = progress r o (S i).
Proof.
  intros Hx. assert (i < length r)%nat as Hi by (by eapply lookup_lt_Some).
  unfold progress. rewrite (take_S_r r i x) by done.
  destruct (lookup_lt_is_Some_2 o i) as [y Hy]; [lia|].
  rewrite (drop_S o y i) by done.
  rewrite insert_app_r_alt; rewrite length_take; [|lia].
  replace (i - (i `min` length r))%nat with 0%nat by lia.
  by rewrite <- app_assoc.
Qed.

(** Writing the next element of [r] moves the progress by two bytes. *)
Lemma progress_putU16 (i : Z) v :
  0 <= i → i + 1 < Z.of_nat (length o) →
  r !! Z.to_nat i = Some (v mod 256) → r !! S (Z.to_nat i) = Some (v / 256 mod 256) →
  putU16 (progress r o (Z.to_nat i)) i v = Ok (progress r o (Z.to_nat (i + 2))).
Proof.
  intros Hi0 Hi H0 H1. unfold putU16.
  rewrite set_at_ok by (rewrite progress_length; lia). cbn [mbind result_bind].
  rewrite progress_insert by done.
  rewrite set_at_ok by (rewrite progress_length; lia).
  replace (Z.to_nat (i + 1)) with (S (Z.to_nat i)) by lia.
  rewrite progress_insert by done. do 2 f_equal. lia.
Qed.
End Progress.

(** Elements that a key tells apart. *)
Lemma NoDup_key {A B} (f : A → B) (l : list A) x y :
  NoDup (f <$> l) → x ∈ l → y ∈ l → f x = f y → x = y.
Proof.
  intros Hnd [i Hi]%list_elem_of_lookup [j Hj]%list_elem_of_lookup He.
  assert (i = j) as <-; [|congruence].
  eapply NoDup_lookup; [exact Hnd|by rewrite list_lookup_fmap, Hi|].
  rewrite list_lookup_fmap, Hj. simpl. by rewrite He.
Qed.

Lemma NoDup_fmap_filter {A B} (f : A → B) (P : A → Prop) `{!∀ x, Decision (P x)} (l : list A) :
  NoDup (f <$> l) → NoDup (f <$> filter P l).
Proof.
  intros Hnd. eapply sublist_NoDup; [exact Hnd|]. clear Hnd.
  induction l as [|x l IH]; [done|]. rewrite filter_cons. case_decide; cbn; by constructor.
Qed.
