(* ===== verification/Field.v ===== *)
(** * GF(2^16): the field behind [gf16.T]

    The polynomial arithmetic of src/gf16/gf16.go ([multByTwo], [timesPoly]) and
    the reference product [gmul] it is proved equal to.  [gmul] is the product
    of GF(2)[x] modulo x^16 + x^12 + x^3 + x + 1, written as a sum of multiples
    of [x^i]; the ring laws of [gmul] are proved here once, by induction on the
    way every element is generated from 1 by [xtime] and addition, and every
    other file uses them.  [BinaryField] is the interface the linear algebra is
    proved against. *)

From Stdlib Require Import Btauto.
From S2P Require Import Prelude.

(** ** The code *)

(** [const order = 1 << 16]. *)
Definition order : Z := 65536.

(** The full PAR2 polynomial, and its low 16 bits. *)
Definition par2Poly : Z := 0x1100b.
Definition par2Mask : Z := 0x100b.

(** [multByTwo]: [(p << 1) ^ (0x100b & uint16(-int16(p>>15)))]. *)
Definition multByTwo (p : Z) : Z :=
  Z.lxor (wrap16 (Z.shiftl p 1))
         (Z.land par2Mask (wrap16 (- Z.shiftr p 15))).

(** The loop of [timesPoly]; [a] and [b] are uint32, [product] is uint16. *)
Fixpoint timesPoly_loop (fuel : nat) (a b product : Z) : Z :=
  match fuel with
  | O => product
  | S fuel' =>
    if 0 <? b then
      let product := if Z.land b 1 =? 0 then product else Z.lxor product (wrap16 a) in
      let a := wrap32 (Z.shiftl a 1) in
      let a := if Z.land a order =? 0 then a else Z.lxor a par2Poly in
      timesPoly_loop fuel' a (Z.shiftr b 1) product
    else product
  end.

(** [b] is a uint16, so the loop runs at most 16 times. *)
Definition timesPoly (t u : Z) : Z := timesPoly_loop 16 t u 0.

(** ** The reference product *)

(** Multiplication by x. *)
Definition xtime (a : Z) : Z :=
  Z.lxor (Z.shiftl a 1) (if Z.testbit a 15 then par2Poly else 0).

Fixpoint gmul_bits (n : nat) (a b : Z) : Z :=
  match n with
  | O => 0
  | S n' => Z.lxor (if Z.odd b then a else 0) (gmul_bits n' (xtime a) (Z.div2 b))
  end.

Definition gmul (a b : Z) : Z := gmul_bits 16 a b.

(** Powers, by repeated multiplication. *)
Fixpoint gpow (a : Z) (n : nat) : Z :=
  match n with
  | O => 1
  | S n' => gmul a (gpow a n')
  end.

(** ** The interface of a field of characteristic two

    Elements are the integers that satisfy [elt], addition is [Z.lxor].  The
    matrix code is verified against this interface alone. *)

Class BinaryField (elt : Z → Prop) (mul : Z → Z → Z) (inv : Z → Z) : Prop := {
  bf_zero : elt 0;
  bf_one : elt 1;
  bf_add : ∀ a b, elt a → elt b → elt (Z.lxor a b);
  bf_mul : ∀ a b, elt a → elt b → elt (mul a b);
  bf_inv : ∀ a, elt a → a ≠ 0 → elt (inv a);
  bf_mul_comm : ∀ a b, elt a → elt b → mul a b = mul b a;
  bf_mul_assoc : ∀ a b c, elt a → elt b → elt c → mul a (mul b c) = mul (mul a b) c;
  bf_mul_1 : ∀ a, elt a → mul 1 a = a;
  bf_mul_add : ∀ a b c, elt a → elt b → elt c →
    mul a (Z.lxor b c) = Z.lxor (mul a b) (mul a c);
  bf_mul_inv : ∀ a, elt a → a ≠ 0 → mul (inv a) a = 1;
}.

(** ** Laws of [xtime] and [gmul] *)

Lemma xtime_lxor a b : xtime (Z.lxor a b) = Z.lxor (xtime a) (xtime b).
Proof.
  unfold xtime. rewrite shiftl_lxor, Z.lxor_spec, lxor_interchange. f_equal.
  by destruct (Z.testbit a 15), (Z.testbit b 15).
Qed.

Lemma xtime_0 : xtime 0 = 0.
Proof. reflexivity. Qed.

Lemma xtime_u16 a : u16 a → u16 (xtime a).
Proof.
  intros Ha. assert (0 <= xtime a) as H0.
  { unfold xtime. apply Z.lxor_nonneg. rewrite Z.shiftl_nonneg.
    destruct (Z.testbit a 15); unfold par2Poly; zlia. }
  split; [done|]. apply (bound_testbit 16); [lia|done|]. intros i Hi.
  unfold xtime. rewrite Z.lxor_spec, Z.shiftl_spec by lia.
  destruct (Z.eq_dec i 16) as [->|Hne].
  - change (16 - 1) with 15. by destruct (Z.testbit a 15).
  - rewrite (testbit_bound 16 a) by (zlia || lia).
    destruct (Z.testbit a 15); [|by rewrite Z.testbit_0_l].
    rewrite (testbit_bound 17 par2Poly); [done|by vm_compute|lia].
Qed.

#[export] Hint Resolve xtime_u16 : width.

Lemma gmul_bits_u16 n a b : u16 a → u16 (gmul_bits n a b).
Proof.
  revert a b. induction n as [|n IH]; intros a b Ha; simpl; [auto with width|].
  apply lxor_u16; [destruct (Z.odd b)|]; auto with width.
Qed.

Lemma gmul_u16 a b : u16 a → u16 (gmul a b).
Proof. apply gmul_bits_u16. Qed.

#[export] Hint Resolve gmul_u16 : width.

Lemma gmul_bits_lxor_l n a a' b :
  gmul_bits n (Z.lxor a a') b = Z.lxor (gmul_bits n a b) (gmul_bits n a' b).
Proof.
  revert a a' b. induction n as [|n IH]; intros a a' b; simpl; [done|].
  rewrite xtime_lxor, IH, lxor_interchange. f_equal. by destruct (Z.odd b).
Qed.

Lemma gmul_bits_lxor_r n a b b' :
  gmul_bits n a (Z.lxor b b') = Z.lxor (gmul_bits n a b) (gmul_bits n a b').
Proof.
  revert a b b'. induction n as [|n IH]; intros a b b'; simpl; [done|].
  assert (Z.div2 (Z.lxor b b') = Z.lxor (Z.div2 b) (Z.div2 b')) as ->.
  { rewrite !Z.div2_spec. apply Z.shiftr_lxor. }
  rewrite IH, lxor_interchange. f_equal.
  rewrite <- !Z.bit0_odd, Z.lxor_spec.
  destruct (Z.testbit b 0), (Z.testbit b' 0); simpl;
    by rewrite ?Z.lxor_nilpotent, ?Z.lxor_0_r, ?Z.lxor_0_l.
Qed.

Lemma gmul_bits_xtime n a b : gmul_bits n (xtime a) b = xtime (gmul_bits n a b).
Proof.
  revert a b. induction n as [|n IH]; intros a b; simpl; [done|].
  rewrite xtime_lxor, <- IH. f_equal. by destruct (Z.odd b).
Qed.

Lemma gmul_lxor_l a a' b : gmul (Z.lxor a a') b = Z.lxor (gmul a b) (gmul a' b).
Proof. apply gmul_bits_lxor_l. Qed.
Lemma gmul_lxor_r a b b' : gmul a (Z.lxor b b') = Z.lxor (gmul a b) (gmul a b').
Proof. apply gmul_bits_lxor_r. Qed.
Lemma gmul_xtime_l a b : gmul (xtime a) b = xtime (gmul a b).
Proof. apply gmul_bits_xtime. Qed.

Lemma gmul_0_l b : gmul 0 b = 0.
Proof.
  unfold gmul. generalize 16%nat. intros n. revert b.
  induction n as [|n IH]; intros b; simpl; [done|].
  rewrite xtime_0, IH. by destruct (Z.odd b).
Qed.

Lemma gmul_bits_0_r n a : gmul_bits n a 0 = 0.
Proof. revert a. induction n as [|n IH]; intros a; simpl; [done|]. by rewrite IH. Qed.

Lemma gmul_0_r a : gmul a 0 = 0.
Proof. apply gmul_bits_0_r. Qed.

Lemma gmul_1_r a : gmul a 1 = a.
Proof.
  unfold gmul. change (gmul_bits 16 a 1) with (Z.lxor a (gmul_bits 15 (xtime a) 0)).
  by rewrite gmul_bits_0_r, Z.lxor_0_r.
Qed.

(** Every element is generated from 1 by addition and multiplication by x. *)
Lemma field_ind (P : Z → Prop) :
  P 0 → P 1 →
  (∀ a b, u16 a → u16 b → P a → P b → P (Z.lxor a b)) →
  (∀ a, u16 a → P a → P (xtime a)) →
  ∀ a, u16 a → P a.
Proof.
  intros H0 H1 Hadd Hx a Ha.
  enough (u16 a ∧ P a) by tauto.
  apply (bits_ind (λ a, u16 a ∧ P a) 16); [auto with width| |clear a Ha|apply Ha].
  - intros b c [Hb Pb] [Hc Pc]. auto with width.
  - intros i [Hi0 Hi]. revert Hi. pattern i. apply natlike_ind; [..|done].
    + intros _. split; [zlia|done].
    + intros j Hj IH Hlt. destruct IH as [IHu IHP]; [lia|].
      assert (2 ^ Z.succ j = xtime (2 ^ j)) as ->; [|auto with width].
      unfold xtime. rewrite Z.pow2_bits_false, Z.lxor_0_r by lia.
      rewrite Z.shiftl_mul_pow2, Z.pow_succ_r; lia.
Qed.

Lemma pow2_u16 i : 0 <= i < Z.of_nat 16 → u16 (2 ^ i).
Proof.
  intros Hi. split; [lia|]. change 65536 with (2 ^ 16). apply Z.pow_lt_mono_r; lia.
Qed.

Lemma gmul_1_l a : u16 a → gmul 1 a = a.
Proof.
  revert a. refine (bits_ind _ 16 _ _ _).
  - reflexivity.
  - intros a b Ha Hb. by rewrite gmul_lxor_r, Ha, Hb.
  - intros i Hi.
    assert (forallb (λ i, gmul 1 (2 ^ i) =? 2 ^ i) (seqZ 0 16) = true) as Hall by by vm_compute.
    rewrite forallb_forall in Hall. apply Z.eqb_eq, Hall.
    apply list_elem_of_In, elem_of_seqZ. lia.
Qed.

(** x commutes past the right factor: x^16 is reduced the same on both sides. *)
Lemma gmul_xtime_r a b : u16 a → u16 b → gmul a (xtime b) = xtime (gmul a b).
Proof.
  intros Ha. revert b. refine (bits_ind _ 16 _ _ _).
  - by rewrite xtime_0, gmul_0_r, xtime_0.
  - intros b c Hb Hc. by rewrite xtime_lxor, !gmul_lxor_r, Hb, Hc, xtime_lxor.
  - intros i Hi. revert a Ha. refine (field_ind _ _ _ _ _).
    + by rewrite !gmul_0_l.
    + rewrite !gmul_1_l; auto using pow2_u16 with width.
    + intros a b _ _ Ha Hb. by rewrite !gmul_lxor_l, Ha, Hb, xtime_lxor.
    + intros a _ Ha. by rewrite !gmul_xtime_l, Ha.
Qed.

Lemma gmul_comm a b : u16 a → u16 b → gmul a b = gmul b a.
Proof.
  intros Ha Hb. revert a Ha. refine (field_ind _ _ _ _ _).
  - by rewrite gmul_0_l, gmul_0_r.
  - by rewrite gmul_1_l, gmul_1_r.
  - intros c d _ _ Hc Hd. by rewrite gmul_lxor_l, gmul_lxor_r, Hc, Hd.
  - intros c Hc IH. by rewrite gmul_xtime_l, gmul_xtime_r, IH.
Qed.

Lemma gmul_assoc a b c : u16 a → u16 b → u16 c →
  gmul a (gmul b c) = gmul (gmul a b) c.
Proof.
  intros Ha Hb Hc. revert a Ha. refine (field_ind _ _ _ _ _).
  - by rewrite !gmul_0_l.
  - rewrite !gmul_1_l; auto with width.
  - intros d e _ _ Hd He. by rewrite !gmul_lxor_l, Hd, He.
  - intros d _ IH. by rewrite !gmul_xtime_l, IH.
Qed.

(** ** The code computes [xtime] and [gmul] *)

Lemma multByTwo_xtime p : u16 p → multByTwo p = xtime p.
Proof.
  intros Hp. unfold multByTwo.
  assert (Z.shiftr p 15 = Z.b2z (Z.testbit p 15)) as ->.
  { apply Z.bits_inj'. intros i Hi. rewrite Z.shiftr_spec by lia.
    destruct (Z.eq_dec i 0) as [->|Hi0]; [by rewrite Z.b2z_bit0|].
    rewrite (testbit_bound 16) by (zlia || lia).
    destruct (Z.testbit p 15); simpl; [|by rewrite Z.testbit_0_l].
    rewrite (testbit_bound 1); [done|lia|lia]. }
  transitivity (wrap16 (xtime p)); [|apply wrap16_id; auto with width].
  unfold xtime. rewrite !wrap16_land.
  bitwise i. replace (Z.testbit par2Mask i) with (Z.testbit par2Poly i && Z.testbit 65535 i)
    by (rewrite <- Z.land_spec; reflexivity).
  destruct (Z.testbit p 15); simpl Z.b2z; simpl Z.opp.
  - rewrite Z.bits_m1 by lia. btauto.
  - change (- 0) with 0. rewrite !Z.testbit_0_l. btauto.
Qed.

(** One turn of the shift-and-reduce step of [timesPoly] is [xtime]. *)
Lemma timesPoly_shift a : u16 a →
  (let a' := wrap32 (Z.shiftl a 1) in
   if Z.land a' order =? 0 then a' else Z.lxor a' par2Poly) = xtime a.
Proof.
  intros Ha. simpl. rewrite wrap32_id; [|rewrite Z.shiftl_mul_pow2 by lia; zlia].
  assert (Z.land (Z.shiftl a 1) order = if Z.testbit a 15 then order else 0) as ->.
  { apply Z.bits_inj'. intros i Hi. rewrite Z.land_spec.
    change order with (2 ^ 16). rewrite Z.pow2_bits_eqb by lia.
    rewrite Z.shiftl_spec by lia.
    destruct (Z.eqb_spec 16 i) as [<-|Hne].
    - change (16 - 1) with 15. by destruct (Z.testbit a 15).
    - rewrite andb_false_r. destruct (Z.testbit a 15); [|by rewrite Z.testbit_0_l].
      by rewrite Z.pow2_bits_false by lia. }
  unfold xtime. destruct (Z.testbit a 15); simpl; [done|]. by rewrite Z.lxor_0_r.
Qed.

Lemma timesPoly_loop_spec n a b p :
  u16 a → 0 <= b < 2 ^ Z.of_nat n → timesPoly_loop n a b p = Z.lxor p (gmul_bits n a b).
Proof.
  revert a b p. induction n as [|n IH]; intros a b p Ha Hb; simpl timesPoly_loop.
  { by rewrite Z.lxor_0_r. }
  rewrite timesPoly_shift by done. rewrite wrap16_id by done.
  rewrite Nat2Z.inj_succ, Z.pow_succ_r in Hb by lia.
  change (Z.land b 1) with (Z.land b (Z.ones 1)).
  rewrite Z.land_ones, Z.pow_1_r, Zmod_odd by lia.
  destruct (Z.ltb_spec 0 b) as [Hpos|Hneg].
  - rewrite IH; [|auto with width|rewrite Z.shiftr_div_pow2, Z.pow_1_r by lia; dlia].
    rewrite <- Z.div2_spec. simpl gmul_bits.
    destruct (Z.odd b); simpl; by rewrite ?Z.lxor_assoc, ?Z.lxor_0_l.
  - assert (b = 0) as -> by lia.
    change (gmul_bits (S n) a 0) with (Z.lxor 0 (gmul_bits n (xtime a) 0)).
    by rewrite gmul_bits_0_r, !Z.lxor_0_r.
Qed.

(** The loop of [timesPoly] ends within its fuel: more never changes the result. *)
Lemma timesPoly_loop_fuel n k a b p :
  u16 a → 0 <= b < 2 ^ Z.of_nat n → timesPoly_loop (n + k) a b p = timesPoly_loop n a b p.
Proof.
  revert a b p. induction n as [|n IH]; intros a b p Ha Hb.
  - assert (b = 0) as -> by lia. by destruct k.
  - rewrite Nat2Z.inj_succ, Z.pow_succ_r in Hb by lia. simpl.
    destruct (0 <? b); [|done]. rewrite timesPoly_shift by done.
    apply IH; [auto with width|]. rewrite Z.shiftr_div_pow2, Z.pow_1_r by lia. dlia.
Qed.

Lemma timesPoly_gmul t u : u16 t → u16 u → timesPoly t u = gmul t u.
Proof. intros Ht Hu. apply timesPoly_loop_spec; [done|]. zlia. Qed.
