(* ===== verification/Gf16.v ===== *)
(** * The scalar operations of [gf16.T] and their tables

    src/gf16/gf16.go: the bootstrap in [init] that fills [logTable] and
    [expTable], and [Times], [Inverse], [Div] and [Pow] on top of them.  The
    checks [init] makes of itself are part of the model, and their passing is
    what shows that 3 generates the multiplicative group: 65535 powers that
    never repeat are all the nonzero elements there are. *)

From stdpp Require Import gmap sorting.
From S2P Require Import Prelude Field.

(** ** Tables *)

(** The two package-level arrays, [order - 1] zero-initialised elements each. *)
Record tables := mkTables { logTable : gmap Z Z; expTable : gmap Z Z }.

Definition no_tables : tables := mkTables ∅ ∅.

(** Array access, with Go's bounds check. *)
Definition tab_get (a : gmap Z Z) (i : Z) : result Z :=
  if (0 <=? i) && (i <? order - 1) then Ok (default 0 (a !! i)) else Panic oob.

Definition tab_set (a : gmap Z Z) (i v : Z) : result (gmap Z Z) :=
  if (0 <=? i) && (i <? order - 1) then Ok (<[i := v]> a) else Panic oob.

(** One turn of the loop in [init]: the state is the tables and [x]. *)
Definition init_step (s : tables * Z) (p : Z) : result (tables * Z) :=
  let '(tb, x) := s in
  _ ← (if (x =? 1) && negb (p =? 0) then Panic "repeated power (1)"
       else if negb (x =? 1)
       then l ← tab_get (logTable tb) (wrap16 (x - 1));
            panic_if (negb (l =? 0)) "repeated power"
       else Ok tt);
  e ← tab_get (expTable tb) p;
  _ ← panic_if (negb (e =? 0)) "repeated exponent";
  log' ← tab_set (logTable tb) (wrap16 (x - 1)) (wrap16 p);
  exp' ← tab_set (expTable tb) p x;
  Ok (mkTables log' exp', timesPoly x 3).

Definition gf_init : result (tables * Z) :=
  foldM init_step (no_tables, 1) (range 0 (order - 1)).

Lemma gf_init_unfold : gf_init = foldM init_step (no_tables, 1) (range 0 (order - 1)).
Proof. reflexivity. Qed.

(** The run is 65535 turns long: nothing but the virtual machine may unfold it. *)
#[global] Opaque gf_init.

(** The tables once package initialisation has run. *)
Definition tables_of (r : result (tables * Z)) : tables :=
  match r with Ok (tb, _) => tb | _ => no_tables end.

Definition gf_tables : tables := tables_of gf_init.

(** ** Operations *)

(** [T.Times]; before the tables are built it falls back to [timesPoly]. *)
Definition Times (tb : tables) (t u : Z) : result Z :=
  if (t =? 0) || (u =? 0) then Ok 0
  else
    e1 ← tab_get (expTable tb) 1;
    if e1 =? 0 then Ok (timesPoly t u)
    else
      logT ← tab_get (logTable tb) (wrap16 (t - 1));
      logU ← tab_get (logTable tb) (wrap16 (u - 1));
      tab_get (expTable tb) (Z.rem (logT + logU) (order - 1)).

(** [T.Inverse]. *)
Definition Inverse (tb : tables) (t : Z) : result Z :=
  if t =? 0 then Panic "zero has no inverse"
  else
    logT ← tab_get (logTable tb) (wrap16 (t - 1));
    tab_get (expTable tb) (Z.rem (- logT + (order - 1)) (order - 1)).

(** [T.Div]. *)
Definition Div (tb : tables) (t u : Z) : result Z :=
  if u =? 0 then Panic "division by zero"
  else if t =? 0 then Ok 0
  else
    logT ← tab_get (logTable tb) (wrap16 (t - 1));
    logU ← tab_get (logTable tb) (wrap16 (u - 1));
    tab_get (expTable tb) (Z.rem (logT - logU + (order - 1)) (order - 1)).

(** [T.Pow]; the product of logarithm and exponent is a uint64. *)
Definition Pow (tb : tables) (t p : Z) : result Z :=
  if t =? 0 then Ok (if p =? 0 then 1 else 0)
  else
    logT ← tab_get (logTable tb) (wrap16 (t - 1));
    tab_get (expTable tb) (Z.rem (wrap64 (logT * p)) (order - 1)).

(** ** Powers *)

Lemma gpow_u16 a n : u16 a → u16 (gpow a n).
Proof. intros Ha. induction n; simpl; [zlia|auto with width]. Qed.

#[export] Hint Resolve gpow_u16 : width.

Lemma u16_1 : u16 1. Proof. zlia. Qed.
Lemma u16_2 : u16 2. Proof. zlia. Qed.
Lemma u16_3 : u16 3. Proof. zlia. Qed.
#[export] Hint Resolve u16_1 u16_2 u16_3 : width.

Lemma gpow_add a m n : u16 a → gpow a (m + n) = gmul (gpow a m) (gpow a n).
Proof.
  intros Ha. induction m as [|m IH]; simpl; [by rewrite gmul_1_l by auto with width|].
  by rewrite IH, gmul_assoc by auto with width.
Qed.

Lemma gpow_1_l n : gpow 1 n = 1.
Proof. induction n as [|n IH]; simpl; [done|]. by rewrite IH, gmul_1_r. Qed.

Lemma gpow_mul a m n : u16 a → gpow a (m * n) = gpow (gpow a n) m.
Proof.
  intros Ha. induction m as [|m IH]; simpl; [done|]. by rewrite gpow_add, IH.
Qed.

Lemma gpow_gmul a b n : u16 a → u16 b → gpow (gmul a b) n = gmul (gpow a n) (gpow b n).
Proof.
  intros Ha Hb. induction n as [|n IH]; simpl; [done|]. rewrite IH.
  rewrite <- !gmul_assoc by auto with width. f_equal.
  rewrite !gmul_assoc by auto with width. f_equal. apply gmul_comm; auto with width.
Qed.

(** ** The bootstrap *)

Lemma tab_get_ok a i : 0 <= i < 65535 → tab_get a i = Ok (default 0 (a !! i)).
Proof.
  intros Hi. unfold tab_get, order. rewrite (proj2 (Z.leb_le _ _)) by lia.
  by rewrite (proj2 (Z.ltb_lt _ _)) by lia.
Qed.

Lemma tab_set_inv a i v a' :
  tab_set a i v = Ok a' → 0 <= i < 65535 ∧ a' = <[i := v]> a.
Proof.
  unfold tab_set, order. destruct (Z.leb_spec 0 i), (Z.ltb_spec i (65536 - 1)); simpl; try done.
  intros [= <-]. split; [lia|done].
Qed.

(** What holds of the tables after [p] turns: they are the powers of 3 and the
    logarithms of the powers reached so far, and nothing else. *)
Definition init_inv (p : Z) (s : tables * Z) : Prop :=
  let '(tb, x) := s in
  x = gpow 3 (Z.to_nat p) ∧
  (∀ q, 0 <= q < p →
     expTable tb !! q = Some (gpow 3 (Z.to_nat q)) ∧
     1 <= gpow 3 (Z.to_nat q) ∧
     logTable tb !! (gpow 3 (Z.to_nat q) - 1) = Some q) ∧
  (∀ k v, logTable tb !! k = Some v → 0 <= v < p ∧ k + 1 = gpow 3 (Z.to_nat v)).

Lemma init_step_inv p s s' :
  0 <= p < 65535 → init_inv p s → init_step s p = Ok s' → init_inv (p + 1) s'.
Proof.
  destruct s as [tb x]. intros Hp (Hx & Htab & Hlog). unfold init_step.
  assert (u16 x) as Hu by (subst x; auto with width).
  match goal with |- mbind _ ?g = _ → _ => destruct g as [[]| |] eqn:Hg end; simpl; [|done..].
  destruct (tab_get (expTable tb) p) as [e| |]; simpl; [|done..].
  destruct (panic_if _ _) as [[]| |]; simpl; [|done..].
  destruct (tab_set (logTable tb) _ _) as [log'| |] eqn:Hl; simpl; [|done..].
  destruct (tab_set (expTable tb) p x) as [exp'| |] eqn:He; simpl; [|done..].
  apply tab_set_inv in Hl as [Hxr ->]. apply tab_set_inv in He as [_ ->].
  intros [= <-].
  assert (1 <= x) as Hx1.
  { destruct (Z.eq_dec x 0) as [->|]; [|zlia]. by vm_compute in Hxr. }
  rewrite wrap16_id in * by zlia. rewrite (wrap16_id p) by zlia.
  assert (logTable tb !! (x - 1) = None) as Hfresh.
  { destruct (logTable tb !! (x - 1)) as [v|] eqn:Hv; [exfalso|done].
    destruct (Hlog _ _ Hv) as [Hvp Hvx]. revert Hg.
    destruct (Z.eqb_spec x 1) as [->|Hne]; simpl.
    - destruct (Z.eqb_spec p 0) as [->|]; simpl; [lia|done].
    - rewrite tab_get_ok by lia. simpl. rewrite Hv. simpl.
      destruct (Z.eqb_spec v 0) as [->|]; simpl; [|done].
      rewrite Z.sub_add in Hvx. by subst. }
  split; [|split]; simpl.
  - rewrite Z2Nat.inj_add by lia. rewrite Nat.add_1_r. simpl.
    rewrite timesPoly_gmul, gmul_comm by auto with width. by subst x.
  - intros q Hq. destruct (Z.eq_dec q p) as [->|].
    + rewrite <- Hx, !lookup_insert_eq. done.
    + destruct (Htab q) as (He & H1 & Hl); [lia|].
      rewrite !lookup_insert_ne by congruence. done.
  - intros k v [[<- <-]|[_ Hk]]%lookup_insert_Some.
    + split; [lia|]. by rewrite Z.sub_add.
    + apply Hlog in Hk as [??]. split; [lia|done].
Qed.

Definition bootstrap_ok (r : result (tables * Z)) : bool :=
  match r with Ok (_, x) => x =? 1 | _ => false end.

(** The run of [init]: none of its panics fires, and the power after the last
    is 1 again. *)
Lemma gf_init_run : bootstrap_ok gf_init = true.
Proof. vm_cast_no_check (eq_refl true). Qed.

Lemma bootstrap_tables r : bootstrap_ok r = true → r = Ok (tables_of r, 1).
Proof. destruct r as [[tb x]| |]; [|done..]. intros H. apply Z.eqb_eq in H. by subst. Qed.

Lemma gf_init_tables : gf_init = Ok (gf_tables, 1).
Proof.
  exact (bootstrap_tables _ gf_init_run).
Qed.

(** Package initialisation has completed: what every later operation needs of
    the tables.  The rest of the development is stated for any tables of this
    kind, so that no proof ever unfolds the bootstrap run. *)
Class TablesReady (tb : tables) : Prop :=
  tables_ready : init_inv (order - 1) (tb, 1).

#[export] Instance gf_tables_ready : TablesReady gf_tables.
Proof.
  apply (foldM_ok_inv init_step init_inv (order - 1) 0 (no_tables, 1)).
  - unfold order. lia.
  - split; [done|]. split; [lia|]. intros k v Hk. simpl in Hk. by rewrite lookup_empty in Hk.
  - intros i s s' Hi. apply init_step_inv. unfold order in Hi. lia.
  - rewrite <- gf_init_unfold. apply gf_init_tables.
Qed.

#[global] Opaque gf_tables.

(** ** Powers of the generator *)

Definition gexp (i : Z) : Z := gpow 3 (Z.to_nat i).
Definition glog (tb : tables) (v : Z) : Z := default 0 (logTable tb !! (v - 1)).

(** The inverse, by Fermat's little theorem; it does not mention the tables. *)
Definition ginv (a : Z) : Z := gpow a (Z.to_nat 65534).

Lemma gexp_u16 i : u16 (gexp i).
Proof. apply gpow_u16. zlia. Qed.

Lemma ginv_u16 a : u16 a → u16 (ginv a).
Proof. apply gpow_u16. Qed.

#[export] Hint Resolve gexp_u16 ginv_u16 : width.

Lemma gexp_add i j : 0 <= i → 0 <= j → gexp (i + j) = gmul (gexp i) (gexp j).
Proof. intros Hi Hj. unfold gexp. rewrite Z2Nat.inj_add by done. apply gpow_add. zlia. Qed.

Lemma gpow_gexp i n : 0 <= i → gpow (gexp i) n = gexp (Z.of_nat n * i).
Proof.
  intros Hi. unfold gexp. rewrite <- gpow_mul by auto with width. f_equal. lia.
Qed.

Lemma gpow_0 a : gpow a 0 = 1.
Proof. reflexivity. Qed.

Lemma gpow_S a n : gpow a (S n) = gmul a (gpow a n).
Proof. reflexivity. Qed.

Lemma gexp_1 : gexp 1 = 3.
Proof. reflexivity. Qed.

(** Powers of 3 are reasoned about, not computed. *)
#[global] Opaque gpow gexp.

(** ** 3 generates the multiplicative group *)

Section WithTables.
Context (tb : tables) `{!TablesReady tb}.

Lemma gexp_table i : 0 <= i < 65535 →
  expTable tb !! i = Some (gexp i) ∧ 1 <= gexp i ∧ logTable tb !! (gexp i - 1) = Some i.
Proof. destruct tables_ready as (_ & H & _). apply H. Qed.

Lemma gexp_period : gexp 65535 = 1.
Proof. destruct tables_ready as [H _]. symmetry. exact H. Qed.

Lemma gexp_pos i : 0 <= i < 65535 → 1 <= gexp i.
Proof. intros Hi. by apply gexp_table. Qed.

Lemma glog_gexp i : 0 <= i < 65535 → glog tb (gexp i) = i.
Proof.
  intros Hi. destruct (gexp_table i) as (_ & _ & Hl); [done|].
  unfold glog. by rewrite Hl.
Qed.

Lemma gexp_mult k : 0 <= k → gexp (65535 * k) = 1.
Proof.
  intros Hk. pattern k. apply natlike_ind; [done| |done]. intros j Hj IH.
  rewrite Z.mul_succ_r, gexp_add, IH, gexp_period by lia. apply gmul_1_l. zlia.
Qed.

Lemma gexp_mod i : 0 <= i → gexp (i mod 65535) = gexp i.
Proof.
  intros Hi. rewrite (Z.div_mod i 65535) at 2 by lia.
  rewrite gexp_add, gexp_mult, gmul_1_l; auto with width; try dlia.
Qed.

(** 65535 distinct nonzero elements are all of them. *)
Lemma gexp_surj v : u16 v → v ≠ 0 → ∃ i, 0 <= i < 65535 ∧ gexp i = v.
Proof.
  intros Hv Hv0.
  assert (v ∈ gexp <$> range 0 65535) as Hin.
  { assert ((gexp <$> range 0 65535) ≡ₚ range 1 65536) as ->.
    - apply submseteq_length_Permutation; [apply NoDup_submseteq|].
      + apply NoDup_fmap_2_strong; [|apply range_NoDup].
        intros i j Hi%elem_of_range Hj%elem_of_range Hij.
        apply (f_equal (glog tb)) in Hij. rewrite !glog_gexp in Hij by lia. done.
      + intros x (i & -> & Hi%elem_of_range)%list_elem_of_fmap. apply elem_of_range.
        pose proof (gexp_pos i). pose proof (gexp_u16 i). zlia.
      + by rewrite length_fmap, !range_length.
    - apply elem_of_range. zlia. }
  apply list_elem_of_fmap in Hin as (i & -> & Hi%elem_of_range). exists i. split; [lia|done].
Qed.

Lemma glog_spec v : u16 v → v ≠ 0 → 0 <= glog tb v < 65535 ∧ gexp (glog tb v) = v.
Proof.
  intros Hv Hv0. destruct (gexp_surj v) as (i & Hi & <-); [done..|].
  by rewrite glog_gexp.
Qed.

(** What the two table reads of every operation return. *)
Lemma logTable_get v : u16 v → v ≠ 0 → tab_get (logTable tb) (wrap16 (v - 1)) = Ok (glog tb v).
Proof. intros Hv Hv0. rewrite wrap16_id, tab_get_ok by zlia. done. Qed.

Lemma expTable_get i : 0 <= i < 65535 → tab_get (expTable tb) i = Ok (gexp i).
Proof.
  intros Hi. rewrite tab_get_ok by done. by destruct (gexp_table i) as [-> _].
Qed.

(** Reading [expTable] at a remainder is raising 3 to the number. *)
Lemma expTable_rem i : 0 <= i → tab_get (expTable tb) (Z.rem i (order - 1)) = Ok (gexp i).
Proof.
  intros Hi. unfold order. change (65536 - 1) with 65535. rewrite Z.rem_mod_nonneg by lia.
  rewrite expTable_get by (apply Z.mod_pos_bound; lia). by rewrite gexp_mod.
Qed.

Lemma gexp_neg i : 0 <= i < 65535 → ginv (gexp i) = gexp (65535 - i).
Proof.
  intros Hi. unfold ginv. rewrite gpow_gexp, Z2Nat.id by lia.
  replace (65534 * i) with (65535 * (i - 1) + (65535 - i)) by lia.
  destruct (Z.eq_dec i 0) as [->|Hi0]; [by rewrite Z.sub_0_r, gexp_period|].
  rewrite gexp_add, gexp_mult by lia. apply gmul_1_l. auto with width.
Qed.

Lemma gmul_ginv_l a : u16 a → a ≠ 0 → gmul (ginv a) a = 1.
Proof.
  intros Ha Ha0. destruct (gexp_surj a) as (i & Hi & <-); [done..|].
  rewrite gexp_neg, <- gexp_add, Z.sub_add by lia. apply gexp_period.
Qed.

(** ** Functional correctness of the operations *)

Lemma Times_tables t u : u16 t → u16 u → Times tb t u = Ok (gmul t u).
Proof.
  intros Ht Hu. unfold Times.
  destruct (Z.eqb_spec t 0) as [->|Ht0]; [by rewrite gmul_0_l|].
  destruct (Z.eqb_spec u 0) as [->|Hu0]; cbn [orb]; [by rewrite gmul_0_r|].
  rewrite expTable_get by lia. cbn [mbind result_bind].
  rewrite gexp_1. change (3 =? 0) with false. cbn iota.
  rewrite !logTable_get by done. cbn [mbind result_bind].
  destruct (glog_spec t) as [Hlt Het], (glog_spec u) as [Hlu Heu]; try done.
  rewrite expTable_rem, gexp_add, Het, Heu by lia. done.
Qed.

Lemma Inverse_tables t : u16 t → t ≠ 0 → Inverse tb t = Ok (ginv t).
Proof.
  intros Ht Ht0. unfold Inverse. rewrite (proj2 (Z.eqb_neq t 0)) by done.
  rewrite logTable_get by done. cbn [mbind result_bind].
  destruct (gexp_surj t) as (i & Hi & <-); [done..|]. rewrite glog_gexp by done.
  rewrite expTable_rem, gexp_neg by (unfold order; lia). do 2 f_equal. unfold order. lia.
Qed.

Lemma Pow_tables t p : u16 t → u32 p → Pow tb t p = Ok (gpow t (Z.to_nat p)).
Proof.
  intros Ht Hp. unfold Pow. destruct (Z.eqb_spec t 0) as [->|Ht0].
  - destruct (Z.eqb_spec p 0) as [->|Hp0]; [by rewrite gpow_0|].
    destruct (Z.to_nat p) as [|n] eqn:Hn; [zlia|]. by rewrite gpow_S, gmul_0_l.
  - rewrite logTable_get by done. cbn [mbind result_bind].
    destruct (gexp_surj t) as (i & Hi & <-); [done..|]. rewrite glog_gexp by done.
    assert (wrap64 (i * p) = i * p) as ->.
    { unfold wrap64. apply Z.mod_small. unfold u32 in Hp. nia. }
    rewrite expTable_rem by (unfold u32 in Hp; nia).
    rewrite gpow_gexp, Z2Nat.id by (unfold u32 in Hp; lia). do 2 f_equal. lia.
Qed.

Lemma Div_tables t u : u16 t → u16 u → u ≠ 0 → Div tb t u = Ok (gmul t (ginv u)).
Proof.
  intros Ht Hu Hu0. unfold Div. rewrite (proj2 (Z.eqb_neq u 0)) by done.
  destruct (Z.eqb_spec t 0) as [->|Ht0]; [by rewrite gmul_0_l|].
  rewrite !logTable_get by done. cbn [mbind result_bind].
  destruct (gexp_surj t) as (i & Hi & <-); [done..|].
  destruct (gexp_surj u) as (j & Hj & <-); [done..|].
  rewrite !glog_gexp, expTable_rem, gexp_neg, <- gexp_add by (unfold order; lia).
  do 2 f_equal. unfold order. lia.
Qed.

End WithTables.

(** Before [init] has run the tables are empty, and [Times] still multiplies. *)
Lemma Times_no_tables t u : u16 t → u16 u → Times no_tables t u = Ok (gmul t u).
Proof.
  intros Ht Hu. unfold Times.
  destruct (Z.eqb_spec t 0) as [->|Ht0]; [by rewrite gmul_0_l|].
  destruct (Z.eqb_spec u 0) as [->|Hu0]; cbn [orb]; [by rewrite gmul_0_r|].
  rewrite (tab_get_ok _ 1) by lia. cbn [no_tables expTable mbind result_bind].
  rewrite lookup_empty. simpl. by rewrite timesPoly_gmul.
Qed.

#[export] Instance gf16_field : BinaryField u16 gmul ginv.
Proof.
  split.
  - exact u16_0.
  - exact u16_1.
  - exact lxor_u16.
  - intros a b Ha _. exact (gmul_u16 a b Ha).
  - intros a Ha _. exact (ginv_u16 a Ha).
  - exact gmul_comm.
  - exact gmul_assoc.
  - exact gmul_1_l.
  - intros a b c _ _ _. apply gmul_lxor_r.
  - exact (gmul_ginv_l gf_tables).
Qed.

#[global] Opaque ginv.
