(* ===== verification/Kernels.v ===== *)
(** * The slice kernels of package gf16

    src/gf16/gf16.go: [calcTable], the scalar kernels with their two shapes
    (logarithms for short slices, a 1 KB table for long ones), the guards of
    the exported entry points, and the dispatch of src/gf16/gf16_amd64.go and
    gf16_nonamd64.go.  A kernel multiplies every 16-bit little-endian element
    of a byte slice by one coefficient; [elementwise] is that specification,
    and every path is proved equal to it, also when the two slices are one. *)

From stdpp Require Import gmap.
From S2P Require Import Prelude Field Gf16.

(** ** Input slices

    The matrix code passes the same row as input and output; then what is read
    is what has been written so far. *)
Inductive source :=
  | Separate (bs : list Z)
  | Aliased.

Definition contents (src : source) (out : list Z) : list Z :=
  match src with Separate bs => bs | Aliased => out end.

(** [in[lo:hi]] next to [out[lo:hi]]. *)
Definition src_slice (src : source) (lo hi : Z) : result source :=
  match src with
  | Separate bs => bs ← slice_at bs lo hi; Ok (Separate bs)
  | Aliased => Ok Aliased
  end.

(** ** Specification *)

(** Every element of the output becomes [f x y], where [x] is the element of
    the input at its place and [y] its old value. *)
Definition elementwise (f : Z → Z → Z) (inb outb : list Z) : list Z :=
  of_words (zip_with f (to_words inb) (to_words outb)).

Definition mul_elem (c x y : Z) : Z := gmul c x.
Definition mulAdd_elem (c x y : Z) : Z := Z.lxor y (gmul c x).

(** ** Tables *)

Record mulTable := mkMulTable { s0 : list Z; s8 : list Z }.

(** One of the two nested loops of [calcTable]: [for j := 1; j < 256; j <<= 1],
    so [j] runs over the eight powers of two below 256. *)
Definition calc_half (coeff : Z) (s : list Z) : result (list Z * Z) :=
  foldM (λ '(s, coeff) j,
           s ← foldM (λ s k, v ← index_at s k; set_at s (k + j) (Z.lxor v coeff)) s (range 0 j);
           Ok (s, multByTwo coeff))
        (s, coeff) (Z.shiftl 1 <$> range 0 8).

(** [calcTable] on a fresh, zeroed [mulTable]. *)
Definition calcTable (c : Z) : result mulTable :=
  t0 ← set_at (replicate 256 0) 0 0;
  '(t0, coeff) ← calc_half c t0;
  t8 ← set_at (replicate 256 0) 0 0;
  '(t8, _) ← calc_half coeff t8;
  Ok (mkMulTable t0 t8).

(** [table.s0[lo] ^ table.s8[hi]]. *)
Definition table_mul (t : mulTable) (lo hi : Z) : result Z :=
  a ← index_at (s0 t) lo; b ← index_at (s8 t) hi; Ok (Z.lxor a b).

(** ** Scalar kernels *)

Definition smallSliceBytes : Z := 64.

Section Scalar.
Context (tb : tables).

(** The product of the short path: [logC] is the hoisted logarithm of [c]. *)
Definition log_mul (logC v : Z) : result Z :=
  if v =? 0 then Ok 0
  else l ← tab_get (logTable tb) (wrap16 (v - 1));
       tab_get (expTable tb) (Z.rem (logC + l) (order - 1)).

Definition mulScalarByteSliceLE (c : Z) (src : source) (out : list Z) : result (list Z) :=
  let n := Z.of_nat (length (contents src out)) in
  if c =? 0 then
    w ← slice_at out 0 n;
    Ok (replicate (length w) 0 ++ drop (length w) out)
  else if n <=? smallSliceBytes then
    logC ← tab_get (logTable tb) (wrap16 (c - 1));
    foldM (λ out i,
             v ← getU16 (contents src out) i;
             r ← log_mul logC v;
             putU16 out i r) out (range_by 2 0 n)
  else
    table ← calcTable c;
    let blocks := range_by 8 0 (n - 7) in
    out ← foldM (λ out i,
             let inp := contents src out in
             s0 ← index_at inp i; s1 ← index_at inp (i + 1);
             s2 ← index_at inp (i + 2); s3 ← index_at inp (i + 3);
             s4 ← index_at inp (i + 4); s5 ← index_at inp (i + 5);
             s6 ← index_at inp (i + 6); s7 ← index_at inp (i + 7);
             r0 ← table_mul table s0 s1; r1 ← table_mul table s2 s3;
             r2 ← table_mul table s4 s5; r3 ← table_mul table s6 s7;
             out ← putU16 out i r0; out ← putU16 out (i + 2) r1;
             out ← putU16 out (i + 4) r2; putU16 out (i + 6) r3) out blocks;
    let i := 8 * Z.of_nat (length blocks) in
    foldM (λ out i,
             a ← index_at (contents src out) i; b ← index_at (contents src out) (i + 1);
             r ← table_mul table a b;
             putU16 out i r) out (range_by 2 i n).

Definition mulAndAddScalarByteSliceLE (c : Z) (src : source) (out : list Z) : result (list Z) :=
  let n := Z.of_nat (length (contents src out)) in
  if c =? 0 then Ok out
  else if n <=? smallSliceBytes then
    logC ← tab_get (logTable tb) (wrap16 (c - 1));
    foldM (λ out i,
             v ← getU16 (contents src out) i;
             r ← log_mul logC v;
             d ← getU16 out i;
             putU16 out i (Z.lxor d r)) out (range_by 2 0 n)
  else
    table ← calcTable c;
    let blocks := range_by 8 0 (n - 7) in
    out ← foldM (λ out i,
             let inp := contents src out in
             s0 ← index_at inp i; s1 ← index_at inp (i + 1);
             s2 ← index_at inp (i + 2); s3 ← index_at inp (i + 3);
             s4 ← index_at inp (i + 4); s5 ← index_at inp (i + 5);
             s6 ← index_at inp (i + 6); s7 ← index_at inp (i + 7);
             r0 ← table_mul table s0 s1; r1 ← table_mul table s2 s3;
             r2 ← table_mul table s4 s5; r3 ← table_mul table s6 s7;
             d0 ← getU16 out i; d1 ← getU16 out (i + 2);
             d2 ← getU16 out (i + 4); d3 ← getU16 out (i + 6);
             out ← putU16 out i (Z.lxor d0 r0); out ← putU16 out (i + 2) (Z.lxor d1 r1);
             out ← putU16 out (i + 4) (Z.lxor d2 r2); putU16 out (i + 6) (Z.lxor d3 r3))
           out blocks;
    let i := 8 * Z.of_nat (length blocks) in
    foldM (λ out i,
             d ← getU16 out i;
             a ← index_at (contents src out) i; b ← index_at (contents src out) (i + 1);
             r ← table_mul table a b;
             putU16 out i (Z.lxor d r)) out (range_by 2 i n).
End Scalar.

(** ** [calcTable] tabulates the multiples of the coefficient *)

Lemma pow2_double k : 0 <= k → 2 ^ (k + 1) = 2 ^ k + 2 ^ k.
Proof. intros Hk. rewrite Z.pow_add_r by lia. lia. Qed.

Lemma xtime_pow2 k : 0 <= k < 15 → xtime (2 ^ k) = 2 ^ (k + 1).
Proof.
  intros Hk. unfold xtime. rewrite Z.pow2_bits_false, Z.lxor_0_r by lia.
  rewrite Z.shiftl_mul_pow2, Z.pow_add_r; lia.
Qed.

Lemma add_pow2_lxor k v : 0 <= k → 0 <= v < 2 ^ k → v + 2 ^ k = Z.lxor v (2 ^ k).
Proof.
  intros Hk Hv. rewrite <- Z.add_nocarry_lxor; [lia|].
  apply Z.bits_inj'. intros i Hi. rewrite Z.land_spec, Z.testbit_0_l, Z.pow2_bits_eqb by lia.
  destruct (Z.eqb_spec k i) as [<-|]; [|apply andb_false_r].
  by rewrite (testbit_bound k).
Qed.

(** The entries below [m] are the multiples of [d]. *)
Definition half_ok (d m : Z) (s : list Z) : Prop :=
  length s = 256%nat ∧ ∀ v, 0 <= v < m → s !! Z.to_nat v = Some (gmul d v).

Lemma calc_inner d k s : 0 <= k < 8 → half_ok d (2 ^ k) s →
  ∃ s', foldM (λ s i, v ← index_at s i; set_at s (i + 2 ^ k) (Z.lxor v (gmul d (2 ^ k))))
          s (range 0 (2 ^ k)) = Ok s' ∧ half_ok d (2 ^ (k + 1)) s'.
Proof.
  intros Hk Hs. assert (0 < 2 ^ k) as Hp by (apply Z.pow_pos_nonneg; lia).
  assert (2 ^ (k + 1) <= 2 ^ 8) as Hle by (apply Z.pow_le_mono_r; lia).
  rewrite pow2_double in * by lia.
  destruct (foldM_inv (λ s i, v ← index_at s i;
      set_at s (i + 2 ^ k) (Z.lxor v (gmul d (2 ^ k))))
    (λ i s, half_ok d (2 ^ k + i) s) (2 ^ k) 0 s) as (s' & Hs' & Hok).
  - lia.
  - by rewrite Z.add_0_r.
  - intros i t Hi [Hl Ht].
    rewrite (index_at_lookup t i (gmul d i)) by (lia || (apply Ht; lia)).
    cbn [mbind result_bind]. rewrite set_at_ok by lia. eexists; split; [done|].
    split; [by rewrite length_insert|]. intros v Hv.
    destruct (Z.eq_dec v (i + 2 ^ k)) as [->|Hne].
    + rewrite list_lookup_insert_eq by lia. f_equal.
      rewrite (add_pow2_lxor k i), gmul_lxor_r by lia. done.
    + rewrite list_lookup_insert_ne by lia. apply Ht. lia.
  - exists s'. by split.
Qed.

Lemma calc_half_spec d s : u16 d → length s = 256%nat → s !! 0%nat = Some 0 →
  ∃ s', calc_half d s = Ok (s', gmul d 256) ∧ half_ok d 256 s'.
Proof.
  intros Hd Hl H0. unfold calc_half. rewrite foldM_fmap.
  match goal with |- context [foldM ?f _ _] => set (body := f) end.
  destruct (foldM_inv body (λ k '(s, coeff), half_ok d (2 ^ k) s ∧ coeff = gmul d (2 ^ k))
    8 0 (s, d)) as ([s' coeff] & Hs' & Hok & ->).
  - lia.
  - split; [split; [done|]|by rewrite gmul_1_r].
    intros v Hv. replace v with 0 by lia. by rewrite gmul_0_r.
  - intros k [t coeff] Hk [Ht ->]. unfold body. rewrite Z.shiftl_1_l.
    destruct (calc_inner d k t) as (t' & -> & Ht'); [done..|]. cbn [mbind result_bind].
    eexists. split; [done|]. split; [done|].
    assert (u16 (2 ^ k)) by (apply pow2_u16; lia).
    rewrite multByTwo_xtime, <- gmul_xtime_r, xtime_pow2 by (auto with width || lia). done.
  - exists s'. by split.
Qed.

Lemma gmul_256 v : u8 v → gmul 256 v = 256 * v.
Proof.
  intros Hv.
  assert (forallb (λ v, gmul 256 v =? 256 * v) (range 0 256) = true) as Hall by by vm_compute.
  rewrite forallb_forall in Hall. apply Z.eqb_eq, Hall.
  apply list_elem_of_In, elem_of_range. zlia.
Qed.

Lemma le_combine_2 a b : le_combine [a; b] = a + 256 * b.
Proof. simpl. lia. Qed.

Lemma split_lxor a b : u8 a → u8 b → le_combine [a; b] = Z.lxor a (256 * b).
Proof.
  intros Ha Hb. rewrite le_combine_2. rewrite <- Z.add_nocarry_lxor; [done|].
  apply Z.bits_inj'. intros i Hi. rewrite Z.land_spec, Z.testbit_0_l.
  replace (256 * b) with (Z.shiftl b 8) by (rewrite Z.shiftl_mul_pow2; lia).
  rewrite Z.shiftl_spec by lia. destruct (Z.lt_ge_cases i 8) as [Hlt|Hge].
  - rewrite (Z.testbit_neg_r b) by lia. apply andb_false_r.
  - by rewrite (testbit_bound 8 a).
Qed.

Definition table_ok (c : Z) (t : mulTable) : Prop :=
  half_ok c 256 (s0 t) ∧ half_ok (gmul c 256) 256 (s8 t).

Lemma zeroed_ok : ∃ z, set_at (replicate 256 0) 0 0 = Ok z ∧
  length z = 256%nat ∧ z !! 0%nat = Some 0.
Proof. eexists. split; [reflexivity|]. by split. Qed.

Lemma calcTable_ok c : u16 c → ∃ t, calcTable c = Ok t ∧ table_ok c t.
Proof.
  intros Hc. unfold calcTable. destruct zeroed_ok as (z & -> & Hl & Hz).
  cbn [mbind result_bind].
  destruct (calc_half_spec c z) as (t0 & -> & Ht0); [done..|]. cbn [mbind result_bind].
  destruct (calc_half_spec (gmul c 256) z) as (t8 & -> & Ht8); [auto with width|done..|].
  cbn [mbind result_bind]. eexists. split; [done|]. by split.
Qed.

Lemma table_mul_ok c t a b : u16 c → table_ok c t → u8 a → u8 b →
  table_mul t a b = Ok (gmul c (le_combine [a; b])).
Proof.
  intros Hc [[_ H0] [_ H8]] Ha Hb. unfold table_mul.
  rewrite (index_at_lookup _ a (gmul c a)) by (zlia || (apply H0; zlia)). cbn [mbind result_bind].
  rewrite (index_at_lookup _ b (gmul (gmul c 256) b)) by (zlia || (apply H8; zlia)).
  cbn [mbind result_bind]. rewrite <- gmul_assoc by (zlia || auto with width).
  rewrite gmul_256, <- gmul_lxor_r, split_lxor by done. done.
Qed.

(** ** The scalar kernels are elementwise *)

(** What a word of a byte slice is, at an even index. *)
Lemma word_at l k : bytes l → 0 <= k → 2 * k + 1 < Z.of_nat (length l) →
  ∃ a b, l !! Z.to_nat (2 * k) = Some a ∧ l !! Z.to_nat (2 * k + 1) = Some b ∧
    u8 a ∧ u8 b ∧ to_words l !! Z.to_nat k = Some (le_combine [a; b]).
Proof.
  intros Hl Hk Hlt.
  destruct (lookup_lt_is_Some_2 l (Z.to_nat (2 * k))) as [a Ha]; [lia|].
  destruct (lookup_lt_is_Some_2 l (Z.to_nat (2 * k + 1))) as [b Hb]; [lia|].
  exists a, b. do 2 (split; [done|]).
  unfold bytes in Hl. rewrite Forall_lookup in Hl. do 2 (split; [by eapply Hl|]).
  apply to_words_lookup.
  - by replace (2 * Z.to_nat k)%nat with (Z.to_nat (2 * k)) by lia.
  - by replace (2 * Z.to_nat k + 1)%nat with (Z.to_nat (2 * k + 1)) by lia.
Qed.

Lemma le_combine_2_u16 a b : u8 a → u8 b → u16 (le_combine [a; b]).
Proof. intros. rewrite le_combine_2. zlia. Qed.
#[export] Hint Resolve le_combine_2_u16 : width.

Lemma elementwise_length f inb outb :
  length inb = length outb → Nat.Even (length outb) →
  length (elementwise f inb outb) = length outb.
Proof.
  intros Hl [m Hm]. unfold elementwise.
  rewrite of_words_length, length_zip_with, !to_words_length, Hl, Nat.min_id, Hm.
  rewrite (Nat.mul_comm 2 m), Nat.div_mul by lia. lia.
Qed.

Lemma elementwise_bytes f inb outb : bytes (elementwise f inb outb).
Proof. apply of_words_bytes. Qed.

(** Reads at or after the progress mark see the original bytes, aliased or not. *)
Lemma contents_progress src r o i j :
  length r = length o → (i <= j)%nat → (i <= length o)%nat →
  contents src (progress r o i) !! j = contents src o !! j.
Proof. intros Hl Hij Hi. destruct src; [done|]. by apply progress_lookup_ge. Qed.

Lemma contents_progress_length src r o i :
  length r = length o → (i <= length o)%nat →
  length (contents src (progress r o i)) = length (contents src o).
Proof. intros Hl Hi. destruct src; [done|]. by apply progress_length. Qed.

Section Elementwise.
Context (f : Z → Z → Z) (src : source) (out0 : list Z).
Let inp := contents src out0.
Context (Hinb : bytes inp) (Houtb : bytes out0).
Context (Hlen : length inp = length out0) (Heven : Nat.Even (length out0)).
Let R := elementwise f inp out0.
Let P (i : Z) := progress R out0 (Z.to_nat i).

Lemma ew_length : length R = length out0.
Proof. by apply elementwise_length. Qed.

Lemma ew_read i j : 0 <= i <= j → i <= Z.of_nat (length out0) →
  contents src (P i) !! Z.to_nat j = inp !! Z.to_nat j.
Proof.
  intros Hij Hi. apply contents_progress; [apply ew_length|lia|lia].
Qed.

Lemma ew_read_out i j : 0 <= i <= j → i <= Z.of_nat (length out0) →
  P i !! Z.to_nat j = out0 !! Z.to_nat j.
Proof. intros Hij Hi. pose proof ew_length. apply progress_lookup_ge; lia. Qed.

Lemma ew_contents_length i : 0 <= i <= Z.of_nat (length out0) →
  length (contents src (P i)) = length out0.
Proof.
  intros Hi. rewrite <- Hlen. apply contents_progress_length; [apply ew_length|lia].
Qed.

(** Element [k] of input and output, as read when the mark is at [i]. *)
Lemma ew_elem k : 0 <= k → 2 * k + 1 < Z.of_nat (length out0) →
  ∃ a b x y, u8 a ∧ u8 b ∧ x = le_combine [a; b] ∧ u16 y ∧
    (∀ i, 0 <= i <= 2 * k → index_at (contents src (P i)) (2 * k) = Ok a) ∧
    (∀ i, 0 <= i <= 2 * k → index_at (contents src (P i)) (2 * k + 1) = Ok b) ∧
    (∀ i, 0 <= i <= 2 * k → getU16 (contents src (P i)) (2 * k) = Ok x) ∧
    (∀ i, 0 <= i <= 2 * k → getU16 (P i) (2 * k) = Ok y) ∧
    putU16 (P (2 * k)) (2 * k) (f x y) = Ok (P (2 * (k + 1))).
Proof.
  intros Hk Hlt.
  destruct (word_at inp k) as (a & b & Ha & Hb & Hua & Hub & Hx); [done|done|lia|].
  destruct (word_at out0 k) as (c & d & Hc & Hd & Huc & Hud & Hy); [done|done|lia|].
  exists a, b, (le_combine [a; b]), (le_combine [c; d]).
  do 3 (split; [done|]). split; [auto with width|].
  split; [|split; [|split; [|split]]].
  - intros i Hi. apply index_at_lookup; [lia|]. rewrite ew_read by lia. done.
  - intros i Hi. apply index_at_lookup; [lia|]. rewrite ew_read by lia. done.
  - intros i Hi. apply getU16_ok; [lia|by rewrite ew_read by lia|].
    replace (S (Z.to_nat (2 * k))) with (Z.to_nat (2 * k + 1)) by lia.
    by rewrite ew_read by lia.
  - intros i Hi. apply getU16_ok; [lia|by rewrite ew_read_out by lia|].
    replace (S (Z.to_nat (2 * k))) with (Z.to_nat (2 * k + 1)) by lia.
    by rewrite ew_read_out by lia.
  - assert (zip_with f (to_words inp) (to_words out0) !! Z.to_nat k =
        Some (f (le_combine [a; b]) (le_combine [c; d]))) as Hz.
    { apply lookup_zip_with_Some. eauto. }
    apply of_words_lookup in Hz as [Hz0 Hz1].
    unfold P. replace (2 * (k + 1)) with (2 * k + 2) by lia.
    apply progress_putU16; [apply ew_length|lia|lia| |].
    + replace (Z.to_nat (2 * k)) with (2 * Z.to_nat k)%nat by lia. exact Hz0.
    + replace (S (Z.to_nat (2 * k))) with (2 * Z.to_nat k + 1)%nat by lia. exact Hz1.
Qed.

Lemma ew_start : P 0 = out0.
Proof. done. Qed.

Lemma ew_end i : Z.of_nat (length out0) <= i → P i = R.
Proof. intros Hi. apply progress_all; [apply ew_length|lia]. Qed.

(** A loop over elements, from element [k0] on, whose body writes [f x y]. *)
Lemma ew_loop (body : list Z → Z → result (list Z)) (k0 : Z) :
  0 <= k0 → 2 * k0 <= Z.of_nat (length out0) →
  (∀ k, k0 <= k → 2 * k + 1 < Z.of_nat (length out0) →
     body (P (2 * k)) (2 * k) = Ok (P (2 * (k + 1)))) →
  foldM body (P (2 * k0)) (range_by 2 (2 * k0) (Z.of_nat (length out0))) = Ok R.
Proof.
  intros Hk0 Hk Hbody. destruct Heven as [m Hm].
  unfold range_by. rewrite foldM_fmap.
  assert ((Z.of_nat (length out0) - 2 * k0 + 2 - 1) / 2 = Z.of_nat m - k0) as ->.
  { rewrite Hm. dlia. }
  destruct (foldM_inv (λ s a, body s (2 * k0 + 2 * a))
    (λ a s, s = P (2 * (k0 + a))) (Z.of_nat m - k0) 0 (P (2 * k0))) as (s' & Hs' & ->).
  - lia.
  - by rewrite Z.add_0_r.
  - intros a s Ha ->. replace (2 * k0 + 2 * a) with (2 * (k0 + a)) by lia.
    eexists. split; [apply Hbody; lia|]. do 2 f_equal. lia.
  - rewrite Hs'. f_equal. apply ew_end. lia.
Qed.

(** A loop over blocks of four elements. *)
Lemma ew_blocks (body : list Z → Z → result (list Z)) :
  (∀ k, 0 <= k → 8 * k + 7 < Z.of_nat (length out0) →
     body (P (8 * k)) (8 * k) = Ok (P (8 * (k + 1)))) →
  let blocks := range_by 8 0 (Z.of_nat (length out0) - 7) in
  foldM body out0 blocks = Ok (P (8 * Z.of_nat (length blocks))) ∧
  8 * Z.of_nat (length blocks) <= Z.of_nat (length out0).
Proof.
  intros Hbody blocks.
  set (q := (Z.of_nat (length out0) - 7 - 0 + 8 - 1) / 8).
  assert (0 <= q ∧ 8 * q <= Z.of_nat (length out0)) as [Hq0 Hq] by (unfold q; dlia).
  assert (Z.of_nat (length blocks) = q) as Hlb.
  { unfold blocks, range_by. rewrite length_fmap, range_length. fold q. lia. }
  rewrite Hlb. split; [|lia]. unfold blocks, range_by. fold q. rewrite foldM_fmap.
  destruct (foldM_inv (λ s a, body s (0 + 8 * a))
    (λ a s, s = P (8 * a)) q 0 out0) as (s' & Hs' & ->).
  - lia.
  - done.
  - intros a s Ha ->. rewrite Z.add_0_l. eexists. split; [apply Hbody; lia|done].
  - done.
Qed.
End Elementwise.

(** Run one statement of a kernel's loop body, with the facts about the element
    it touches. *)
Ltac kstep :=
  match goal with
          | H : ∀ i, 0 <= i <= _ → _ = Ok _ |- _ => rewrite H by lia
          | H : putU16 ?s ?i ?v = Ok _ |- context [putU16 ?s ?i ?w] =>
              change (putU16 s i w) with (putU16 s i v); rewrite H
          | H : table_ok ?c ?t |- context [table_mul ?t ?a ?b] =>
              rewrite (table_mul_ok c t a b) by auto with width
          end;
  cbn [mbind result_bind].

(** Index arithmetic of an unrolled block, in terms of elements. *)
Lemma block_index k :
  8 * k = 2 * (4 * k) ∧ 8 * k + 1 = 2 * (4 * k) + 1 ∧
  8 * k + 2 = 2 * (4 * k + 1) ∧ 8 * k + 3 = 2 * (4 * k + 1) + 1 ∧
  8 * k + 4 = 2 * (4 * k + 1 + 1) ∧ 8 * k + 5 = 2 * (4 * k + 1 + 1) + 1 ∧
  8 * k + 6 = 2 * (4 * k + 1 + 1 + 1) ∧ 8 * k + 7 = 2 * (4 * k + 1 + 1 + 1) + 1 ∧
  8 * (k + 1) = 2 * (4 * k + 1 + 1 + 1 + 1).
Proof. lia. Qed.

Ltac block_indices k :=
  destruct (block_index k) as (E0 & E1 & E2 & E3 & E4 & E5 & E6 & E7 & E8);
  rewrite ?E1, ?E2, ?E3, ?E4, ?E5, ?E6, ?E7, ?E8, ?E0;
  clear E0 E1 E2 E3 E4 E5 E6 E7 E8.

(** A zero coefficient clears the output. *)
Lemma elementwise_zero inb outb :
  length inb = length outb → Nat.Even (length outb) →
  elementwise (mul_elem 0) inb outb = replicate (length outb) 0.
Proof.
  intros Hl [m Hm]. unfold elementwise.
  replace (zip_with (mul_elem 0) (to_words inb) (to_words outb)) with (replicate m 0).
  - rewrite Hm. clear. induction m as [|m IH]; [done|].
    change (le_split 2 0 ++ of_words (replicate m 0) = replicate (2 * S m) 0).
    rewrite IH. by replace (2 * S m)%nat with (S (S (2 * m))) by lia.
  - assert (length (to_words inb) = m ∧ length (to_words outb) = m) as [Hi Ho].
    { rewrite !to_words_length, Hl, Hm, Nat.mul_comm, Nat.div_mul by lia. done. }
    clear Hl Hm. revert Hi Ho. generalize (to_words inb), (to_words outb). clear.
    induction m as [|m IH]; intros [|x l1] [|y l2] H1 H2; try done.
    simpl in *. unfold mul_elem at 1. rewrite gmul_0_l. f_equal. apply IH; lia.
Qed.

(** Adding a zero multiple changes nothing. *)
Lemma elementwise_add_zero inb outb :
  length inb = length outb → Nat.Even (length outb) → bytes outb →
  elementwise (mulAdd_elem 0) inb outb = outb.
Proof.
  intros Hl He Hb. unfold elementwise.
  replace (zip_with (mulAdd_elem 0) (to_words inb) (to_words outb)) with (to_words outb).
  { by apply of_to_words. }
  assert (length (to_words inb) = length (to_words outb)) as Hw.
  { by rewrite !to_words_length, Hl. }
  revert Hw. generalize (to_words inb), (to_words outb). clear.
  induction l as [|x l1 IH]; intros [|y l2] Hw; try done. simpl in *.
  unfold mulAdd_elem at 1. rewrite gmul_0_l, Z.lxor_0_r. f_equal. apply IH. lia.
Qed.

Section ScalarSpec.
Context (tb : tables) `{!TablesReady tb}.

Lemma log_mul_ok c v : u16 c → c ≠ 0 → u16 v → log_mul tb (glog tb c) v = Ok (gmul c v).
Proof.
  intros Hc Hc0 Hv. unfold log_mul.
  destruct (Z.eqb_spec v 0) as [->|Hv0]; [by rewrite gmul_0_r|].
  rewrite (logTable_get tb v) by done. cbn [mbind result_bind].
  destruct (glog_spec tb c) as [Hlc Hec]; [done..|].
  destruct (glog_spec tb v) as [Hlv Hev]; [done..|].
  rewrite expTable_rem, gexp_add, Hec, Hev by (done || lia). done.
Qed.

Section Pair.
Context (c : Z) (src : source) (out : list Z).
Context (Hc : u16 c) (Hinb : bytes (contents src out)) (Houtb : bytes out).
Context (Hlen : length (contents src out) = length out) (Heven : Nat.Even (length out)).

(** Bring in what is known of element [k], and run the statements of a body. *)
Local Ltac elem f k :=
  destruct (ew_elem f src out Hinb Houtb Hlen Heven k)
    as (? & ? & ? & ? & ? & ? & -> & ? & ? & ? & ? & ? & ?); [lia|lia|]; cbn beta in *.

Local Ltac block f k :=
  block_indices k; elem f (4 * k); elem f (4 * k + 1);
  elem f (4 * k + 1 + 1); elem f (4 * k + 1 + 1 + 1).

Lemma mulScalar_elementwise :
  mulScalarByteSliceLE tb c src out = Ok (elementwise (mul_elem c) (contents src out) out).
Proof.
  unfold mulScalarByteSliceLE. rewrite Hlen.
  destruct (Z.eqb_spec c 0) as [->|Hc0].
  { rewrite slice_at_ok by lia. cbn [mbind result_bind].
    rewrite elementwise_zero by done. rewrite Z.sub_0_r, Nat2Z.id, drop_0, firstn_all, drop_all.
    by rewrite app_nil_r. }
  case_match.
  - rewrite logTable_get by done. cbn [mbind result_bind].
    apply (ew_loop (mul_elem c) src out Hlen Heven _ 0); [lia..|].
    intros k Hk Hlt. elem (mul_elem c) k.
    kstep. rewrite log_mul_ok by auto with width. cbn [mbind result_bind]. by kstep.
  - destruct (calcTable_ok c Hc) as (t & -> & Ht). cbn [mbind result_bind].
    match goal with |- context [foldM ?body out (range_by 8 0 _)] =>
      destruct (ew_blocks (mul_elem c) src out Hlen body) as [-> Hle] end.
    + intros k Hk Hlt. cbn zeta beta. block (mul_elem c) k. repeat kstep. done.
    + cbn [mbind result_bind] in *.
      match goal with |- context [8 * ?q] => replace (8 * q) with (2 * (4 * q)) by lia end.
      apply (ew_loop (mul_elem c) src out Hlen Heven); [lia..|].
      intros k Hk Hlt. elem (mul_elem c) k. repeat kstep. done.
Qed.

Lemma mulAndAddScalar_elementwise :
  mulAndAddScalarByteSliceLE tb c src out
  = Ok (elementwise (mulAdd_elem c) (contents src out) out).
Proof.
  unfold mulAndAddScalarByteSliceLE. rewrite Hlen.
  destruct (Z.eqb_spec c 0) as [->|Hc0]; [by rewrite elementwise_add_zero|].
  case_match.
  - rewrite logTable_get by done. cbn [mbind result_bind].
    apply (ew_loop (mulAdd_elem c) src out Hlen Heven _ 0); [lia..|].
    intros k Hk Hlt. elem (mulAdd_elem c) k.
    repeat kstep. rewrite log_mul_ok by auto with width. cbn [mbind result_bind].
    repeat kstep. done.
  - destruct (calcTable_ok c Hc) as (t & -> & Ht). cbn [mbind result_bind].
    match goal with |- context [foldM ?body out (range_by 8 0 _)] =>
      destruct (ew_blocks (mulAdd_elem c) src out Hlen body) as [-> Hle] end.
    + intros k Hk Hlt. cbn zeta beta. block (mulAdd_elem c) k. repeat kstep. done.
    + cbn [mbind result_bind] in *.
      match goal with |- context [8 * ?q] => replace (8 * q) with (2 * (4 * q)) by lia end.
      apply (ew_loop (mulAdd_elem c) src out Hlen Heven); [lia..|].
      intros k Hk Hlt. elem (mulAdd_elem c) k. repeat kstep. done.
Qed.
End Pair.
End ScalarSpec.
