(* ===== verification/Dispatch.v ===== *)
(** * The exported slice operations of package gf16

    src/gf16/gf16.go ([MulByteSliceLE], [MulAndAddByteSliceLE] and their
    guards), src/gf16/gf16_amd64.go (the nibble tables and the dispatch over
    vector kernels) and src/gf16/gf16_nonamd64.go.  The assembly kernels enter
    through the interface [VectorKernels]; the theorems say that every build
    computes the same bytes. *)

From S2P Require Import Prelude Field Gf16 Kernels.

(** ** Builds *)

(** The build tag, and what [cpuid] reported on amd64. *)
Inductive build :=
  | NonAmd64
  | Amd64 (hasAVX2 hasSSSE3 : bool).

Definition elementBytes : Z := 2.
Definition avx2BlockBytes : Z := 64.
Definition ssse3BlockBytes : Z := 32.

(** [blockBytes], which [KernelBlockBytes] reports. *)
Definition KernelBlockBytes (b : build) : Z :=
  match b with
  | NonAmd64 => elementBytes
  | Amd64 true _ => avx2BlockBytes
  | Amd64 false true => ssse3BlockBytes
  | Amd64 false false => elementBytes
  end.

(** ** The nibble tables of the vector kernels *)

Record mulTable64Entry := mkEntry {
  s0Low : list Z; s4Low : list Z; s8Low : list Z; s12Low : list Z;
  s0High : list Z; s4High : list Z; s8High : list Z; s12High : list Z;
}.

Definition zeroEntry : mulTable64Entry :=
  let z := replicate 16 0 in mkEntry z z z z z z z z.

(** One turn of the inner loop of the amd64 [init]. *)
Definition fill_entry (tb : tables) (c : Z) (e : mulTable64Entry) (j : Z) : result mulTable64Entry :=
  t0 ← Times tb c (wrap16 j);
  a ← set_at (s0Low e) j (wrap8 t0); a' ← set_at (s0High e) j (wrap8 (Z.shiftr t0 8));
  t1 ← Times tb c (wrap16 (Z.shiftl j 4));
  b ← set_at (s4Low e) j (wrap8 t1); b' ← set_at (s4High e) j (wrap8 (Z.shiftr t1 8));
  t2 ← Times tb c (wrap16 (Z.shiftl j 8));
  d ← set_at (s8Low e) j (wrap8 t2); d' ← set_at (s8High e) j (wrap8 (Z.shiftr t2 8));
  t3 ← Times tb c (wrap16 (Z.shiftl j 12));
  f ← set_at (s12Low e) j (wrap8 t3); f' ← set_at (s12High e) j (wrap8 (Z.shiftr t3 8));
  Ok (mkEntry a b d f a' b' d' f').

(** [mulTable64[c]]. *)
Definition mulTable64 (tb : tables) (c : Z) : result mulTable64Entry :=
  foldM (fill_entry tb c) zeroEntry (range 0 16).

(** ** The vector kernels

    What the dispatch needs of the assembly routines: on whole blocks they are
    elementwise, for the table of any coefficient. *)
Class VectorKernels := {
  mulSliceSSSE3 : mulTable64Entry → source → list Z → result (list Z);
  mulAndAddSliceSSSE3 : mulTable64Entry → source → list Z → result (list Z);
  MulByteSliceLE_AVX2 : mulTable64Entry → source → list Z → result (list Z);
  MulAndAddByteSliceLE_AVX2 : mulTable64Entry → source → list Z → result (list Z);
}.

Definition kernel_ok (tb : tables) (block : Z) (f : Z → Z → Z → Z)
    (k : mulTable64Entry → source → list Z → result (list Z)) : Prop :=
  ∀ c e src out,
    u16 c → mulTable64 tb c = Ok e →
    bytes (contents src out) → bytes out →
    length (contents src out) = length out →
    0 < Z.of_nat (length out) → Z.of_nat (length out) mod block = 0 →
    k e src out = Ok (elementwise (f c) (contents src out) out).

Class VectorKernelsOk (tb : tables) (vk : VectorKernels) : Prop := {
  mulSliceSSSE3_ok : kernel_ok tb ssse3BlockBytes mul_elem mulSliceSSSE3;
  mulAndAddSliceSSSE3_ok : kernel_ok tb ssse3BlockBytes mulAdd_elem mulAndAddSliceSSSE3;
  MulByteSliceLE_AVX2_ok : kernel_ok tb avx2BlockBytes mul_elem MulByteSliceLE_AVX2;
  MulAndAddByteSliceLE_AVX2_ok :
    kernel_ok tb avx2BlockBytes mulAdd_elem MulAndAddByteSliceLE_AVX2;
}.

(** ** Dispatch *)

Section Dispatch.
Context (tb : tables) `{VK : !VectorKernels}.

(** [kernel(entry, in[lo:hi], out[lo:hi])], leaving the rest of [out] alone. *)
Definition on_window (k : source → list Z → result (list Z)) (src : source) (out : list Z)
    (lo hi : Z) : result (list Z) :=
  win ← src_slice src lo hi;
  wout ← slice_at out lo hi;
  wout' ← k win wout;
  Ok (take (Z.to_nat lo) out ++ wout' ++ drop (Z.to_nat hi) out).

(** The body shared by the two amd64 dispatchers, over the AVX2, SSSE3 and
    scalar kernels it chooses from.  The AVX2 branch calls itself on what is
    left, which is shorter than one AVX2 block, so two rounds suffice. *)
Fixpoint amd64_bulk (fuel : nat) (hasAVX2 hasSSSE3 : bool)
    (avx2 ssse3 scalar : source → list Z → result (list Z))
    (src : source) (out : list Z) : result (list Z) :=
  match fuel with
  | O => Panic "unreachable"
  | S fuel' =>
    let n := Z.of_nat (length (contents src out)) in
    let avx2Len := n - Z.rem n avx2BlockBytes in
    if hasAVX2 && (0 <? avx2Len) then
      out ← on_window avx2 src out 0 avx2Len;
      if avx2Len <? n
      then on_window (amd64_bulk fuel' hasAVX2 hasSSSE3 avx2 ssse3 scalar) src out avx2Len n
      else Ok out
    else if hasSSSE3 then
      let ssse3Len := n - Z.rem n ssse3BlockBytes in
      out ← (if 0 <? ssse3Len then on_window ssse3 src out 0 ssse3Len else Ok out);
      if ssse3Len <? n then on_window scalar src out ssse3Len n else Ok out
    else scalar src out
  end.

Definition mulBulkByteSliceLE (b : build) (c : Z) (src : source) (out : list Z) : result (list Z) :=
  match b with
  | NonAmd64 => mulScalarByteSliceLE tb c src out
  | Amd64 hasAVX2 hasSSSE3 =>
    amd64_bulk 2 hasAVX2 hasSSSE3
      (λ src out, e ← mulTable64 tb c; MulByteSliceLE_AVX2 e src out)
      (λ src out, e ← mulTable64 tb c; mulSliceSSSE3 e src out)
      (mulScalarByteSliceLE tb c) src out
  end.

Definition mulAndAddBulkByteSliceLE (b : build) (c : Z) (src : source) (out : list Z)
    : result (list Z) :=
  match b with
  | NonAmd64 => mulAndAddScalarByteSliceLE tb c src out
  | Amd64 hasAVX2 hasSSSE3 =>
    amd64_bulk 2 hasAVX2 hasSSSE3
      (λ src out, e ← mulTable64 tb c; MulAndAddByteSliceLE_AVX2 e src out)
      (λ src out, e ← mulTable64 tb c; mulAndAddSliceSSSE3 e src out)
      (mulAndAddScalarByteSliceLE tb c) src out
  end.

(** [validateSlicePair]. *)
Definition validateSlicePair (inb outb : list Z) : result unit :=
  _ ← panic_if (negb (length outb =? length inb)%nat) "size mismatch";
  panic_if (negb (Z.rem (Z.of_nat (length inb)) 2 =? 0)) "odd slice length".

Definition MulByteSliceLE (b : build) (c : Z) (src : source) (out : list Z) : result (list Z) :=
  _ ← validateSlicePair (contents src out) out;
  if (length (contents src out) =? 0)%nat then Ok out
  else if c =? 0 then Ok (replicate (length out) 0)
  else mulBulkByteSliceLE b c src out.

Definition MulAndAddByteSliceLE (b : build) (c : Z) (src : source) (out : list Z)
    : result (list Z) :=
  _ ← validateSlicePair (contents src out) out;
  if (length (contents src out) =? 0)%nat then Ok out
  else if c =? 0 then Ok out
  else mulAndAddBulkByteSliceLE b c src out.
End Dispatch.

(** ** The tables exist and hold the nibble products *)

(** A 16-entry table of a function, filled up to [i]. *)
Definition filled (g : Z → Z) (i : Z) : list Z := (g <$> range 0 i) ++ replicate (Z.to_nat (16 - i)) 0.

Lemma filled_set g i : 0 <= i < 16 → set_at (filled g i) i (g i) = Ok (filled g (i + 1)).
Proof.
  intros Hi.
  assert (length (g <$> range 0 i) = Z.to_nat i) as Hl by (rewrite length_fmap, range_length; lia).
  rewrite set_at_ok by (unfold filled; rewrite length_app, Hl, length_replicate; lia).
  f_equal. unfold filled. rewrite insert_app_r_alt by lia. rewrite Hl, Nat.sub_diag.
  replace (Z.to_nat (16 - i)) with (S (Z.to_nat (16 - (i + 1)))) by lia. simpl.
  rewrite (range_app 0 i (i + 1)), fmap_app, (range_cons i (i + 1)), (range_nil (i + 1)) by lia.
  simpl. by rewrite <- app_assoc.
Qed.

Lemma filled_lookup g j : 0 <= j < 16 → filled g 16 !! Z.to_nat j = Some (g j).
Proof.
  intros Hj. unfold filled. rewrite app_nil_r, list_lookup_fmap, range_lookup by lia.
  simpl. do 2 f_equal. lia.
Qed.

(** The low or high byte of [c] times a nibble shifted to its place. *)
Definition nib_lo (c s j : Z) : Z := wrap8 (gmul c (Z.shiftl j s)).
Definition nib_hi (c s j : Z) : Z := wrap8 (Z.shiftr (gmul c (Z.shiftl j s)) 8).

Lemma filled_lo c s i : 0 <= i < 16 →
  set_at (filled (nib_lo c s) i) i (wrap8 (gmul c (Z.shiftl i s))) = Ok (filled (nib_lo c s) (i + 1)).
Proof. apply (filled_set (nib_lo c s)). Qed.

Lemma filled_hi c s i : 0 <= i < 16 →
  set_at (filled (nib_hi c s) i) i (wrap8 (Z.shiftr (gmul c (Z.shiftl i s)) 8))
  = Ok (filled (nib_hi c s) (i + 1)).
Proof. apply (filled_set (nib_hi c s)). Qed.

Definition entry_upto (c i : Z) : mulTable64Entry := {|
  s0Low := filled (nib_lo c 0) i; s4Low := filled (nib_lo c 4) i;
  s8Low := filled (nib_lo c 8) i; s12Low := filled (nib_lo c 12) i;
  s0High := filled (nib_hi c 0) i; s4High := filled (nib_hi c 4) i;
  s8High := filled (nib_hi c 8) i; s12High := filled (nib_hi c 12) i;
|}.

Lemma nibble_u16 j s : 0 <= j < 16 → 0 <= s <= 12 → u16 (Z.shiftl j s).
Proof.
  intros Hj Hs. rewrite Z.shiftl_mul_pow2 by lia. split; [nia|].
  assert (2 ^ s <= 2 ^ 12) by (apply Z.pow_le_mono_r; lia).
  assert (2 ^ 12 = 4096) by done. nia.
Qed.

Lemma mulTable64_ok (tb : tables) `{!TablesReady tb} c :
  u16 c → mulTable64 tb c = Ok (entry_upto c 16).
Proof.
  intros Hc. unfold mulTable64.
  destruct (foldM_inv (fill_entry tb c) (λ i e, e = entry_upto c i) 16 0 zeroEntry)
    as (e & -> & ->); [lia|done| |done].
  intros i e Hi ->. unfold fill_entry.
  assert (∀ s, 0 <= s <= 12 →
    Times tb c (wrap16 (Z.shiftl i s)) = Ok (gmul c (Z.shiftl i s))) as Ht.
  { intros s Hs. pose proof (nibble_u16 i s Hi Hs).
    rewrite wrap16_id by done. by apply Times_tables. }
  assert (Times tb c (wrap16 i) = Ok (gmul c (Z.shiftl i 0))) as ->.
  { rewrite <- Ht by lia. by rewrite Z.shiftl_0_r. }
  rewrite !Ht by lia. cbn [mbind result_bind entry_upto s0Low s4Low s8Low s12Low s0High s4High s8High s12High].
  repeat (rewrite ?filled_lo, ?filled_hi by done; cbn [mbind result_bind]).
  eexists. split; [reflexivity|]. unfold entry_upto. reflexivity.
Qed.

(** ** Every build is elementwise *)

Lemma elementwise_app f i1 i2 o1 o2 :
  length i1 = length o1 → Nat.Even (length o1) →
  elementwise f (i1 ++ i2) (o1 ++ o2) = elementwise f i1 o1 ++ elementwise f i2 o2.
Proof.
  intros Hl He. unfold elementwise. rewrite !to_words_app by (by rewrite ?Hl).
  rewrite zip_with_app by (by rewrite !to_words_length, Hl). apply of_words_app.
Qed.

(** [k] is elementwise on slices of [m] bytes. *)
Definition computes (f : Z → Z → Z) (k : source → list Z → result (list Z)) (m : Z) : Prop :=
  ∀ src out,
    bytes (contents src out) → bytes out → length (contents src out) = length out →
    Z.of_nat (length out) = m →
    k src out = Ok (elementwise f (contents src out) out).

Definition seg {A} (lo hi : Z) (l : list A) : list A := take (Z.to_nat (hi - lo)) (drop (Z.to_nat lo) l).

Lemma seg_length {A} lo hi (l : list A) :
  0 <= lo <= hi → hi <= Z.of_nat (length l) → Z.of_nat (length (seg lo hi l)) = hi - lo.
Proof. intros H1 H2. unfold seg. rewrite length_take, length_drop. lia. Qed.

Lemma seg_bytes lo hi l : bytes l → bytes (seg lo hi l).
Proof. intros H. by apply Forall_take, Forall_drop. Qed.

(** ** Windows *)

Lemma even_to_nat a : 0 <= a → a mod 2 = 0 → Nat.Even (Z.to_nat a).
Proof. intros Ha Hm. exists (Z.to_nat (a / 2)). dlia. Qed.

Lemma seg_split {A} lo hi (l : list A) : 0 <= lo <= hi → hi <= Z.of_nat (length l) →
  l = take (Z.to_nat lo) l ++ seg lo hi l ++ drop (Z.to_nat hi) l.
Proof.
  intros H1 H2. unfold seg. rewrite <- (take_drop (Z.to_nat lo) l) at 1. f_equal.
  rewrite <- (take_drop (Z.to_nat (hi - lo)) (drop _ l)) at 1. f_equal.
  rewrite drop_drop. f_equal. lia.
Qed.

(** A window of the result is the result of the windows. *)
Lemma elementwise_seg f inp out lo hi : length inp = length out →
  0 <= lo <= hi → hi <= Z.of_nat (length out) →
  lo mod 2 = 0 → hi mod 2 = 0 →
  seg lo hi (elementwise f inp out) = elementwise f (seg lo hi inp) (seg lo hi out).
Proof.
  intros Hlen H1 H2 He1 He2.
  assert (∀ l : list Z, length l = length out →
    length (take (Z.to_nat lo) l) = Z.to_nat lo ∧ length (seg lo hi l) = Z.to_nat (hi - lo)) as HL.
  { intros l Hl. split; [rewrite length_take; lia|]. apply Nat2Z.inj. rewrite seg_length; lia. }
  destruct (HL inp Hlen) as [Hi1 Hi2]. destruct (HL out eq_refl) as [Ho1 Ho2].
  assert (Nat.Even (Z.to_nat lo)) by (by apply even_to_nat; [lia|]).
  assert (Nat.Even (Z.to_nat (hi - lo))).
  { apply even_to_nat; [lia|]. rewrite Zminus_mod, He1, He2. done. }
  rewrite (seg_split lo hi inp), (seg_split lo hi out) at 1 by lia.
  rewrite !elementwise_app by (rewrite ?Hi1, ?Ho1, ?Hi2, ?Ho2; done).
  unfold seg at 1. rewrite drop_app_length'; [rewrite take_app_length'; [done|]|].
  - rewrite elementwise_length; rewrite ?Hi2, ?Ho2; done.
  - rewrite elementwise_length; rewrite ?Hi1, ?Ho1; done.
Qed.

Section Windows.
Context (f : Z → Z → Z) (src : source) (out : list Z).
Context (Hinb : bytes (contents src out)) (Houtb : bytes out).
Context (Hlen : length (contents src out) = length out).

Lemma on_window_ok k lo hi :
  0 <= lo <= hi → hi <= Z.of_nat (length out) → computes f k (hi - lo) →
  on_window k src out lo hi =
    Ok (take (Z.to_nat lo) out ++ elementwise f (seg lo hi (contents src out)) (seg lo hi out)
        ++ drop (Z.to_nat hi) out).
Proof.
  intros Hlo Hhi Hk. unfold on_window.
  assert (∃ w, src_slice src lo hi = Ok w ∧ contents w (seg lo hi out) = seg lo hi (contents src out))
    as (w & -> & Hw).
  { destruct src as [bs|]; simpl in *; [|by eexists].
    rewrite slice_at_ok by lia. by eexists. }
  cbn [mbind result_bind]. rewrite slice_at_ok by lia. cbn [mbind result_bind].
  fold (seg lo hi out). rewrite (Hk w (seg lo hi out)); rewrite ?Hw.
  - done.
  - by apply seg_bytes.
  - by apply seg_bytes.
  - apply Nat2Z.inj. rewrite !seg_length by lia. done.
  - by rewrite seg_length by lia.
Qed.

(** A kernel on the first [a] bytes and then one on the rest is a kernel on all. *)
Lemma two_windows k1 k2 a :
  0 <= a <= Z.of_nat (length out) → Nat.Even (Z.to_nat a) →
  computes f k1 a → computes f k2 (Z.of_nat (length out) - a) →
  (out1 ← on_window k1 src out 0 a; on_window k2 src out1 a (Z.of_nat (length out)))
  = Ok (elementwise f (contents src out) out).
Proof.
  intros Ha Heven H1 H2. rewrite (on_window_ok k1 0 a) by (rewrite ?Z.sub_0_r; done || lia).
  cbn [mbind result_bind]. rewrite take_0. cbn [app].
  set (E := elementwise f (seg 0 a (contents src out)) (seg 0 a out)).
  assert (length E = Z.to_nat a) as HE.
  { unfold E. rewrite elementwise_length.
    - apply Nat2Z.inj. rewrite seg_length; lia.
    - apply Nat2Z.inj. rewrite !seg_length; lia.
    - replace (length (seg 0 a out)) with (Z.to_nat a); [done|].
      apply Nat2Z.inj. rewrite seg_length; lia. }
  set (out1 := E ++ drop (Z.to_nat a) out).
  assert (length out1 = length out) as Hl1.
  { unfold out1. rewrite length_app, HE, length_drop. lia. }
  assert (drop (Z.to_nat a) out1 = drop (Z.to_nat a) out) as Hd by (by apply drop_app_length').
  assert (drop (Z.to_nat a) (contents src out1) = drop (Z.to_nat a) (contents src out)) as Hdc.
  { by destruct src. }
  set (n := Z.of_nat (length out)).
  assert (∀ l : list Z, length l = length out → seg a n l = drop (Z.to_nat a) l) as Hseg.
  { intros l Hl. apply take_ge. rewrite length_drop. unfold n. lia. }
  assert (on_window k2 src out1 a n = Ok (E ++ elementwise f (drop (Z.to_nat a) (contents src out))
            (drop (Z.to_nat a) out))) as ->.
  { unfold on_window.
    assert (∃ w, src_slice src a n = Ok w ∧
      contents w (seg a n out1) = drop (Z.to_nat a) (contents src out)) as (w & -> & Hw).
    { destruct src as [bs|]; simpl in *.
      - rewrite slice_at_ok by (unfold n; lia). eexists. split; [done|].
        simpl. fold (seg a n bs). by apply Hseg.
      - eexists. split; [done|]. simpl. by rewrite Hseg, Hd. }
    cbn [mbind result_bind]. rewrite slice_at_ok by (unfold n; lia). cbn [mbind result_bind].
    fold (seg a n out1). rewrite (H2 w (seg a n out1)); rewrite ?Hw, ?Hseg, ?Hd by done.
    - cbn [mbind result_bind]. rewrite (drop_ge out1) by (unfold n; lia).
      rewrite app_nil_r. unfold out1. by rewrite take_app_length'.
    - by apply Forall_drop.
    - by apply Forall_drop.
    - by rewrite !length_drop, Hlen.
    - rewrite length_drop. lia. }
  unfold E. rewrite <- elementwise_app.
  - unfold seg. rewrite Z.sub_0_r, !drop_0, !take_drop. done.
  - apply Nat2Z.inj. rewrite !seg_length; lia.
  - replace (length (seg 0 a out)) with (Z.to_nat a); [done|].
    apply Nat2Z.inj. rewrite seg_length; lia.
Qed.

(** When the first kernel covers everything there is no second. *)
Lemma one_window k : computes f k (Z.of_nat (length out)) →
  on_window k src out 0 (Z.of_nat (length out)) = Ok (elementwise f (contents src out) out).
Proof.
  intros Hk. rewrite on_window_ok by (rewrite ?Z.sub_0_r; done || lia).
  unfold seg. rewrite Z.sub_0_r, Nat2Z.id, !drop_0, firstn_all, drop_all, app_nil_r, take_0.
  by rewrite <- Hlen, firstn_all.
Qed.
End Windows.

Section Bulk.
Context (f : Z → Z → Z) (avx2 ssse3 scalar : source → list Z → result (list Z)).
Context (Havx2 : ∀ m, 0 < m → m mod 64 = 0 → computes f avx2 m).
Context (Hssse3 : ∀ m, 0 < m → m mod 32 = 0 → computes f ssse3 m).
Context (Hscalar : ∀ m, m mod 2 = 0 → computes f scalar m).


(** The round that does not take the AVX2 branch. *)
Lemma amd64_bulk_last fuel hasAVX2 hasSSSE3 m :
  m mod 2 = 0 → (hasAVX2 = true → m < 64) →
  computes f (amd64_bulk (S fuel) hasAVX2 hasSSSE3 avx2 ssse3 scalar) m.
Proof.
  intros Hm Hlt src out Hinb Houtb Hlen Hout. cbn [amd64_bulk]. rewrite Hlen, Hout.
  assert (0 <= m) as Hm0 by lia.
  assert (hasAVX2 && (0 <? m - Z.rem m avx2BlockBytes) = false) as ->.
  { destruct hasAVX2; [|done]. unfold avx2BlockBytes.
    rewrite Z.rem_mod_nonneg, Z.mod_small by (specialize (Hlt eq_refl); lia).
    by rewrite Z.sub_diag. }
  destruct hasSSSE3; [|by apply (Hscalar m)].
  unfold ssse3BlockBytes. rewrite Z.rem_mod_nonneg by lia.
  assert ((m - m mod 32) mod 32 = 0 ∧ (m - m mod 32) mod 2 = 0 ∧ (m mod 32) mod 2 = 0 ∧
    0 <= m mod 32 < 32 ∧ m mod 32 <= m) as (E1 & E2 & E3 & E4 & E5) by dlia.
  destruct (Z.ltb_spec 0 (m - m mod 32)) as [Hpos|Hneg].
  - destruct (Z.ltb_spec (m - m mod 32) m) as [Hrest|Hdone].
    + rewrite <- Hout. apply (two_windows f); rewrite ?Hout; try done; try lia.
      * apply even_to_nat; lia.
      * by apply Hssse3.
      * replace (m - (m - m mod 32)) with (m mod 32) by lia. by apply Hscalar.
    + replace (m - m mod 32) with m in * by lia. rewrite <- Hout at 1.
      rewrite (one_window f); rewrite ?Hout; try done. by apply Hssse3.
  - cbn [mbind result_bind]. replace (m - m mod 32) with 0 by lia.
    destruct (Z.ltb_spec 0 m) as [Hrest|Hdone].
    + rewrite <- Hout. rewrite (one_window f); rewrite ?Hout; try done. by apply Hscalar.
    + destruct out; simpl in *; [|lia]. unfold elementwise.
      by destruct (contents src []).
Qed.

Lemma amd64_bulk_ok hasAVX2 hasSSSE3 m :
  m mod 2 = 0 → computes f (amd64_bulk 2 hasAVX2 hasSSSE3 avx2 ssse3 scalar) m.
Proof.
  intros Hm. destruct (decide (hasAVX2 = true ∧ 64 <= m)) as [[-> Hge]|Hno].
  - intros src out Hinb Houtb Hlen Hout. remember 1%nat as fuel eqn:Hf.
    cbn [amd64_bulk]. rewrite Hlen, Hout. unfold avx2BlockBytes.
    rewrite Z.rem_mod_nonneg by lia.
    assert ((m - m mod 64) mod 64 = 0 ∧ (m - m mod 64) mod 2 = 0 ∧ (m mod 64) mod 2 = 0 ∧
      0 <= m mod 64 < 64 ∧ 0 < m - m mod 64) as (E1 & E2 & E3 & E4 & E5) by dlia.
    rewrite (proj2 (Z.ltb_lt _ _)) by lia. cbn [andb].
    destruct (Z.ltb_spec (m - m mod 64) m) as [Hrest|Hdone].
    + rewrite <- Hout. apply (two_windows f); rewrite ?Hout; try done; try lia.
      * apply even_to_nat; lia.
      * by apply Havx2.
      * replace (m - (m - m mod 64)) with (m mod 64) by lia.
        rewrite Hf. apply amd64_bulk_last; [done|lia].
    + replace (m - m mod 64) with m in * by lia. rewrite <- Hout at 1.
      rewrite (one_window f); rewrite ?Hout; try done. by apply Havx2.
  - apply amd64_bulk_last; [done|]. intros ->.
    destruct (Z.lt_ge_cases m 64); [done|]. naive_solver.
Qed.
End Bulk.

Section Exported.
Context (tb : tables) `{!TablesReady tb} `{VK : !VectorKernels} `{!VectorKernelsOk tb VK}.
Context (b : build) (c : Z) (src : source) (out : list Z).
Context (Hc : u16 c) (Hinb : bytes (contents src out)) (Houtb : bytes out).

Lemma even_length_mod (l : list Z) : Z.of_nat (length l) mod 2 = 0 → Nat.Even (length l).
Proof. intros H. rewrite <- (Nat2Z.id (length l)). apply even_to_nat; lia. Qed.

Lemma scalar_computes (k : source → list Z → result (list Z)) f :
  (∀ src out, bytes (contents src out) → bytes out → length (contents src out) = length out →
     Nat.Even (length out) → k src out = Ok (elementwise f (contents src out) out)) →
  ∀ m, m mod 2 = 0 → computes f k m.
Proof.
  intros Hk m Hm s o Hi Ho Hl <-. apply Hk; [done..|]. by apply even_length_mod.
Qed.

Lemma vector_computes (block : Z) f k :
  kernel_ok tb block f k →
  ∀ m, 0 < m → m mod block = 0 → computes (f c) (λ src out, e ← mulTable64 tb c; k e src out) m.
Proof.
  intros Hk m Hm0 Hm s o Hi Ho Hl Hlo. rewrite mulTable64_ok by done. cbn [mbind result_bind].
  apply Hk; try done; [by apply mulTable64_ok|by rewrite Hlo..].
Qed.

Lemma validate_ok : length (contents src out) = length out → Nat.Even (length out) →
  validateSlicePair (contents src out) out = Ok tt.
Proof.
  intros Hl [m Hm]. unfold validateSlicePair. rewrite Hl, Nat.eqb_refl. simpl.
  rewrite Z.rem_mod_nonneg by lia. replace (Z.of_nat (length out)) with (Z.of_nat m * 2) by lia.
  by rewrite Z.mod_mul.
Qed.

Lemma elementwise_nil f : length (contents src out) = 0%nat → length out = 0%nat →
  elementwise f (contents src out) out = out.
Proof. intros Hl Ho. destruct out; [|done]. by destruct (contents src []). Qed.

Context (Hlen : length (contents src out) = length out) (Heven : Nat.Even (length out)).

Lemma even_mod : Z.of_nat (length out) mod 2 = 0.
Proof. destruct Heven as [m ->]. rewrite Nat2Z.inj_mul, Z.mul_comm. by apply Z.mod_mul. Qed.

Lemma MulByteSliceLE_ok :
  MulByteSliceLE tb b c src out = Ok (elementwise (mul_elem c) (contents src out) out).
Proof.
  unfold MulByteSliceLE. rewrite validate_ok by done. cbn [mbind result_bind].
  destruct (Nat.eqb_spec (length (contents src out)) 0) as [H0|H0].
  { by rewrite elementwise_nil by congruence. }
  destruct (Z.eqb_spec c 0) as [->|Hc0]; [by rewrite elementwise_zero|].
  destruct b as [|avx ssse]; simpl; [by apply mulScalar_elementwise|].
  apply (amd64_bulk_ok (mul_elem c)) with (m := Z.of_nat (length out)); try done.
  - apply (vector_computes 64 mul_elem), MulByteSliceLE_AVX2_ok.
  - apply (vector_computes 32 mul_elem), mulSliceSSSE3_ok.
  - apply scalar_computes. intros. by apply mulScalar_elementwise.
  - apply even_mod.
Qed.

Lemma MulAndAddByteSliceLE_ok :
  MulAndAddByteSliceLE tb b c src out = Ok (elementwise (mulAdd_elem c) (contents src out) out).
Proof.
  unfold MulAndAddByteSliceLE. rewrite validate_ok by done. cbn [mbind result_bind].
  destruct (Nat.eqb_spec (length (contents src out)) 0) as [H0|H0].
  { by rewrite elementwise_nil by congruence. }
  destruct (Z.eqb_spec c 0) as [->|Hc0]; [by rewrite elementwise_add_zero|].
  destruct b as [|avx ssse]; simpl; [by apply mulAndAddScalar_elementwise|].
  apply (amd64_bulk_ok (mulAdd_elem c)) with (m := Z.of_nat (length out)); try done.
  - apply (vector_computes 64 mulAdd_elem), MulAndAddByteSliceLE_AVX2_ok.
  - apply (vector_computes 32 mulAdd_elem), mulAndAddSliceSSSE3_ok.
  - apply scalar_computes. intros. by apply mulAndAddScalar_elementwise.
  - apply even_mod.
Qed.
End Exported.
