(* ===== verification/Simd.v ===== *)
(** * The vector kernels

    src/gf16/asm.go, the generator of the AVX2 routines, and the hand-written
    SSSE3 routines of gf16_amd64.s that use the same instruction sequence.  A
    register is a value of a type with the handful of vector instructions the
    kernels use ([VecOps]); an XMM register is one 16-byte lane and a YMM
    register a pair of lanes, on which every instruction used acts separately.
    The end of the file discharges [VectorKernelsOk]. *)

From S2P Require Import Prelude Field Gf16 Kernels Dispatch.

(** ** Instructions *)

Class VecOps (V : Type) := {
  vpsrlw : Z → V → V;          (** shift each 16-bit word right *)
  vpand : V → V → V;
  vpxor : V → V → V;
  vpackuswb : V → V → V;       (** words of the first, then of the second, to bytes *)
  vpshufb : V → V → V;         (** table, indices *)
  vpunpckhbw : V → V → V;      (** interleave the high halves *)
  vpunpcklbw : V → V → V;
}.

(** *** One 128-bit lane: 16 bytes *)

(** Unsigned saturation of a signed word. *)
Definition sat8 (w : Z) : Z :=
  let s := if w <? 32768 then w else w - 65536 in Z.max 0 (Z.min 255 s).

Fixpoint interleave (a b : list Z) : list Z :=
  match a, b with
  | x :: a', y :: b' => x :: y :: interleave a' b'
  | _, _ => []
  end.

Definition lane := list Z.

#[export] Instance lane_ops : VecOps lane := {
  vpsrlw n v := of_words ((λ w, Z.shiftr w n) <$> to_words v);
  vpand := zip_with Z.land;
  vpxor := zip_with Z.lxor;
  vpackuswb a b := (sat8 <$> to_words a) ++ (sat8 <$> to_words b);
  vpshufb t idx :=
    (λ i, if Z.testbit i 7 then 0 else default 0 (t !! Z.to_nat (Z.land i 15))) <$> idx;
  vpunpckhbw a b := interleave (drop 8 a) (drop 8 b);
  vpunpcklbw a b := interleave (take 8 a) (take 8 b);
}.

(** *** Two lanes *)

Definition both {A B C} (f : A → B → C) (p : A * A) (q : B * B) : C * C :=
  (f p.1 q.1, f p.2 q.2).

#[export] Instance pair_ops {V} `{VecOps V} : VecOps (V * V) := {
  vpsrlw n v := (vpsrlw n v.1, vpsrlw n v.2);
  vpand := both vpand; vpxor := both vpxor; vpackuswb := both vpackuswb;
  vpshufb := both vpshufb; vpunpckhbw := both vpunpckhbw; vpunpcklbw := both vpunpcklbw;
}.

(** ** The instruction sequences of asm.go *)

Section Sequences.
Context {V : Type} `{VecOps V}.

(** The eight table registers. *)
Record tableRegs := mkRegs {
  r0Low : V; r4Low : V; r8Low : V; r12Low : V;
  r0High : V; r4High : V; r8High : V; r12High : V;
}.

(** [standardToAltMap]: the final values of [in0] (all high bytes) and
    [outLow] (all low bytes). *)
Definition standardToAltMap (in0 in1 convMask : V) : V * V :=
  let outLow := in0 in
  let in0 := vpsrlw 8 in0 in
  let outLow := vpand convMask outLow in
  let tmp := in1 in
  let in1 := vpsrlw 8 in1 in
  let tmp := vpand convMask tmp in
  let in0 := vpackuswb in0 in1 in
  let outLow := vpackuswb outLow tmp in
  (in0, outLow).

(** [altToStandardMap]: the final values of [out1] and [inLow]. *)
Definition altToStandardMap (inLow inHigh : V) : V * V :=
  let out1 := inLow in
  let out1 := vpunpckhbw out1 inHigh in
  let inLow := vpunpcklbw inLow inHigh in
  (out1, inLow).

(** [mulAltMapByte]: the final value of [out]. *)
Definition mulAltMapByte (s0 s4 s8 s12 inLow inHigh mulMask : V) : V :=
  let tmp0 := vpand mulMask inLow in
  let out := vpshufb s0 tmp0 in
  let tmp0 := vpsrlw 4 inLow in
  let tmp0 := vpand mulMask tmp0 in
  let tmp1 := vpshufb s4 tmp0 in
  let out := vpxor tmp1 out in
  let tmp0 := vpand mulMask inHigh in
  let tmp1 := vpshufb s8 tmp0 in
  let out := vpxor tmp1 out in
  let tmp0 := vpsrlw 4 inHigh in
  let tmp0 := vpand mulMask tmp0 in
  let tmp1 := vpshufb s12 tmp0 in
  vpxor tmp1 out.

(** [mulAltMap]: [outLow] and [outHigh]. *)
Definition mulAltMap (t : tableRegs) (inLow inHigh mulMask : V) : V * V :=
  (mulAltMapByte (r0Low t) (r4Low t) (r8Low t) (r12Low t) inLow inHigh mulMask,
   mulAltMapByte (r0High t) (r4High t) (r8High t) (r12High t) inLow inHigh mulMask).

(** The planar math of one loop turn of [generateMul]: the registers that are
    stored to the first and to the second half of the block. *)
Definition mulBlock (t : tableRegs) (convMask mulMask in0 in1 : V) : V * V :=
  let '(in0, tmp0) := standardToAltMap in0 in1 convMask in
  let '(in1, tmp1) := mulAltMap t tmp0 in0 mulMask in
  let '(in0, in1) := altToStandardMap in1 tmp1 in
  (in0, in1).
End Sequences.
Arguments tableRegs : clear implicits.

(** The masks, as one lane. *)
Definition mulMaskLane : lane := replicate 16 0x0f.
Definition convMaskLane : lane := mjoin (replicate 8 [0xff; 0x00]).

(** The table registers of the SSSE3 kernels, and of the AVX2 ones, which
    [VBROADCASTI128] fills with the same 16 bytes twice. *)
Definition xmmRegs (e : mulTable64Entry) : tableRegs lane :=
  mkRegs (s0Low e) (s4Low e) (s8Low e) (s12Low e) (s0High e) (s4High e) (s8High e) (s12High e).

Definition bcast (v : lane) : lane * lane := (v, v).

Definition ymmRegs (e : mulTable64Entry) : tableRegs (lane * lane) :=
  mkRegs (bcast (s0Low e)) (bcast (s4Low e)) (bcast (s8Low e)) (bcast (s12Low e))
         (bcast (s0High e)) (bcast (s4High e)) (bcast (s8High e)) (bcast (s12High e)).

(** ** Loads, stores and loops *)

(** An unaligned load of [n] bytes. *)
Definition load (n : nat) (l : list Z) (i : Z) : result (list Z) :=
  slice_at l i (i + Z.of_nat n).

Definition store (l : list Z) (i : Z) (v : list Z) : result (list Z) :=
  _ ← slice_at l i (i + Z.of_nat (length v));
  Ok (take (Z.to_nat i) l ++ v ++ drop (Z.to_nat i + length v) l).

Definition load_ymm (l : list Z) (i : Z) : result (lane * lane) :=
  a ← load 16 l i; b ← load 16 l (i + 16); Ok (a, b).

Definition store_ymm (l : list Z) (i : Z) (v : lane * lane) : result (list Z) :=
  l ← store l i v.1; store l (i + 16) v.2.

(** [mulSliceSSSE3] and [mulAndAddSliceSSSE3]: the loop tests its counter after
    the body, so with no block to process it would run off the slice. *)
Definition ssse3_loop (body : list Z → Z → result (list Z)) (src : source) (out : list Z)
    : result (list Z) :=
  let AX := Z.shiftr (Z.of_nat (length (contents src out))) 5 in
  if AX =? 0 then Panic "access past the slice"
  else foldM (λ out k, body out (32 * k)) out (range 0 AX).

Definition ssse3_mul_turn (e : mulTable64Entry) (src : source) (out : list Z) (i : Z)
    : result (list Z) :=
  in1 ← load 16 (contents src out) i;
  in0 ← load 16 (contents src out) (i + 16);
  let '(x0, x1) := mulBlock (xmmRegs e) convMaskLane mulMaskLane in0 in1 in
  out ← store out i x0; store out (i + 16) x1.

Definition ssse3_mulAdd_turn (e : mulTable64Entry) (src : source) (out : list Z) (i : Z)
    : result (list Z) :=
  in1 ← load 16 (contents src out) i;
  in0 ← load 16 (contents src out) (i + 16);
  let '(x0, x1) := mulBlock (xmmRegs e) convMaskLane mulMaskLane in0 in1 in
  x2 ← load 16 out i;
  out ← store out i (vpxor x2 x0);
  x2 ← load 16 out (i + 16);
  store out (i + 16) (vpxor x2 x1).

Definition ssse3_mul (e : mulTable64Entry) (src : source) (out : list Z) : result (list Z) :=
  ssse3_loop (ssse3_mul_turn e src) src out.

Definition ssse3_mulAdd (e : mulTable64Entry) (src : source) (out : list Z) : result (list Z) :=
  ssse3_loop (ssse3_mulAdd_turn e src) src out.

(** The loops [generateMul] and [generateMulAndAdd] emit. *)
Definition avx2_loop (body : list Z → Z → result (list Z)) (src : source) (out : list Z)
    : result (list Z) :=
  let AX := Z.shiftr (Z.of_nat (length (contents src out))) 6 in
  foldM (λ out k, body out (64 * k)) out (range 0 AX).

Definition generateMul_turn (e : mulTable64Entry) (src : source) (out : list Z) (i : Z)
    : result (list Z) :=
  in1 ← load_ymm (contents src out) i;
  in0 ← load_ymm (contents src out) (i + 32);
  let '(in0, in1) := mulBlock (ymmRegs e) (bcast convMaskLane) (bcast mulMaskLane) in0 in1 in
  out ← store_ymm out i in0; store_ymm out (i + 32) in1.

Definition generateMulAndAdd_turn (e : mulTable64Entry) (src : source) (out : list Z) (i : Z)
    : result (list Z) :=
  in1 ← load_ymm (contents src out) i;
  in0 ← load_ymm (contents src out) (i + 32);
  let '(in0, in1) := mulBlock (ymmRegs e) (bcast convMaskLane) (bcast mulMaskLane) in0 in1 in
  out0 ← load_ymm out i;
  out1 ← load_ymm out (i + 32);
  let in0 := vpxor out0 in0 in
  let in1 := vpxor out1 in1 in
  out ← store_ymm out i in0; store_ymm out (i + 32) in1.

Definition generateMul (e : mulTable64Entry) (src : source) (out : list Z) : result (list Z) :=
  avx2_loop (generateMul_turn e src) src out.

Definition generateMulAndAdd (e : mulTable64Entry) (src : source) (out : list Z)
    : result (list Z) :=
  avx2_loop (generateMulAndAdd_turn e src) src out.

#[export] Instance simd_kernels : VectorKernels := {
  mulSliceSSSE3 := ssse3_mul;
  mulAndAddSliceSSSE3 := ssse3_mulAdd;
  MulByteSliceLE_AVX2 := generateMul;
  MulAndAddByteSliceLE_AVX2 := generateMulAndAdd;
}.

(** ** One block multiplies its elements

    Every intermediate register is described as a function of the sixteen words
    of the block, in the order the packing leaves them. *)

Definition lo8 (w : Z) : Z := w mod 256.
Definition hi8 (w : Z) : Z := w / 256.

Lemma sat8_byte w : u8 w → sat8 w = w.
Proof. intros Hw. unfold sat8. rewrite (proj2 (Z.ltb_lt _ _)) by zlia. zlia. Qed.

Lemma pack_low v : bytes v → length v = 16%nat →
  sat8 <$> to_words (vpand convMaskLane v) = lo8 <$> to_words v.
Proof.
  intros Hb Hl. do 16 (destruct v as [|? v]; [done|]). destruct v; [|done].
  repeat (apply Forall_cons in Hb as [? Hb]). unfold convMaskLane. cbn.
  assert (∀ a b, u8 a → sat8 (le_combine [Z.land 255 a; Z.land 0 b]) = lo8 (le_combine [a; b])) as E.
  { clear. intros a b Ha. rewrite !le_combine_2, Z.land_0_l, Z.land_comm.
    change 255 with (Z.ones 8). rewrite Z.land_ones by lia. unfold lo8.
    rewrite sat8_byte; dlia. }
  change (?a + 256 * (?b + 256 * 0)) with (le_combine [a; b]) in *.
  repeat f_equal; by apply E.
Qed.

Lemma words_shift n v : bytes v → 0 <= n →
  to_words (vpsrlw n v) = (λ w, Z.shiftr w n) <$> to_words v.
Proof.
  intros Hb Hn. apply to_of_words. apply Forall_fmap.
  eapply Forall_impl; [by apply to_words_u16|]. intros w Hw. simpl.
  assert (0 < 2 ^ n) by (apply Z.pow_pos_nonneg; lia).
  rewrite Z.shiftr_div_pow2 by done. split; [apply Z.div_pos; zlia|].
  apply Z.le_lt_trans with w; [apply Z.div_le_upper_bound; unfold u16 in Hw; nia|zlia].
Qed.

Lemma pack_high v : bytes v → sat8 <$> to_words (vpsrlw 8 v) = hi8 <$> to_words v.
Proof.
  intros Hb. rewrite words_shift by (done || lia). rewrite <- list_fmap_compose.
  apply list_fmap_ext. intros i w Hw. simpl.
  assert (u16 w) as Hu.
  { pose proof (to_words_u16 v Hb) as Hall. rewrite Forall_lookup in Hall. by eapply Hall. }
  rewrite Z.shiftr_div_pow2 by lia. change (2 ^ 8) with 256. unfold hi8.
  apply sat8_byte. dlia.
Qed.

Section Planar.
Context (W : list Z) (HW : Forall u16 W).

Lemma planar_ext (f g : Z → Z) : (∀ w, u16 w → f w = g w) → f <$> W = g <$> W.
Proof.
  intros Hfg. apply list_fmap_ext. intros i w Hw. apply Hfg.
  rewrite Forall_lookup in HW. by eapply HW.
Qed.

Lemma planar_bytes (f : Z → Z) : (∀ w, u16 w → u8 (f w)) → bytes (f <$> W).
Proof. intros Hf. apply Forall_fmap. eapply Forall_impl; [apply HW|]. apply Hf. Qed.

Lemma planar_xor (f g : Z → Z) :
  vpxor (f <$> W : lane) (g <$> W) = (λ w, Z.lxor (f w) (g w)) <$> W.
Proof.
  change (zip_with Z.lxor (f <$> W) (g <$> W) = (λ w, Z.lxor (f w) (g w)) <$> W).
  clear. induction W as [|w l IH]; [done|]. rewrite !fmap_cons. simpl. by f_equal.
Qed.

Lemma planar_mask (f : Z → Z) : length W = 16%nat →
  vpand mulMaskLane (f <$> W) = (λ w, Z.land (f w) 15) <$> W.
Proof.
  intros Hl. change (zip_with Z.land (replicate 16 15) (f <$> W) = (λ w, Z.land (f w) 15) <$> W).
  rewrite <- Hl. clear. induction W as [|w l IH]; [done|].
  rewrite !fmap_cons. simpl. by rewrite IH, Z.land_comm.
Qed.

Lemma planar_shufb t (f : Z → Z) : (∀ w, u16 w → 0 <= f w < 16) →
  vpshufb t (f <$> W) = (λ w, default 0 (t !! Z.to_nat (f w))) <$> W.
Proof.
  intros Hf. change (vpshufb t (f <$> W)) with
    ((λ i, if Z.testbit i 7 then 0 else default 0 (t !! Z.to_nat (Z.land i 15))) <$> (f <$> W)).
  rewrite <- list_fmap_compose. apply planar_ext. intros w Hw. unfold compose.
  specialize (Hf w Hw). rewrite (testbit_bound 4) by lia.
  replace (Z.land (f w) 15) with (f w); [done|].
  change 15 with (Z.ones 4). rewrite Z.land_ones, Z.mod_small by lia. done.
Qed.
End Planar.

(** The high nibbles of a register of bytes: the shift moves bits across the
    two bytes of a word, and the mask removes them. *)
Lemma shift_mask v : bytes v → length v = 16%nat →
  vpand mulMaskLane (vpsrlw 4 v) = (λ b, Z.shiftr b 4) <$> v.
Proof.
  intros Hb Hl.
  assert (∀ l m, bytes l → length l = (2 * m)%nat →
    zip_with Z.land (replicate (2 * m) 15) (of_words ((λ w, Z.shiftr w 4) <$> to_words l))
    = (λ b, Z.shiftr b 4) <$> l) as E; [|by apply (E v 8%nat)].
  clear. intros l. pattern l. apply pairs_ind; clear l.
  - intros [|m] _ Hm; [done|simpl in Hm; lia].
  - intros a m _ Hm. simpl in Hm. lia.
  - intros a b l IH [|m] Hb Hm; [simpl in Hm; lia|].
    apply Forall_cons in Hb as [Ha Hb]. apply Forall_cons in Hb as [Hb Hl].
    replace (2 * S m)%nat with (S (S (2 * m))) by lia.
    change (to_words (a :: b :: l)) with (le_combine [a; b] :: to_words l).
    rewrite fmap_cons. cbn [replicate of_words le_split app zip_with].
    rewrite IH; [|done|simpl in Hm; lia]. rewrite !fmap_cons.
    rewrite le_combine_2, !Z.shiftr_div_pow2 by lia. change (2 ^ 4) with 16.
    rewrite !(Z.land_comm 15). change 15 with (Z.ones 4). rewrite !Z.land_ones by lia.
    change (2 ^ 4) with 16. repeat f_equal; dlia.
Qed.

(** A byte of the product from the four nibble tables. *)
Definition nibbles (t0 t4 t8 t12 : list Z) (w : Z) : Z :=
  Z.lxor (default 0 (t12 !! Z.to_nat (Z.shiftr (hi8 w) 4)))
  (Z.lxor (default 0 (t8 !! Z.to_nat (Z.land (hi8 w) 15)))
  (Z.lxor (default 0 (t4 !! Z.to_nat (Z.shiftr (lo8 w) 4)))
          (default 0 (t0 !! Z.to_nat (Z.land (lo8 w) 15))))).

Lemma land15 z : 0 <= Z.land z 15 < 16.
Proof. change 15 with (Z.ones 4). rewrite Z.land_ones by lia. change (2 ^ 4) with 16. dlia. Qed.

Lemma shift4 b : u8 b → 0 <= Z.shiftr b 4 < 16.
Proof. intros Hb. rewrite Z.shiftr_div_pow2 by lia. change (2 ^ 4) with 16. dlia. Qed.

Lemma lo8_u8 w : u16 w → u8 (lo8 w).
Proof. unfold lo8. dlia. Qed.
Lemma hi8_u8 w : u16 w → u8 (hi8 w).
Proof. unfold hi8. dlia. Qed.

Lemma mulAltMapByte_planar W t0 t4 t8 t12 : Forall u16 W → length W = 16%nat →
  mulAltMapByte (V := lane) t0 t4 t8 t12 (lo8 <$> W) (hi8 <$> W) mulMaskLane
  = nibbles t0 t4 t8 t12 <$> W.
Proof.
  intros HW Hl. unfold mulAltMapByte. cbn zeta.
  rewrite !shift_mask by (rewrite ?length_fmap; auto using planar_bytes, lo8_u8, hi8_u8).
  rewrite !planar_mask by done. rewrite <- !list_fmap_compose.
  rewrite !(planar_shufb W HW) by
    (intros; unfold compose; auto using land15, shift4, lo8_u8, hi8_u8).
  by rewrite !planar_xor.
Qed.

(** The nibbles of a word, put back in their places, are the word. *)
Lemma lxor_shiftl k a b : 0 <= k → 0 <= a < 2 ^ k → Z.lxor (Z.shiftl b k) a = b * 2 ^ k + a.
Proof.
  intros Hk Ha. rewrite <- Z.shiftl_mul_pow2 by lia. symmetry. apply Z.add_nocarry_lxor.
  apply Z.bits_inj'. intros i Hi. rewrite Z.land_spec, Z.shiftl_spec, Z.testbit_0_l by lia.
  destruct (Z.lt_ge_cases i k); [by rewrite (Z.testbit_neg_r b) by lia|].
  by rewrite (testbit_bound k a), andb_false_r.
Qed.

Lemma word_nibbles w : u16 w →
  Z.lxor (Z.shiftl (Z.shiftr (hi8 w) 4) 12) (Z.lxor (Z.shiftl (Z.land (hi8 w) 15) 8)
    (Z.lxor (Z.shiftl (Z.shiftr (lo8 w) 4) 4) (Z.shiftl (Z.land (lo8 w) 15) 0))) = w.
Proof.
  intros Hw. change 15 with (Z.ones 4). rewrite !Z.land_ones, !Z.shiftr_div_pow2 by lia.
  change (2 ^ 4) with 16. rewrite Z.shiftl_0_r. unfold hi8, lo8.
  rewrite (lxor_shiftl 4) by dlia. rewrite (lxor_shiftl 8) by dlia.
  rewrite (lxor_shiftl 12) by dlia. dlia.
Qed.

Section Nibbles.
Context (c : Z) (w : Z) (Hw : u16 w).
Let e := entry_upto c 16.

(** Four lookups in nibble tables of an additive function give its value. *)
Lemma nibbles_additive (g : Z → Z) :
  (∀ a b, g (Z.lxor a b) = Z.lxor (g a) (g b)) →
  nibbles (filled (λ j, g (Z.shiftl j 0)) 16) (filled (λ j, g (Z.shiftl j 4)) 16)
    (filled (λ j, g (Z.shiftl j 8)) 16) (filled (λ j, g (Z.shiftl j 12)) 16) w = g w.
Proof.
  intros Hg. unfold nibbles.
  rewrite !filled_lookup by auto using land15, shift4, lo8_u8, hi8_u8. cbn [default].
  unfold id. rewrite <- !Hg. by rewrite word_nibbles.
Qed.

Lemma nibbles_low : nibbles (s0Low e) (s4Low e) (s8Low e) (s12Low e) w = wrap8 (gmul c w).
Proof.
  apply (nibbles_additive (λ j, wrap8 (gmul c j))). intros a b.
  by rewrite gmul_lxor_r, wrap8_lxor.
Qed.

Lemma nibbles_high :
  nibbles (s0High e) (s4High e) (s8High e) (s12High e) w = wrap8 (Z.shiftr (gmul c w) 8).
Proof.
  apply (nibbles_additive (λ j, wrap8 (Z.shiftr (gmul c j) 8))). intros a b.
  by rewrite gmul_lxor_r, Z.shiftr_lxor, wrap8_lxor.
Qed.
End Nibbles.

Lemma interleave_words (g : Z → Z) W :
  interleave ((λ w, wrap8 (g w)) <$> W) ((λ w, wrap8 (Z.shiftr (g w) 8)) <$> W)
  = of_words (g <$> W).
Proof.
  induction W as [|w W IH]; [done|]. rewrite !fmap_cons. cbn [interleave of_words].
  rewrite IH, Z.shiftr_div_pow2 by lia. done.
Qed.

(** One loop turn on two 16-byte registers. *)
Lemma mulBlock_lane c in0 in1 :
  bytes in0 → bytes in1 → length in0 = 16%nat → length in1 = 16%nat →
  mulBlock (xmmRegs (entry_upto c 16)) convMaskLane mulMaskLane in0 in1
  = (of_words (gmul c <$> to_words in1), of_words (gmul c <$> to_words in0)).
Proof.
  intros Hb0 Hb1 Hl0 Hl1. set (e := entry_upto c 16).
  assert (length (to_words in0) = 8%nat) as Hw0 by (by rewrite to_words_length, Hl0).
  assert (length (to_words in1) = 8%nat) as Hw1 by (by rewrite to_words_length, Hl1).
  set (W := to_words in0 ++ to_words in1).
  assert (Forall u16 W) as HW by (apply Forall_app; split; by apply to_words_u16).
  assert (length W = 16%nat) as HlW by (unfold W; rewrite length_app; lia).
  unfold mulBlock.
  assert (standardToAltMap (V := lane) in0 in1 convMaskLane = (hi8 <$> W, lo8 <$> W)) as ->.
  { unfold standardToAltMap. cbn zeta. unfold vpackuswb at 1 2. cbn [lane_ops].
    rewrite !pack_low, !pack_high by done. unfold W. by rewrite !fmap_app. }
  assert (mulAltMap (V := lane) (xmmRegs e) (lo8 <$> W) (hi8 <$> W) mulMaskLane
    = ((λ w, wrap8 (gmul c w)) <$> W, (λ w, wrap8 (Z.shiftr (gmul c w) 8)) <$> W)) as ->.
  { unfold mulAltMap. cbn [r0Low r4Low r8Low r12Low r0High r4High r8High r12High xmmRegs].
    rewrite !mulAltMapByte_planar by done.
    f_equal; apply (planar_ext W HW); intros; [by apply nibbles_low|by apply nibbles_high]. }
  unfold altToStandardMap. cbn zeta. cbn [vpunpckhbw vpunpcklbw lane_ops].
  rewrite <- !fmap_drop, <- !fmap_take, !interleave_words. unfold W.
  by rewrite drop_app_length', take_app_length'.
Qed.

(** ** The loops

    After the turns before offset [i], the output is [progress R out i], where
    [R] is the elementwise result: every turn reads what no turn has written
    yet, also when the input is the output. *)

Lemma store_progress r o i n :
  length r = length o → 0 <= i → i + Z.of_nat n <= Z.of_nat (length o) →
  store (progress r o (Z.to_nat i)) i (seg i (i + Z.of_nat n) r)
  = Ok (progress r o (Z.to_nat (i + Z.of_nat n))).
Proof.
  intros Hl Hi Hn.
  assert (length (seg i (i + Z.of_nat n) r) = n) as Hs.
  { apply Nat2Z.inj. rewrite seg_length; lia. }
  unfold store. rewrite Hs, slice_at_ok by (rewrite ?progress_length by lia; lia).
  cbn [mbind result_bind]. unfold progress.
  rewrite take_app_length' by (rewrite length_take; lia).
  rewrite drop_app_ge by (rewrite length_take; lia).
  rewrite length_take, drop_drop.
  replace (Z.to_nat i + (Z.to_nat i + n - Z.to_nat i `min` length r))%nat
    with (Z.to_nat (i + Z.of_nat n)) by lia.
  rewrite app_assoc. do 2 f_equal.
  replace (Z.to_nat (i + Z.of_nat n)) with (Z.to_nat i + n)%nat by lia.
  unfold seg. replace (Z.to_nat (i + Z.of_nat n - i)) with n by lia.
  apply take_take_drop.
Qed.

Section Loops.
Context (f : Z → Z → Z) (src : source) (out0 : list Z).
Let inp := contents src out0.
Context (Hinb : bytes inp) (Houtb : bytes out0).
Context (Hlen : length inp = length out0) (Heven : Nat.Even (length out0)).
Let R := elementwise f inp out0.
Let P (i : Z) := progress R out0 (Z.to_nat i).

Lemma lp_length : length R = length out0.
Proof. by apply elementwise_length. Qed.

Lemma load_contents i j n : 0 <= i <= j → j + Z.of_nat n <= Z.of_nat (length out0) →
  load n (contents src (P i)) j = Ok (seg j (j + Z.of_nat n) inp).
Proof.
  intros Hij Hn. unfold load. pose proof lp_length as HR.
  rewrite slice_at_ok; [|lia|].
  - f_equal. apply list_eq. intros k. unfold seg. rewrite !lookup_take.
    case_decide; [|done]. rewrite !lookup_drop. apply contents_progress; [done|lia|lia].
  - unfold P. rewrite contents_progress_length by (done || lia). fold inp. lia.
Qed.

Lemma load_out i j n : 0 <= i <= j → j + Z.of_nat n <= Z.of_nat (length out0) →
  load n (P i) j = Ok (seg j (j + Z.of_nat n) out0).
Proof.
  intros Hij Hn. unfold load. pose proof lp_length as HR.
  rewrite slice_at_ok; [|lia|unfold P; rewrite progress_length by lia; lia].
  f_equal. apply list_eq. intros k. unfold seg. rewrite !lookup_take.
  case_decide; [|done]. rewrite !lookup_drop. unfold P. by rewrite progress_lookup_ge by lia.
Qed.

Lemma store_elementwise i n : 0 <= i → i + Z.of_nat n <= Z.of_nat (length out0) →
  i mod 2 = 0 → Z.of_nat n mod 2 = 0 →
  store (P i) i (elementwise f (seg i (i + Z.of_nat n) inp) (seg i (i + Z.of_nat n) out0))
  = Ok (P (i + Z.of_nat n)).
Proof.
  intros Hi Hn He1 He2. rewrite <- elementwise_seg; [|done|lia|lia|done|].
  - unfold P. apply store_progress; [apply lp_length|lia|lia].
  - by rewrite Z.add_mod, He1, He2 by lia.
Qed.

(** A loop over blocks of [B] bytes whose turns each advance by one block. *)
Lemma block_loop (body : list Z → Z → result (list Z)) B AX :
  0 < B → 0 <= AX → Z.of_nat (length out0) = B * AX →
  (∀ k, 0 <= k < AX → body (P (B * k)) (B * k) = Ok (P (B * k + B))) →
  foldM (λ out k, body out (B * k)) out0 (range 0 AX) = Ok R.
Proof.
  intros HB HA Hn Hbody. pose proof lp_length as HR.
  destruct (foldM_inv (λ out k, body out (B * k)) (λ k out, out = P (B * k)) AX 0 out0)
    as (out & -> & ->).
  - lia.
  - unfold P. rewrite Z.mul_0_r. symmetry. apply progress_0.
  - intros k out Hk ->. rewrite Hbody by done. eexists. split; [done|]. f_equal. lia.
  - f_equal. apply progress_all; [done|]. lia.
Qed.
End Loops.

(** ** The four kernels *)

Lemma mul_lane_elementwise c v y : length v = length y → Nat.Even (length y) →
  of_words (gmul c <$> to_words v) = elementwise (mul_elem c) v y.
Proof.
  intros Hl _. unfold elementwise. f_equal.
  assert (length (to_words v) = length (to_words y)) as Hw by (by rewrite !to_words_length, Hl).
  revert Hw. generalize (to_words v), (to_words y). clear.
  intros V. induction V as [|a V IH]; intros [|b Y] Hw; try done.
  rewrite fmap_cons. simpl. f_equal. apply IH. by injection Hw.
Qed.

Lemma lxor_words a b : u16 a → u16 b →
  zip_with Z.lxor (le_split 2 a) (le_split 2 b) = le_split 2 (Z.lxor a b).
Proof.
  intros Ha Hb. cbn [le_split zip_with].
  change (?z mod 256) with (wrap8 z). rewrite <- !wrap8_lxor.
  change 256 with (2 ^ 8). rewrite <- !Z.shiftr_div_pow2 by lia. by rewrite Z.shiftr_lxor.
Qed.

Lemma add_lane_elementwise c v y : u16 c → bytes v → bytes y →
  length v = length y → Nat.Even (length y) →
  zip_with Z.lxor y (of_words (gmul c <$> to_words v)) = elementwise (mulAdd_elem c) v y.
Proof.
  intros Hc Hv Hy Hl He. unfold elementwise. rewrite <- (of_to_words y) at 1 by done.
  assert (length (to_words v) = length (to_words y)) as Hw by (by rewrite !to_words_length, Hl).
  pose proof (to_words_u16 v Hv) as Hu. pose proof (to_words_u16 y Hy) as Hu'.
  revert Hw Hu Hu'. generalize (to_words v), (to_words y). clear - Hc.
  intros V. induction V as [|a V IH]; intros [|b Y] Hw HV HY; try done.
  apply Forall_cons in HV as [Ha HV]. apply Forall_cons in HY as [Hb HY].
  rewrite fmap_cons. cbn [of_words zip_with]. rewrite zip_with_app by done.
  rewrite lxor_words by auto with width. f_equal. apply IH; [by injection Hw|done..].
Qed.

Section Kernels.
Context (tb : tables) `{!TablesReady tb}.

(** What a turn does with the 16-byte pieces of a block. *)
Context (c : Z) (src : source) (out0 : list Z).
Let inp := contents src out0.
Context (Hc : u16 c) (Hinb : bytes inp) (Houtb : bytes out0).
Context (Hlen : length inp = length out0).
Let e := entry_upto c 16.
Let piece i l : list Z := seg i (i + 16) l.
Let P f (i : Z) := progress (elementwise f inp out0) out0 (Z.to_nat i).

Lemma piece_ok i l : 0 <= i → i + 16 <= Z.of_nat (length l) → bytes l →
  length (piece i l) = 16%nat ∧ bytes (piece i l).
Proof.
  intros Hi Hn Hb. split; [|by apply seg_bytes].
  apply Nat2Z.inj. unfold piece. rewrite seg_length; lia.
Qed.

Lemma piece_inp i : 0 <= i → i + 16 <= Z.of_nat (length out0) →
  length (piece i inp) = 16%nat ∧ bytes (piece i inp).
Proof. intros. apply piece_ok; [done|lia|done]. Qed.

Lemma piece_out i : 0 <= i → i + 16 <= Z.of_nat (length out0) →
  length (piece i out0) = 16%nat ∧ bytes (piece i out0).
Proof. intros. by apply piece_ok. Qed.

Lemma piece_mul i : 0 <= i → i + 16 <= Z.of_nat (length out0) →
  of_words (gmul c <$> to_words (piece i inp)) =
  elementwise (mul_elem c) (piece i inp) (piece i out0).
Proof.
  intros Hi Hn. destruct (piece_inp i), (piece_out i); try done.
  apply mul_lane_elementwise; [congruence|]. by exists 8%nat.
Qed.

Lemma piece_add i : 0 <= i → i + 16 <= Z.of_nat (length out0) →
  vpxor (piece i out0 : lane) (of_words (gmul c <$> to_words (piece i inp))) =
  elementwise (mulAdd_elem c) (piece i inp) (piece i out0).
Proof.
  intros Hi Hn. destruct (piece_inp i), (piece_out i); try done.
  apply (add_lane_elementwise c); [done..|congruence|]. by exists 8%nat.
Qed.

Lemma piece_block i j : 0 <= i → 0 <= j →
  i + 16 <= Z.of_nat (length out0) → j + 16 <= Z.of_nat (length out0) →
  mulBlock (xmmRegs e) convMaskLane mulMaskLane (piece i inp) (piece j inp)
  = (of_words (gmul c <$> to_words (piece j inp)), of_words (gmul c <$> to_words (piece i inp))).
Proof.
  intros. destruct (piece_inp i), (piece_inp j); try done.
  by apply mulBlock_lane.
Qed.

Context (Hpos : 0 < Z.of_nat (length out0)).

Lemma loop_bound B : (B = 32 ∨ B = 64) → Z.of_nat (length out0) mod B = 0 →
  0 < Z.of_nat (length out0) / B ∧ Z.of_nat (length out0) = B * (Z.of_nat (length out0) / B) ∧
  Nat.Even (length out0).
Proof.
  intros [-> | ->] Hm; (split; [dlia|split; [dlia|apply even_length_mod; dlia]]).
Qed.

Lemma ssse3_loop_ok f body : Nat.Even (length out0) →
  Z.of_nat (length out0) mod 32 = 0 →
  (∀ k, 0 <= k < Z.of_nat (length out0) / 32 → body (P f (32 * k)) (32 * k) = Ok (P f (32 * k + 32))) →
  ssse3_loop body src out0 = Ok (elementwise f inp out0).
Proof.
  intros He Hm Hb. destruct (loop_bound 32) as (HA & Hn & _); [by left|done|].
  unfold ssse3_loop. fold inp. rewrite Hlen, Z.shiftr_div_pow2 by lia. change (2 ^ 5) with 32.
  destruct (Z.eqb_spec (Z.of_nat (length out0) / 32) 0); [lia|].
  apply (block_loop f src out0); (done || lia).
Qed.

Lemma avx2_loop_ok f body : Nat.Even (length out0) →
  Z.of_nat (length out0) mod 64 = 0 →
  (∀ k, 0 <= k < Z.of_nat (length out0) / 64 → body (P f (64 * k)) (64 * k) = Ok (P f (64 * k + 64))) →
  avx2_loop body src out0 = Ok (elementwise f inp out0).
Proof.
  intros He Hm Hb. destruct (loop_bound 64) as (HA & Hn & _); [by right|done|].
  unfold avx2_loop. fold inp. rewrite Hlen, Z.shiftr_div_pow2 by lia. change (2 ^ 6) with 64.
  apply (block_loop f src out0); (done || lia).
Qed.

Context (Heven : Nat.Even (length out0)).

(** Loads and stores of the 16 bytes at an even offset, at or after the mark. *)
Lemma get_in f i j : 0 <= i <= j → j + 16 <= Z.of_nat (length out0) →
  load 16 (contents src (P f i)) j = Ok (piece j inp).
Proof. apply (load_contents f src out0 Hlen Heven i j 16). Qed.

Lemma get_out f i j : 0 <= i <= j → j + 16 <= Z.of_nat (length out0) →
  load 16 (P f i) j = Ok (piece j out0).
Proof. apply (load_out f src out0 Hlen Heven i j 16). Qed.

Lemma put f i : 0 <= i → i + 16 <= Z.of_nat (length out0) → i mod 2 = 0 →
  store (P f i) i (elementwise f (piece i inp) (piece i out0)) = Ok (P f (i + 16)).
Proof. intros. by apply (store_elementwise f src out0 Hlen Heven i 16). Qed.

Ltac pieces := rewrite ?get_in, ?get_out by lia; cbn [mbind result_bind].

Lemma ssse3_mul_ok : Z.of_nat (length out0) mod 32 = 0 →
  ssse3_mul e src out0 = Ok (elementwise (mul_elem c) inp out0).
Proof.
  intros Hm. apply ssse3_loop_ok; [done..|]. intros k Hk. set (i := 32 * k).
  assert (0 <= i ∧ i + 32 <= Z.of_nat (length out0) ∧ i mod 2 = 0) as (? & ? & ?) by (unfold i; dlia).
  unfold ssse3_mul_turn. pieces.
  rewrite piece_block by lia. rewrite !piece_mul by lia.
  rewrite put by lia. cbn [mbind result_bind].
  rewrite put by (lia || dlia). do 2 f_equal. lia.
Qed.

Lemma ssse3_mulAdd_ok : Z.of_nat (length out0) mod 32 = 0 →
  ssse3_mulAdd e src out0 = Ok (elementwise (mulAdd_elem c) inp out0).
Proof.
  intros Hm. apply ssse3_loop_ok; [done..|]. intros k Hk. set (i := 32 * k).
  assert (0 <= i ∧ i + 32 <= Z.of_nat (length out0) ∧ i mod 2 = 0) as (? & ? & ?) by (unfold i; dlia).
  unfold ssse3_mulAdd_turn. pieces.
  rewrite piece_block by lia. pieces. rewrite piece_add by lia.
  rewrite put by lia. cbn [mbind result_bind].
  rewrite get_out by lia. cbn [mbind result_bind]. rewrite piece_add by lia.
  rewrite put by (lia || dlia). do 2 f_equal. lia.
Qed.

(** The AVX2 registers are two lanes side by side. *)
Lemma mulBlock_pair (t : mulTable64Entry) conv mask (a1 a2 b1 b2 : lane) :
  mulBlock (ymmRegs t) (bcast conv) (bcast mask) (a1, a2) (b1, b2) =
  let '(x0, x1) := mulBlock (xmmRegs t) conv mask a1 b1 in
  let '(y0, y1) := mulBlock (xmmRegs t) conv mask a2 b2 in
  ((x0, y0), (x1, y1)).
Proof. reflexivity. Qed.

Ltac ymm := unfold load_ymm, store_ymm; pieces.

Ltac puts := repeat (rewrite put by (lia || dlia); cbn [mbind result_bind fst snd]).

Lemma generateMul_ok : Z.of_nat (length out0) mod 64 = 0 →
  generateMul e src out0 = Ok (elementwise (mul_elem c) inp out0).
Proof.
  intros Hm. apply avx2_loop_ok; [done..|]. intros k Hk. set (i := 64 * k).
  assert (0 <= i ∧ i + 64 <= Z.of_nat (length out0) ∧ i mod 2 = 0) as (? & ? & ?) by (unfold i; dlia).
  unfold generateMul_turn. ymm. rewrite mulBlock_pair, !piece_block, !piece_mul by lia. cbn [fst snd].
  rewrite <- Z.add_assoc. change (32 + 16) with 48.
  rewrite put by lia. cbn [mbind result_bind]. rewrite put by (lia || dlia). cbn [mbind result_bind].
  replace (i + 16 + 16) with (i + 32) by lia.
  rewrite put by (lia || dlia). cbn [mbind result_bind].
  replace (i + 32 + 16) with (i + 48) by lia.
  rewrite put by (lia || dlia). do 2 f_equal. lia.
Qed.

Lemma generateMulAndAdd_ok : Z.of_nat (length out0) mod 64 = 0 →
  generateMulAndAdd e src out0 = Ok (elementwise (mulAdd_elem c) inp out0).
Proof.
  intros Hm. apply avx2_loop_ok; [done..|]. intros k Hk. set (i := 64 * k).
  assert (0 <= i ∧ i + 64 <= Z.of_nat (length out0) ∧ i mod 2 = 0) as (? & ? & ?) by (unfold i; dlia).
  unfold generateMulAndAdd_turn. ymm. rewrite mulBlock_pair, !piece_block by lia. ymm.
  cbn [vpxor pair_ops both fst snd]. rewrite !piece_add by lia.
  rewrite <- Z.add_assoc. change (32 + 16) with 48.
  rewrite put by lia. cbn [mbind result_bind]. rewrite put by (lia || dlia). cbn [mbind result_bind].
  replace (i + 16 + 16) with (i + 32) by lia.
  rewrite put by (lia || dlia). cbn [mbind result_bind].
  replace (i + 32 + 16) with (i + 48) by lia.
  rewrite put by (lia || dlia). do 2 f_equal. lia.
Qed.
End Kernels.

Lemma kernel_entry (tb : tables) `{!TablesReady tb} c e :
  u16 c → mulTable64 tb c = Ok e → e = entry_upto c 16.
Proof. intros Hc. rewrite mulTable64_ok by done. by intros [= <-]. Qed.

#[export] Instance simd_kernels_ok (tb : tables) `{!TablesReady tb} :
  VectorKernelsOk tb simd_kernels.
Proof.
  split; intros c e src out Hc He Hb Hbo Hl Hpos Hm;
    rewrite (kernel_entry tb c e) by done;
    (assert (Nat.Even (length out)) by (apply even_length_mod;
       unfold ssse3BlockBytes, avx2BlockBytes in Hm; dlia));
    eauto using ssse3_mul_ok, ssse3_mulAdd_ok, generateMul_ok, generateMulAndAdd_ok.
Qed.
