(* ===== verification/LinAlg.v ===== *)
(** * Linear algebra over a field of characteristic two

    The mathematics behind src/rs/matrix.go, stated for matrices given as
    functions of their indices and proved against the interface [BinaryField]
    alone.  Row operations keep the solutions of a linear system; a matrix
    whose elimination stops has a nonzero vector in its kernel; a Vandermonde
    matrix with distinct nonzero generators has none. *)

From S2P Require Import Prelude Field.

Section LinAlg.
Context (elt : Z → Prop) (mul : Z → Z → Z) (inv : Z → Z) `{F : !BinaryField elt mul inv}.

Lemma elt_0 : elt 0. Proof. exact bf_zero. Qed.
Lemma elt_1 : elt 1. Proof. exact bf_one. Qed.
Lemma elt_add a b : elt a → elt b → elt (Z.lxor a b). Proof. apply bf_add. Qed.
Lemma elt_mul a b : elt a → elt b → elt (mul a b). Proof. apply bf_mul. Qed.
Lemma elt_inv a : elt a → a ≠ 0 → elt (inv a). Proof. apply bf_inv. Qed.
Lemma mul_comm a b : elt a → elt b → mul a b = mul b a.
Proof. apply bf_mul_comm. Qed.
Lemma mul_assoc a b c : elt a → elt b → elt c → mul a (mul b c) = mul (mul a b) c.
Proof. apply bf_mul_assoc. Qed.
Lemma mul_1_l a : elt a → mul 1 a = a.
Proof. apply bf_mul_1. Qed.
Lemma mul_add_r a b c : elt a → elt b → elt c →
  mul a (Z.lxor b c) = Z.lxor (mul a b) (mul a c).
Proof. apply bf_mul_add. Qed.
Lemma mul_inv_l a : elt a → a ≠ 0 → mul (inv a) a = 1.
Proof. apply bf_mul_inv. Qed.
#[local] Hint Resolve elt_0 elt_1 elt_add elt_mul elt_inv : core.

Lemma mul_0_r a : elt a → mul a 0 = 0.
Proof.
  intros Ha. pose proof (mul_add_r a 0 0 Ha elt_0 elt_0) as H.
  by rewrite !Z.lxor_nilpotent in H.
Qed.

Lemma mul_0_l a : elt a → mul 0 a = 0.
Proof. intros Ha. rewrite mul_comm by auto. by apply mul_0_r. Qed.

Lemma mul_1_r a : elt a → mul a 1 = a.
Proof. intros Ha. rewrite mul_comm by auto. by apply mul_1_l. Qed.

Lemma mul_add_l a b c : elt a → elt b → elt c →
  mul (Z.lxor a b) c = Z.lxor (mul a c) (mul b c).
Proof.
  intros Ha Hb Hc. rewrite mul_comm, mul_add_r by auto.
  by rewrite (mul_comm c a), (mul_comm c b) by auto.
Qed.

(** A nonzero factor can be cancelled. *)
Lemma mul_cancel a b c : elt a → elt b → elt c → a ≠ 0 → mul a b = mul a c → b = c.
Proof.
  intros Ha Hb Hc Ha0 Heq.
  rewrite <- (mul_1_l b), <- (mul_1_l c), <- (mul_inv_l a), <- !mul_assoc by auto.
  by rewrite Heq.
Qed.

Lemma mul_eq_0 a b : elt a → elt b → mul a b = 0 → a = 0 ∨ b = 0.
Proof.
  intros Ha Hb H. destruct (Z.eq_dec a 0) as [|Ha0]; [by left|right].
  apply (mul_cancel a); auto. by rewrite mul_0_r.
Qed.

(** ** Sums *)

Definition sum (lo hi : Z) (f : Z → Z) : Z := foldr (λ k s, Z.lxor (f k) s) 0 (range lo hi).

Lemma sum_nil lo hi f : hi <= lo → sum lo hi f = 0.
Proof. intros H. unfold sum. by rewrite range_nil. Qed.

Lemma sum_cons lo hi f : lo < hi → sum lo hi f = Z.lxor (f lo) (sum (lo + 1) hi f).
Proof. intros H. unfold sum. by rewrite range_cons. Qed.

Lemma sum_ext lo hi f g : (∀ k, lo <= k < hi → f k = g k) → sum lo hi f = sum lo hi g.
Proof.
  revert lo. refine (range_ind _ hi _ _); intros lo Hlo.
  - intros _. by rewrite !sum_nil.
  - intros IH H. rewrite !(sum_cons lo) by done. rewrite (H lo) by lia. f_equal. apply IH.
    intros k Hk. apply H. lia.
Qed.

Lemma sum_elt lo hi f : (∀ k, lo <= k < hi → elt (f k)) → elt (sum lo hi f).
Proof.
  revert lo. refine (range_ind _ hi _ _); intros lo Hlo.
  - intros _. rewrite sum_nil by done. auto.
  - intros IH H. rewrite sum_cons by done. apply elt_add; [apply H; lia|apply IH].
    intros k Hk. apply H. lia.
Qed.

Lemma sum_0 lo hi f : (∀ k, lo <= k < hi → f k = 0) → sum lo hi f = 0.
Proof.
  revert lo. refine (range_ind _ hi _ _); intros lo Hlo.
  - intros _. by apply sum_nil.
  - intros IH H. rewrite (sum_cons lo), H, IH by (lia || (intros; apply H; lia)). done.
Qed.

Lemma sum_lxor lo hi f g :
  sum lo hi (λ k, Z.lxor (f k) (g k)) = Z.lxor (sum lo hi f) (sum lo hi g).
Proof.
  revert lo. refine (range_ind _ hi _ _); intros lo Hlo.
  - by rewrite !sum_nil.
  - intros IH. rewrite !(sum_cons lo), IH by done. apply lxor_interchange.
Qed.

Lemma sum_mul lo hi c f : elt c → (∀ k, lo <= k < hi → elt (f k)) →
  sum lo hi (λ k, mul c (f k)) = mul c (sum lo hi f).
Proof.
  intros Hc. revert lo. refine (range_ind _ hi _ _); intros lo Hlo.
  - intros _. rewrite !sum_nil by done. by rewrite mul_0_r.
  - intros IH H. rewrite !(sum_cons lo) by done.
    assert (∀ k, lo + 1 <= k < hi → elt (f k)) by (intros; apply H; lia).
    rewrite IH, mul_add_r by (auto using sum_elt || (apply H; lia)). done.
Qed.

(** A sum with one term that is not zero. *)
Lemma sum_single lo hi f i : lo <= i < hi → (∀ k, lo <= k < hi → k ≠ i → f k = 0) →
  sum lo hi f = f i.
Proof.
  revert lo. refine (range_ind _ hi _ _); intros lo Hlo; [lia|].
  intros IH Hi H. rewrite sum_cons by done. destruct (Z.eq_dec lo i) as [->|Hne].
  - rewrite sum_0 by (intros; apply H; lia). apply Z.lxor_0_r.
  - rewrite H, IH by (lia || (intros; apply H; lia)). apply Z.lxor_0_l.
Qed.

Lemma sum_app lo mid hi f : lo <= mid <= hi →
  sum lo hi f = Z.lxor (sum lo mid f) (sum mid hi f).
Proof.
  revert lo. refine (range_ind _ mid _ _); intros lo Hlo.
  - intros H. rewrite (sum_nil lo mid) by lia. by replace mid with lo by lia.
  - intros IH H. rewrite (sum_cons lo hi), (sum_cons lo mid), IH by lia.
    by rewrite Z.lxor_assoc.
Qed.

Lemma sum_snoc lo hi f : lo <= hi → sum lo (hi + 1) f = Z.lxor (sum lo hi f) (f hi).
Proof.
  intros H. rewrite (sum_app lo hi) by lia. f_equal.
  rewrite sum_cons, sum_nil by lia. apply Z.lxor_0_r.
Qed.

(** ** Systems and row operations *)

Definition mat := Z → Z → Z.
Definition vec := Z → Z.

Definition dot (c : Z) (m : mat) (a : Z) (x : vec) : Z := sum 0 c (λ k, mul (m a k) (x k)).

(** [x] solves column [col] of [m * X = n]: [r] rows, [c] unknowns. *)
Definition solves (r c : Z) (m n : mat) (x : vec) (col : Z) : Prop :=
  ∀ a, 0 <= a < r → dot c m a x = n a col.

Definition swap (i j : Z) (m : mat) : mat :=
  λ a k, m (if a =? i then j else if a =? j then i else a) k.
Definition scale (i s : Z) (m : mat) : mat :=
  λ a k, if a =? i then mul s (m i k) else m a k.
Definition addRow (d s t : Z) (m : mat) : mat :=
  λ a k, if a =? d then Z.lxor (m d k) (mul t (m s k)) else m a k.

Definition elts (m : mat) : Prop := ∀ a k, elt (m a k).
Definition velts (x : vec) : Prop := ∀ k, elt (x k).

Lemma swap_elts i j m : elts m → elts (swap i j m).
Proof. intros H a k. apply H. Qed.
Lemma scale_elts i s m : elts m → elt s → elts (scale i s m).
Proof. intros H Hs a k. unfold scale. destruct (a =? i); auto. Qed.
Lemma addRow_elts d s t m : elts m → elt t → elts (addRow d s t m).
Proof. intros H Ht a k. unfold addRow. destruct (a =? d); auto. Qed.

Section Operations.
Context (r c : Z) (m n : mat) (x : vec) (col : Z).
Context (Hm : elts m) (Hn : elts n) (Hx : velts x).

Lemma dot_elt a : elt (dot c m a x).
Proof. apply sum_elt. intros. auto. Qed.

Lemma solves_swap i j : 0 <= i < r → 0 <= j < r →
  solves r c (swap i j m) (swap i j n) x col ↔ solves r c m n x col.
Proof.
  intros Hi Hj. unfold solves, swap, dot.
  split; intros H a Ha.
  - specialize (H (if a =? i then j else if a =? j then i else a)). cbn beta in H.
    destruct (Z.eqb_spec a i) as [Hai|Hai]; [|destruct (Z.eqb_spec a j) as [Haj|Haj]].
    + subst a. destruct (Z.eqb_spec j i) as [->|]; [by apply H|].
      rewrite Z.eqb_refl in H. by apply H.
    + subst a. rewrite Z.eqb_refl in H. by apply H.
    + rewrite (proj2 (Z.eqb_neq a i)), (proj2 (Z.eqb_neq a j)) in H by done. by apply H.
  - apply H. destruct (a =? i); [done|]. by destruct (a =? j).
Qed.

Lemma dot_scale i s a : elt s →
  dot c (scale i s m) a x = if a =? i then mul s (dot c m i x) else dot c m a x.
Proof.
  intros Hs. unfold dot, scale. destruct (a =? i); [|done].
  rewrite <- sum_mul by auto. apply sum_ext. intros. by rewrite mul_assoc by auto.
Qed.

Lemma solves_scale i s : elt s → s ≠ 0 → 
  solves r c (scale i s m) (scale i s n) x col ↔ solves r c m n x col.
Proof.
  intros Hs Hs0. unfold solves. split; intros H a Ha; specialize (H a Ha); revert H;
    rewrite dot_scale by done; unfold scale; destruct (Z.eqb_spec a i) as [->|]; try done.
  - intros Heq. apply (mul_cancel s); auto using dot_elt.
  - by intros ->.
Qed.

Lemma dot_addRow d s t a : elt t →
  dot c (addRow d s t m) a x =
  if a =? d then Z.lxor (dot c m d x) (mul t (dot c m s x)) else dot c m a x.
Proof.
  intros Ht. unfold dot, addRow. destruct (a =? d); [|done].
  rewrite <- sum_mul, <- sum_lxor by auto. apply sum_ext. intros.
  by rewrite mul_add_l, mul_assoc by auto.
Qed.

Lemma solves_addRow d s t : 0 <= s < r → d ≠ s → elt t →
  solves r c (addRow d s t m) (addRow d s t n) x col ↔ solves r c m n x col.
Proof.
  intros Hs Hds Ht.
  assert (∀ H : solves r c m n x col ∨ solves r c (addRow d s t m) (addRow d s t n) x col,
    dot c m s x = n s col) as Hrow.
  { intros [H|H]; [by apply H|]. specialize (H s Hs). revert H.
    rewrite dot_addRow by done. unfold addRow. by rewrite (proj2 (Z.eqb_neq s d)) by done. }
  split; intros H a Ha; pose proof (H a Ha) as Heq; revert Heq;
    rewrite dot_addRow by done; unfold addRow; destruct (Z.eqb_spec a d) as [->|]; try done.
  - rewrite Hrow by auto. intros Heq.
    rewrite <- (lxor_cancel_r (dot c m d x) (mul t (n s col))), Heq. apply lxor_cancel_r.
  - intros ->. by rewrite Hrow by auto.
Qed.
End Operations.

Lemma dot_ext c m m' a x :
  (∀ k, 0 <= k < c → m a k = m' a k) → dot c m a x = dot c m' a x.
Proof. intros H. apply sum_ext. intros. by rewrite H. Qed.

Lemma dot_ext_r c m a x x' : (∀ k, 0 <= k < c → x k = x' k) → dot c m a x = dot c m a x'.
Proof. intros H. apply sum_ext. intros. by rewrite H. Qed.

(** ** Elimination *)

(** The first [i] columns are those of an upper unitriangular matrix. *)
Definition triangular (r i : Z) (m : mat) : Prop :=
  ∀ k, 0 <= k < i → m k k = 1 ∧ ∀ a, k < a < r → m a k = 0.

(** The first [i] columns are those of the identity. *)
Definition reduced (r i : Z) (m : mat) : Prop :=
  ∀ k, 0 <= k < i → ∀ a, 0 <= a < r → m a k = if a =? k then 1 else 0.

Lemma solves_identity r m n x col : velts x → reduced r r m →
  solves r r m n x col ↔ ∀ a, 0 <= a < r → x a = n a col.
Proof.
  intros Hx Hred.
  assert (∀ a, 0 <= a < r → dot r m a x = x a) as Hd.
  { intros a Ha. unfold dot. rewrite (sum_single 0 r _ a) by
      (done || (intros k Hk Hka; rewrite Hred by done;
         rewrite (proj2 (Z.eqb_neq a k)) by done; by apply mul_0_l)).
    rewrite Hred, Z.eqb_refl by done. by apply mul_1_l. }
  split; intros H a Ha; [by rewrite <- Hd, H|by rewrite Hd, H].
Qed.

Definition upd (x : vec) (k v : Z) : vec := λ j, if j =? k then v else x j.

Lemma dot_upd c m a x k v : elts m → velts x → elt v → 0 <= k < c → x k = 0 →
  dot c m a (upd x k v) = Z.lxor (dot c m a x) (mul (m a k) v).
Proof.
  intros Hm Hx Hv Hk Hx0. unfold dot.
  rewrite (sum_ext _ _ _ (λ j, Z.lxor (mul (m a j) (x j)) (if j =? k then mul (m a k) v else 0))).
  - rewrite sum_lxor. f_equal. rewrite (sum_single _ _ _ k) by
      (done || (intros j _ Hj; by rewrite (proj2 (Z.eqb_neq j k)))). by rewrite Z.eqb_refl.
  - intros j Hj. unfold upd. destruct (Z.eqb_spec j k) as [->|].
    + by rewrite Hx0, mul_0_r, Z.lxor_0_l.
    + by rewrite Z.lxor_0_r.
Qed.

(** When the search for a pivot in column [i] fails, back substitution gives a
    vector the matrix sends to zero. *)
Lemma kernel_steps r i m (k : nat) : elts m → 0 <= i < r → Z.of_nat k <= i →
  triangular r i m → (∀ a, i <= a < r → m a i = 0) →
  ∃ x, velts x ∧ x i = 1 ∧ (∀ j, j < i - Z.of_nat k → x j = 0) ∧
    ∀ a, i - Z.of_nat k <= a < r → dot r m a x = 0.
Proof.
  intros Hm Hi. induction k as [|k IH]; intros Hk Htri Hcol.
  - exists (upd (λ _, 0) i 1). unfold upd.
    split; [intros j; destruct (j =? i); auto|]. split; [by rewrite Z.eqb_refl|].
    split; [intros j Hj; by rewrite (proj2 (Z.eqb_neq j i)) by lia|].
    intros a Ha. change (dot r m a (upd (λ _, 0) i 1) = 0).
    rewrite dot_upd by (done || auto || (intros ?; auto)). rewrite Hcol, mul_0_l by (auto || lia).
    rewrite Z.lxor_0_r. apply sum_0. intros. by apply mul_0_r.
  - destruct IH as (x & Hx & Hxi & Hx0 & Hd); [lia|done|done|].
    set (p := i - Z.of_nat (S k)). exists (upd x p (dot r m p x)).
    pose proof (dot_elt r m x Hm Hx p) as Hdp.
    split; [intros j; unfold upd; destruct (j =? p); auto|].
    split; [unfold upd; by rewrite (proj2 (Z.eqb_neq i p)) by lia|].
    split; [intros j Hj; unfold upd; rewrite (proj2 (Z.eqb_neq j p)) by lia; apply Hx0; lia|].
    intros a Ha. rewrite dot_upd by (done || lia || (apply Hx0; lia)).
    destruct (Htri p) as [Hpp Hlow]; [lia|]. destruct (Z.eq_dec a p) as [->|Hap].
    + rewrite Hpp, mul_1_l by done. apply Z.lxor_nilpotent.
    + rewrite Hlow, mul_0_l, Hd by (done || lia). done.
Qed.

Lemma kernel_vector r i m : elts m → 0 <= i < r → triangular r i m →
  (∀ a, i <= a < r → m a i = 0) →
  ∃ x, velts x ∧ x i = 1 ∧ ∀ a, 0 <= a < r → dot r m a x = 0.
Proof.
  intros Hm Hi Htri Hcol.
  destruct (kernel_steps r i m (Z.to_nat i)) as (x & Hx & Hxi & _ & Hd); [done|done|lia|done|done|].
  exists x. do 2 (split; [done|]). intros a Ha. apply Hd. lia.
Qed.

(** ** Row equivalence of augmented systems *)

Definition kernel (r : Z) (m : mat) (x : vec) : Prop := ∀ a, 0 <= a < r → dot r m a x = 0.

(** Two square systems with the same solutions and the same kernel. *)
Record row_equiv (r : Z) (p q : mat * mat) : Prop := mk_row_equiv {
  re_solves : ∀ x col, velts x → solves r r p.1 p.2 x col ↔ solves r r q.1 q.2 x col;
  re_kernel : ∀ x, velts x → kernel r p.1 x ↔ kernel r q.1 x;
}.

#[export] Instance row_equiv_equivalence r : Equivalence (row_equiv r).
Proof.
  split.
  - intros p. split; intros; reflexivity.
  - intros p q [H1 H2]. split; intros; symmetry; auto.
  - intros p q s [H1 H2] [H3 H4]. split; intros; [rewrite H1 by done|rewrite H2 by done]; auto.
Qed.

Lemma kernel_solves r m x : kernel r m x ↔ solves r r m (λ _ _, 0) x 0.
Proof. reflexivity. Qed.

Section RowEquiv.
Context (r : Z) (m n : mat) (Hm : elts m) (Hn : elts n).

Lemma row_equiv_swap i j : 0 <= i < r → 0 <= j < r →
  row_equiv r (swap i j m, swap i j n) (m, n).
Proof.
  intros Hi Hj. split; intros; cbn [fst snd].
  - by apply solves_swap.
  - rewrite !kernel_solves. by apply (solves_swap r r m (λ _ _, 0)).
Qed.

Lemma row_equiv_scale i s : elt s → s ≠ 0 → row_equiv r (scale i s m, scale i s n) (m, n).
Proof.
  intros Hs Hs0. split; intros x; cbn [fst snd].
  - intros. by apply solves_scale.
  - intros Hx. rewrite !kernel_solves. rewrite <- (solves_scale r r m (λ _ _, 0) x 0 Hm) with (i := i) (s := s)
      by (done || (intros ? ?; auto)).
    unfold solves, scale. split; intros H a Ha; rewrite H by done; destruct (a =? i); auto using mul_0_r.
    by rewrite mul_0_r.
Qed.

Lemma row_equiv_addRow d s t : 0 <= s < r → d ≠ s → elt t →
  row_equiv r (addRow d s t m, addRow d s t n) (m, n).
Proof.
  intros Hs Hds Ht. split; intros x; cbn [fst snd].
  - intros. by apply solves_addRow.
  - intros Hx. rewrite !kernel_solves.
    rewrite <- (solves_addRow r r m (λ _ _, 0) x 0 Hm) with (d := d) (s := s) (t := t) by done.
    unfold solves, addRow. split; intros H a Ha; rewrite H by done; destruct (a =? d);
      rewrite ?mul_0_r by done; done.
Qed.
End RowEquiv.

(** ** Solutions for combinations of the right-hand columns *)

Lemma sum_swap lo hi lo' hi' (f : Z → Z → Z) :
  sum lo hi (λ i, sum lo' hi' (λ j, f i j)) = sum lo' hi' (λ j, sum lo hi (λ i, f i j)).
Proof.
  revert lo. refine (range_ind _ hi _ _); intros lo Hlo.
  - rewrite sum_nil by done. symmetry. apply sum_0. intros. by apply sum_nil.
  - intros IH. rewrite (sum_cons lo), IH, <- sum_lxor by done. apply sum_ext. intros.
    by rewrite (sum_cons lo) by done.
Qed.

Lemma sum_mul_r lo hi c f : elt c → (∀ k, lo <= k < hi → elt (f k)) →
  sum lo hi (λ k, mul (f k) c) = mul (sum lo hi f) c.
Proof.
  intros Hc Hf. rewrite mul_comm, <- sum_mul by auto using sum_elt.
  apply sum_ext. intros. apply mul_comm; auto.
Qed.

(** If the columns of [x] solve [m * X = n] and [m] has no kernel, then the
    solution for the combination [n * y] of the columns is [x * y]. *)
Lemma solve_combination r c (m n x : mat) (y d : vec) :
  elts m → elts n → elts x → velts y → velts d →
  (∀ col, 0 <= col < c → solves r r m n (λ a, x a col) col) →
  (∀ v, velts v → kernel r m v → ∀ a, 0 <= a < r → v a = 0) →
  (∀ a, 0 <= a < r → dot r m a d = dot c n a y) →
  ∀ a, 0 <= a < r → d a = dot c x a y.
Proof.
  intros Hm Hn Hx Hy Hd Hsol Hker Heq a Ha.
  assert (∀ a, 0 <= a < r → dot r m a (λ k, dot c x k y) = dot c n a y) as Hxy.
  { intros p Hp. unfold dot at 1 2.
    rewrite (sum_ext _ _ _ (λ k, sum 0 c (λ col, mul (mul (m p k) (x k col)) (y col)))).
    - rewrite sum_swap. apply sum_ext. intros col Hcol. rewrite sum_mul_r by auto.
      f_equal. by apply Hsol.
    - intros k Hk. rewrite <- sum_mul by auto. apply sum_ext. intros. by rewrite mul_assoc by auto. }
  assert (velts (λ k, dot c x k y)) as Hv by (intros k; by apply dot_elt).
  apply Z.lxor_eq. apply (Hker (λ k, Z.lxor (d k) (dot c x k y))); [|intros p Hp|done].
  - intros k. apply elt_add; [done|apply Hv].
  - transitivity (Z.lxor (dot r m p d) (dot r m p (λ k, dot c x k y))).
    + unfold dot at 1 3 4. rewrite <- sum_lxor. apply sum_ext. intros. by apply mul_add_r.
    + rewrite Heq, Hxy by done. apply Z.lxor_nilpotent.
Qed.

(** ** Consecutive rows of a Vandermonde matrix

    [f] is a block of rows in which each row is the one above it, every column
    multiplied by its generator. *)
Section Vandermonde.
Context (r : Z) (f : mat) (g : vec) (x : vec).
Context (Hf : elts f) (Hg : velts g) (Hx : velts x).
Context (Hstep : ∀ i j, 0 <= i → i + 1 < r → 0 <= j < r → f (i + 1) j = mul (g j) (f i j)).
Context (Hker : kernel r f x).

(** The product of the differences of [g j] and the [roots]. *)
Definition diffs (roots : list Z) (j : Z) : Z :=
  foldr (λ h a, mul (Z.lxor (g j) h) a) 1 roots.

Lemma diffs_elt roots j : Forall elt roots → elt (diffs roots j).
Proof. intros H. induction H; simpl; auto. Qed.

Lemma diffs_kernel roots : Forall elt roots → ∀ i, 0 <= i → i + Z.of_nat (length roots) < r →
  sum 0 r (λ j, mul (diffs roots j) (mul (f i j) (x j))) = 0.
Proof.
  intros Hr. induction Hr as [|h roots Hh Hr IH]; intros i Hi Hlen; simpl in Hlen.
  - rewrite (sum_ext _ _ _ (λ j, mul (f i j) (x j))); [apply Hker; lia|].
    intros j Hj. simpl. apply mul_1_l; auto.
  - rewrite (sum_ext _ _ _ (λ j, Z.lxor (mul (diffs roots j) (mul (f (i + 1) j) (x j)))
      (mul h (mul (diffs roots j) (mul (f i j) (x j)))))).
    + rewrite sum_lxor, sum_mul by (auto using diffs_elt). rewrite !IH by lia.
      rewrite mul_0_r by done. apply Z.lxor_nilpotent.
    + intros j Hj. pose proof (diffs_elt roots j Hr). simpl diffs.
      rewrite Hstep by (done || lia). rewrite <- (mul_assoc (g j) (f i j)) by auto.
      rewrite (mul_assoc (diffs roots j) (g j)), (mul_comm (diffs roots j) (g j)) by auto.
      rewrite <- !(mul_assoc _ (diffs roots j)) by auto. by apply mul_add_l; auto.
Qed.

Lemma diffs_zero roots j : Forall elt roots → g j ∈ roots → diffs roots j = 0.
Proof.
  intros Hr Hin. induction Hr as [|h roots Hh Hr IH]; [set_solver|].
  simpl. pose proof (diffs_elt roots j Hr). apply elem_of_cons in Hin as [<-|Hin].
  - by rewrite Z.lxor_nilpotent, mul_0_l.
  - rewrite IH, mul_0_r by auto. done.
Qed.

Lemma diffs_nonzero roots j : Forall elt roots → g j ∉ roots → (1 : Z) ≠ 0 → diffs roots j ≠ 0.
Proof.
  intros Hr Hin H1. induction Hr as [|h roots Hh Hr IH]; simpl; [done|].
  apply not_elem_of_cons in Hin as [Hne Hin]. intros H0.
  apply mul_eq_0 in H0 as [H0|H0]; auto using diffs_elt; [|by apply IH].
  by apply Z.lxor_eq in H0.
Qed.

Lemma vandermonde_kernel :
  (∀ j, 0 <= j < r → f 0 j ≠ 0) →
  (∀ j k, 0 <= j < r → 0 <= k < r → g j = g k → j = k) →
  ∀ j, 0 <= j < r → x j = 0.
Proof.
  intros H0 Hinj p Hp. set (roots := g <$> (range 0 p ++ range (p + 1) r)).
  assert (Forall elt roots) as Hroots by (apply Forall_fmap, Forall_true; intros; apply Hg).
  pose proof (diffs_kernel roots Hroots 0) as Hs.
  rewrite (sum_single _ _ _ p) in Hs; [|done|].
  - apply mul_eq_0 in Hs as [Hs|Hs].
    + exfalso. revert Hs. apply diffs_nonzero; [done| |done].
      intros (k & Hk & Hin)%list_elem_of_fmap.
      apply elem_of_app in Hin as [Hin%elem_of_range|Hin%elem_of_range];
        apply Hinj in Hk; lia.
    + apply mul_eq_0 in Hs as [Hs|Hs]; auto. by apply H0 in Hs.
    + by apply diffs_elt.
    + auto.
    + done.
    + unfold roots. rewrite length_fmap, length_app, !range_length. lia.
  - intros k Hk Hkp. rewrite diffs_zero, mul_0_l; auto. unfold roots.
    apply list_elem_of_fmap. exists k. split; [done|].
    apply elem_of_app. rewrite !elem_of_range. lia.
Qed.
End Vandermonde.
End LinAlg.
