(* ===== verification/Matrix.v ===== *)
(** * Matrices over GF(2^16)

    src/rs/matrix.go: the row-major [Matrix], its accessors with their panics,
    the row operations that call the gf16 kernels on a row's bytes, and Gaussian
    elimination.  [mrel] relates a matrix to the function of its entries; every
    operation is proved to follow the operation on functions of LinAlg.v. *)

From S2P Require Import Prelude Field Gf16 Kernels Dispatch LinAlg.

(** ** Data and constructors *)

Record Matrix := mkMatrix { rows : Z; cols : Z; elements : list Z }.

Definition checkDims (rows cols : Z) : result unit :=
  err_if ((rows <=? 0) || (cols <=? 0)) "invalid matrix dimensions".

Definition NewMatrix (rows cols : Z) : result Matrix :=
  _ ← checkDims rows cols;
  Ok (mkMatrix rows cols (replicate (Z.to_nat (rows * cols)) 0)).

Definition NewMatrixFromSlice (rows cols : Z) (elements : list Z) : result Matrix :=
  _ ← checkDims rows cols;
  _ ← err_if (negb (Z.of_nat (length elements) =? rows * cols))
        "element count must match rows * cols";
  Ok (mkMatrix rows cols elements).

Definition NewIdentityMatrix (n : Z) : result Matrix :=
  _ ← checkDims n n;
  els ← foldM (λ els i, set_at els (i * n + i) 1) (replicate (Z.to_nat (n * n)) 0) (range 0 n);
  Ok (mkMatrix n n els).

(** Row [i] holds the [i]-th powers of the generators. *)
Definition NewVandermondeMatrix (tb : tables) (rows cols : Z) (generators : list Z)
    : result Matrix :=
  _ ← checkDims rows cols;
  _ ← err_if (Z.of_nat (length generators) <? cols) "too few generators for Vandermonde matrix";
  els ← foldM (λ els i,
          foldM (λ els j,
            g ← index_at generators j;
            v ← Pow tb g (wrap32 i);
            set_at els (i * cols + j) v) els (range 0 cols))
        (replicate (Z.to_nat (rows * cols)) 0) (range 0 rows);
  Ok (mkMatrix rows cols els).

(** ** Accessors *)

Definition checkRow (m : Matrix) (i : Z) : result unit :=
  panic_if ((i <? 0) || (rows m <=? i)) "row index out of bounds".

Definition checkCol (m : Matrix) (j : Z) : result unit :=
  panic_if ((j <? 0) || (cols m <=? j)) "column index out of bounds".

Definition At (m : Matrix) (i j : Z) : result Z :=
  _ ← checkRow m i; _ ← checkCol m j; index_at (elements m) (i * cols m + j).

Definition Set_ (m : Matrix) (i j val : Z) : result Matrix :=
  _ ← checkRow m i; _ ← checkCol m j;
  els ← set_at (elements m) (i * cols m + j) val;
  Ok (mkMatrix (rows m) (cols m) els).

Definition Clone (m : Matrix) : result Matrix := NewMatrixFromSlice (rows m) (cols m) (elements m).

(** [row]: the slice of row [i]; it shares the matrix's memory, so what is
    written through it is put back with [put_row]. *)
Definition row (m : Matrix) (i : Z) : result (list Z) :=
  _ ← checkRow m i; slice_at (elements m) (i * cols m) ((i + 1) * cols m).

Definition put_row (m : Matrix) (i : Z) (ws : list Z) : Matrix :=
  mkMatrix (rows m) (cols m)
    (take (Z.to_nat (i * cols m)) (elements m) ++ ws ++ drop (Z.to_nat ((i + 1) * cols m)) (elements m)).

(** ** Row operations *)

Definition swapRows (m : Matrix) (i j : Z) : result Matrix :=
  if i =? j then Ok m
  else
    _ ← row m i; _ ← row m j;
    els ← foldM (λ els k,
            a ← index_at els (i * cols m + k); b ← index_at els (j * cols m + k);
            els ← set_at els (i * cols m + k) b; set_at els (j * cols m + k) a)
          (elements m) (range 0 (cols m));
    Ok (mkMatrix (rows m) (cols m) els).

(** On the little-endian hosts [init] accepts, the bytes of a row are its
    elements low byte first. *)
Definition castTToByteSlice (ts : list Z) : list Z := of_words ts.

Section Ops.
Context (tb : tables) `{VK : !VectorKernels} (b : build).

(** Input and output of the kernel are the same slice. *)
Definition scaleRow (m : Matrix) (i c : Z) : result Matrix :=
  r ← row m i;
  out ← MulByteSliceLE tb b c Aliased (castTToByteSlice r);
  Ok (put_row m i (to_words out)).

Definition addScaledRow (m : Matrix) (dest src c : Z) : result Matrix :=
  rowSrc ← row m src;
  rowDest ← row m dest;
  let src := if dest =? src then Aliased else Separate (castTToByteSlice rowSrc) in
  out ← MulAndAddByteSliceLE tb b c src (castTToByteSlice rowDest);
  Ok (put_row m dest (to_words out)).

(** ** Gaussian elimination *)

(** The search of [convertToRowEchelonForm] for a pivot in column [i]: the
    matrices with the pivot row moved to row [i], and the pivot, or 0. *)
Fixpoint pivot_search (i : Z) (js : list Z) (m n : Matrix) : result (Matrix * Matrix * Z) :=
  match js with
  | [] => Ok (m, n, 0)
  | j :: js' =>
    v ← At m j i;
    if v =? 0 then pivot_search i js' m n
    else
      m ← swapRows m i j;
      n ← swapRows n i j;
      pivot ← At m i i;
      Ok (m, n, pivot)
  end.

(** Clearing entry [(j, i)] with row [i]; both elimination loops do this. *)
Definition eliminate (i : Z) (s : Matrix * Matrix) (j : Z) : result (Matrix * Matrix) :=
  let '(m, n) := s in
  t ← At m j i;
  if t =? 0 then Ok (m, n)
  else
    m ← addScaledRow m j i t;
    n ← addScaledRow n j i t;
    Ok (m, n).

Definition echelon_step (s : Matrix * Matrix) (i : Z) : result (Matrix * Matrix) :=
  let '(m, n) := s in
  '(m, n, pivot) ← pivot_search i (range i (rows m)) m n;
  _ ← err_if (pivot =? 0) "singular matrix";
  pivotInv ← Inverse tb pivot;
  m ← scaleRow m i pivotInv;
  n ← scaleRow n i pivotInv;
  foldM (eliminate i) (m, n) (range (i + 1) (rows m)).

Definition convertToRowEchelonForm (m n : Matrix) : result (Matrix * Matrix) :=
  foldM echelon_step (m, n) (range 0 (rows m)).

Definition convertToReducedRowEchelonForm (m n : Matrix) : result (Matrix * Matrix) :=
  foldM (λ s i, foldM (eliminate i) s (range 0 i)) (m, n) (range 0 (rows m)).

Definition rowReduceForInverse (m n : Matrix) : result (Matrix * Matrix) :=
  '(m, n) ← convertToRowEchelonForm m n;
  convertToReducedRowEchelonForm m n.

Definition Matrix_Inverse (m : Matrix) : result Matrix :=
  _ ← err_if (negb (rows m =? cols m)) "cannot invert non-square matrix";
  n ← NewIdentityMatrix (cols m);
  mClone ← Clone m;
  '(_, n) ← rowReduceForInverse mClone n;
  Ok n.

Definition RowReduceForInverse (m n : Matrix) : result Matrix :=
  _ ← err_if (negb (rows m =? cols m)) "cannot row-reduce non-square matrix";
  _ ← err_if (negb (rows n =? rows m)) "n must have the same number of rows as m";
  nReduced ← Clone n;
  mClone ← Clone m;
  '(_, nReduced) ← rowReduceForInverse mClone nReduced;
  Ok nReduced.
End Ops.

(** ** Entries *)

(** [M] is an [r] by [c] matrix whose entries are those of [f]. *)
Record mrel (r c : Z) (M : Matrix) (f : mat) : Prop := {
  mr_rows : rows M = r;
  mr_cols : cols M = c;
  mr_pos : 0 < r ∧ 0 < c;
  mr_len : Z.of_nat (length (elements M)) = r * c;
  mr_u16 : Forall u16 (elements M);
  mr_get : ∀ a k, 0 <= a < r → 0 <= k < c → elements M !! Z.to_nat (a * c + k) = Some (f a k);
}.

Definition entry (M : Matrix) : mat := λ a k, default 0 (elements M !! Z.to_nat (a * cols M + k)).

(** What the constructors establish and every operation keeps. *)
Definition matrix_wf (M : Matrix) : Prop :=
  0 < rows M ∧ 0 < cols M ∧ Z.of_nat (length (elements M)) = rows M * cols M ∧
  Forall u16 (elements M).

Lemma idx_bound r c a k : 0 <= a < r → 0 <= k < c → 0 <= a * c + k < r * c.
Proof. nia. Qed.

Lemma idx_inj c a k a' k' : 0 <= k < c → 0 <= k' < c → a * c + k = a' * c + k' → a = a' ∧ k = k'.
Proof. intros Hk Hk' H. assert (a = a') by nia. split; [done|]. subst. lia. Qed.

Lemma entry_mrel M : matrix_wf M → mrel (rows M) (cols M) M (entry M).
Proof.
  intros (Hr & Hc & Hl & Hu). split; auto. intros a k Ha Hk. unfold entry.
  pose proof (idx_bound (rows M) (cols M) a k Ha Hk).
  destruct (lookup_lt_is_Some_2 (elements M) (Z.to_nat (a * cols M + k))) as [x Hx]; [lia|].
  by rewrite Hx.
Qed.

Lemma entry_elts M : matrix_wf M → elts u16 (entry M).
Proof.
  intros (_ & _ & _ & Hu) a k. unfold entry.
  destruct (elements M !! _) as [x|] eqn:Hx; [|apply u16_0].
  rewrite Forall_lookup in Hu. by eapply Hu.
Qed.

Section Mrel.
Context (r c : Z) (M : Matrix) (f : mat) (HM : mrel r c M f).

Lemma mrel_wf : matrix_wf M.
Proof. destruct HM as [<- <- [? ?] ? ? ?]. by split. Qed.

Lemma mrel_ext g : (∀ a k, 0 <= a < r → 0 <= k < c → f a k = g a k) → mrel r c M g.
Proof.
  intros Hfg. destruct HM as [? ? ? ? ? Hget]. split; auto. intros a k Ha Hk.
  by rewrite <- Hfg, Hget.
Qed.

Lemma mrel_entry a k : 0 <= a < r → 0 <= k < c → entry M a k = f a k.
Proof. intros Ha Hk. destruct HM as [? <- ? ? ? Hget]. unfold entry. by rewrite Hget. Qed.

Lemma mrel_u16 a k : 0 <= a < r → 0 <= k < c → u16 (f a k).
Proof.
  intros Ha Hk. destruct HM as [? ? ? ? Hu Hget]. rewrite Forall_lookup in Hu. eauto.
Qed.

Lemma mrel_index a k : 0 <= a < r → 0 <= k < c → index_at (elements M) (a * c + k) = Ok (f a k).
Proof.
  intros Ha Hk. pose proof (idx_bound r c a k Ha Hk). apply index_at_lookup; [lia|].
  by apply (mr_get _ _ _ _ HM).
Qed.

Lemma checkRow_ok a : 0 <= a < r → checkRow M a = Ok tt.
Proof.
  intros Ha. unfold checkRow. rewrite (mr_rows _ _ _ _ HM).
  rewrite (proj2 (Z.ltb_ge a 0)), (proj2 (Z.leb_gt r a)) by lia. done.
Qed.

Lemma checkCol_ok k : 0 <= k < c → checkCol M k = Ok tt.
Proof.
  intros Hk. unfold checkCol. rewrite (mr_cols _ _ _ _ HM).
  rewrite (proj2 (Z.ltb_ge k 0)), (proj2 (Z.leb_gt c k)) by lia. done.
Qed.

Lemma At_ok a k : 0 <= a < r → 0 <= k < c → At M a k = Ok (f a k).
Proof.
  intros Ha Hk. unfold At. rewrite checkRow_ok, checkCol_ok by done. cbn [mbind result_bind].
  rewrite (mr_cols _ _ _ _ HM). by apply mrel_index.
Qed.

Lemma mrel_set a k v : 0 <= a < r → 0 <= k < c → u16 v →
  ∃ els, set_at (elements M) (a * c + k) v = Ok els ∧
    mrel r c (mkMatrix r c els) (λ a' k', if (a' =? a) && (k' =? k) then v else f a' k').
Proof.
  intros Ha Hk Hv. pose proof (idx_bound r c a k Ha Hk).
  destruct HM as [Hr Hc Hpos Hl Hu Hget].
  rewrite set_at_ok by lia. eexists. split; [done|]. split; cbn [rows cols elements]; auto.
  - by rewrite length_insert.
  - by apply Forall_insert.
  - intros a' k' Ha' Hk'. pose proof (idx_bound r c a' k' Ha' Hk').
    destruct (Z.eqb_spec a' a) as [->|Hne]; [destruct (Z.eqb_spec k' k) as [->|Hne]|]; simpl.
    + apply list_lookup_insert_eq. lia.
    + rewrite list_lookup_insert_ne by lia. by apply Hget.
    + rewrite list_lookup_insert_ne; [by apply Hget|]. intros Heq.
      destruct (idx_inj c a k a' k'); [lia..|]. congruence.
Qed.
End Mrel.

(** ** Filling a matrix entry by entry *)

(** The state of a filling loop may be the matrix or its elements: all that
    matters is the function of the entries it stands for, in range. *)
Section Fill.
Context {S : Type} (r c : Z) (rel : S → mat → Prop) (h : mat).
Context (rel_ext : ∀ s f g, rel s f →
  (∀ a k, 0 <= a < r → 0 <= k < c → f a k = g a k) → rel s g).

Definition put_entry (a k : Z) (f : mat) : mat :=
  λ a' k', if (a' =? a) && (k' =? k) then h a k else f a' k'.

(** Filling part of row [a] with the values of [h]. *)
Lemma fill_row (body : S → Z → result S) a hi lo s f :
  0 <= lo <= hi → rel s f →
  (∀ s f k, lo <= k < hi → rel s f → ∃ s', body s k = Ok s' ∧ rel s' (put_entry a k f)) →
  ∃ s', foldM body s (range lo hi) = Ok s' ∧
    rel s' (λ a' k, if (a' =? a) && (lo <=? k) && (k <? hi) then h a k else f a' k).
Proof.
  intros Hlo Hs Hbody.
  destruct (foldM_inv body (λ j s, rel s
      (λ a' k, if (a' =? a) && (lo <=? k) && (k <? j) then h a k else f a' k)) hi lo s)
    as (s' & Hf & Hinv).
  - lia.
  - apply (rel_ext _ _ _ Hs). intros. zbool.
  - intros j s1 Hj H1. destruct (Hbody s1 _ j Hj H1) as (s2 & -> & H2).
    exists s2. split; [done|]. apply (rel_ext _ _ _ H2). unfold put_entry. intros. zbool.
  - by exists s'.
Qed.

(** Filling all rows. *)
Lemma fill_matrix (body : S → Z → result S) s f : 0 < r → rel s f →
  (∀ s f a, 0 <= a < r → rel s f →
     ∃ s', body s a = Ok s' ∧ rel s' (λ a' k, if a' =? a then h a k else f a' k)) →
  ∃ s', foldM body s (range 0 r) = Ok s' ∧ rel s' h.
Proof.
  intros Hr Hs Hbody.
  destruct (foldM_inv body (λ j s, rel s (λ a k, if a <? j then h a k else f a k)) r 0 s)
    as (s' & Hf & Hinv).
  - lia.
  - apply (rel_ext _ _ _ Hs). intros. zbool.
  - intros j s1 Hj H1. destruct (Hbody s1 _ j Hj H1) as (s2 & -> & H2).
    exists s2. split; [done|]. apply (rel_ext _ _ _ H2). intros. zbool.
  - exists s'. split; [done|]. apply (rel_ext _ _ _ Hinv). intros. zbool.
Qed.
End Fill.

(** Both kinds of state. *)
Lemma set_entry r c h els f a k : mrel r c (mkMatrix r c els) f →
  0 <= a < r → 0 <= k < c → u16 (h a k) →
  ∃ els', set_at els (a * c + k) (h a k) = Ok els' ∧ mrel r c (mkMatrix r c els') (put_entry h a k f).
Proof. intros HM Ha Hk Hu. by apply (mrel_set r c _ f HM a k (h a k)). Qed.

Lemma Set_entry r c h M f a k : mrel r c M f → 0 <= a < r → 0 <= k < c → u16 (h a k) →
  ∃ M', Set_ M a k (h a k) = Ok M' ∧ mrel r c M' (put_entry h a k f).
Proof.
  intros HM Ha Hk Hu. unfold Set_. rewrite (checkRow_ok r c M f HM), (checkCol_ok r c M f HM) by done.
  cbn [mbind result_bind]. destruct (mrel_set r c _ f HM a k (h a k)) as (els & Hset & HM'); [done..|].
  rewrite (mr_rows _ _ _ _ HM), (mr_cols _ _ _ _ HM), Hset. by eexists.
Qed.

(** ** Constructors *)

Lemma checkDims_ok r c : 0 < r → 0 < c → checkDims r c = Ok tt.
Proof.
  intros Hr Hc. unfold checkDims.
  by rewrite (proj2 (Z.leb_gt r 0)), (proj2 (Z.leb_gt c 0)) by lia.
Qed.

Lemma zeros_mrel r c : 0 < r → 0 < c →
  mrel r c (mkMatrix r c (replicate (Z.to_nat (r * c)) 0)) (λ _ _, 0).
Proof.
  intros Hr Hc. split; cbn [rows cols elements]; auto.
  - rewrite length_replicate. nia.
  - apply Forall_replicate. apply u16_0.
  - intros a k Ha Hk. pose proof (idx_bound r c a k Ha Hk). apply lookup_replicate_2. lia.
Qed.

Lemma NewMatrix_ok r c : 0 < r → 0 < c → ∃ M, NewMatrix r c = Ok M ∧ mrel r c M (λ _ _, 0).
Proof.
  intros Hr Hc. unfold NewMatrix. rewrite checkDims_ok by done.
  eexists. split; [done|]. by apply zeros_mrel.
Qed.

Lemma Clone_ok r c M f : mrel r c M f → Clone M = Ok M.
Proof.
  intros HM. destruct (HM) as [<- <- [? ?] Hl ? ?]. unfold Clone, NewMatrixFromSlice.
  rewrite checkDims_ok, Hl, Z.eqb_refl by done. by destruct M.
Qed.

Definition identity : mat := λ a k, if a =? k then 1 else 0.

Lemma NewIdentityMatrix_ok n : 0 < n → ∃ M, NewIdentityMatrix n = Ok M ∧ mrel n n M identity.
Proof.
  intros Hn. unfold NewIdentityMatrix. rewrite checkDims_ok by done. cbn [mbind result_bind].
  destruct (foldM_inv (λ els i, set_at els (i * n + i) 1)
    (λ j els, mrel n n (mkMatrix n n els) (λ a k, if a <? j then identity a k else 0)) n 0
    (replicate (Z.to_nat (n * n)) 0)) as (els & -> & HM).
  - lia.
  - apply (mrel_ext _ _ _ _ (zeros_mrel n n Hn Hn)). intros. zbool.
  - intros j els1 Hj H1.
    destruct (mrel_set n n _ _ H1 j j 1) as (els2 & Hset & H2); [lia..|apply u16_1|].
    cbn [elements] in Hset. rewrite Hset.
    exists els2. split; [done|]. apply (mrel_ext _ _ _ _ H2). unfold identity. intros. zbool.
  - eexists. split; [reflexivity|]. apply (mrel_ext _ _ _ _ HM). intros. zbool.
Qed.

Lemma NewVandermondeMatrix_ok (tb : tables) `{!TablesReady tb} r c gens :
  0 < r <= 65536 → 0 < c <= Z.of_nat (length gens) → Forall u16 gens →
  ∃ M, NewVandermondeMatrix tb r c gens = Ok M ∧
    mrel r c M (λ i j, gpow (default 0 (gens !! Z.to_nat j)) (Z.to_nat i)).
Proof.
  intros Hr Hc Hg. unfold NewVandermondeMatrix. rewrite checkDims_ok by lia.
  cbn [mbind result_bind]. rewrite (proj2 (Z.ltb_ge _ c)) by lia. cbn [mbind result_bind err_if].
  set (h := λ i j, gpow (default 0 (gens !! Z.to_nat j)) (Z.to_nat i)).
  set (rel := λ els, mrel r c (mkMatrix r c els)).
  assert (∀ els f g, rel els f → (∀ a k, 0 <= a < r → 0 <= k < c → f a k = g a k) → rel els g)
    as Hext by (intros els f g Hs Hfg; exact (mrel_ext _ _ _ _ Hs g Hfg)).
  edestruct (fill_matrix r c rel h Hext) as (els & -> & HM).
  - lia.
  - apply zeros_mrel; lia.
  - intros els f a Ha Hf. cbn beta.
    destruct (fill_row r c rel h Hext (λ els j, g ← index_at gens j; v ← Pow tb g (wrap32 a);
      set_at els (a * c + j) v) a c 0 els f) as (els' & -> & H'); [lia|done| |].
    + intros els1 f1 k Hk H1. destruct (lookup_lt_is_Some_2 gens (Z.to_nat k)) as [g Hgk]; [lia|].
      assert (u16 g) by (rewrite Forall_lookup in Hg; by eapply Hg).
      rewrite (index_at_lookup gens k g) by (lia || done). cbn [mbind result_bind].
      rewrite wrap32_id, Pow_tables by (done || zlia). cbn [mbind result_bind].
      assert (h a k = gpow g (Z.to_nat a)) as Hh by (unfold h; by rewrite Hgk).
      rewrite <- Hh. apply set_entry; [exact H1|done|done|]. rewrite Hh. auto with width.
    + exists els'. split; [done|]. apply (Hext _ _ _ H'). intros. zbool.
  - eexists. split; [reflexivity|done].
Qed.

(** ** Row operations follow those on functions *)

Definition row_of (c : Z) (f : mat) (i : Z) : list Z := f i <$> range 0 c.

Lemma row_of_length c f i : length (row_of c f i) = Z.to_nat c.
Proof. unfold row_of. rewrite length_fmap, range_length. lia. Qed.

Lemma row_of_lookup c f i k : 0 <= k < c → row_of c f i !! Z.to_nat k = Some (f i k).
Proof.
  intros Hk. unfold row_of. rewrite list_lookup_fmap, range_lookup by lia.
  simpl. do 2 f_equal. lia.
Qed.

Section Rows.
Context (r c : Z) (M : Matrix) (f : mat) (HM : mrel r c M f).

Lemma row_ok i : 0 <= i < r → row M i = Ok (row_of c f i).
Proof.
  intros Hi. unfold row. rewrite (checkRow_ok r c M f HM) by done. cbn [mbind result_bind].
  destruct HM as [Hr Hc [_ Hpos] Hl Hu Hget]. rewrite Hc.
  assert (0 <= i * c ∧ (i + 1) * c <= r * c) by nia.
  rewrite slice_at_ok by lia. f_equal. apply list_eq. intros k.
  replace (Z.to_nat ((i + 1) * c - i * c)) with (Z.to_nat c) by lia.
  rewrite lookup_take. case_decide as Hk.
  - rewrite lookup_drop. rewrite <- (Nat2Z.id k), row_of_lookup by lia.
    rewrite <- Hget by lia. f_equal. lia.
  - symmetry. apply lookup_ge_None. rewrite row_of_length. lia.
Qed.

Lemma row_of_u16 i : 0 <= i < r → Forall u16 (row_of c f i).
Proof.
  intros Hi. apply Forall_fmap, Forall_forall. intros k Hk%elem_of_range. simpl.
  by apply (mrel_u16 r c M f HM).
Qed.

Lemma put_row_ok i g : 0 <= i < r → (∀ k, 0 <= k < c → u16 (g i k)) →
  mrel r c (put_row M i (row_of c g i)) (λ a k, if a =? i then g i k else f a k).
Proof.
  intros Hi Hg. destruct HM as [Hr Hc [Hr0 Hc0] Hl Hu Hget].
  assert (0 <= i * c ∧ i * c + c <= r * c) by nia.
  unfold put_row. rewrite Hc. replace ((i + 1) * c) with (i * c + c) by lia.
  split; cbn [rows cols elements]; try done.
  - rewrite !length_app, length_take, length_drop, row_of_length. lia.
  - repeat apply Forall_app_2; [by apply Forall_take| |by apply Forall_drop].
    apply Forall_fmap, Forall_forall. intros k Hk%elem_of_range. by apply Hg.
  - intros a k Ha Hk. pose proof (idx_bound r c a k Ha Hk).
    assert (a < i ∨ a = i ∨ i < a) as [Hlt|[->|Hgt]] by lia.
    + rewrite (proj2 (Z.eqb_neq a i)) by lia. assert (a * c + k < i * c) by nia.
      rewrite lookup_app_l by (rewrite length_take; lia).
      rewrite lookup_take_lt by lia. by apply Hget.
    + rewrite Z.eqb_refl. rewrite lookup_app_r by (rewrite length_take; lia).
      rewrite length_take, lookup_app_l by (rewrite row_of_length; lia).
      rewrite <- (row_of_lookup c g i k) by done. f_equal. lia.
    + rewrite (proj2 (Z.eqb_neq a i)) by lia. assert (i * c + c <= a * c) by nia.
      rewrite lookup_app_r by (rewrite length_take; lia).
      rewrite lookup_app_r by (rewrite length_take, row_of_length; lia).
      rewrite lookup_drop, length_take, row_of_length. rewrite <- Hget by done. f_equal. lia.
Qed.

Lemma swapRows_ok i j : 0 <= i < r → 0 <= j < r →
  ∃ M', swapRows M i j = Ok M' ∧ mrel r c M' (swap i j f).
Proof.
  intros Hi Hj. unfold swapRows. destruct (Z.eqb_spec i j) as [->|Hij].
  { exists M. split; [done|]. apply (mrel_ext _ _ _ _ HM). intros. unfold swap. zbool. }
  rewrite !row_ok by done. cbn [mbind result_bind].
  destruct HM as [Hr Hc [Hr0 Hc0] Hl Hu Hget]. rewrite Hc.
  set (g := λ (q : Z) a k, if k <? q then swap i j f a k else f a k).
  destruct (foldM_inv (λ els k, a ← index_at els (i * c + k); b ← index_at els (j * c + k);
      els ← set_at els (i * c + k) b; set_at els (j * c + k) a)
    (λ q els, mrel r c (mkMatrix r c els) (g q)) c 0 (elements M)) as (els & -> & HE).
  - lia.
  - unfold g. split; cbn [rows cols elements]; auto. intros a k Ha Hk. rewrite Hget by done.
    f_equal. zbool.
  - intros q els Hq HE.
    pose proof (mrel_index r c _ _ HE i q Hi Hq) as H1. pose proof (mrel_index r c _ _ HE j q Hj Hq) as H2.
    cbn [elements] in H1, H2. rewrite H1, H2. cbn [mbind result_bind].
    destruct (mrel_set r c _ _ HE i q (g q j q)) as (e1 & Hs1 & HE1); [done|done| |].
    { by apply (mrel_u16 r c _ _ HE). }
    cbn [elements] in Hs1. rewrite Hs1. cbn [mbind result_bind].
    destruct (mrel_set r c _ _ HE1 j q (g q i q)) as (e2 & Hs2 & HE2); [done|done| |].
    { by apply (mrel_u16 r c _ _ HE). }
    cbn [elements] in Hs2. rewrite Hs2. eexists. split; [done|].
    apply (mrel_ext _ _ _ _ HE2). unfold g, swap. intros a k Ha Hk. zbool.
  - rewrite Hr. eexists. split; [reflexivity|]. apply (mrel_ext _ _ _ _ HE). unfold g. intros. zbool.
Qed.
End Rows.

Section Kernels.
Context (tb : tables) `{!TablesReady tb} `{VK : !VectorKernels} `{!VectorKernelsOk tb VK}.
Context (b : build).

Lemma cast_elementwise h ws ws' : length ws = length ws' → Forall u16 ws → Forall u16 ws' →
  (∀ x y, u16 x → u16 y → u16 (h x y)) →
  to_words (elementwise h (castTToByteSlice ws) (castTToByteSlice ws')) = zip_with h ws ws'.
Proof.
  intros Hl Hw Hw' Hh. unfold elementwise, castTToByteSlice.
  rewrite (to_of_words ws), (to_of_words ws') by done. apply to_of_words.
  revert ws' Hl Hw'. induction Hw as [|x ws Hx Hws IH]; intros [|y ws'] Hl Hw'; try done.
  apply Forall_cons in Hw' as [Hy Hw']. simpl. constructor; auto.
Qed.

Lemma zip_rows h c f i g j :
  zip_with h (row_of c f i) (row_of c g j) = row_of c (λ _ k, h (f i k) (g j k)) 0.
Proof.
  unfold row_of. induction (range 0 c) as [|k l IH]; [done|]. rewrite !fmap_cons. simpl.
  by rewrite IH.
Qed.

Context (r c : Z) (M : Matrix) (f : mat) (HM : mrel r c M f).

Lemma cast_row_even i : Nat.Even (length (castTToByteSlice (row_of c f i))).
Proof. exists (length (row_of c f i)). apply of_words_length. Qed.

Lemma scaleRow_ok i s : 0 <= i < r → u16 s →
  ∃ M', scaleRow tb b M i s = Ok M' ∧ mrel r c M' (scale gmul i s f).
Proof.
  intros Hi Hs. unfold scaleRow. rewrite (row_ok r c M f HM) by done. cbn [mbind result_bind].
  rewrite (MulByteSliceLE_ok tb) by (cbn [contents]; auto using of_words_bytes, cast_row_even).
  cbn [mbind result_bind contents]. eexists. split; [reflexivity|].
  pose proof (row_of_u16 r c M f HM i Hi).
  rewrite cast_elementwise by (done || (intros; unfold mul_elem; auto with width)).
  rewrite zip_rows. unfold mul_elem.
  change (row_of c _ 0) with (row_of c (λ a k, gmul s (f i k)) i).
  apply (put_row_ok r c M f HM i (λ a k, gmul s (f i k))); [done|]. intros. auto with width.
Qed.

Lemma addScaledRow_ok d s t : 0 <= d < r → 0 <= s < r → d ≠ s → u16 t →
  ∃ M', addScaledRow tb b M d s t = Ok M' ∧ mrel r c M' (addRow gmul d s t f).
Proof.
  intros Hd Hs Hds Ht. unfold addScaledRow. rewrite !(row_ok r c M f HM) by done.
  cbn [mbind result_bind]. rewrite (proj2 (Z.eqb_neq d s)) by done.
  rewrite (MulAndAddByteSliceLE_ok tb) by (cbn [contents]; auto using of_words_bytes, cast_row_even;
    unfold castTToByteSlice; rewrite !of_words_length, !row_of_length; done).
  cbn [mbind result_bind contents]. eexists. split; [reflexivity|].
  pose proof (row_of_u16 r c M f HM s Hs). pose proof (row_of_u16 r c M f HM d Hd).
  rewrite cast_elementwise by (rewrite ?row_of_length; auto;
    intros; unfold mulAdd_elem; auto with width).
  rewrite zip_rows. unfold mulAdd_elem.
  change (row_of c _ 0) with (row_of c (λ a k, Z.lxor (f d k) (gmul t (f s k))) d).
  apply (put_row_ok r c M f HM d (λ a k, Z.lxor (f d k) (gmul t (f s k)))); [done|].
  intros k Hk. pose proof (mrel_u16 r c M f HM d k Hd Hk). auto with width.
Qed.
End Kernels.

(** ** Elimination

    [sys f g s]: the pair of matrices [s] holds [f] and [g], an augmented system
    row equivalent to the one elimination started from. *)

Section Elimination.
Context (tb : tables) `{!TablesReady tb} `{VK : !VectorKernels} `{!VectorKernelsOk tb VK}.
Context (b : build) (r c : Z) (f0 g0 : mat).

Record sys (f g : mat) (s : Matrix * Matrix) : Prop := {
  sys_m : mrel r r s.1 f;
  sys_n : mrel r c s.2 g;
  sys_elts : elts u16 f;
  sys_elts' : elts u16 g;
  sys_equiv : row_equiv u16 gmul r (f, g) (f0, g0);
}.

Lemma eliminate_ok f g s i j : sys f g s → 0 <= i < r → 0 <= j < r → j ≠ i →
  ∃ s', eliminate tb b i s j = Ok s' ∧
    sys (addRow gmul j i (f j i) f) (addRow gmul j i (f j i) g) s'.
Proof.
  intros [Hm Hn Hf Hg He] Hi Hj Hij. destruct s as [m n]. unfold eliminate. cbn [fst snd] in *.
  rewrite (At_ok r r m f Hm) by done. cbn [mbind result_bind].
  assert (row_equiv u16 gmul r (addRow gmul j i (f j i) f, addRow gmul j i (f j i) g) (f0, g0)).
  { transitivity (f, g); [|done]. by apply (row_equiv_addRow u16 gmul ginv). }
  assert (elts u16 (addRow gmul j i (f j i) f) ∧ elts u16 (addRow gmul j i (f j i) g)) as [? ?].
  { split; by apply (addRow_elts u16 gmul ginv). }
  destruct (Z.eqb_spec (f j i) 0) as [Ht|Ht].
  - exists (m, n). split; [done|]. split; cbn [fst snd]; auto.
    + apply (mrel_ext _ _ _ _ Hm). intros. unfold addRow. rewrite Ht, gmul_0_l, Z.lxor_0_r. zbool.
    + apply (mrel_ext _ _ _ _ Hn). intros. unfold addRow. rewrite Ht, gmul_0_l, Z.lxor_0_r. zbool.
  - destruct (addScaledRow_ok tb b r r m f Hm j i (f j i)) as (m' & -> & Hm'); auto.
    destruct (addScaledRow_ok tb b r c n g Hn j i (f j i)) as (n' & -> & Hn'); auto.
    cbn [mbind result_bind]. exists (m', n'). by split.
Qed.

(** Row [i] has a leading one in column [i] and nothing before it. *)
Definition leading (i : Z) (f : mat) : Prop := f i i = 1 ∧ ∀ k, 0 <= k < i → f i k = 0.

Lemma addRow_leading i j f : elts u16 f → leading i f → j ≠ i →
  let f' := addRow gmul j i (f j i) f in
  f' j i = 0 ∧ (∀ a k, 0 <= k < i → f' a k = f a k) ∧ (∀ a k, a ≠ j → f' a k = f a k).
Proof.
  intros Hf [H1 H0] Hj. unfold addRow. split; [|split].
  - by rewrite Z.eqb_refl, H1, gmul_1_r, Z.lxor_nilpotent.
  - intros a k Hk. destruct (Z.eqb_spec a j) as [->|]; [|done].
    by rewrite H0, gmul_0_r, Z.lxor_0_r.
  - intros a k Ha. by rewrite (proj2 (Z.eqb_neq a j)).
Qed.

(** Clearing column [i] in the rows from [lo] to [hi]. *)
Lemma eliminate_rows f g s i lo hi : sys f g s → 0 <= i < r → 0 <= lo <= hi → hi <= r →
  (hi <= i ∨ i < lo) → leading i f →
  ∃ f' g' s', foldM (eliminate tb b i) s (range lo hi) = Ok s' ∧ sys f' g' s' ∧
    (∀ a, lo <= a < hi → f' a i = 0) ∧
    (∀ a k, 0 <= k < i → f' a k = f a k) ∧
    (∀ a k, ¬ lo <= a < hi → f' a k = f a k).
Proof.
  intros Hs Hi Hlo Hhi Hout Hlead.
  destruct (foldM_inv (eliminate tb b i) (λ j s, ∃ f' g', sys f' g' s ∧
      (∀ a, lo <= a < j → f' a i = 0) ∧ (∀ a k, 0 <= k < i → f' a k = f a k) ∧
      (∀ a k, ¬ lo <= a < j → f' a k = f a k)) hi lo s) as (s' & -> & f' & g' & ?).
  - lia.
  - exists f, g. split; [done|]. split; [intros; lia|]. done.
  - intros j s1 Hj (f1 & g1 & Hs1 & Hz & Hl & Ho).
    destruct (eliminate_ok f1 g1 s1 i j) as (s2 & -> & Hs2); [done|done|lia|lia|].
    assert (leading i f1) as Hlead1.
    { destruct Hlead as [H1 H0]. split; [by rewrite Ho by lia|]. intros. by rewrite Ho, H0 by lia. }
    destruct (addRow_leading i j f1) as (Hji & Hleft & Hother); [apply Hs1|done|lia|].
    eexists. split; [done|]. do 2 eexists. split; [exact Hs2|]. split; [|split].
    + intros a Ha. destruct (Z.eq_dec a j) as [->|]; [done|]. rewrite Hother by done. apply Hz. lia.
    + intros. by rewrite Hleft, Hl.
    + intros a k Ha. rewrite Hother by lia. apply Ho. lia.
  - by exists f', g', s'.
Qed.

(** The search either brings a nonzero entry to row [i] or sees only zeros. *)
Lemma pivot_search_ok f g m n i : sys f g (m, n) → 0 <= i < r →
  (∃ j m' n', i <= j < r ∧ f j i ≠ 0 ∧
     pivot_search i (range i r) m n = Ok (m', n', f j i) ∧
     sys (swap i j f) (swap i j g) (m', n')) ∨
  ((∀ a, i <= a < r → f a i = 0) ∧ pivot_search i (range i r) m n = Ok (m, n, 0)).
Proof.
  intros [Hm Hn Hf Hg He] Hi. cbn [fst snd] in *.
  assert (∀ lo, i <= lo → (∀ a, i <= a < lo → f a i = 0) →
    (∃ j m' n', i <= j < r ∧ f j i ≠ 0 ∧
       pivot_search i (range lo r) m n = Ok (m', n', f j i) ∧
       sys (swap i j f) (swap i j g) (m', n')) ∨
    ((∀ a, i <= a < r → f a i = 0) ∧ pivot_search i (range lo r) m n = Ok (m, n, 0)))
    as Hgen; [|apply Hgen; [lia|intros; lia]].
  refine (range_ind _ r _ _); intros lo Hlo.
  - intros Hle H0. right. rewrite range_nil by done. split; [|done]. intros a Ha. apply H0. lia.
  - intros IH Hle H0. rewrite range_cons by done. cbn [pivot_search].
    rewrite (At_ok r r m f Hm) by lia. cbn [mbind result_bind].
    destruct (Z.eqb_spec (f lo i) 0) as [Hz|Hnz].
    { apply IH; [lia|]. intros a Ha. destruct (Z.eq_dec a lo) as [->|]; [done|]. apply H0. lia. }
    left. destruct (swapRows_ok r r m f Hm i lo) as (m' & -> & Hm'); [lia..|].
    destruct (swapRows_ok r c n g Hn i lo) as (n' & -> & Hn'); [lia..|]. cbn [mbind result_bind].
    rewrite (At_ok r r m' _ Hm') by lia. cbn [mbind result_bind]. unfold swap at 1. rewrite Z.eqb_refl.
    exists lo, m', n'. do 3 (split; [done || lia|]). split; cbn [fst snd]; auto.
    + by apply swap_elts.
    + by apply swap_elts.
    + transitivity (f, g); [|done]. apply (row_equiv_swap u16 gmul); (done || lia).
Qed.

Lemma echelon_step_ok f g s i : sys f g s → 0 <= i < r → triangular r i f →
  (∃ f' g' s', echelon_step tb b s i = Ok s' ∧ sys f' g' s' ∧ triangular r (i + 1) f') ∨
  (echelon_step tb b s i = Err "singular matrix" ∧ ∀ a, i <= a < r → f a i = 0).
Proof.
  intros Hs Hi Htri. destruct s as [m n]. unfold echelon_step.
  pose proof (mr_rows _ _ _ _ (sys_m _ _ _ Hs)) as Hrows. cbn [fst] in Hrows. rewrite Hrows.
  destruct (pivot_search_ok f g m n i Hs Hi) as [(j & m1 & n1 & Hj & Hp & -> & Hs1)|[Hz ->]]; [left|by right].
  cbn [mbind result_bind]. rewrite (proj2 (Z.eqb_neq (f j i) 0)) by done. cbn [err_if mbind result_bind].
  set (p := f j i) in *. assert (u16 p) as Hpu by apply (sys_elts _ _ _ Hs).
  rewrite Inverse_tables by done. cbn [mbind result_bind].
  destruct Hs1 as [Hm1 Hn1 Hf1 Hg1 He1]. cbn [fst snd] in *.
  pose proof (ginv_u16 p Hpu) as Hq. pose proof (gmul_ginv_l tb p Hpu Hp) as Hqp.
  revert Hq Hqp. generalize (ginv p). intros q Hq Hqp.
  assert (q ≠ 0) as Hq0 by (intros ->; by rewrite gmul_0_l in Hqp).
  destruct (scaleRow_ok tb b r r m1 _ Hm1 i q) as (m2 & -> & Hm2); [done..|].
  destruct (scaleRow_ok tb b r c n1 _ Hn1 i q) as (n2 & -> & Hn2); [done..|].
  cbn [mbind result_bind]. rewrite (mr_rows _ _ _ _ Hm2).
  set (f2 := scale gmul i q (swap i j f)) in *.
  assert (sys f2 (scale gmul i q (swap i j g)) (m2, n2)) as Hs2.
  { split; cbn [fst snd]; auto.
    - by apply (scale_elts u16 gmul ginv).
    - by apply (scale_elts u16 gmul ginv).
    - transitivity (swap i j f, swap i j g); [|done].
      by apply (row_equiv_scale u16 gmul ginv). }
  assert (triangular r i f2) as Htri2.
  { intros k Hk. destruct (Htri k Hk) as [Hkk Hlow]. unfold f2, scale, swap. split; [zbool|].
    intros a Ha. zbool; rewrite ?gmul_0_r, Hlow by lia; rewrite ?gmul_0_r; done. }
  assert (leading i f2) as Hlead.
  { split; [unfold f2, scale, swap; by rewrite !Z.eqb_refl|]. intros k Hk.
    apply (Htri2 k Hk). lia. }
  destruct (eliminate_rows f2 _ (m2, n2) i (i + 1) r Hs2) as (f3 & g3 & s3 & -> & Hs3 & Hz & Hleft & Hout);
    [lia..|done|].
  exists f3, g3, s3. do 2 (split; [done|]). intros k Hk. destruct (Z.eq_dec k i) as [->|Hki].
  - split; [rewrite Hout by lia; apply Hlead|]. intros a Ha. apply Hz. lia.
  - destruct (Htri2 k) as [Hkk Hlow]; [lia|]. split; [rewrite Hout by lia; done|].
    intros a Ha. rewrite Hleft by lia. by apply Hlow.
Qed.

(** Row echelon form, or a vector of the kernel. *)
Lemma echelon_ok f g m n : sys f g (m, n) → 0 < r →
  (∃ f' g' s', convertToRowEchelonForm tb b m n = Ok s' ∧ sys f' g' s' ∧ triangular r r f') ∨
  (convertToRowEchelonForm tb b m n = Err "singular matrix" ∧
   ∃ x i, 0 <= i < r ∧ velts u16 x ∧ x i = 1 ∧ kernel gmul r f0 x).
Proof.
  intros Hs Hr. unfold convertToRowEchelonForm.
  pose proof (mr_rows _ _ _ _ (sys_m _ _ _ Hs)) as Hrows. cbn [fst] in Hrows. rewrite Hrows.
  destruct (foldM_inv_err (echelon_step tb b)
    (λ i s, ∃ f g, sys f g s ∧ triangular r i f)
    (λ i e s, e = "singular matrix"%string ∧
       ∃ f g, sys f g s ∧ triangular r i f ∧ ∀ a, i <= a < r → f a i = 0) r 0 (m, n))
    as [(s' & -> & f' & g' & Hs' & Ht)|(i & e & s' & Hi & _ & -> & -> & f' & g' & Hs' & Ht & Hz)].
  - lia.
  - exists f, g. split; [done|]. intros k Hk. lia.
  - intros i s Hi (f1 & g1 & Hs1 & Ht1).
    destruct (echelon_step_ok f1 g1 s i Hs1 Hi Ht1) as [(f2 & g2 & s2 & -> & Hs2 & Ht2)|[-> Hz]].
    + left. exists s2. split; [done|]. by exists f2, g2.
    + right. eexists. split; [done|]. split; [done|]. by exists f1, g1.
  - left. by exists f', g', s'.
  - right. split; [done|].
    destruct (kernel_vector u16 gmul ginv r i f') as (x & Hx & Hxi & Hd); [apply Hs'|done..|].
    exists x, i. do 3 (split; [done|]).
    by apply (re_kernel _ _ _ _ _ (sys_equiv _ _ _ Hs')).
Qed.

(** Back substitution makes the matrix the identity. *)
Lemma reduced_ok f g m n : sys f g (m, n) → 0 < r → triangular r r f →
  ∃ f' g' s', convertToReducedRowEchelonForm tb b m n = Ok s' ∧ sys f' g' s' ∧ reduced r r f'.
Proof.
  intros Hs Hr Ht. unfold convertToReducedRowEchelonForm.
  pose proof (mr_rows _ _ _ _ (sys_m _ _ _ Hs)) as Hrows. cbn [fst] in Hrows. rewrite Hrows.
  destruct (foldM_inv (λ s i, foldM (eliminate tb b i) s (range 0 i))
    (λ i s, ∃ f g, sys f g s ∧ triangular r r f ∧ reduced r i f) r 0 (m, n))
    as (s' & -> & f' & g' & Hs' & _ & Hred).
  - lia.
  - exists f, g. do 2 (split; [done|]). intros k Hk. lia.
  - intros i s Hi (f1 & g1 & Hs1 & Ht1 & Hr1).
    assert (leading i f1) as Hlead.
    { split; [by apply Ht1|]. intros k Hk. rewrite (Hr1 k) by lia. zbool. }
    destruct (eliminate_rows f1 g1 s i 0 i Hs1) as (f2 & g2 & s2 & -> & Hs2 & Hz & Hleft & Hout);
      [lia..|done|].
    exists s2. split; [done|]. exists f2, g2. split; [done|]. split.
    + intros k Hk. destruct (Ht1 k Hk) as [Hkk Hlow]. destruct (Z.lt_ge_cases k i).
      * split; [by rewrite Hleft by lia|]. intros a Ha. rewrite Hleft by lia. by apply Hlow.
      * split; [by rewrite Hout by lia|]. intros a Ha. rewrite Hout by lia. by apply Hlow.
    + intros k Hk a Ha. destruct (Z.eq_dec k i) as [->|Hki].
      * destruct (Z.lt_ge_cases a i); [rewrite Hz by lia; zbool|]. rewrite Hout by lia.
        destruct (Ht1 i) as [Hii Hlow]; [lia|]. zbool. apply Hlow. lia.
      * rewrite Hleft by lia. apply Hr1; lia.
  - by exists f', g', s'.
Qed.

Lemma rowReduce_ok f g m n : sys f g (m, n) → 0 < r →
  (∃ f' g' m' n', rowReduceForInverse tb b m n = Ok (m', n') ∧ sys f' g' (m', n') ∧ reduced r r f') ∨
  (rowReduceForInverse tb b m n = Err "singular matrix" ∧
   ∃ x i, 0 <= i < r ∧ velts u16 x ∧ x i = 1 ∧ kernel gmul r f0 x).
Proof.
  intros Hs Hr. unfold rowReduceForInverse.
  destruct (echelon_ok f g m n Hs Hr) as [(f1 & g1 & [m1 n1] & -> & Hs1 & Ht)|[-> Hx]]; [left|by right].
  cbn [mbind result_bind].
  destruct (reduced_ok f1 g1 m1 n1 Hs1 Hr Ht) as (f2 & g2 & [m2 n2] & -> & Hs2 & Hred).
  by exists f2, g2, m2, n2.
Qed.
End Elimination.

(** ** Solving [m * X = n] *)

(** A vector the matrix sends to zero that is not zero itself. *)
Definition kernel_nonzero (r : Z) (f : mat) : Prop :=
  ∃ x i, 0 <= i < r ∧ velts u16 x ∧ x i = 1 ∧ kernel gmul r f x.

(** Columns of [x] with entries in [g] are exactly the solutions of [f * x = g0]. *)
Definition solved (r : Z) (f g0 g : mat) : Prop :=
  (∀ x col, velts u16 x → solves gmul r r f g0 x col ↔ ∀ a, 0 <= a < r → x a = g a col) ∧
  (∀ x, velts u16 x → kernel gmul r f x → ∀ a, 0 <= a < r → x a = 0).

Section Solve.
Context (tb : tables) `{!TablesReady tb} `{VK : !VectorKernels} `{!VectorKernelsOk tb VK}.
Context (b : build).

Lemma sys_solved r c f0 g0 f g s : sys r c f0 g0 f g s → reduced r r f → solved r f0 g0 g.
Proof.
  intros Hs Hred. destruct (sys_equiv _ _ _ _ _ _ _ Hs) as [He Hk]. cbn [fst snd] in *. split.
  - intros x col Hx. rewrite <- He by done. by apply (solves_identity u16 gmul ginv).
  - intros x Hx H a Ha. rewrite <- Hk in H by done.
    by apply (solves_identity u16 gmul ginv r f (λ _ _, 0) x 0).
Qed.

Lemma sys_start r c m n f g : mrel r r m f → mrel r c n g → elts u16 f → elts u16 g →
  sys r c f g f g (m, n).
Proof. intros. by split. Qed.

Lemma rowReduceForInverse_ok r c m n f g :
  mrel r r m f → mrel r c n g → elts u16 f → elts u16 g →
  (∃ m' n' g', rowReduceForInverse tb b m n = Ok (m', n') ∧ mrel r c n' g' ∧ elts u16 g' ∧
     solved r f g g') ∨
  (rowReduceForInverse tb b m n = Err "singular matrix" ∧ kernel_nonzero r f).
Proof.
  intros Hm Hn Hf Hg. destruct (mr_pos _ _ _ _ Hm) as [Hr _].
  destruct (rowReduce_ok tb b r c f g f g m n) as [(f' & g' & m' & n' & -> & Hs & Hred)|?];
    [by apply sys_start|done|left|by right].
  exists m', n', g'. split; [done|]. split; [apply (sys_n _ _ _ _ _ _ _ Hs)|].
  split; [apply (sys_elts' _ _ _ _ _ _ _ Hs)|]. by eapply sys_solved.
Qed.

Lemma RowReduceForInverse_ok r c m n f g :
  mrel r r m f → mrel r c n g → elts u16 f → elts u16 g →
  (∃ X g', RowReduceForInverse tb b m n = Ok X ∧ mrel r c X g' ∧ elts u16 g' ∧ solved r f g g') ∨
  (RowReduceForInverse tb b m n = Err "singular matrix" ∧ kernel_nonzero r f).
Proof.
  intros Hm Hn Hf Hg. unfold RowReduceForInverse.
  rewrite (mr_rows _ _ _ _ Hm), (mr_cols _ _ _ _ Hm), (mr_rows _ _ _ _ Hn), Z.eqb_refl.
  cbn [negb err_if mbind result_bind]. rewrite (Clone_ok _ _ _ _ Hm), (Clone_ok _ _ _ _ Hn).
  cbn [mbind result_bind].
  destruct (rowReduceForInverse_ok r c m n f g) as [(m' & n' & g' & -> & H)|[-> H]]; try done.
  - left. by exists n', g'.
  - by right.
Qed.

Lemma identity_elts : elts u16 identity.
Proof. intros a k. unfold identity. destruct (a =? k); auto with width. Qed.

Lemma Matrix_Inverse_ok r m f : mrel r r m f → elts u16 f →
  (∃ X g', Matrix_Inverse tb b m = Ok X ∧ mrel r r X g' ∧ elts u16 g' ∧ solved r f identity g') ∨
  (Matrix_Inverse tb b m = Err "singular matrix" ∧ kernel_nonzero r f).
Proof.
  intros Hm Hf. unfold Matrix_Inverse.
  rewrite (mr_rows _ _ _ _ Hm), (mr_cols _ _ _ _ Hm), Z.eqb_refl. cbn [negb err_if mbind result_bind].
  destruct (NewIdentityMatrix_ok r) as (n & -> & Hn); [apply (mr_pos _ _ _ _ Hm)|].
  cbn [mbind result_bind]. rewrite (Clone_ok _ _ _ _ Hm). cbn [mbind result_bind].
  destruct (rowReduceForInverse_ok r r m n f identity) as [(m' & n' & g' & -> & H)|[-> H]];
    try done; [apply identity_elts|left|by right].
  by exists n', g'.
Qed.
End Solve.
