(* ===== verification/ReedSolomon.v ===== *)
(** * The Reed-Solomon coder

    src/rs/rs.go: the PAR2 generators, [Coder], the application of a matrix to
    byte slices on one goroutine or on several, [Reconstruct] and
    [GenerateParity].

    A shard is a byte slice or nil, [option (list Z)].  What the code reads of
    its context is what the calls of [ctx.Err] answer ([Ctx]): before the work,
    once per goroutine and row, and after it.  The goroutines of one call
    interleave by a schedule, a list that says whose kernel call runs next. *)

From S2P Require Import Prelude Field Gf16 Kernels Dispatch LinAlg Matrix.

(** ** Generators and coder *)

(** [initGenerators]. *)
Definition generator_index (i : Z) : bool :=
  negb ((Z.rem i 3 =? 0) || (Z.rem i 5 =? 0) || (Z.rem i 17 =? 0) || (Z.rem i 257 =? 0)).

Definition initGenerators (tb : tables) : result (list Z) :=
  foldM (λ gs i,
    if generator_index i then g ← Pow tb 2 (wrap32 i); Ok (gs ++ [g]) else Ok gs)
    [] (range 0 65536).

Record Coder := mkCoder { dataShards : Z; parityShards : Z; parityMatrix : Matrix }.

Definition NewCoderPAR2Vandermonde (tb : tables) (dataShards parityShards : Z) : result Coder :=
  generators ← initGenerators tb;
  _ ← err_if ((dataShards <=? 0) || (parityShards <=? 0)) "invalid shard counts";
  _ ← err_if (Z.of_nat (length generators) <? dataShards) "too many data shards for generator limit";
  _ ← err_if (65535 <? parityShards) "too many parity shards for GF(2^16)";
  parityMatrix ← NewVandermondeMatrix tb parityShards dataShards generators;
  Ok (mkCoder dataShards parityShards parityMatrix).

(** ** The context *)

(** What [ctx.Err()] answers: [before] the work, in goroutine [w] ahead of row
    [i], and [after] the work. *)
Record Ctx := mkCtx { before : option string; polled : Z → Z → bool; after : option string }.

Definition ctx_err (e : option string) : result unit :=
  match e with Some e => Err e | None => Ok tt end.

(** A context that has been cancelled stays cancelled. *)
Definition ctx_sticky (c : Ctx) : Prop := ∀ w i, polled c w i = true → after c ≠ None.

Definition background : Ctx := mkCtx None (λ _ _, false) None.

(** ** Splitting the work *)

Definition minSplitBytes : Z := 16.

Definition splitForBlock (dataLength numGoroutines kernelBlock : Z) : Z :=
  let block := Z.max kernelBlock minSplitBytes in
  let split := Z.max (Z.quot (dataLength + numGoroutines - 1) numGoroutines) block in
  let rem := Z.rem split block in
  if negb (rem =? 0) then split + (block - rem) else split.

Definition perGoroutineSplit (b : build) (dataLength numGoroutines : Z) : Z :=
  splitForBlock dataLength numGoroutines (KernelBlockBytes b).

(** A byte slice that may be nil. *)
Abbreviation shard := (option (list Z)).

(** ** Applying a matrix *)

Section Apply.
Context (tb : tables) `{VK : !VectorKernels} (b : build).

(** One kernel call: [out[i][lo:hi]] is set to, or increased by, [m[i,j]] times
    [in[j][lo:hi]]. *)
Definition apply_cell (m : Matrix) (inp : list (list Z)) (lo hi : Z) (out : list (list Z))
    (ij : Z * Z) : result (list (list Z)) :=
  let '(i, j) := ij in
  o ← index_at out i;
  outSlice ← slice_at o lo hi;
  c ← At m i j;
  v ← index_at inp j;
  inSlice ← slice_at v lo hi;
  w ← (if j =? 0 then MulByteSliceLE tb b c (Separate inSlice) outSlice
       else MulAndAddByteSliceLE tb b c (Separate inSlice) outSlice);
  set_at out i (take (Z.to_nat lo) o ++ w ++ drop (Z.to_nat hi) o).

(** The kernel calls of [applyMatrixSlice], in order: the rows up to the first
    one whose poll finds the context cancelled. *)
Fixpoint live_rows (polled : Z → bool) (l : list Z) : list Z :=
  match l with
  | [] => []
  | i :: l' => if polled i then [] else i :: live_rows polled l'
  end.

Definition slice_calls (polled : Z → bool) (inp : list (list Z)) (outStart outEnd : Z)
    : list (Z * Z) :=
  i ← live_rows polled (range outStart outEnd);
  (λ j, (i, j)) <$> (0 :: range 1 (Z.of_nat (length inp))).

Definition applyMatrixSlice (polled : Z → bool) (m : Matrix) (inp out : list (list Z))
    (outStart outEnd dataStart dataEnd : Z) : result (list (list Z)) :=
  foldM (apply_cell m inp dataStart dataEnd) out (slice_calls polled inp outStart outEnd).

(** The window of goroutine [w]. *)
Definition window (split dataLength w : Z) : Z * Z :=
  let start := w * split in (start, Z.min (start + split) dataLength).

(** Goroutine [w] runs its next kernel call. *)
Definition goroutine_step (m : Matrix) (inp : list (list Z)) (split dataLength : Z)
    (s : list (list (Z * Z)) * list (list Z)) (w : Z)
    : result (list (list (Z * Z)) * list (list Z)) :=
  let '(calls, out) := s in
  cs ← index_at calls w;
  match cs with
  | [] => Ok s
  | c :: cs' =>
    let '(start, end_) := window split dataLength w in
    out ← apply_cell m inp start end_ out c;
    calls ← set_at calls w cs';
    Ok (calls, out)
  end.

Definition applyMatrixParallelData (ctx : Ctx) (schedule : list Z) (defaultNumGoroutines : Z)
    (m : Matrix) (inp out : list (list Z)) (numGoroutines : Z) : result (list (list Z)) :=
  if (length inp =? 0)%nat || (length out =? 0)%nat then Ok out
  else
    in0 ← index_at inp 0; out0 ← index_at out 0;
    _ ← err_if (negb (length in0 =? length out0)%nat) "mismatched data slice lengths";
    let numGoroutines := if numGoroutines <? 1 then defaultNumGoroutines else numGoroutines in
    let dataLength := Z.of_nat (length out0) in
    let split := perGoroutineSplit b dataLength numGoroutines in
    let actual := Z.quot (dataLength + split - 1) split in
    if actual <? 2 then
      out ← applyMatrixSlice (polled ctx 0) m inp out 0 (rows m) 0 dataLength;
      _ ← ctx_err (after ctx); Ok out
    else
      let calls := (λ w, slice_calls (polled ctx w) inp 0 (rows m)) <$> range 0 actual in
      '(_, out) ← foldM (goroutine_step m inp split dataLength) (calls, out) schedule;
      _ ← ctx_err (after ctx); Ok out.

(** ** Reconstruction *)

Definition makeReconstructionMatrix (dataShards : Z)
    (availableRows missingRows usedParityRows : list Z) (parityMatrix : Matrix) : result Matrix :=
  let used := Z.of_nat (length usedParityRows) in
  let available := Z.of_nat (length availableRows) in
  m ← NewMatrix used used;
  m ← foldM (λ m i, k ← index_at usedParityRows i;
        foldM (λ m j, l ← index_at missingRows j; v ← At parityMatrix k l; Set_ m i j v)
          m (range 0 used)) m (range 0 used);
  n ← NewMatrix used dataShards;
  n ← foldM (λ n i, k ← index_at usedParityRows i;
        n ← foldM (λ n j, l ← index_at availableRows j; v ← At parityMatrix k l; Set_ n i j v)
              n (range 0 available);
        foldM (λ n j, Set_ n i j (if i =? j - available then 1 else 0))
          n (range available dataShards)) n (range 0 used);
  RowReduceForInverse tb b m n.

(** The length check shared by both loops; the state is [sliceLen]. *)
Definition check_length (sliceLen : Z) (s : shard) : result Z :=
  match s with
  | None => Ok sliceLen
  | Some bs =>
    let n := Z.of_nat (length bs) in
    if sliceLen =? -1 then Ok n
    else _ ← err_if (negb (n =? sliceLen)) "mismatched shard lengths"; Ok sliceLen
  end.

Definition validateShardLengths (data parity : list shard) : result Z :=
  n ← foldM check_length (-1) data; foldM check_length n parity.

Definition validateReconstructInputs (c : Coder) (data parity : list shard) : result Z :=
  _ ← err_if (negb (Z.of_nat (length data) =? dataShards c)) "invalid data shard count";
  _ ← err_if (parityShards c <? Z.of_nat (length parity)) "invalid parity shard count";
  validateShardLengths data parity.

Definition ErrNotEnoughParity : string :=
  "not enough parity shards to perform reconstruction".

(** What [analyzeShards] has gathered. *)
Record Shards := mkShards {
  availableRows : list Z; missingRows : list Z; usedParityRows : list Z; input : list (list Z);
}.

Definition analyze_data (s : Shards) (ib : Z * shard) : Shards :=
  let '(i, sh) := ib in
  match sh with
  | Some bs => mkShards (availableRows s ++ [i]) (missingRows s) (usedParityRows s) (input s ++ [bs])
  | None => mkShards (availableRows s) (missingRows s ++ [i]) (usedParityRows s) (input s)
  end.

(** The loop ends at the first turn that finds enough input; later turns change
    nothing, so a turn with enough input leaves the state alone. *)
Definition analyze_parity (dataShards : Z) (s : Shards) (ib : Z * shard) : Shards :=
  let '(i, sh) := ib in
  if Z.of_nat (length (input s)) <? dataShards then
    match sh with
    | Some bs => mkShards (availableRows s) (missingRows s) (usedParityRows s ++ [i]) (input s ++ [bs])
    | None => s
    end
  else s.

Definition indexed (l : list shard) : list (Z * shard) := zip (range 0 (Z.of_nat (length l))) l.

Definition analyzeShards (c : Coder) (data parity : list shard) : result Shards :=
  let s := foldl analyze_data (mkShards [] [] [] []) (indexed data) in
  if (length (missingRows s) =? 0)%nat then Ok (mkShards [] [] [] [])
  else
    let s := foldl (analyze_parity (dataShards c)) s (indexed parity) in
    _ ← err_if (Z.of_nat (length (input s)) <? dataShards c) ErrNotEnoughParity;
    Ok s.

(** [data[r] = reconstructedData[i]]. *)
Definition assign_shard (reconstructedData : list (list Z)) (data : list shard) (ir : Z * Z)
    : result (list shard) :=
  d ← index_at reconstructedData ir.1; set_at data ir.2 (Some d).

Definition Reconstruct (c : Coder) (ctx : Ctx) (schedule : list Z) (defaultNumGoroutines : Z)
    (data parity : list shard) (numGoroutines : Z) : result (list shard) :=
  _ ← ctx_err (before ctx);
  sliceLen ← validateReconstructInputs c data parity;
  s ← analyzeShards c data parity;
  if (length (missingRows s) =? 0)%nat then Ok data
  else
    reconstructionMatrix ← makeReconstructionMatrix (dataShards c) (availableRows s)
      (missingRows s) (usedParityRows s) (parityMatrix c);
    let zeroed := replicate (length (missingRows s)) (replicate (Z.to_nat sliceLen) 0) in
    reconstructedData ← applyMatrixParallelData ctx schedule defaultNumGoroutines
      reconstructionMatrix (input s) zeroed numGoroutines;
    foldM (assign_shard reconstructedData) data
      (zip (range 0 (Z.of_nat (length (missingRows s)))) (missingRows s)).

(** The code also returns the half-done slices next to an error; no caller reads
    them, and the model drops them. *)
Definition GenerateParity (c : Coder) (ctx : Ctx) (schedule : list Z) (defaultNumGoroutines : Z)
    (data : list shard) (numGoroutines : Z) : result (list (list Z)) :=
  _ ← ctx_err (before ctx);
  _ ← err_if (negb (Z.of_nat (length data) =? dataShards c)) "invalid data shard count";
  sliceLen ← validateShardLengths data [];
  let sliceLen := if sliceLen =? -1 then 0 else sliceLen in
  let zeroed := replicate (Z.to_nat (parityShards c)) (replicate (Z.to_nat sliceLen) 0) in
  applyMatrixParallelData ctx schedule defaultNumGoroutines (parityMatrix c)
    (default [] <$> data) zeroed numGoroutines.
End Apply.
