(* ===== verification/RsApply.v ===== *)
(** * Applying a matrix to byte slices

    [applyMatrixSlice] and [applyMatrixParallelData] of src/rs/rs.go compute the
    product of the matrix with the slices, read as vectors of 16-bit elements.
    The goroutines write disjoint windows, so every schedule that lets all of
    them finish gives the same bytes. *)

From S2P Require Import Prelude Field Gf16 Kernels Dispatch LinAlg Matrix ReedSolomon.

(** ** The split *)

Lemma KernelBlockBytes_cases b : KernelBlockBytes b ∈ [2; 32; 64].
Proof. destruct b as [|[] []]; simpl; set_solver. Qed.

Lemma splitForBlock_ok n g k : 0 <= n → 1 <= g → k ∈ [2; 32; 64] →
  let s := splitForBlock n g k in
  16 <= s ∧ s mod 2 = 0 ∧ s mod k = 0 ∧ n <= g * s.
Proof.
  intros Hn Hg Hk. unfold splitForBlock, minSplitBytes. set (block := Z.max k 16).
  assert (block = 16 ∧ k = 2 ∨ block = 32 ∧ k = 32 ∨ block = 64 ∧ k = 64) as Hb.
  { unfold block. set_unfold. destruct Hk as [->|[->|[->|[]]]]; lia. }
  set (q := Z.quot (n + g - 1) g). assert (n <= g * q).
  { unfold q. rewrite Z.quot_div_nonneg by lia.
    pose proof (Z.div_mod (n + g - 1) g). pose proof (Z.mod_pos_bound (n + g - 1) g). lia. }
  set (m := Z.max q block). rewrite Z.rem_mod_nonneg by lia.
  assert (n <= g * m) by nia. assert (block <= m) by lia.
  cbn zeta. assert (∃ s, (if negb (m mod block =? 0) then m + (block - m mod block) else m) = s ∧
    m <= s ∧ s mod block = 0) as (s & -> & Hs & Hm).
  { eexists. split; [done|]. destruct (Z.eqb_spec (m mod block) 0); cbn [negb]; [lia|].
    pose proof (Z.mod_pos_bound m block). split; [lia|].
    replace (m + (block - m mod block)) with ((m / block + 1) * block); [by apply Z.mod_mul; lia|].
    pose proof (Z.div_mod m block). lia. }
  assert (n <= g * s) by nia.
  destruct Hb as [[Hb ->]|[[Hb ->]|[Hb ->]]]; rewrite Hb in *; (split; [lia|]); split; try dlia; split; dlia.
Qed.

(** ** Words of a slice *)

Definition word (l : list Z) (q : Z) : Z := default 0 (to_words l !! Z.to_nat q).

Lemma words_range l L : Z.of_nat (length l) = L → L mod 2 = 0 →
  to_words l = word l <$> range 0 (L / 2).
Proof.
  intros Hl He. apply list_eq. intros i. rewrite list_lookup_fmap.
  pose proof (Nat2Z.inj_div (length l) 2) as Hdiv.
  destruct (to_words l !! i) as [w|] eqn:Hw.
  - pose proof (lookup_lt_Some _ _ _ Hw) as Hi. rewrite to_words_length in Hi.
    rewrite range_lookup by dlia. simpl. unfold word.
    replace (Z.to_nat (0 + Z.of_nat i)) with i by lia. by rewrite Hw.
  - apply lookup_ge_None in Hw. rewrite to_words_length in Hw. symmetry.
    apply fmap_None, lookup_ge_None. rewrite range_length. dlia.
Qed.

Lemma zip_with_fmap_same {A B C D} (h : B → C → D) (f : A → B) (g : A → C) l :
  zip_with h (f <$> l) (g <$> l) = (λ a, h (f a) (g a)) <$> l.
Proof. induction l as [|a l IH]; [done|]. rewrite !fmap_cons. simpl. by rewrite IH. Qed.

Lemma word_u16 l q : bytes l → u16 (word l q).
Proof.
  intros Hl. unfold word. destruct (to_words l !! _) as [w|] eqn:Hw; [|apply u16_0].
  pose proof (to_words_u16 l Hl) as Hu. rewrite Forall_lookup in Hu. by eapply Hu.
Qed.

(** The length of a row times the matrix row, as a byte slice. *)
Definition product_row (f : mat) (c L i : Z) (inp : list (list Z)) : list Z :=
  of_words ((λ q, sum 0 c (λ j, gmul (f i j) (word (default [] (inp !! Z.to_nat j)) q))) <$> range 0 (L / 2)).

Definition matrix_product (f : mat) (r c L : Z) (inp : list (list Z)) : list (list Z) :=
  (λ i, product_row f c L i inp) <$> range 0 r.

Section Apply.
Context (tb : tables) `{!TablesReady tb} `{VK : !VectorKernels} `{!VectorKernelsOk tb VK}.
Context (b : build) (r c L : Z) (m : Matrix) (f : mat) (inp : list (list Z)).
Context (Hm : mrel r c m f) (Hf : elts u16 f).
Context (Hinp : Z.of_nat (length inp) = c).
Context (Hbytes : Forall bytes inp) (Hlens : Forall (λ v, Z.of_nat (length v) = L) inp).
Context (HL : L mod 2 = 0).

Definition in_row (j : Z) : list Z := default [] (inp !! Z.to_nat j).

Lemma in_row_ok j : 0 <= j < c →
  inp !! Z.to_nat j = Some (in_row j) ∧ bytes (in_row j) ∧ Z.of_nat (length (in_row j)) = L.
Proof.
  intros Hj. unfold in_row. destruct (lookup_lt_is_Some_2 inp (Z.to_nat j)) as [v Hv]; [lia|].
  rewrite Hv. split; [done|]. rewrite Forall_lookup in Hbytes, Hlens. split; [by eapply Hbytes|by eapply Hlens].
Qed.

(** Output slices as the kernels keep them. *)
Definition good (out : list (list Z)) : Prop :=
  Z.of_nat (length out) = r ∧ Forall (λ o, bytes o ∧ Z.of_nat (length o) = L) out.

Definition win (lo hi : Z) : Prop := 0 <= lo <= hi ∧ hi <= L ∧ lo mod 2 = 0 ∧ hi mod 2 = 0.

Definition proj (lo hi : Z) (out : list (list Z)) : list (list Z) := seg lo hi <$> out.

(** One kernel call, seen in its window. *)
Definition cellf (ij : Z * Z) (v o : list Z) : list Z :=
  elementwise (if ij.2 =? 0 then mul_elem (f ij.1 ij.2) else mulAdd_elem (f ij.1 ij.2)) v o.

Definition pure_cell (lo hi : Z) (rows : list (list Z)) (ij : Z * Z) : list (list Z) :=
  alter (cellf ij (seg lo hi (in_row ij.2))) (Z.to_nat ij.1) rows.

Definition valid_call (ij : Z * Z) : Prop := 0 <= ij.1 < r ∧ 0 <= ij.2 < c.

Lemma good_row out i : good out → 0 <= i < r →
  ∃ o, out !! Z.to_nat i = Some o ∧ bytes o ∧ Z.of_nat (length o) = L.
Proof.
  intros [Hr Hg] Hi. destruct (lookup_lt_is_Some_2 out (Z.to_nat i)) as [o Ho]; [lia|].
  exists o. rewrite Forall_lookup in Hg. split; [done|]. by eapply Hg.
Qed.

Lemma cellf_length ij v o : length v = length o → Nat.Even (length o) →
  length (cellf ij v o) = length o.
Proof. intros. by apply elementwise_length. Qed.

Lemma seg_put lo hi (o w : list Z) lo' hi' : 0 <= lo <= hi → hi <= Z.of_nat (length o) →
  Z.of_nat (length w) = hi - lo →
  0 <= lo' <= hi' → hi' <= Z.of_nat (length o) → hi' <= lo ∨ hi <= lo' →
  seg lo' hi' (take (Z.to_nat lo) o ++ w ++ drop (Z.to_nat hi) o) = seg lo' hi' o.
Proof.
  intros H1 H2 Hw H3 H4 Hdis. apply list_eq. intros k. unfold seg. rewrite !lookup_take.
  case_decide; [|done]. rewrite !lookup_drop. destruct Hdis.
  - rewrite lookup_app_l by (rewrite length_take; lia). by rewrite lookup_take_lt by lia.
  - rewrite lookup_app_r by (rewrite length_take; lia).
    rewrite lookup_app_r by (rewrite length_take; lia).
    rewrite lookup_drop, length_take. f_equal. lia.
Qed.

Lemma seg_put_same lo hi (o w : list Z) : 0 <= lo <= hi → hi <= Z.of_nat (length o) →
  Z.of_nat (length w) = hi - lo →
  seg lo hi (take (Z.to_nat lo) o ++ w ++ drop (Z.to_nat hi) o) = w.
Proof.
  intros H1 H2 Hw. unfold seg. rewrite drop_app_length' by (rewrite length_take; lia).
  by rewrite take_app_length' by lia.
Qed.

Lemma apply_cell_ok out lo hi ij : good out → win lo hi → valid_call ij →
  ∃ out', apply_cell tb b m inp lo hi out ij = Ok out' ∧ good out' ∧
    proj lo hi out' = pure_cell lo hi (proj lo hi out) ij ∧
    ∀ lo' hi', win lo' hi' → hi' <= lo ∨ hi <= lo' → proj lo' hi' out' = proj lo' hi' out.
Proof.
  intros Hg (Hlo & Hhi & He1 & He2) [Hi Hj]. destruct ij as [i j]. cbn [fst snd] in *.
  destruct (good_row out i Hg Hi) as (o & Ho & Hob & Hol).
  destruct (in_row_ok j Hj) as (Hv & Hvb & Hvl). unfold apply_cell.
  rewrite (index_at_lookup out i o), (index_at_lookup inp j (in_row j)) by (done || lia).
  cbn [mbind result_bind]. rewrite slice_at_ok by lia. cbn [mbind result_bind].
  rewrite (At_ok r c m f Hm) by done. cbn [mbind result_bind]. rewrite slice_at_ok by lia.
  cbn [mbind result_bind]. fold (seg lo hi o) (seg lo hi (in_row j)).
  assert (Z.of_nat (length (seg lo hi o)) = hi - lo) as Hs1 by (rewrite seg_length; lia).
  assert (Z.of_nat (length (seg lo hi (in_row j))) = hi - lo) as Hs2 by (rewrite seg_length; lia).
  assert (Nat.Even (length (seg lo hi o))) as Heven.
  { apply even_length_mod. rewrite Hs1, Zminus_mod, He1, He2. done. }
  set (w := cellf (i, j) (seg lo hi (in_row j)) (seg lo hi o)).
  assert (Z.of_nat (length w) = hi - lo) as Hw.
  { unfold w. rewrite cellf_length by (done || lia). done. }
  assert ((if j =? 0 then MulByteSliceLE tb b (f i j) (Separate (seg lo hi (in_row j))) (seg lo hi o)
    else MulAndAddByteSliceLE tb b (f i j) (Separate (seg lo hi (in_row j))) (seg lo hi o)) = Ok w) as ->.
  { unfold w, cellf. cbn [fst snd].
    destruct (j =? 0); [apply (MulByteSliceLE_ok tb)|apply (MulAndAddByteSliceLE_ok tb)];
      cbn [contents]; auto using seg_bytes; try apply Hf; lia. }
  cbn [mbind result_bind]. destruct (Hg) as [Hr Hall].
  rewrite set_at_ok by lia. eexists. split; [done|].
  set (o' := take (Z.to_nat lo) o ++ w ++ drop (Z.to_nat hi) o).
  split; [split|split].
  - by rewrite length_insert.
  - apply Forall_insert; [done|]. split.
    + repeat apply Forall_app_2; [by apply Forall_take|apply elementwise_bytes|by apply Forall_drop].
    + unfold o'. rewrite !length_app, length_take, length_drop. lia.
  - unfold proj, pure_cell. cbn [fst snd]. rewrite list_fmap_insert. unfold o'.
    rewrite seg_put_same by lia. apply list_eq. intros k.
    destruct (decide (k = Z.to_nat i)) as [->|Hne].
    + rewrite list_lookup_insert_eq by (rewrite length_fmap; lia).
      by rewrite list_lookup_alter_eq, list_lookup_fmap, Ho.
    + by rewrite list_lookup_insert_ne, list_lookup_alter_ne by done.
  - intros lo' hi' (Hlo' & Hhi' & _) Hdis. unfold proj. rewrite list_fmap_insert. unfold o'.
    rewrite seg_put by lia. apply list_insert_id. by rewrite list_lookup_fmap, Ho.
Qed.

(** ** Runs of kernel calls *)

Lemma run_calls_ok calls out lo hi : good out → win lo hi → Forall valid_call calls →
  ∃ out', foldM (apply_cell tb b m inp lo hi) out calls = Ok out' ∧ good out' ∧
    proj lo hi out' = foldl (pure_cell lo hi) (proj lo hi out) calls.
Proof.
  intros Hg Hw Hc. revert out Hg. induction Hc as [|ij calls Hij Hc IH]; intros out Hg; cbn [foldM foldl].
  { exists out. by split. }
  destruct (apply_cell_ok out lo hi ij Hg Hw Hij) as (out1 & -> & Hg1 & Hp1 & _).
  cbn [mbind result_bind]. rewrite <- Hp1. by apply IH.
Qed.

Lemma win_full : 0 <= L → win 0 L.
Proof. intros H. split; [lia|]. split; [lia|]. by split. Qed.

Lemma proj_full out : good out → proj 0 L out = out.
Proof.
  intros [_ Hg]. unfold proj. induction Hg as [|o out [_ Ho] Hg IH]; [done|].
  rewrite fmap_cons, IH. f_equal. unfold seg. rewrite drop_0. apply take_ge. lia.
Qed.

Lemma seg_full (v : list Z) : Z.of_nat (length v) = L → seg 0 L v = v.
Proof. intros H. unfold seg. rewrite drop_0. apply take_ge. lia. Qed.

(** The calls on a window are the calls on everything, seen in the window. *)
Lemma proj_pure_cell out lo hi ij : good out → win lo hi → valid_call ij →
  good (pure_cell 0 L out ij) ∧
  proj lo hi (pure_cell 0 L out ij) = pure_cell lo hi (proj lo hi out) ij.
Proof.
  intros Hg (Hlo & Hhi & He1 & He2) [Hi Hj]. destruct ij as [i j]. cbn [fst snd] in *.
  destruct (good_row out i Hg Hi) as (o & Ho & Hob & Hol).
  destruct (in_row_ok j Hj) as (Hv & Hvb & Hvl). destruct (Hg) as [Hr Hall].
  assert (Nat.Even (length o)) as Heven by (apply even_length_mod; by rewrite Hol).
  unfold pure_cell. cbn [fst snd]. rewrite seg_full by done. split.
  - split; [by rewrite length_alter|]. apply Forall_lookup. intros k o' Hk.
    destruct (decide (k = Z.to_nat i)) as [->|Hne].
    + rewrite list_lookup_alter_eq, Ho in Hk. injection Hk as <-.
      split; [apply elementwise_bytes|]. rewrite cellf_length; [done|lia|done].
    + rewrite list_lookup_alter_ne in Hk by done. rewrite Forall_lookup in Hall. by eapply Hall.
  - apply list_eq. intros k. unfold proj. rewrite list_lookup_fmap.
    destruct (decide (k = Z.to_nat i)) as [->|Hne].
    + rewrite !list_lookup_alter_eq, list_lookup_fmap, Ho. cbn [fmap option_fmap option_map].
      f_equal. unfold cellf. apply elementwise_seg; (lia || done).
    + by rewrite !list_lookup_alter_ne, list_lookup_fmap by done.
Qed.

Lemma proj_run calls out lo hi : good out → win lo hi → Forall valid_call calls →
  good (foldl (pure_cell 0 L) out calls) ∧
  proj lo hi (foldl (pure_cell 0 L) out calls) = foldl (pure_cell lo hi) (proj lo hi out) calls.
Proof.
  intros Hg Hw Hc. revert out Hg.
  induction Hc as [|ij calls Hij Hc IH]; intros out Hg; cbn [foldl]; [by split|].
  destruct (proj_pure_cell out lo hi ij Hg Hw Hij) as [Hg1 <-]. by apply IH.
Qed.

(** ** The value *)

Definition row_calls (i : Z) : list (Z * Z) := (λ j, (i, j)) <$> (0 :: range 1 c).
Definition all_calls : list (Z * Z) := i ← range 0 r; row_calls i.

Lemma row_calls_valid i : 0 < c → 0 <= i < r → Forall valid_call (row_calls i).
Proof.
  intros Hc Hi. apply Forall_fmap, Forall_forall. intros j Hj. split; [done|]. cbn [compose snd].
  apply elem_of_cons in Hj as [->|Hj%elem_of_range]; lia.
Qed.

Lemma foldl_pure_cell_row rows i js :
  foldl (pure_cell 0 L) rows ((λ j, (i, j)) <$> js) =
  alter (λ o, foldl (λ o j, cellf (i, j) (seg 0 L (in_row j)) o) o js) (Z.to_nat i) rows.
Proof.
  revert rows. induction js as [|j js IH]; intros rows.
  - simpl. symmetry. apply list_alter_id. done.
  - rewrite fmap_cons. simpl foldl. rewrite IH. unfold pure_cell. cbn [fst snd].
    by rewrite list_alter_alter_eq.
Qed.

(** The sum over the first [J] columns. *)
Definition partial (J i : Z) : list Z :=
  of_words ((λ q, sum 0 J (λ j, gmul (f i j) (word (in_row j) q))) <$> range 0 (L / 2)).

Lemma partial_words J i : J <= c →
  to_words (partial J i) = (λ q, sum 0 J (λ j, gmul (f i j) (word (in_row j) q))) <$> range 0 (L / 2).
Proof.
  intros HJ. unfold partial. apply to_of_words, Forall_fmap, Forall_forall. intros q _. simpl.
  apply (sum_elt u16 gmul ginv). intros j Hj.
  apply gmul_u16, Hf.
Qed.

Lemma row_value i o : 0 < c → bytes o → Z.of_nat (length o) = L →
  foldl (λ o j, cellf (i, j) (seg 0 L (in_row j)) o) o (0 :: range 1 c) = partial c i.
Proof.
  intros Hc Hob Hol.
  assert (∀ J, 1 <= J <= c → foldl (λ o j, cellf (i, j) (seg 0 L (in_row j)) o) o (0 :: range 1 J)
    = partial J i) as HJ; [|apply HJ; lia].
  intros J HJ. destruct HJ as [HJ1 HJc]. revert HJc.
  assert (∃ n, 0 <= n ∧ J = n + 1) as (n & Hn & ->) by (exists (J - 1); lia). clear HJ1.
  pattern n. apply natlike_ind; [| |done].
  - intros _. rewrite range_nil by lia. cbn [foldl]. destruct (in_row_ok 0) as (_ & Hvb & Hvl); [lia|].
    rewrite seg_full by done. unfold cellf, elementwise, partial. cbn [fst snd Z.eqb].
    rewrite (words_range o L), (words_range (in_row 0) L), zip_with_fmap_same by done. f_equal.
    apply list_fmap_ext. intros k q _. simpl. rewrite sum_cons, sum_nil by lia.
    by rewrite Z.lxor_0_r.
  - intros k Hk IH Hle. rewrite (range_app 1 (k + 1) (Z.succ k + 1)) by lia.
    rewrite (range_cons (k + 1)), (range_nil (k + 1 + 1)) by lia.
    rewrite app_comm_cons, foldl_app, IH by lia. cbn [foldl].
    destruct (in_row_ok (k + 1)) as (_ & Hvb & Hvl); [lia|]. rewrite seg_full by done.
    unfold cellf, elementwise. cbn [fst snd]. rewrite (proj2 (Z.eqb_neq (k + 1) 0)) by lia.
    rewrite partial_words by lia. rewrite (words_range (in_row (k + 1)) L) by done.
    rewrite zip_with_fmap_same. unfold partial. f_equal. apply list_fmap_ext. intros p q _. simpl.
    unfold mulAdd_elem. replace (Z.succ k + 1) with (k + 1 + 1) by lia. by rewrite (sum_snoc 0 (k + 1)) by lia.
Qed.

Lemma all_calls_valid : 0 < c → Forall valid_call all_calls.
Proof.
  intros Hc. unfold all_calls. apply Forall_forall. intros ij Hin.
  apply list_elem_of_bind in Hin as (i & Hin & Hi%elem_of_range).
  pose proof (row_calls_valid i Hc Hi) as Hv. rewrite Forall_forall in Hv. by apply Hv.
Qed.

Lemma all_calls_value out : 0 < c → good out →
  foldl (pure_cell 0 L) out all_calls = matrix_product f r c L inp.
Proof.
  intros Hc Hg.
  assert (∀ n, 0 <= n → n <= r → 
    foldl (pure_cell 0 L) out (i ← range 0 n; row_calls i) =
    ((λ i, partial c i) <$> range 0 n) ++ drop (Z.to_nat n) out) as Hn.
  { intros n Hn. pattern n. apply natlike_ind; [done| |done]. intros k Hk IH Hle.
    rewrite (range_app 0 k (Z.succ k)), (range_cons k), (range_nil (k + 1)) by lia.
    rewrite bind_app, foldl_app, IH by lia. cbn [mbind list_bind]. rewrite app_nil_r.
    unfold row_calls. rewrite foldl_pure_cell_row.
    destruct (good_row out k Hg) as (o & Ho & Hob & Hol); [lia|].
    rewrite (drop_S out o (Z.to_nat k)) by done.
    rewrite fmap_app. cbn [fmap list_fmap].
    assert (length ((λ i, partial c i) <$> range 0 k) = Z.to_nat k) as Hl.
    { rewrite length_fmap, range_length. lia. }
    rewrite alter_app_r_alt by lia. rewrite Hl, Nat.sub_diag. cbn [alter list_alter].
    rewrite row_value by done. rewrite <- app_assoc. cbn [app].
    by replace (Z.to_nat (Z.succ k)) with (S (Z.to_nat k)) by lia. }
  unfold all_calls. destruct Hg as [Hr _]. rewrite Hn by lia. rewrite drop_ge by lia.
  by rewrite app_nil_r.
Qed.

(** ** Goroutines *)

(** How often a schedule picks goroutine [w]. *)
Definition picks (w : Z) (schedule : list Z) : nat := length (filter (λ x, x = w) schedule).

Section Schedule.
Context (P : Z) (HP : 16 <= P) (HPe : P mod 2 = 0) (HL0 : 0 <= L).
Let N := Z.quot (L + P - 1) P.
Let lo w := w * P.
Let hi w := Z.min (w * P + P) L.

Lemma windows_count : N = (L + P - 1) / P.
Proof. unfold N. apply Z.quot_div_nonneg; lia. Qed.

Lemma window_win w : 0 <= w < N → win (lo w) (hi w).
Proof.
  intros Hw. rewrite windows_count in Hw. unfold win, lo, hi.
  assert (w * P < L).
  { pose proof (Z.div_mod (L + P - 1) P). pose proof (Z.mod_pos_bound (L + P - 1) P). nia. }
  split; [nia|]. split; [lia|].
  assert (P = 2 * (P / 2)) as HP2 by dlia. set (h := P / 2) in *. assert (w * P = 2 * (w * h)) as Hw2 by lia.
  split; [rewrite Hw2, Z.mul_comm; by apply Z.mod_mul|].
  destruct (Z.min_spec (w * P + P) L) as [[_ ->]|[_ ->]]; [|done].
  replace (w * P + P) with ((w * h + h) * 2) by lia. by apply Z.mod_mul.
Qed.

Lemma windows_disjoint w w' : 0 <= w → 0 <= w' → w ≠ w' → hi w' <= lo w ∨ hi w <= lo w'.
Proof. intros. unfold hi, lo. destruct (Z.lt_ge_cases w w'); [right|left]; nia. Qed.

(** Outputs that agree on all windows are the same. *)
Lemma good_ext out out' : good out → good out' →
  (∀ w, 0 <= w < N → proj (lo w) (hi w) out = proj (lo w) (hi w) out') → out = out'.
Proof.
  intros Hg Hg' Hp. apply list_eq. intros k.
  destruct (Z.lt_ge_cases (Z.of_nat k) r) as [Hk|Hk].
  2:{ rewrite !(proj2 (lookup_ge_None _ _)); [done|destruct Hg'|destruct Hg]; lia. }
  destruct (good_row out (Z.of_nat k) Hg) as (o & Ho & _ & Hl); [lia|].
  destruct (good_row out' (Z.of_nat k) Hg') as (o' & Ho' & _ & Hl'); [lia|].
  rewrite Nat2Z.id in Ho, Ho'. rewrite Ho, Ho'. f_equal. apply list_eq. intros p.
  destruct (Z.lt_ge_cases (Z.of_nat p) L) as [Hpl|Hpl].
  2:{ rewrite !(proj2 (lookup_ge_None _ _)); [done|lia..]. }
  set (w := Z.of_nat p / P).
  assert (w * P <= Z.of_nat p < w * P + P) as Hwp.
  { unfold w. pose proof (Z.div_mod (Z.of_nat p) P). pose proof (Z.mod_pos_bound (Z.of_nat p) P). nia. }
  assert (0 <= w) by (apply Z.div_pos; lia).
  assert (0 <= w < N) as Hw.
  { rewrite windows_count. split; [done|]. apply Z.div_le_lower_bound with (q := w + 1) in HP || idtac.
    assert (w + 1 <= (L + P - 1) / P); [|lia]. apply Z.div_le_lower_bound; lia. }
  specialize (Hp w Hw). apply (f_equal (.!! k)) in Hp. unfold proj in Hp.
  rewrite !list_lookup_fmap, Ho, Ho' in Hp. injection Hp as Hp.
  apply (f_equal (.!! (p - Z.to_nat (lo w))%nat)) in Hp. unfold seg in Hp.
  rewrite !lookup_take_lt, !lookup_drop in Hp by (unfold lo, hi; lia).
  by replace (Z.to_nat (lo w) + (p - Z.to_nat (lo w)))%nat with p in Hp by (unfold lo; lia).
Qed.

Lemma picks_cons w w0 sched :
  picks w (w0 :: sched) = if decide (w0 = w) then S (picks w sched) else picks w sched.
Proof. unfold picks. rewrite filter_cons. by destruct (decide (w0 = w)). Qed.

Lemma goroutine_idle calls out w : 0 <= w → calls !! Z.to_nat w = Some [] →
  goroutine_step tb b m inp P L (calls, out) w = Ok (calls, out).
Proof. intros Hw Hcs. unfold goroutine_step. by rewrite (index_at_lookup calls w []). Qed.

Lemma goroutine_call calls out w ij cs : good out → 0 <= w < N →
  calls !! Z.to_nat w = Some (ij :: cs) → valid_call ij →
  ∃ out', goroutine_step tb b m inp P L (calls, out) w = Ok (<[Z.to_nat w := cs]> calls, out') ∧
    good out' ∧
    proj (lo w) (hi w) out' = pure_cell (lo w) (hi w) (proj (lo w) (hi w) out) ij ∧
    ∀ lo' hi', win lo' hi' → hi' <= lo w ∨ hi w <= lo' → proj lo' hi' out' = proj lo' hi' out.
Proof.
  intros Hg Hw Hcs Hij. unfold goroutine_step.
  rewrite (index_at_lookup calls w (ij :: cs)) by (done || lia). cbn [mbind result_bind].
  change (window P L w) with (lo w, hi w). cbn iota beta.
  destruct (apply_cell_ok out (lo w) (hi w) ij Hg) as (out1 & -> & H); [by apply window_win|done|].
  cbn [mbind result_bind]. pose proof (lookup_lt_Some _ _ _ Hcs).
  rewrite set_at_ok by lia. by exists out1.
Qed.

(** What a schedule has done: each goroutine has run its first calls, and its
    window shows the effect of those calls alone. *)
Lemma schedule_run sched calls out : good out → Z.of_nat (length calls) = N →
  Forall (Forall valid_call) calls → Forall (λ w, 0 <= w < N) sched →
  ∃ calls' out', foldM (goroutine_step tb b m inp P L) (calls, out) sched = Ok (calls', out') ∧
    good out' ∧ ∀ w, 0 <= w < N → ∃ cs, calls !! Z.to_nat w = Some cs ∧
      proj (lo w) (hi w) out' =
        foldl (pure_cell (lo w) (hi w)) (proj (lo w) (hi w) out) (take (picks w sched) cs).
Proof.
  revert calls out. induction sched as [|w0 sched IH]; intros calls out Hg Hlen Hv Hs; cbn [foldM].
  { exists calls, out. split; [done|]. split; [done|]. intros w Hw.
    destruct (lookup_lt_is_Some_2 calls (Z.to_nat w)) as [cs Hcs]; [lia|]. by exists cs. }
  apply Forall_cons in Hs as [Hw0 Hs].
  destruct (lookup_lt_is_Some_2 calls (Z.to_nat w0)) as [cs0 Hcs0]; [lia|].
  destruct cs0 as [|ij cs0].
  - rewrite goroutine_idle by (done || lia). cbn [mbind result_bind].
    destruct (IH calls out) as (calls' & out' & Hrun & Hg' & Hall); try done.
    exists calls', out'. do 2 (split; [done|]). intros w Hw.
    destruct (Hall w Hw) as (cs & Hcs & Hp). exists cs. split; [done|]. rewrite Hp, picks_cons.
    destruct (decide (w0 = w)) as [->|]; [|done].
    rewrite Hcs in Hcs0. injection Hcs0 as ->. by rewrite !take_nil.
  - assert (valid_call ij ∧ Forall valid_call cs0) as [Hij Hcs0v].
    { rewrite Forall_lookup in Hv. specialize (Hv _ _ Hcs0). by apply Forall_cons in Hv. }
    destruct (goroutine_call calls out w0 ij cs0) as (out1 & -> & Hg1 & Hp1 & Hother); try done.
    cbn [mbind result_bind].
    destruct (IH (<[Z.to_nat w0 := cs0]> calls) out1) as (calls' & out' & Hrun & Hg' & Hall); try done.
    { by rewrite length_insert. }
    { by apply Forall_insert. }
    exists calls', out'. do 2 (split; [done|]). intros w Hw. destruct (Hall w Hw) as (cs & Hcs & Hp).
    rewrite picks_cons. destruct (decide (w0 = w)) as [->|Hne].
    + exists (ij :: cs0). split; [done|]. rewrite list_lookup_insert_eq in Hcs by lia.
      injection Hcs as <-. by rewrite Hp, Hp1.
    + exists cs. rewrite list_lookup_insert_ne in Hcs by lia. split; [done|]. rewrite Hp. f_equal.
      apply Hother; [by apply window_win|]. by apply windows_disjoint; [lia|lia|].
Qed.
End Schedule.

(** ** [applyMatrixParallelData] *)

(** Every goroutine that is started gets to make all of its kernel calls. *)
Definition complete_schedule (split dataLength : Z) (calls : Z → nat) (schedule : list Z) : Prop :=
  let n := Z.quot (dataLength + split - 1) split in
  Forall (λ w, 0 <= w < n) schedule ∧ Forall (λ w, (calls w <= picks w schedule)%nat) (range 0 n).

#[export] Instance complete_schedule_dec split dataLength calls schedule :
  Decision (complete_schedule split dataLength calls schedule).
Proof. unfold complete_schedule. apply _. Defined.

Lemma live_all (l : list Z) : live_rows (λ _, false) l = l.
Proof. induction l as [|i l IH]; simpl; [done|]. by rewrite IH. Qed.

Lemma live_ext p p' (l : list Z) : (∀ i, p i = p' i) → live_rows p l = live_rows p' l.
Proof. intros H. induction l as [|i l IH]; simpl; [done|]. rewrite H. by destruct (p' i); [|rewrite IH]. Qed.

Lemma live_incl p (l : list Z) i : i ∈ live_rows p l → i ∈ l.
Proof.
  induction l as [|k l IH]; simpl; [done|]. destruct (p k); [set_solver|].
  rewrite !elem_of_cons. intros [->|?]; auto.
Qed.

Lemma slice_calls_valid p : 0 < c → Forall valid_call (slice_calls p inp 0 r).
Proof.
  intros Hc. unfold slice_calls. apply Forall_forall. intros ij Hin.
  apply list_elem_of_bind in Hin as (i & Hin & Hi%live_incl%elem_of_range).
  rewrite Hinp in Hin. pose proof (row_calls_valid i Hc Hi) as Hv.
  rewrite Forall_forall in Hv. by apply Hv.
Qed.

Lemma slice_calls_all p : (∀ i, p i = false) → slice_calls p inp 0 r = all_calls.
Proof.
  intros Hp. unfold slice_calls. rewrite (live_ext p (λ _, false)) by done.
  by rewrite live_all, Hinp.
Qed.

Definition numGoroutines' (dflt n : Z) : Z := if n <? 1 then dflt else n.

(** The runs of the goroutines never fail; without cancellation the result is
    the product of the matrix and the slices. *)
Lemma applyMatrixParallelData_ok ctx sched dflt n out :
  good out → 0 < c → 0 < r → 0 <= L → 1 <= dflt →
  complete_schedule (perGoroutineSplit b L (numGoroutines' dflt n)) L
    (λ w, length (slice_calls (polled ctx w) inp 0 r)) sched →
  ctx_sticky ctx →
  applyMatrixParallelData tb b ctx sched dflt m inp out n =
  match after ctx with
  | Some e => Err e
  | None => Ok (matrix_product f r c L inp)
  end.
Proof.
  intros Hg Hc Hr HL0 Hd [Hrange Hpicks] Hsticky. destruct (Hg) as [Hrows Hall].
  unfold applyMatrixParallelData.
  destruct (Nat.eqb_spec (length inp) 0); [lia|]. destruct (Nat.eqb_spec (length out) 0); [lia|].
  cbn [orb]. destruct (in_row_ok 0) as (H0 & _ & Hl0); [lia|].
  destruct (good_row out 0 Hg) as (o & Ho & Hob & Hol); [lia|].
  rewrite (index_at_lookup inp 0 (in_row 0)), (index_at_lookup out 0 o) by done.
  cbn [mbind result_bind]. rewrite (proj2 (Nat.eqb_eq _ _)) by lia. cbn [negb err_if mbind result_bind].
  rewrite Hol. fold (numGoroutines' dflt n). rewrite (mr_rows _ _ _ _ Hm).
  set (g := numGoroutines' dflt n) in *. assert (1 <= g) as Hg1 by (unfold g, numGoroutines'; zbool).
  destruct (splitForBlock_ok L g (KernelBlockBytes b)) as (HP & HPe & _ & _);
    [done|done|apply KernelBlockBytes_cases|].
  unfold perGoroutineSplit in *. set (P := splitForBlock L g (KernelBlockBytes b)) in *.
  assert (after ctx = None → ∀ w i, polled ctx w i = false) as Hpoll.
  { intros Ha w i. destruct (polled ctx w i) eqn:Hp; [|done]. by apply Hsticky in Hp. }
  destruct (Z.ltb_spec (Z.quot (L + P - 1) P) 2) as [Hlt|Hge].
  - unfold applyMatrixSlice.
    destruct (run_calls_ok (slice_calls (polled ctx 0) inp 0 r) out 0 L) as (out' & -> & Hg' & Hp');
      [done|by apply win_full|by apply slice_calls_valid|].
    cbn [mbind result_bind]. destruct (after ctx) as [e|] eqn:Ha; [done|]. cbn [ctx_err mbind result_bind].
    rewrite !proj_full in Hp' by done. rewrite Hp', slice_calls_all by auto. f_equal.
    by apply all_calls_value.
  - set (N := Z.quot (L + P - 1) P) in *.
    set (calls := (λ w, slice_calls (polled ctx w) inp 0 r) <$> range 0 N).
    destruct (schedule_run P HP HPe HL0 sched calls out) as (calls' & out' & -> & Hg' & Hw).
    + done.
    + unfold calls. rewrite length_fmap, range_length. fold N. lia.
    + unfold calls. apply Forall_fmap, Forall_true. intros w. by apply slice_calls_valid.
    + done.
    + cbn [mbind result_bind]. destruct (after ctx) as [e|] eqn:Ha; [done|]. cbn [ctx_err mbind result_bind].
      f_equal. rewrite <- (all_calls_value out) by done.
      apply (good_ext P HP HL0); [done|apply (proj_run all_calls out 0 L); auto using win_full, all_calls_valid|].
      intros w Hwn. destruct (Hw w Hwn) as (cs & Hcs & Hp).
      assert (cs = all_calls) as ->.
      { unfold calls in Hcs. rewrite list_lookup_fmap, range_lookup in Hcs by lia.
        injection Hcs as <-. apply slice_calls_all. auto. }
      rewrite Hp. rewrite take_ge.
      * symmetry. apply proj_run; [done|by apply window_win|by apply all_calls_valid].
      * rewrite Forall_forall in Hpicks. specialize (Hpicks w). rewrite slice_calls_all in Hpicks by auto.
        apply Hpicks, elem_of_range. fold N. lia.
Qed.
End Apply.

(** Freshly made output slices. *)
Lemma zeroed_good r L : 0 <= r → 0 <= L →
  good r L (replicate (Z.to_nat r) (replicate (Z.to_nat L) 0)).
Proof.
  intros Hr HL. split; [rewrite length_replicate; lia|]. apply Forall_replicate.
  split; [apply Forall_replicate; zlia|]. rewrite length_replicate. lia.
Qed.

Lemma slice_calls_length_ext (l l' : list (list Z)) pl r : length l = length l' →
  slice_calls pl l 0 r = slice_calls pl l' 0 r.
Proof. intros H. unfold slice_calls. by rewrite H. Qed.
