(* ===== verification/RsReconstruct.v ===== *)
(** * Reconstruction recovers the data

    The generators and the parity matrix of [NewCoderPAR2Vandermonde], the
    bookkeeping of [analyzeShards], and [Reconstruct] (src/rs/rs.go): when every
    shard handed in is the original one and the selected rows of the parity
    matrix determine the missing shards, the result is the original data. *)

From S2P Require Import Prelude Field Gf16 Kernels Dispatch LinAlg Matrix ReedSolomon RsApply.

(** ** Powers of two are distinct *)

(** [gexp] by repeated squaring. *)
Fixpoint gexp_fast (p : positive) : Z :=
  match p with
  | xH => 3
  | xO p => let h := gexp_fast p in gmul h h
  | xI p => let h := gexp_fast p in gmul 3 (gmul h h)
  end.

Lemma gexp_fast_ok p : gexp (Z.pos p) = gexp_fast p.
Proof.
  induction p as [p IH|p IH|]; cbn [gexp_fast]; [| |apply gexp_1].
  - replace (Z.pos p~1) with (1 + (Z.pos p + Z.pos p)) by lia.
    by rewrite !gexp_add, gexp_1, IH by lia.
  - replace (Z.pos p~0) with (Z.pos p + Z.pos p) by lia. by rewrite gexp_add, IH by lia.
Qed.

(** The discrete logarithm of 2, which is prime to the order of the group. *)
Definition log2 : Z := 32749.

Lemma gexp_log2 : gexp log2 = 2.
Proof. unfold log2. rewrite gexp_fast_ok. vm_compute. reflexivity. Qed.

Lemma gpow_2 i : 0 <= i → gpow 2 (Z.to_nat i) = gexp (log2 * i).
Proof.
  intros Hi. rewrite <- gexp_log2, gpow_gexp by (unfold log2; lia). rewrite Z2Nat.id by done. f_equal. apply Z.mul_comm.
Qed.

Lemma gexp_inj_tables (tb : tables) `{!TablesReady tb} i j :
  0 <= i → 0 <= j → gexp i = gexp j → i mod 65535 = j mod 65535.
Proof.
  intros Hi Hj H. rewrite <- (gexp_mod tb i), <- (gexp_mod tb j) in H by done.
  apply (f_equal (glog tb)) in H.
  rewrite !(glog_gexp tb) in H by (apply Z.mod_pos_bound; lia). exact H.
Qed.

Lemma gexp_nonzero (tb : tables) `{!TablesReady tb} i : 0 <= i → gexp i ≠ 0.
Proof.
  intros Hi. rewrite <- (gexp_mod tb) by done.
  pose proof (gexp_pos tb (i mod 65535) (Z.mod_pos_bound i 65535 eq_refl)). lia.
Qed.

Definition gexp_inj := gexp_inj_tables gf_tables.

Lemma gpow_2_inj i j : 0 <= i < 65535 → 0 <= j < 65535 →
  gpow 2 (Z.to_nat i) = gpow 2 (Z.to_nat j) → i = j.
Proof.
  intros Hi Hj. rewrite !gpow_2 by lia. intros H%gexp_inj; [|unfold log2; lia..].
  unfold log2 in H. assert ((32749 * 49594) mod 65535 = 1) as Hinv by reflexivity.
  apply (f_equal (λ x, (x * 49594) mod 65535)) in H. rewrite !Z.mul_mod_idemp_l in H by lia.
  replace (32749 * i * 49594) with (32749 * 49594 * i) in H by lia.
  replace (32749 * j * 49594) with (32749 * 49594 * j) in H by lia.
  rewrite <- (Z.mul_mod_idemp_l _ i), <- (Z.mul_mod_idemp_l _ j), Hinv in H by lia.
  rewrite !Z.mul_1_l, !Z.mod_small in H by lia. done.
Qed.

Lemma gpow_2_nonzero i : 0 <= i → gpow 2 (Z.to_nat i) ≠ 0.
Proof.
  intros Hi. rewrite gpow_2 by done. apply (gexp_nonzero gf_tables). unfold log2. lia.
Qed.

(** ** The generators *)

Definition generator_indices : list Z := List.filter generator_index (range 0 65536).

Definition generators : list Z := (λ i, gpow 2 (Z.to_nat i)) <$> generator_indices.

(** Conversion must name these lists, never compute them. *)
#[global] Strategy expand [generator_indices generators initGenerators].

Lemma generator_indices_length : Z.of_nat (length generator_indices) = 32768.
Proof. vm_compute. reflexivity. Qed.

Lemma generators_length : Z.of_nat (length generators) = 32768.
Proof. unfold generators. rewrite length_fmap. exact generator_indices_length. Qed.

Lemma generators_u16 : Forall u16 generators.
Proof. apply Forall_fmap, Forall_true. intros i. apply gpow_u16. apply u16_2. Qed.

(** Stated for any bound, so that no list of 65536 indices is ever unfolded. *)
Lemma filtered_bound hi i : i ∈ List.filter generator_index (range 0 hi) → 0 <= i < hi ∧ i ≠ 65535.
Proof.
  intros [Hi Hg]%list_elem_of_In%filter_In. apply list_elem_of_In, elem_of_range in Hi.
  split; [done|]. intros ->. vm_compute in Hg. done.
Qed.

Lemma filtered_NoDup hi : NoDup (List.filter generator_index (range 0 hi)).
Proof. apply NoDup_ListNoDup, List.NoDup_filter, NoDup_ListNoDup, range_NoDup. Qed.

Lemma generator_indices_bound i : i ∈ generator_indices → 0 <= i < 65535.
Proof. intros Hi. destruct (filtered_bound 65536 i Hi). lia. Qed.

Lemma generator_indices_NoDup : NoDup generator_indices.
Proof. exact (filtered_NoDup 65536). Qed.

Lemma collect_generators (tb : tables) `{!TablesReady tb} l gs : Forall (λ i, 0 <= i < 65536) l →
  foldM (λ gs i, if generator_index i then g ← Pow tb 2 (wrap32 i); Ok (gs ++ [g]) else Ok gs) gs l
  = Ok (gs ++ ((λ i, gpow 2 (Z.to_nat i)) <$> List.filter generator_index l)).
Proof.
  intros Hl. revert gs. induction Hl as [|i l Hi Hl IH]; intros gs; cbn [foldM List.filter].
  - by rewrite app_nil_r.
  - destruct (generator_index i).
    + rewrite wrap32_id by zlia. rewrite (Pow_tables tb 2 i) by (apply u16_2 || zlia).
      cbn [mbind result_bind]. rewrite IH, fmap_cons, <- app_assoc. done.
    + apply IH.
Qed.

Lemma initGenerators_ok (tb : tables) `{!TablesReady tb} : initGenerators tb = Ok generators.
Proof.
  unfold initGenerators, generators, generator_indices.
  rewrite (collect_generators tb); [rewrite app_nil_l; reflexivity|].
  apply Forall_forall. intros i Hi%elem_of_range. exact Hi.
Qed.

#[global] Opaque generator_indices.

(** Generator [j], and the parity matrix. *)
Definition gen (j : Z) : Z := default 0 (generators !! Z.to_nat j).
Definition vandermonde : mat := λ i j, gpow (gen j) (Z.to_nat i).

Lemma gen_index j : 0 <= j < 32768 →
  ∃ i, generator_indices !! Z.to_nat j = Some i ∧ 0 <= i < 65535 ∧ gen j = gpow 2 (Z.to_nat i).
Proof.
  intros Hj. destruct (lookup_lt_is_Some_2 generator_indices (Z.to_nat j)) as [i Hi].
  { pose proof generator_indices_length. lia. }
  exists i. split; [done|]. split; [apply generator_indices_bound; by apply list_elem_of_lookup_2 in Hi|].
  unfold gen, generators. by rewrite list_lookup_fmap, Hi.
Qed.

Lemma gen_u16 j : u16 (gen j).
Proof.
  unfold gen. destruct (generators !! Z.to_nat j) as [g|] eqn:Hg; [|apply u16_0].
  pose proof generators_u16 as Hu. rewrite Forall_lookup in Hu. by eapply Hu.
Qed.

Lemma gen_nonzero j : 0 <= j < 32768 → gen j ≠ 0.
Proof. intros Hj. destruct (gen_index j Hj) as (i & _ & Hi & ->). apply gpow_2_nonzero. lia. Qed.

Lemma gen_inj j k : 0 <= j < 32768 → 0 <= k < 32768 → gen j = gen k → j = k.
Proof.
  intros Hj Hk. destruct (gen_index j Hj) as (i & Hij & Hi & ->).
  destruct (gen_index k Hk) as (i' & Hik & Hi' & ->). intros <-%gpow_2_inj; [|done..].
  pose proof generator_indices_NoDup as Hnd. rewrite NoDup_alt in Hnd.
  specialize (Hnd _ _ _ Hij Hik). lia.
Qed.

Lemma vandermonde_elts : elts u16 vandermonde.
Proof. intros i j. apply gpow_u16, gen_u16. Qed.

#[global] Opaque generators.

Lemma NewCoder_ok (tb : tables) `{!TablesReady tb} d p : 0 < d <= 32768 → 0 < p <= 65535 →
  ∃ M, NewCoderPAR2Vandermonde tb d p = Ok (mkCoder d p M) ∧ mrel p d M vandermonde.
Proof.
  intros Hd Hp. unfold NewCoderPAR2Vandermonde. rewrite initGenerators_ok by done.
  cbn [mbind result_bind]. rewrite generators_length.
  rewrite (proj2 (Z.leb_gt d 0)), (proj2 (Z.leb_gt p 0)) by lia. cbn [orb err_if mbind result_bind].
  rewrite (proj2 (Z.ltb_ge _ d)), (proj2 (Z.ltb_ge _ p)) by lia. cbn [err_if mbind result_bind].
  destruct (NewVandermondeMatrix_ok tb p d generators) as (M & -> & HM);
    [lia|rewrite generators_length; lia|apply generators_u16|].
  cbn [mbind result_bind]. exists M. split; [done|]. exact HM.
Qed.

(** Consecutive rows: any set of columns is independent. *)
Lemma consecutive_kernel u k0 (miss : Z → Z) x :
  0 <= k0 → (∀ j, 0 <= j < u → 0 <= miss j < 32768) →
  (∀ j k, 0 <= j < u → 0 <= k < u → miss j = miss k → j = k) →
  velts u16 x → kernel gmul u (λ i j, vandermonde (k0 + Z.max 0 i) (miss j)) x →
  ∀ j, 0 <= j < u → x j = 0.
Proof.
  intros Hk0 Hmiss Hinj Hx Hker.
  apply (vandermonde_kernel u16 gmul ginv u (λ i j, vandermonde (k0 + Z.max 0 i) (miss j))
    (λ j, gen (miss j)) x); try done.
  - intros i j. apply vandermonde_elts.
  - intros j. apply gen_u16.
  - intros i j Hi _ _. unfold vandermonde. rewrite <- gpow_S. f_equal. lia.
  - intros j Hj. unfold vandermonde. destruct (gen_index (miss j)) as (i & _ & Hi & ->); [auto|].
    rewrite <- gpow_mul by apply u16_2.
    rewrite <- (Nat2Z.id (_ * _)). apply gpow_2_nonzero. lia.
  - intros j k Hj Hk H. apply Hinj; [done..|]. apply gen_inj; auto.
Qed.

(** ** Which shards are there *)

Definition present (l : list (Z * shard)) : list (Z * list Z) :=
  omap (λ ib, pair ib.1 <$> ib.2) l.
Definition absent (l : list (Z * shard)) : list Z :=
  omap (λ ib, match ib.2 with Some _ => None | None => Some ib.1 end) l.

Lemma analyze_data_ok l s :
  foldl analyze_data s l =
  mkShards (availableRows s ++ (fst <$> present l)) (missingRows s ++ absent l)
    (usedParityRows s) (input s ++ (snd <$> present l)).
Proof.
  revert s. induction l as [|[i [bs|]] l IH]; intros s; cbn [foldl].
  - destruct s. simpl. by rewrite !app_nil_r.
  - rewrite IH. simpl. by rewrite <- !app_assoc.
  - rewrite IH. simpl. by rewrite <- !app_assoc.
Qed.

Lemma analyze_parity_ok d l s (k : nat) :
  Z.of_nat (length (input s)) + Z.of_nat k = d →
  foldl (analyze_parity d) s l =
  mkShards (availableRows s) (missingRows s)
    (usedParityRows s ++ (fst <$> take k (present l))) (input s ++ (snd <$> take k (present l))).
Proof.
  revert s k. induction l as [|[i sh] l IH]; intros s k Hk; cbn [foldl].
  - destruct s. simpl. by rewrite take_nil, !app_nil_r.
  - unfold analyze_parity at 2. destruct (Z.ltb_spec (Z.of_nat (length (input s))) d) as [Hlt|Hge].
    + destruct k as [|k]; [lia|]. destruct sh as [bs|].
      * rewrite (IH _ k); [|simpl; rewrite length_app; simpl; lia]. simpl. by rewrite <- !app_assoc.
      * by rewrite (IH _ (S k)).
    + assert (k = 0%nat) as -> by lia. rewrite (IH _ 0%nat) by lia. by rewrite !take_0.
Qed.

Lemma present_absent_length l : (length (present l) + length (absent l))%nat = length l.
Proof. induction l as [|[i [bs|]] l IH]; simpl; lia. Qed.

Lemma present_absent_perm l : (fst <$> present l) ++ absent l ≡ₚ fst <$> l.
Proof.
  induction l as [|[i [bs|]] l IH]; simpl; [done|by constructor|].
  rewrite <- Permutation_middle. by constructor.
Qed.

Lemma elem_of_present i bs l : (i, bs) ∈ present l ↔ (i, Some bs) ∈ l.
Proof.
  unfold present. rewrite list_elem_of_omap. split.
  - intros ([j [b'|]] & Hin & H); simpl in H; simplify_eq. done.
  - intros Hin. by exists (i, Some bs).
Qed.

Lemma elem_of_indexed i sh (l : list shard) : (i, sh) ∈ indexed l ↔ 0 <= i ∧ l !! Z.to_nat i = Some sh.
Proof.
  unfold indexed. rewrite list_elem_of_lookup. split.
  - intros [k Hk]. apply lookup_zip_Some in Hk as [Hr Hl].
    pose proof (lookup_lt_Some _ _ _ Hl). rewrite range_lookup in Hr by lia. injection Hr as <-.
    split; [lia|]. by replace (Z.to_nat (0 + Z.of_nat k)) with k by lia.
  - intros [Hi Hl]. exists (Z.to_nat i). apply lookup_zip_Some. split; [|done].
    pose proof (lookup_lt_Some _ _ _ Hl). rewrite range_lookup by lia. f_equal. lia.
Qed.

Lemma indexed_fst l : fst <$> indexed l = range 0 (Z.of_nat (length l)).
Proof. unfold indexed. apply fst_zip. rewrite range_length. lia. Qed.

Lemma elem_of_absent i (l : list shard) : i ∈ absent (indexed l) ↔ 0 <= i ∧ l !! Z.to_nat i = Some None.
Proof.
  unfold absent. rewrite list_elem_of_omap. rewrite <- elem_of_indexed. split.
  - intros ([j [b'|]] & Hin & H); simpl in H; simplify_eq. done.
  - intros Hin. by exists (i, None).
Qed.

Lemma rows_perm (l : list shard) :
  (fst <$> present (indexed l)) ++ absent (indexed l) ≡ₚ range 0 (Z.of_nat (length l)).
Proof. by rewrite present_absent_perm, indexed_fst. Qed.

(** ** Shard lengths *)

Definition of_length (L : Z) (s : shard) : Prop :=
  match s with Some bs => Z.of_nat (length bs) = L | None => True end.

Lemma check_length_ok L l n : 0 <= L → Forall (of_length L) l → n = -1 ∨ n = L →
  ∃ n', foldM check_length n l = Ok n' ∧ (n' = -1 ∨ n' = L) ∧
    (n = L ∨ (∃ bs, Some bs ∈ l) → n' = L).
Proof.
  intros HL Hl. revert n. induction Hl as [|sh l Hsh Hl IH]; intros n Hn; cbn [foldM].
  - exists n. split; [done|]. split; [done|]. intros [?|[bs Hbs]]; [done|]. by apply elem_of_nil in Hbs.
  - destruct sh as [bs|]; simpl in Hsh.
    + assert (check_length n (Some bs) = Ok L) as ->.
      { unfold check_length. rewrite Hsh. destruct Hn as [->| ->]; [done|].
        destruct (Z.eqb_spec L (-1)); [lia|]. by rewrite Z.eqb_refl. }
      cbn [mbind result_bind]. destruct (IH L) as (n' & -> & Hn' & Hs); [by right|].
      exists n'. split; [done|]. split; [done|]. intros _. apply Hs. by left.
    + cbn [check_length mbind result_bind]. destruct (IH n Hn) as (n' & -> & Hn' & Hs).
      exists n'. split; [done|]. split; [done|]. intros [?|[bs Hbs]]; apply Hs; [by left|right].
      exists bs. apply elem_of_cons in Hbs as [?|?]; done.
Qed.

Lemma validateShardLengths_ok L data parity : 0 <= L →
  Forall (of_length L) data → Forall (of_length L) parity →
  ∃ n, validateShardLengths data parity = Ok n ∧ (n = -1 ∨ n = L) ∧
    ((∃ bs, Some bs ∈ data ++ parity) → n = L).
Proof.
  intros HL Hd Hp. unfold validateShardLengths.
  destruct (check_length_ok L data (-1) HL Hd) as (n1 & -> & H1 & Hs1); [by left|].
  cbn [mbind result_bind].
  destruct (check_length_ok L parity n1 HL Hp H1) as (n2 & -> & H2 & Hs2).
  exists n2. split; [done|]. split; [done|]. intros [bs [Hin|Hin]%elem_of_app]; apply Hs2.
  - left. apply Hs1. right. by exists bs.
  - right. by exists bs.
Qed.

(** ** Sums over lists of rows *)

Definition lsum (h : Z → Z) (l : list Z) : Z := foldr (λ i s, Z.lxor (h i) s) 0 l.

Lemma lsum_perm h l l' : l ≡ₚ l' → lsum h l = lsum h l'.
Proof. induction 1; simpl; [done|congruence|apply lxor_swap|congruence]. Qed.

Lemma lsum_app h l l' : lsum h (l ++ l') = Z.lxor (lsum h l) (lsum h l').
Proof. induction l as [|i l IH]; [done|]. simpl. by rewrite IH, Z.lxor_assoc. Qed.

Lemma lsum_range h lo hi : lsum h (range lo hi) = sum lo hi h.
Proof. reflexivity. Qed.

Lemma lsum_fmap {A} h (g : A → Z) l : lsum h (g <$> l) = foldr (λ i s, Z.lxor (h (g i)) s) 0 l.
Proof. induction l as [|i l IH]; [done|]. rewrite fmap_cons. simpl. by rewrite IH. Qed.

Lemma lsum_index h (l : list Z) :
  lsum h l = sum 0 (Z.of_nat (length l)) (λ k, h (default 0 (l !! Z.to_nat k))).
Proof.
  unfold sum. rewrite <- (lsum_fmap h (λ k, default 0 (l !! Z.to_nat k))). f_equal.
  apply list_eq. intros k. rewrite list_lookup_fmap.
  destruct (l !! k) as [x|] eqn:Hk.
  - pose proof (lookup_lt_Some _ _ _ Hk). rewrite range_lookup by lia. simpl.
    replace (Z.to_nat (0 + Z.of_nat k)) with k by lia. by rewrite Hk.
  - apply lookup_ge_None in Hk. symmetry. apply fmap_None, lookup_ge_None. rewrite range_length. lia.
Qed.

(** ** The reconstruction matrix *)

Section Reconstruct.
Context (tb : tables) `{!TablesReady tb} `{VK : !VectorKernels} `{!VectorKernelsOk tb VK}.
Context (b : build) (d p : Z) (M : Matrix).
Context (Hd : 0 < d <= 32768) (Hp : 0 < p <= 65535) (HM : mrel p d M vandermonde).

Section Rows.
Context (avail miss used : list Z).
Let A := Z.of_nat (length avail).
Let u := Z.of_nat (length used).
Context (Hu : 0 < u) (Hlen : length miss = length used) (HAu : A + u = d).
Context (Hperm : avail ++ miss ≡ₚ range 0 d).
Context (Hused : Forall (λ k, 0 <= k < p) used).

Definition nth_row (l : list Z) (i : Z) : Z := default 0 (l !! Z.to_nat i).

(** The system solved: the columns of the missing shards, and the columns of
    the available ones next to the identity. *)
Definition missing_matrix : mat := λ i j, vandermonde (nth_row used i) (nth_row miss j).
Definition known_matrix : mat := λ i j,
  if j <? A then vandermonde (nth_row used i) (nth_row avail j)
  else if i =? j - A then 1 else 0.

Lemma nth_row_index l i : 0 <= i < Z.of_nat (length l) → index_at l i = Ok (nth_row l i) ∧ nth_row l i ∈ l.
Proof.
  intros Hi. destruct (lookup_lt_is_Some_2 l (Z.to_nat i)) as [x Hx]; [lia|].
  unfold nth_row. rewrite Hx. split; [apply index_at_lookup; [lia|done]|by eapply list_elem_of_lookup_2].
Qed.

Lemma row_bound x : x ∈ avail ++ miss → 0 <= x < d.
Proof. rewrite Hperm. apply elem_of_range. Qed.

Lemma nth_used i : 0 <= i < u → index_at used i = Ok (nth_row used i) ∧ 0 <= nth_row used i < p.
Proof.
  intros Hi. destruct (nth_row_index used i Hi) as [-> Hin]. split; [done|].
  rewrite Forall_forall in Hused. by apply Hused.
Qed.

Lemma nth_miss i : 0 <= i < u → index_at miss i = Ok (nth_row miss i) ∧ 0 <= nth_row miss i < d.
Proof.
  intros Hi. destruct (nth_row_index miss i) as [-> Hin]; [lia|]. split; [done|].
  apply row_bound, elem_of_app. by right.
Qed.

Lemma nth_avail i : 0 <= i < A → index_at avail i = Ok (nth_row avail i) ∧ 0 <= nth_row avail i < d.
Proof.
  intros Hi. destruct (nth_row_index avail i Hi) as [-> Hin]. split; [done|].
  apply row_bound, elem_of_app. by left.
Qed.

Lemma missing_elts : elts u16 missing_matrix.
Proof. intros i j. apply vandermonde_elts. Qed.

Lemma known_elts : elts u16 known_matrix.
Proof.
  intros i j. unfold known_matrix. destruct (j <? A); [apply vandermonde_elts|].
  destruct (i =? j - A); [apply u16_1|apply u16_0].
Qed.

Lemma makeReconstructionMatrix_ok :
  (∃ X g, makeReconstructionMatrix tb b d avail miss used M = Ok X ∧ mrel u d X g ∧
     elts u16 g ∧ solved u missing_matrix known_matrix g) ∨
  (makeReconstructionMatrix tb b d avail miss used M = Err "singular matrix" ∧
   kernel_nonzero u missing_matrix).
Proof.
  unfold makeReconstructionMatrix. fold A u.
  assert (∀ r c, ∀ s f g, mrel r c s f → (∀ a k, 0 <= a < r → 0 <= k < c → f a k = g a k) →
    mrel r c s g) as Hext by (intros r c s f g Hs Hfg; exact (mrel_ext r c s f Hs g Hfg)).
  destruct (NewMatrix_ok u u) as (m0 & -> & Hm0); [done..|]. cbn [mbind result_bind].
  edestruct (fill_matrix u u (mrel u u) missing_matrix (Hext u u)) as (m1 & -> & Hm1); [done|exact Hm0| |].
  { intros m f i Hi Hm. cbn beta. destruct (nth_used i Hi) as [-> Hk]. cbn [mbind result_bind].
    destruct (fill_row u u (mrel u u) missing_matrix (Hext u u) (λ m j, l ← index_at miss j;
      v ← At M (nth_row used i) l; Set_ m i j v) i u 0 m f) as (m' & -> & Hm'); [lia|done| |].
    - intros m2 f2 j Hj Hm2. destruct (nth_miss j) as [-> Hl]; [lia|]. cbn [mbind result_bind].
      rewrite (At_ok p d M _ HM) by done. cbn [mbind result_bind].
      apply (Set_entry u u missing_matrix); [done|done|done|apply missing_elts].
    - exists m'. split; [done|]. apply (Hext _ _ _ _ _ Hm'). intros. zbool. }
  cbn [mbind result_bind].
  destruct (NewMatrix_ok u d) as (n0 & -> & Hn0); [lia..|]. cbn [mbind result_bind].
  edestruct (fill_matrix u d (mrel u d) known_matrix (Hext u d)) as (n1 & -> & Hn1); [done|exact Hn0| |].
  { intros n f i Hi Hn. cbn beta. destruct (nth_used i Hi) as [-> Hk]. cbn [mbind result_bind].
    destruct (fill_row u d (mrel u d) known_matrix (Hext u d) (λ n j, l ← index_at avail j;
      v ← At M (nth_row used i) l; Set_ n i j v) i A 0 n f) as (n' & -> & Hn'); [lia|done| |].
    - intros n2 f2 j Hj Hn2. destruct (nth_avail j) as [-> Hl]; [lia|]. cbn [mbind result_bind].
      rewrite (At_ok p d M _ HM) by done. cbn [mbind result_bind].
      assert (vandermonde (nth_row used i) (nth_row avail j) = known_matrix i j) as ->
        by (unfold known_matrix; zbool).
      apply (Set_entry u d known_matrix); [done|done|lia|apply known_elts].
    - cbn [mbind result_bind].
      destruct (fill_row u d (mrel u d) known_matrix (Hext u d) (λ n j,
        Set_ n i j (if i =? j - A then 1 else 0)) i d A n'
        (λ a k, if (a =? i) && (0 <=? k) && (k <? A) then known_matrix i k else f a k)) as (n3 & -> & Hn3); [lia|exact Hn'| |].
      + intros n2 f2 j Hj Hn2.
        assert ((if i =? j - A then 1 else 0) = known_matrix i j) as -> by (unfold known_matrix; zbool).
        apply (Set_entry u d known_matrix); [done|done|lia|apply known_elts].
      + exists n3. split; [done|]. apply (Hext _ _ _ _ _ Hn3). intros. zbool. }
  cbn [mbind result_bind].
  apply (RowReduceForInverse_ok tb b u d m1 n1); auto using missing_elts, known_elts.
Qed.

(** ** The missing rows come back *)

Section Recover.
Context (L : Z) (HL : L mod 2 = 0) (HL0 : 0 <= L) (D inp : list (list Z)).
Context (HDlen : Z.of_nat (length D) = d).
Context (HD : Forall bytes D) (HDL : Forall (λ v, Z.of_nat (length v) = L) D).

Definition shard_row (l : list (list Z)) (j : Z) : list Z := default [] (l !! Z.to_nat j).

Context (Havail : ∀ j, 0 <= j < A → shard_row inp j = shard_row D (nth_row avail j)).
Context (Hparity : ∀ i, 0 <= i < u →
  shard_row inp (A + i) = product_row vandermonde d L (nth_row used i) D).

Lemma shard_row_ok j : 0 <= j < d →
  D !! Z.to_nat j = Some (shard_row D j) ∧ bytes (shard_row D j) ∧ Z.of_nat (length (shard_row D j)) = L.
Proof. apply (in_row_ok d L D HDlen HD HDL). Qed.

Lemma product_row_word f c i rows q : elts u16 f → 0 <= q < L / 2 →
  word (product_row f c L i rows) q = sum 0 c (λ j, gmul (f i j) (word (shard_row rows j) q)).
Proof.
  intros Hf Hq. unfold product_row, word at 1. rewrite to_of_words.
  - rewrite list_lookup_fmap, range_lookup, Z.add_0_l, Z2Nat.id by lia. done.
  - apply Forall_fmap, Forall_forall. intros k _. simpl. apply (sum_elt u16 gmul ginv).
    intros j _. apply gmul_u16, Hf.
Qed.

(** The check of a parity word, with its terms sorted into available and missing. *)
Lemma parity_split h :
  sum 0 d h = Z.lxor (sum 0 A (λ j, h (nth_row avail j))) (sum 0 u (λ k, h (nth_row miss k))).
Proof.
  rewrite <- (lsum_range h), <- (lsum_perm h _ _ Hperm), lsum_app, !lsum_index, Hlen. done.
Qed.

Lemma word_elt j q : u16 (word (shard_row D j) q).
Proof.
  apply word_u16. unfold shard_row. destruct (D !! _) as [v|] eqn:Hv; [|constructor].
  rewrite Forall_lookup in HD. by eapply HD.
Qed.

Lemma input_elt j q : 0 <= j < d → 0 <= q < L / 2 → u16 (word (shard_row inp j) q).
Proof.
  intros Hj Hq. destruct (Z.lt_ge_cases j A).
  - rewrite Havail by lia. apply word_elt.
  - replace j with (A + (j - A)) by lia. rewrite Hparity by lia. apply word_u16, of_words_bytes.
Qed.

(** The system the reconstruction matrix solves, for the words at place [q]. *)
Lemma recover_system q a : 0 <= q < L / 2 → 0 <= a < u →
  dot gmul u missing_matrix a (λ k, word (shard_row D (nth_row miss k)) q) =
  dot gmul d known_matrix a (λ j, if j <? d then word (shard_row inp (Z.max 0 j)) q else 0).
Proof.
  intros Hq Ha. unfold dot. destruct (nth_used a Ha) as [_ Hk].
  set (h := λ l, gmul (vandermonde (nth_row used a) l) (word (shard_row D l) q)).
  rewrite (sum_app 0 A d) by lia.
  rewrite (sum_ext 0 A _ (λ j, h (nth_row avail j))).
  2:{ intros j Hj. unfold known_matrix, h. rewrite (proj2 (Z.ltb_lt j A)), (proj2 (Z.ltb_lt j d)) by lia.
      rewrite Z.max_r, Havail by lia. done. }
  rewrite (sum_single A d _ (A + a)).
  - unfold known_matrix at 1. rewrite (proj2 (Z.ltb_ge (A + a) A)), (proj2 (Z.ltb_lt (A + a) d)) by lia.
    replace (A + a - A) with a by lia. rewrite Z.eqb_refl, Z.max_r, Hparity by lia.
    rewrite gmul_1_l by apply word_u16, of_words_bytes.
    rewrite product_row_word by (apply vandermonde_elts || done).
    rewrite (sum_ext 0 d _ h) by done. rewrite (parity_split h), lxor_cancel_l. done.
  - lia.
  - intros j Hj Hne. unfold known_matrix. rewrite (proj2 (Z.ltb_ge j A)) by lia.
    rewrite (proj2 (Z.eqb_neq a (j - A))) by lia. apply gmul_0_l.
Qed.

Lemma recover g t : elts u16 g → solved u missing_matrix known_matrix g → 0 <= t < u →
  product_row g d L t inp = shard_row D (nth_row miss t).
Proof.
  intros Hg [Hsol Hker] Ht. destruct (nth_miss t Ht) as [_ Hmt].
  destruct (shard_row_ok (nth_row miss t) Hmt) as (_ & Hb & Hl).
  rewrite <- (of_to_words (shard_row D (nth_row miss t))) by (done || (apply even_length_mod; by rewrite Hl)).
  unfold product_row. f_equal. rewrite (words_range _ L) by done.
  apply list_fmap_ext. intros k q Hq%list_elem_of_lookup_2%elem_of_range. symmetry.
  rewrite (solve_combination u16 gmul ginv u d missing_matrix known_matrix g
    (λ j, if j <? d then word (shard_row inp (Z.max 0 j)) q else 0)
    (λ k, word (shard_row D (nth_row miss k)) q)); try done.
  - unfold dot. apply sum_ext. intros j Hj. rewrite (proj2 (Z.ltb_lt j d)), Z.max_r by lia. done.
  - apply missing_elts.
  - apply known_elts.
  - intros j. destruct (Z.ltb_spec j d); [|apply u16_0]. apply input_elt; lia.
  - intros j. apply word_elt.
  - intros col Hcol. apply Hsol; [intros a; apply Hg|done].
  - intros a Ha. by apply recover_system.
Qed.
End Recover.
End Rows.

(** ** [Reconstruct] *)

(** Putting the reconstructed slices in their places. *)
Lemma assign_ok (D rec : list (list Z)) (l : list (Z * Z)) (data : list shard) :
  (∀ t x, (t, x) ∈ l → 0 <= t ∧ rec !! Z.to_nat t = Some (shard_row D x) ∧
     0 <= x < Z.of_nat (length data)) →
  ∃ data', foldM (assign_shard rec) data l = Ok data' ∧
    length data' = length data ∧
    ∀ i, (Z.of_nat i ∈ snd <$> l → data' !! i = Some (Some (shard_row D (Z.of_nat i)))) ∧
         (Z.of_nat i ∉ snd <$> l → data' !! i = data !! i).
Proof.
  revert data. induction l as [|[t x] l IH]; intros data Hl; cbn [foldM].
  - exists data. split; [done|]. split; [done|]. intros i. split; [|done]. intros H. by apply elem_of_nil in H.
  - destruct (Hl t x) as (Ht & Hr & Hx); [by left|]. assert (assign_shard rec data (t, x) = Ok (<[Z.to_nat x := Some (shard_row D x)]> data)) as ->.
    { unfold assign_shard. cbn [fst snd]. rewrite (index_at_lookup rec t (shard_row D x)) by done.
      by apply set_at_ok. }
    cbn [mbind result_bind].
    destruct (IH (<[Z.to_nat x := Some (shard_row D x)]> data)) as (data' & -> & Hlen & Hall).
    { intros t' x' Hin. rewrite length_insert. apply Hl. by right. }
    exists data'. split; [done|]. rewrite length_insert in Hlen. split; [done|]. intros i.
    rewrite fmap_cons. cbn [snd]. destruct (Hall i) as [Hin Hout]. split.
    + intros Hi. destruct (decide (Z.of_nat i ∈ snd <$> l)) as [?|Hni]; [by apply Hin|].
      rewrite Hout by done. apply elem_of_cons in Hi as [<-|?]; [|done].
      rewrite Nat2Z.id. apply list_lookup_insert_eq. lia.
    + intros [Hne Hni]%not_elem_of_cons. rewrite Hout by done. apply list_lookup_insert_ne. lia.
Qed.

Context (L : Z) (HL : L mod 2 = 0) (HL0 : 0 <= L) (D : list (list Z)).
Context (HDlen : Z.of_nat (length D) = d).
Context (HD : Forall bytes D) (HDL : Forall (λ v, Z.of_nat (length v) = L) D).

(** Every shard that is there is the original one. *)
Definition data_of (data : list shard) : Prop :=
  length data = length D ∧ ∀ i bs, data !! i = Some (Some bs) → D !! i = Some bs.
Definition parity_of (parity : list shard) : Prop :=
  Z.of_nat (length parity) <= p ∧
  ∀ k bs, parity !! k = Some (Some bs) → bs = product_row vandermonde d L (Z.of_nat k) D.

Definition missing_of (data : list shard) : list Z := absent (indexed data).
Definition used_of (data parity : list shard) : list Z :=
  fst <$> take (length (missing_of data)) (present (indexed parity)).

(** How many kernel calls goroutine [w] makes on [u] missing shards. *)
Definition calls_of (ctx : Ctx) (d u w : Z) : nat :=
  length (slice_calls (polled ctx w) (replicate (Z.to_nat d) []) 0 u).

Context (data parity : list shard) (Hdata : data_of data) (Hparity : parity_of parity).

Lemma product_row_length f c i rows : Z.of_nat (length (product_row f c L i rows)) = L.
Proof.
  unfold product_row. rewrite of_words_length, length_fmap, range_length.
  pose proof (Z.div_mod L 2). lia.
Qed.

Lemma data_lengths : Forall (of_length L) data.
Proof.
  apply Forall_lookup. intros i [bs|] Hi; [|done]. simpl. destruct Hdata as [_ H]. apply H in Hi.
  rewrite Forall_lookup in HDL. by eapply HDL.
Qed.

Lemma parity_lengths : Forall (of_length L) parity.
Proof.
  apply Forall_lookup. intros i [bs|] Hi; [|done]. simpl. destruct Hparity as [_ H]. apply H in Hi as ->.
  apply product_row_length.
Qed.

Lemma inputs_valid :
  ∃ n, validateReconstructInputs (mkCoder d p M) data parity = Ok n ∧ (n = -1 ∨ n = L) ∧
    ((∃ bs, Some bs ∈ data ++ parity) → n = L).
Proof.
  unfold validateReconstructInputs. cbn [dataShards parityShards].
  destruct Hdata as [Hl _], Hparity as [Hpl _].
  rewrite Hl, HDlen, Z.eqb_refl. cbn [negb err_if mbind result_bind].
  rewrite (proj2 (Z.ltb_ge p _)) by done. cbn [err_if mbind result_bind].
  by apply validateShardLengths_ok; auto using data_lengths, parity_lengths.
Qed.

Lemma analyzeShards_cases :
  (missing_of data = [] ∧ analyzeShards (mkCoder d p M) data parity = Ok (mkShards [] [] [] [])) ∨
  (missing_of data ≠ [] ∧
   analyzeShards (mkCoder d p M) data parity =
    if (length (present (indexed parity)) <? length (missing_of data))%nat
    then Err ErrNotEnoughParity
    else Ok (mkShards (fst <$> present (indexed data)) (missing_of data) (used_of data parity)
      ((snd <$> present (indexed data)) ++
       (snd <$> take (length (missing_of data)) (present (indexed parity)))))).
Proof.
  unfold analyzeShards. rewrite analyze_data_ok. cbn [availableRows missingRows usedParityRows input app].
  fold (missing_of data). destruct (missing_of data) as [|x l] eqn:Hm; [by left|right].
  split; [done|]. rewrite <- Hm. destruct (Nat.eqb_spec (length (missing_of data)) 0) as [H0|_];
    [by rewrite Hm in H0|]. cbn [dataShards].
  pose proof (present_absent_length (indexed data)) as Hpa. fold (missing_of data) in Hpa.
  assert (length (indexed data) = length D) as Hil.
  { destruct Hdata as [Hl _]. unfold indexed. rewrite length_zip, range_length. lia. }
  rewrite (analyze_parity_ok d (indexed parity) _ (length (missing_of data)));
    [|cbn [input]; rewrite length_fmap; lia].
  cbn [availableRows missingRows usedParityRows input app]. unfold used_of.
  rewrite length_app, !length_fmap, length_take.
  destruct (Nat.ltb_spec (length (present (indexed parity))) (length (missing_of data))) as [Hlt|Hge].
  - by rewrite (proj2 (Z.ltb_lt _ d)) by lia.
  - by rewrite (proj2 (Z.ltb_ge _ d)) by lia.
Qed.

(** *** With enough parity *)

Section Enough.
Context (Hmiss : missing_of data ≠ []).
Context (Henough : (length (missing_of data) <= length (present (indexed parity)))%nat).

Let avail := fst <$> present (indexed data).
Let miss := missing_of data.
Let used := used_of data parity.
Let pused := take (length miss) (present (indexed parity)).
Let inp := (snd <$> present (indexed data)) ++ (snd <$> pused).
Let u := Z.of_nat (length miss).

Lemma pused_length : length pused = length miss.
Proof. unfold pused. rewrite length_take. unfold miss. lia. Qed.

Lemma used_length : length used = length miss.
Proof. unfold used, used_of. rewrite length_fmap. apply pused_length. Qed.

Lemma u_pos : 0 < u.
Proof. unfold u, miss. destruct (missing_of data); [done|]. simpl. lia. Qed.

Lemma rows_data_perm : avail ++ miss ≡ₚ range 0 d.
Proof. unfold avail, miss, missing_of. rewrite rows_perm. destruct Hdata as [-> _]. by rewrite HDlen. Qed.

Lemma rows_count : Z.of_nat (length avail) + Z.of_nat (length used) = d.
Proof.
  rewrite used_length. pose proof (Permutation_length rows_data_perm) as H.
  rewrite length_app, range_length in H. lia.
Qed.

Lemma used_bound : Forall (λ k, 0 <= k < p) used.
Proof.
  apply Forall_forall. intros k (kb & -> & Hin)%list_elem_of_fmap. destruct kb as [k bs]. cbn [fst].
  apply list_elem_of_lookup in Hin as [i Hi]. apply lookup_take_Some in Hi as [Hi _].
  apply list_elem_of_lookup_2 in Hi.
  apply elem_of_present, elem_of_indexed in Hi as [Hk Hl].
  apply lookup_lt_Some in Hl. destruct Hparity as [Hp' _]. lia.
Qed.

Lemma input_count : Z.of_nat (length inp) = d.
Proof.
  unfold inp. rewrite length_app, !length_fmap, pused_length.
  pose proof rows_count as H. rewrite used_length in H. unfold avail in H. rewrite length_fmap in H. lia.
Qed.

Lemma input_present j : 0 <= j < Z.of_nat (length avail) →
  shard_row inp j = shard_row D (nth_row avail j).
Proof.
  intros Hj. unfold avail in Hj. rewrite length_fmap in Hj.
  destruct (lookup_lt_is_Some_2 (present (indexed data)) (Z.to_nat j)) as [[i bs] Hi]; [lia|].
  unfold shard_row at 1. unfold inp. rewrite lookup_app_l by (rewrite length_fmap; lia).
  unfold nth_row, avail. rewrite !list_lookup_fmap, Hi. cbn [fmap option_fmap option_map default snd fst id].
  apply list_elem_of_lookup_2, elem_of_present, elem_of_indexed in Hi as [Hi0 Hl].
  destruct Hdata as [_ H]. apply H in Hl. unfold shard_row. by rewrite Hl.
Qed.

Lemma input_parity i : 0 <= i < Z.of_nat (length used) →
  shard_row inp (Z.of_nat (length avail) + i) = product_row vandermonde d L (nth_row used i) D.
Proof.
  intros Hi. rewrite used_length in Hi.
  destruct (lookup_lt_is_Some_2 pused (Z.to_nat i)) as [[k bs] Hk]; [rewrite pused_length; lia|].
  unfold shard_row, inp, avail. rewrite length_fmap.
  rewrite lookup_app_r by (rewrite length_fmap; lia). rewrite length_fmap.
  replace (Z.to_nat (Z.of_nat (length (present (indexed data))) + i) - length (present (indexed data)))%nat
    with (Z.to_nat i) by lia.
  unfold nth_row, used, used_of. fold miss pused. rewrite !list_lookup_fmap, Hk.
  cbn [fmap option_fmap option_map default snd fst id].
  unfold pused in Hk. apply lookup_take_Some in Hk as [Hk _].
  apply list_elem_of_lookup_2, elem_of_present, elem_of_indexed in Hk as [Hk0 Hl].
  destruct Hparity as [_ H]. apply H in Hl as ->. by rewrite Z2Nat.id.
Qed.

Lemma input_good : Forall bytes inp ∧ Forall (λ v, Z.of_nat (length v) = L) inp.
Proof.
  assert (∀ j, 0 <= j < d → bytes (shard_row inp j) ∧ Z.of_nat (length (shard_row inp j)) = L) as H.
  { intros j Hj. pose proof rows_count as Hc. destruct (Z.lt_ge_cases j (Z.of_nat (length avail))).
    - rewrite input_present by lia.
      destruct (nth_avail avail miss used (eq_sym used_length) rows_data_perm j) as [_ Hb]; [lia|].
      by apply (shard_row_ok L D).
    - replace j with (Z.of_nat (length avail) + (j - Z.of_nat (length avail))) by lia.
      rewrite input_parity by lia. split; [apply of_words_bytes|apply product_row_length]. }
  pose proof input_count as Hn.
  assert (∀ i v, inp !! i = Some v → bytes v ∧ Z.of_nat (length v) = L) as Hv.
  { intros i v Hi. pose proof (lookup_lt_Some _ _ _ Hi). specialize (H (Z.of_nat i)).
    unfold shard_row in H. rewrite Nat2Z.id, Hi in H. apply H. lia. }
  split; apply Forall_lookup; intros i v Hi; by apply (Hv i v).
Qed.

Lemma some_present : ∃ bs, Some bs ∈ data ++ parity.
Proof.
  pose proof u_pos as Hu. pose proof pused_length as Hl.
  destruct pused as [|[k bs] l] eqn:Hpu; [simpl in Hl; unfold u in Hu; lia|].
  assert ((k, bs) ∈ pused) as Hin by (rewrite Hpu; by left).
  apply list_elem_of_lookup in Hin as [i Hi]. apply lookup_take_Some in Hi as [Hi _].
  apply list_elem_of_lookup_2, elem_of_present, elem_of_indexed in Hi as [_ Hk].
  exists bs. apply elem_of_app. right. by apply list_elem_of_lookup_2 in Hk.
Qed.

(** Writing the recovered rows gives the original data. *)
Lemma assign_missing g : elts u16 g →
  solved u (missing_matrix miss used) (known_matrix avail used) g →
  foldM (assign_shard (matrix_product g u d L inp)) data (zip (range 0 u) miss) = Ok (Some <$> D).
Proof.
  intros Hg Hs. pose proof u_pos as Hu.
  destruct (assign_ok D (matrix_product g u d L inp) (zip (range 0 u) miss) data) as (data' & -> & Hl & Hall).
  - intros t x Hin. apply list_elem_of_lookup in Hin as [k Hk]. apply lookup_zip_Some in Hk as [Ht Hx].
    pose proof (lookup_lt_Some _ _ _ Hx) as Hlt.
    rewrite range_lookup in Ht by (unfold u; lia). injection Ht as <-.
    assert (nth_row miss (0 + Z.of_nat k) = x) as Hnx.
    { unfold nth_row. replace (Z.to_nat (0 + Z.of_nat k)) with k by lia. by rewrite Hx. }
    split; [lia|]. split.
    + unfold matrix_product. rewrite list_lookup_fmap, range_lookup by (unfold u; lia).
      cbn [fmap option_fmap option_map]. f_equal. rewrite <- Hnx.
      replace (0 + Z.of_nat (Z.to_nat (0 + Z.of_nat k))) with (0 + Z.of_nat k) by lia.
      assert (u = Z.of_nat (length used)) as Hue by (unfold u; by rewrite used_length).
      rewrite Hue in Hs.
      apply (recover avail miss used); try done.
      * by rewrite used_length.
      * by rewrite used_length.
      * apply rows_count.
      * apply rows_data_perm.
      * apply used_bound.
      * apply input_present.
      * apply input_parity.
      * rewrite used_length. lia.
    + apply list_elem_of_lookup_2 in Hx. destruct Hdata as [-> _].
      rewrite HDlen. apply elem_of_range. rewrite <- rows_data_perm. apply elem_of_app. by right.
  - f_equal. apply list_eq. intros i. rewrite list_lookup_fmap.
    assert (snd <$> zip (range 0 u) miss = miss) as Hsnd by (apply snd_zip; rewrite range_length; unfold u; lia).
    destruct (Hall i) as [Hin Hout]. rewrite Hsnd in Hin, Hout. destruct Hdata as [Hdl Hd'].
    destruct (data !! i) as [[bs|]|] eqn:Hi.
    + rewrite Hout; [by rewrite (Hd' i bs Hi)|].
      unfold miss, missing_of. rewrite elem_of_absent, Nat2Z.id, Hi. intros [_ ?]. congruence.
    + rewrite Hin; [|unfold miss, missing_of; rewrite elem_of_absent, Nat2Z.id; split; [lia|done]].
      apply lookup_lt_Some in Hi.
      destruct (lookup_lt_is_Some_2 D i) as [v Hv]; [lia|]. unfold shard_row. by rewrite Nat2Z.id, Hv.
    + rewrite Hout; [|unfold miss, missing_of; rewrite elem_of_absent, Nat2Z.id, Hi; intros [_ ?]; congruence].
      apply lookup_ge_None in Hi. by rewrite (proj2 (lookup_ge_None D i)) by lia.
Qed.

Context (ctx : Ctx) (schedule : list Z) (dflt n : Z).
Context (Hbefore : before ctx = None) (Hsticky : ctx_sticky ctx) (Hdflt : 1 <= dflt).
Context (Hsched : complete_schedule (perGoroutineSplit b L (numGoroutines' dflt n)) L
  (calls_of ctx d u) schedule).

Lemma Reconstruct_run :
  Reconstruct tb b (mkCoder d p M) ctx schedule dflt data parity n =
    match after ctx with Some e => Err e | None => Ok (Some <$> D) end ∨
  (Reconstruct tb b (mkCoder d p M) ctx schedule dflt data parity n = Err "singular matrix" ∧
   kernel_nonzero u (missing_matrix miss used)).
Proof.
  pose proof u_pos as Hu. pose proof used_length as Hul.
  assert (u = Z.of_nat (length used)) as Hue by (by rewrite Hul).
  unfold Reconstruct. rewrite Hbefore. cbn [ctx_err mbind result_bind].
  destruct inputs_valid as (len & -> & _ & Hlen). cbn [mbind result_bind].
  rewrite (Hlen some_present).
  destruct analyzeShards_cases as [[? _]|[_ ->]]; [done|].
  destruct (Nat.ltb_spec (length (present (indexed parity))) (length (missing_of data))) as [?|_]; [lia|].
  cbn [mbind result_bind missingRows availableRows usedParityRows input dataShards parityMatrix].
  fold avail miss used. fold pused. fold inp.
  destruct (Nat.eqb_spec (length miss) 0) as [H0|_]; [unfold u in Hu; lia|].
  destruct (makeReconstructionMatrix_ok avail miss used) as [(X & g & -> & HX & Hg & Hs)|[-> Hk]];
    [lia|done|apply rows_count|apply rows_data_perm|apply used_bound|left|by right; rewrite Hue].
  cbn [mbind result_bind]. rewrite <- Hue in *.
  destruct input_good as [Hib Hil].
  replace (length miss) with (Z.to_nat u) by (unfold u; lia).
  rewrite (applyMatrixParallelData_ok tb b u d L X g inp HX Hg input_count Hib Hil HL ctx schedule dflt n);
    [|apply zeroed_good; lia|lia|lia|done|done| |done].
  - destruct (after ctx); [done|]. cbn [mbind result_bind].
    replace (Z.of_nat (Z.to_nat u)) with u by lia. by apply assign_missing.
  - destruct Hsched as [H1 H2]. split; [done|]. eapply Forall_impl; [exact H2|].
    intros w Hw. cbn beta in *. unfold calls_of in Hw.
    rewrite (slice_calls_length_ext inp (replicate (Z.to_nat d) [])); [done|].
    rewrite length_replicate. pose proof input_count. lia.
Qed.

(** Consecutive parity rows always determine the missing shards. *)
Lemma consecutive_solvable k0 : 0 <= k0 →
  (∀ i, 0 <= i < u → nth_row used i = k0 + i) → ¬ kernel_nonzero u (missing_matrix miss used).
Proof.
  intros Hk0 Hcons (x & i & Hi & Hx & Hxi & Hker). pose proof used_length as Hul.
  assert (x i = 0) as Hx0; [|congruence].
  apply (consecutive_kernel u k0 (nth_row miss) x); try done.
  - intros j Hj. destruct (nth_miss avail miss used (eq_sym used_length) rows_data_perm j) as [_ ?];
      [rewrite Hul; done|]. lia.
  - intros j k Hj Hk Hjk.
    assert (NoDup miss) as Hnd.
    { pose proof (range_NoDup 0 d) as Hr. rewrite <- rows_data_perm in Hr. by apply NoDup_app in Hr as (_ & _ & ?). }
    destruct (lookup_lt_is_Some_2 miss (Z.to_nat j)) as [y Hy]; [unfold u in Hj; lia|].
    destruct (lookup_lt_is_Some_2 miss (Z.to_nat k)) as [z Hz]; [unfold u in Hk; lia|].
    unfold nth_row in Hjk. rewrite Hy, Hz in Hjk. simpl in Hjk. subst z.
    pose proof (NoDup_lookup _ _ _ _ Hnd Hy Hz). lia.
  - intros a Ha. etransitivity; [|exact (Hker a Ha)]. apply dot_ext. intros k Hk. unfold missing_matrix.
    rewrite Z.max_r by lia. by rewrite Hcons by done.
Qed.
End Enough.

(** *** The other cases *)

Lemma Reconstruct_nothing_missing ctx schedule dflt n : before ctx = None →
  missing_of data = [] →
  Reconstruct tb b (mkCoder d p M) ctx schedule dflt data parity n = Ok data.
Proof.
  intros Hb Hm. unfold Reconstruct. rewrite Hb. cbn [ctx_err mbind result_bind].
  destruct inputs_valid as (len & -> & _). cbn [mbind result_bind].
  destruct analyzeShards_cases as [[_ ->]|[? _]]; [|done]. done.
Qed.

Lemma Reconstruct_not_enough ctx schedule dflt n : before ctx = None →
  (length (present (indexed parity)) < length (missing_of data))%nat →
  Reconstruct tb b (mkCoder d p M) ctx schedule dflt data parity n = Err ErrNotEnoughParity.
Proof.
  intros Hb Hm. unfold Reconstruct. rewrite Hb. cbn [ctx_err mbind result_bind].
  destruct inputs_valid as (len & -> & _). cbn [mbind result_bind].
  destruct analyzeShards_cases as [[H0 _]|[_ ->]]; [rewrite H0 in Hm; simpl in Hm; lia|].
  by rewrite (proj2 (Nat.ltb_lt _ _)).
Qed.
End Reconstruct.

Lemma nothing_missing D data : data_of D data → missing_of data = [] → data = Some <$> D.
Proof.
  intros [Hl Hd] Hm. apply list_eq. intros i. rewrite list_lookup_fmap.
  destruct (data !! i) as [[bs|]|] eqn:Hi.
  - by rewrite (Hd i bs Hi).
  - assert (Z.of_nat i ∈ missing_of data) as Hin.
    { apply elem_of_absent. rewrite Nat2Z.id. split; [lia|exact Hi]. }
    rewrite Hm in Hin. by apply elem_of_nil in Hin.
  - apply lookup_ge_None in Hi. by rewrite (proj2 (lookup_ge_None D i)) by lia.
Qed.

(** ** [GenerateParity] *)

Lemma GenerateParity_ok (tb : tables) `{!TablesReady tb} `{VK : !VectorKernels}
    `{!VectorKernelsOk tb VK} b d p M L D ctx schedule dflt n :
  mrel p d M vandermonde → L mod 2 = 0 → 0 <= L →
  Z.of_nat (length D) = d → Forall bytes D → Forall (λ v, Z.of_nat (length v) = L) D →
  before ctx = None → ctx_sticky ctx → 1 <= dflt →
  complete_schedule (perGoroutineSplit b L (numGoroutines' dflt n)) L
    (λ w, length (slice_calls (polled ctx w) D 0 p)) schedule →
  GenerateParity tb b (mkCoder d p M) ctx schedule dflt (Some <$> D) n =
    match after ctx with Some e => Err e | None => Ok (matrix_product vandermonde p d L D) end.
Proof.
  intros HM HL HL0 HDlen HD HDL Hb Hst Hdf Hs. destruct (mr_pos _ _ _ _ HM) as [Hp Hd].
  unfold GenerateParity. rewrite Hb. cbn [ctx_err mbind result_bind dataShards parityShards parityMatrix].
  rewrite length_fmap, HDlen, Z.eqb_refl. cbn [negb err_if mbind result_bind].
  destruct (validateShardLengths_ok L (Some <$> D) []) as (len & -> & _ & Hlen); [done| |constructor|].
  { apply Forall_fmap. eapply Forall_impl; [exact HDL|]. done. }
  cbn [mbind result_bind]. rewrite Hlen.
  2:{ destruct D as [|v D]; [simpl in HDlen; lia|]. exists v. by left. }
  destruct (Z.eqb_spec L (-1)); [lia|].
  assert (default [] <$> (Some <$> D) = D) as ->.
  { rewrite <- list_fmap_compose. apply list_fmap_id. }
  apply (applyMatrixParallelData_ok tb b p d L M vandermonde D HM vandermonde_elts HDlen HD HDL HL
    ctx schedule dflt n); try done. by apply zeroed_good; lia.
Qed.
