(* ===== verification/Gf16Properties.v ===== *)
(** * What package gf16 promises

    The theorems about src/gf16 that the other packages and the reader rely on,
    stated for the tables package initialisation leaves ([gf_tables]), for every
    build ([build]) and for the kernels of Simd.v. *)

From stdpp Require Import gmap.
From S2P Require Import Prelude Field Gf16 Kernels Dispatch Simd.

(** ** The field *)

(** C28: Package initialisation never panics, ends where it began, and leaves in
    [expTable] the powers of 3 and in [logTable] their exponents; every nonzero
    element is such a power, so 3 generates the multiplicative group. *)
Theorem init_builds_tables :
  gf_init = Ok (gf_tables, 1) ∧
  (∀ p, 0 <= p < order - 1 →
     expTable gf_tables !! p = Some (gpow 3 (Z.to_nat p)) ∧
     logTable gf_tables !! (gpow 3 (Z.to_nat p) - 1) = Some p) ∧
  (∀ v, u16 v → v ≠ 0 → ∃ p, 0 <= p < order - 1 ∧ gpow 3 (Z.to_nat p) = v).
Proof.
  split; [exact gf_init_tables|]. split.
  - intros p Hp. destruct (gexp_table gf_tables p) as (H1 & _ & H2); [done|]. by split.
  - intros v Hv Hv0. exact (gexp_surj gf_tables v Hv Hv0).
Qed.

(** C29: The operations of the package form a field.  For all 16-bit words and with
    the tables that initialisation builds: [Times] never panics, is commutative
    and associative, distributes over addition, which is XOR, has unit 1, and is
    zero only when a factor is; [Inverse] panics on zero and gives the inverse of
    every other word; [Div] panics on a zero divisor and otherwise multiplies by
    the inverse, so that it undoes [Times]. *)
Theorem gf16_is_field t u v :
  u16 t → u16 u → u16 v →
  let mul := Times gf_tables in
  ∃ tu tv uv, mul t u = Ok tu ∧ mul t v = Ok tv ∧ mul u v = Ok uv ∧ u16 tu ∧
    mul u t = Ok tu ∧ mul tu v = mul t uv ∧ mul t (Z.lxor u v) = Ok (Z.lxor tu tv) ∧
    mul t 1 = Ok t ∧ (tu = 0 ↔ t = 0 ∨ u = 0) ∧
    Inverse gf_tables 0 = Panic "zero has no inverse" ∧
    Div gf_tables t 0 = Panic "division by zero" ∧
    (u ≠ 0 → ∃ i, Inverse gf_tables u = Ok i ∧ u16 i ∧ mul u i = Ok 1 ∧
       Div gf_tables t u = mul t i ∧ Div gf_tables tu u = Ok t).
Proof.
  intros Ht Hu Hv. cbv zeta. assert (u16 1) as H1 by zlia.
  pose proof (Times_tables gf_tables) as HT.
  assert (u16 (gmul t u)) as Htu by auto with width. assert (u16 (gmul u v)) as Huv by auto with width.
  exists (gmul t u), (gmul t v), (gmul u v). rewrite !HT by (auto with width).
  split; [done|]. split; [done|]. split; [done|]. split; [done|].
  split; [by rewrite gmul_comm|]. split; [by rewrite gmul_assoc|].
  split; [by rewrite gmul_lxor_r|]. split; [by rewrite gmul_1_r|].
  split; [|split; [done|split; [done|]]].
  - split; [|intros [->| ->]; [apply gmul_0_l|apply gmul_0_r]]. intros Hz.
    destruct (decide (u = 0)) as [->|Hu0]; [by right|left].
    pose proof (ginv_u16 u Hu) as Hi. pose proof (gmul_ginv_l gf_tables u Hu Hu0) as Hinv.
    rewrite gmul_comm in Hinv by assumption.
    rewrite <- (gmul_1_r t), <- Hinv, gmul_assoc, Hz by assumption. apply gmul_0_l.
  - intros Hu0. pose proof (ginv_u16 u Hu) as Hi. pose proof (gmul_ginv_l gf_tables u Hu Hu0) as Hinv.
    exists (ginv u). split; [exact (Inverse_tables gf_tables u Hu Hu0)|]. split; [done|].
    rewrite !HT by assumption. rewrite (gmul_comm u) by assumption. split; [by rewrite Hinv|].
    split; [exact (Div_tables gf_tables t u Ht Hu Hu0)|].
    rewrite (Div_tables gf_tables _ u Htu Hu Hu0), <- gmul_assoc by assumption.
    by rewrite (gmul_comm u), Hinv, gmul_1_r by assumption.
Qed.

Lemma gf16_is_field_witness :
  Times gf_tables 0x8000 2 = Ok 0x100b ∧ Times gf_tables 2 0x8000 = Ok 0x100b ∧
  Div gf_tables 0x100b 2 = Ok 0x8000.
Proof.
  destruct (gf16_is_field 0x8000 2 0) as (tu & tv & uv & H1 & _ & _ & _ & H2 & _ & _ & _ & _ & _ & _ & H3);
    [zlia..|].
  assert (tu = 0x100b) as ->.
  { pose proof (Times_tables gf_tables 0x8000 2 ltac:(zlia) ltac:(zlia)) as H. rewrite H1 in H. by injection H. }
  split; [exact H1|]. split; [exact H2|].
  destruct (H3 ltac:(discriminate)) as (i & _ & _ & _ & _ & H). exact H.
Defined.

(** C30: The shift-and-add product [timesPoly] computes the field product; its
    loop has ended after 16 turns, whatever more it is given. *)
Theorem timesPoly_correct t u :
  u16 t → u16 u →
  timesPoly t u = gmul t u ∧ ∀ k, timesPoly_loop (16 + k) t u 0 = timesPoly t u.
Proof.
  intros Ht Hu. split; [by apply timesPoly_gmul|]. intros k.
  by apply timesPoly_loop_fuel.
Qed.

Lemma timesPoly_correct_witness :
  u16 0x8000 ∧ timesPoly 0x8000 2 = gmul 0x8000 2 ∧ timesPoly 0x8000 2 = 0x100b.
Proof.
  split; [by vm_compute|]. split; [apply (timesPoly_correct 0x8000 2); by vm_compute|reflexivity].
Defined.

(** C31: With the tables built, [Times] multiplies, [Pow] raises to any uint32
    power, and before they are built [Times] falls back to the same product. *)
Theorem Times_Pow_correct t u p :
  u16 t → u16 u → u32 p →
  Times gf_tables t u = Ok (gmul t u) ∧
  Times no_tables t u = Ok (gmul t u) ∧
  Pow gf_tables t p = Ok (gpow t (Z.to_nat p)).
Proof.
  intros Ht Hu Hp. split; [exact (Times_tables gf_tables t u Ht Hu)|].
  split; [exact (Times_no_tables t u Ht Hu)|]. exact (Pow_tables gf_tables t p Ht Hp).
Qed.

Lemma Times_Pow_correct_witness :
  Times gf_tables 0x8000 2 = Ok 0x100b ∧ Pow gf_tables 0 0 = Ok 1.
Proof.
  assert (u16 0x8000) as H1 by zlia. assert (u16 2) as H2 by zlia.
  assert (u16 0) as H3 by zlia. assert (u32 0) as H4 by zlia.
  pose proof (Times_Pow_correct 0x8000 2 0 H1 H2 H4) as (H & _ & _).
  pose proof (Times_Pow_correct 0 0 0 H3 H3 H4) as (_ & _ & H').
  rewrite H, H'. split; reflexivity.
Defined.

(** ** The slice kernels *)

(** [calcTable] tabulates the multiples of its coefficient: looking up the
    two bytes of a word in it and adding gives the product with the word. *)
Theorem calcTable_correct c :
  u16 c →
  ∃ t, calcTable c = Ok t ∧ length (s0 t) = 256%nat ∧ length (s8 t) = 256%nat ∧
    ∀ lo hi, u8 lo → u8 hi → table_mul t lo hi = Ok (gmul c (lo + 256 * hi)).
Proof.
  intros Hc. destruct (calcTable_ok c Hc) as (t & Ht & Hok). exists t.
  split; [done|]. destruct (Hok) as [[Hl0 _] [Hl8 _]]. do 2 (split; [done|]).
  intros lo hi Hlo Hhi. rewrite (table_mul_ok c t) by done. by rewrite le_combine_2.
Qed.

Lemma calcTable_correct_witness :
  u16 0x1234 ∧ ∃ t, calcTable 0x1234 = Ok t ∧ length (s0 t) = 256%nat ∧ length (s8 t) = 256%nat ∧
    ∀ lo hi, u8 lo → u8 hi → table_mul t lo hi = Ok (gmul 0x1234 (lo + 256 * hi)).
Proof. split; [by vm_compute|apply calcTable_correct; by vm_compute]. Defined.

(** C13: On every build, for every coefficient and length, [MulByteSliceLE] and
    [MulAndAddByteSliceLE] do what the one-element definition says to each
    16-bit element: the vector kernels, the table loop and the logarithm loop
    give the same bytes, also when input and output are the same slice. *)
Theorem slice_kernels_correct b c src out :
  u16 c → bytes (contents src out) → bytes out →
  length (contents src out) = length out → Nat.Even (length out) →
  MulByteSliceLE gf_tables b c src out = Ok (elementwise (mul_elem c) (contents src out) out) ∧
  MulAndAddByteSliceLE gf_tables b c src out
    = Ok (elementwise (mulAdd_elem c) (contents src out) out).
Proof.
  intros Hc Hi Ho Hl He.
  split; [by apply (MulByteSliceLE_ok gf_tables)|by apply (MulAndAddByteSliceLE_ok gf_tables)].
Qed.

Lemma slice_kernels_correct_witness :
  MulByteSliceLE gf_tables (Amd64 true true) 2 Aliased [0x00; 0x80; 0x01; 0x00]
    = Ok [0x0b; 0x10; 0x02; 0x00] ∧
  MulAndAddByteSliceLE gf_tables NonAmd64 2 (Separate [0x00; 0x80]) [0x0b; 0x10] = Ok [0; 0].
Proof.
  split.
  - destruct (slice_kernels_correct (Amd64 true true) 2 Aliased [0x00; 0x80; 0x01; 0x00])
      as [H _]; [zlia|decided..|done|by exists 2%nat|].
    rewrite H. reflexivity.
  - destruct (slice_kernels_correct NonAmd64 2 (Separate [0x00; 0x80]) [0x0b; 0x10])
      as [_ H]; [zlia|decided..|done|by exists 1%nat|].
    rewrite H. reflexivity.
Defined.

(** The scalar kernels alone, with both of their loops, agree with the
    one-element definition: the short path by logarithms and the long path by
    tables are the same function. *)
Theorem scalar_kernels_correct c src out :
  u16 c → bytes (contents src out) → bytes out →
  length (contents src out) = length out → Nat.Even (length out) →
  mulScalarByteSliceLE gf_tables c src out
    = Ok (elementwise (mul_elem c) (contents src out) out) ∧
  mulAndAddScalarByteSliceLE gf_tables c src out
    = Ok (elementwise (mulAdd_elem c) (contents src out) out).
Proof.
  intros Hc Hi Ho Hl He.
  split; [by apply (mulScalar_elementwise gf_tables)|by apply (mulAndAddScalar_elementwise gf_tables)].
Qed.

Lemma scalar_kernels_correct_witness :
  mulScalarByteSliceLE gf_tables 2 (Separate (replicate 66 0x80)) (replicate 66 0)
    = Ok (mjoin (replicate 33 [0x0b; 0x11])).
Proof.
  destruct (scalar_kernels_correct 2 (Separate (replicate 66 0x80)) (replicate 66 0))
    as [H _]; [zlia|decided..|done|by exists 33%nat|].
  rewrite H. vm_compute. reflexivity.
Defined.

(** The exported kernels panic on slices of different or odd lengths, before
    any byte is written. *)
Theorem slice_kernels_panic b c src out :
  (length (contents src out) ≠ length out →
   MulByteSliceLE gf_tables b c src out = Panic "size mismatch" ∧
   MulAndAddByteSliceLE gf_tables b c src out = Panic "size mismatch") ∧
  (length (contents src out) = length out → ¬ Nat.Even (length out) →
   MulByteSliceLE gf_tables b c src out = Panic "odd slice length" ∧
   MulAndAddByteSliceLE gf_tables b c src out = Panic "odd slice length").
Proof.
  unfold MulByteSliceLE, MulAndAddByteSliceLE, validateSlicePair. split.
  - intros Hne. destruct (Nat.eqb_spec (length out) (length (contents src out))); [congruence|done].
  - intros Hl Hodd. rewrite Hl, Nat.eqb_refl. cbn [negb panic_if mbind result_bind].
    destruct (Z.eqb_spec (Z.rem (Z.of_nat (length out)) 2) 0) as [H0|]; [|done].
    exfalso. apply Hodd. rewrite Z.rem_mod_nonneg in H0 by lia. by apply even_length_mod.
Qed.

Lemma slice_kernels_panic_witness :
  MulByteSliceLE gf_tables NonAmd64 2 (Separate [1]) [1; 2] = Panic "size mismatch" ∧
  MulAndAddByteSliceLE gf_tables NonAmd64 2 Aliased [1; 2; 3] = Panic "odd slice length".
Proof.
  split.
  - apply (slice_kernels_panic NonAmd64 2 (Separate [1]) [1; 2]). discriminate.
  - apply (slice_kernels_panic NonAmd64 2 Aliased [1; 2; 3]); [done|]. intros [[|[|m]] Hm]; simpl in Hm; lia.
Defined.

(** One turn of the generated AVX2 loop, which the SSSE3 loop shares: the
    packing of 32 bytes into low and high halves, the eight nibble lookups and
    the unpacking multiply each of the sixteen words by the coefficient whose
    entry of [mulTable64] the registers hold. *)
Theorem mulBlock_correct c e in0 in1 :
  u16 c → mulTable64 gf_tables c = Ok e →
  bytes in0 → bytes in1 → length in0 = 16%nat → length in1 = 16%nat →
  mulBlock (xmmRegs e) convMaskLane mulMaskLane in0 in1
  = (of_words (gmul c <$> to_words in1), of_words (gmul c <$> to_words in0)).
Proof.
  intros Hc He. rewrite (kernel_entry gf_tables c e) by done. apply mulBlock_lane.
Qed.

Lemma mulBlock_correct_witness :
  ∃ e, mulTable64 gf_tables 2 = Ok e ∧
  mulBlock (xmmRegs e) convMaskLane mulMaskLane (replicate 16 0x80) (replicate 16 1)
  = (mjoin (replicate 8 [2; 2]), mjoin (replicate 8 [0x0b; 0x11])).
Proof.
  exists (entry_upto 2 16). assert (mulTable64 gf_tables 2 = Ok (entry_upto 2 16)) as He.
  { apply (mulTable64_ok gf_tables). by vm_compute. }
  split; [exact He|].
  rewrite (mulBlock_correct 2 (entry_upto 2 16));
    [reflexivity|zlia|exact He|decided..|done|done].
Defined.

(** C20: The SSSE3 and AVX2 routines meet the contract the dispatcher relies on:
    on whole blocks they are elementwise. *)
Theorem vector_kernels_correct : VectorKernelsOk gf_tables simd_kernels.
Proof. exact (simd_kernels_ok gf_tables). Qed.
