(* ===== verification/RsProperties.v ===== *)
(** * What package rs promises

    The theorems about src/rs, for the tables of package initialisation, for
    every build and with the vector kernels of Simd.v. *)

From S2P Require Import Prelude Field Gf16 Kernels Dispatch Simd LinAlg Matrix ReedSolomon RsApply RsReconstruct.

Lemma NewCoder_inv d p c : NewCoderPAR2Vandermonde gf_tables d p = Ok c →
  0 < d <= 32768 ∧ 0 < p <= 65535 ∧ ∃ M, c = mkCoder d p M ∧ mrel p d M vandermonde.
Proof.
  intros Hc.
  assert (0 < d <= 32768 ∧ 0 < p <= 65535) as [Hd Hp].
  { revert Hc. unfold NewCoderPAR2Vandermonde. rewrite (initGenerators_ok gf_tables).
    cbn [mbind result_bind]. rewrite generators_length.
    destruct (Z.leb_spec d 0); cbn [orb err_if mbind result_bind]; [done|].
    destruct (Z.leb_spec p 0); cbn [orb err_if mbind result_bind]; [done|].
    destruct (Z.ltb_spec 32768 d); cbn [err_if mbind result_bind]; [done|].
    destruct (Z.ltb_spec 65535 p); cbn [err_if mbind result_bind]; [done|]. lia. }
  split; [done|]. split; [done|]. destruct (NewCoder_ok gf_tables d p Hd Hp) as (M & HM & Hrel).
  rewrite HM in Hc. injection Hc as <-. exists M. split; [reflexivity|exact Hrel].
Qed.

(** C12: Elimination solves linear systems.  For a square [m] and any [n] with as
    many rows, [RowReduceForInverse] either returns an [X] of [n]'s shape whose
    columns are the one and only solutions of [m * X = n], or reports a singular
    matrix, and then [m] sends a nonzero vector to zero.  It never panics. *)
Theorem RowReduceForInverse_correct b m n :
  matrix_wf m → matrix_wf n → rows m = cols m → rows n = rows m →
  (∃ X, RowReduceForInverse gf_tables b m n = Ok X ∧ matrix_wf X ∧
     rows X = rows n ∧ cols X = cols n ∧
     ∀ x col, velts u16 x → 0 <= col < cols n →
       solves gmul (rows m) (rows m) (entry m) (entry n) x col ↔
       ∀ a, 0 <= a < rows m → x a = entry X a col) ∨
  (RowReduceForInverse gf_tables b m n = Err "singular matrix" ∧ kernel_nonzero (rows m) (entry m)).
Proof.
  intros Hm Hn Hsq Hr.
  pose proof (entry_mrel m Hm) as Hem. rewrite <- Hsq in Hem.
  pose proof (entry_mrel n Hn) as Hen. rewrite Hr in Hen.
  destruct (RowReduceForInverse_ok gf_tables b (rows m) (cols n) m n (entry m) (entry n)
    Hem Hen (entry_elts m Hm) (entry_elts n Hn))
    as [(X & g & HX & Hrel & Hg & Hsol & _)|Hsing]; [left|right; exact Hsing].
  exists X. split; [exact HX|]. split; [by apply (mrel_wf _ _ _ _ Hrel)|].
  split; [by rewrite Hr, (mr_rows _ _ _ _ Hrel)|]. split; [apply (mr_cols _ _ _ _ Hrel)|].
  intros x col Hx Hcol. rewrite Hsol by done. split; intros H a Ha; rewrite H by done.
  - symmetry. by apply (mrel_entry _ _ _ _ Hrel).
  - by apply (mrel_entry _ _ _ _ Hrel).
Qed.

Definition sample_m : Matrix := mkMatrix 2 2 [1; 2; 3; 4].
Definition sample_n : Matrix := mkMatrix 2 1 [5; 6].

Lemma RowReduceForInverse_correct_witness :
  matrix_wf sample_m ∧ matrix_wf sample_n ∧
  ((∃ X, RowReduceForInverse gf_tables NonAmd64 sample_m sample_n = Ok X ∧ matrix_wf X ∧
     rows X = rows sample_n ∧ cols X = cols sample_n ∧
     ∀ x col, velts u16 x → 0 <= col < cols sample_n →
       solves gmul (rows sample_m) (rows sample_m) (entry sample_m) (entry sample_n) x col ↔
       ∀ a, 0 <= a < rows sample_m → x a = entry X a col) ∨
  (RowReduceForInverse gf_tables NonAmd64 sample_m sample_n = Err "singular matrix" ∧
   kernel_nonzero (rows sample_m) (entry sample_m))).
Proof.
  assert (matrix_wf sample_m) as Hm by (split; [done|split; [done|split; [done|decided]]]).
  assert (matrix_wf sample_n) as Hn by (split; [done|split; [done|split; [done|decided]]]).
  split; [exact Hm|]. split; [exact Hn|].
  exact (RowReduceForInverse_correct NonAmd64 sample_m sample_n Hm Hn eq_refl eq_refl).
Defined.

(** [Inverse] of a matrix returns the right inverse when there is one: [m]
    times the result is the identity; otherwise [m] has a nonzero kernel vector.
    A matrix that is not square is refused. *)
Theorem Matrix_Inverse_correct b m :
  matrix_wf m →
  if rows m =? cols m then
    (∃ X, Matrix_Inverse gf_tables b m = Ok X ∧ matrix_wf X ∧ rows X = rows m ∧ cols X = rows m ∧
       ∀ i j, 0 <= i < rows m → 0 <= j < rows m →
         sum 0 (rows m) (λ k, gmul (entry m i k) (entry X k j)) = if i =? j then 1 else 0) ∨
    (Matrix_Inverse gf_tables b m = Err "singular matrix" ∧ kernel_nonzero (rows m) (entry m))
  else Matrix_Inverse gf_tables b m = Err "cannot invert non-square matrix".
Proof.
  intros Hm. destruct (Z.eqb_spec (rows m) (cols m)) as [Hsq|Hsq].
  2:{ unfold Matrix_Inverse. rewrite (proj2 (Z.eqb_neq _ _) Hsq).
      cbn [negb err_if mbind result_bind]. reflexivity. }
  pose proof (entry_mrel m Hm) as Hem. rewrite <- Hsq in Hem.
  destruct (Matrix_Inverse_ok gf_tables b (rows m) m (entry m) Hem (entry_elts m Hm))
    as [(X & g & HX & Hrel & Hg & Hsol & _)|Hsing]; [left|right; exact Hsing].
  exists X. split; [exact HX|]. pose proof (mrel_wf _ _ _ _ Hrel) as HwX. split; [done|].
  split; [apply (mr_rows _ _ _ _ Hrel)|]. split; [apply (mr_cols _ _ _ _ Hrel)|].
  intros i j Hi Hj.
  assert (solves gmul (rows m) (rows m) (entry m) identity (λ k, entry X k j) j) as Hs.
  { apply Hsol; [intros k; by apply entry_elts|]. intros a Ha. by apply (mrel_entry _ _ _ _ Hrel). }
  apply (Hs i Hi).
Qed.

Lemma Matrix_Inverse_correct_witness :
  matrix_wf sample_n ∧ Matrix_Inverse gf_tables NonAmd64 sample_n = Err "cannot invert non-square matrix".
Proof.
  assert (matrix_wf sample_n) as Hn by (split; [done|split; [done|split; [done|decided]]]).
  split; [exact Hn|]. exact (Matrix_Inverse_correct NonAmd64 sample_n Hn).
Defined.

(** Well-formedness is kept by every mutation: writing an entry, swapping two
    rows, scaling a row in place and adding a multiple of another row succeed on
    indices in range, leave the dimensions alone and change exactly the rows
    they name, as the operations on the entries say. *)
Theorem row_operations_correct b m i j v :
  matrix_wf m → 0 <= i < rows m → 0 <= j < rows m → i ≠ j → u16 v →
  let same M' := matrix_wf M' ∧ rows M' = rows m ∧ cols M' = cols m in
  let agree M' f := ∀ a k, 0 <= a < rows m → 0 <= k < cols m → entry M' a k = f a k in
  (∃ M', swapRows m i j = Ok M' ∧ same M' ∧ agree M' (swap i j (entry m))) ∧
  (∃ M', scaleRow gf_tables b m i v = Ok M' ∧ same M' ∧ agree M' (scale gmul i v (entry m))) ∧
  (∃ M', addScaledRow gf_tables b m i j v = Ok M' ∧ same M' ∧
     agree M' (addRow gmul i j v (entry m))) ∧
  ∀ k, 0 <= k < cols m → ∃ M', Set_ m i k v = Ok M' ∧ same M' ∧ At M' i k = Ok v.
Proof.
  intros Hm Hi Hj Hij Hv. cbn zeta. pose proof (entry_mrel m Hm) as Hem.
  assert (∀ M' f, mrel (rows m) (cols m) M' f →
    (matrix_wf M' ∧ rows M' = rows m ∧ cols M' = cols m) ∧
    ∀ a k, 0 <= a < rows m → 0 <= k < cols m → entry M' a k = f a k) as Hrel.
  { intros M' f H. split; [|by apply mrel_entry]. split; [by eapply mrel_wf|].
    split; [apply (mr_rows _ _ _ _ H)|apply (mr_cols _ _ _ _ H)]. }
  split; [|split; [|split]].
  - destruct (swapRows_ok _ _ _ _ Hem i j Hi Hj) as (M' & H & HM'). exists M'. split; [exact H|by apply Hrel].
  - destruct (scaleRow_ok gf_tables b _ _ _ _ Hem i v Hi Hv) as (M' & H & HM').
    exists M'. split; [exact H|by apply Hrel].
  - destruct (addScaledRow_ok gf_tables b _ _ _ _ Hem i j v Hi Hj Hij Hv) as (M' & H & HM').
    exists M'. split; [exact H|by apply Hrel].
  - intros k Hk. destruct (Set_entry _ _ (λ _ _, v) m _ i k Hem Hi Hk Hv) as (M' & H & HM').
    exists M'. split; [exact H|]. destruct (Hrel M' _ HM') as [Hsame _]. split; [exact Hsame|].
    rewrite (At_ok _ _ _ _ HM') by done. unfold put_entry. by rewrite !Z.eqb_refl.
Qed.

Lemma row_operations_correct_witness :
  matrix_wf sample_m ∧ ∃ M', swapRows sample_m 0 1 = Ok M' ∧
    (matrix_wf M' ∧ rows M' = 2 ∧ cols M' = 2) ∧
    ∀ a k, 0 <= a < 2 → 0 <= k < 2 → entry M' a k = swap 0 1 (entry sample_m) a k.
Proof.
  assert (matrix_wf sample_m) as Hm by (split; [done|split; [done|split; [done|decided]]]).
  split; [exact Hm|].
  destruct (row_operations_correct NonAmd64 sample_m 0 1 7 Hm) as [H _];
    [split; [discriminate|reflexivity]|split; [discriminate|reflexivity]|discriminate|zlia|exact H].
Defined.

(** C32: The generators are 32768 distinct nonzero powers of 2, and a coder for
    counts within the limits holds their powers: row [i] of the parity matrix is
    the [i]-th powers.  Counts outside the limits are refused with the error
    that names them. *)
Theorem NewCoder_correct d p :
  initGenerators gf_tables = Ok generators ∧ Z.of_nat (length generators) = 32768 ∧
  (∀ j k, 0 <= j < 32768 → 0 <= k < 32768 → gen j = gen k → j = k) ∧
  (∀ j, 0 <= j < 32768 → gen j ≠ 0) ∧
  (if (d <=? 0) || (p <=? 0) then
     NewCoderPAR2Vandermonde gf_tables d p = Err "invalid shard counts"
   else if 32768 <? d then
     NewCoderPAR2Vandermonde gf_tables d p = Err "too many data shards for generator limit"
   else if 65535 <? p then
     NewCoderPAR2Vandermonde gf_tables d p = Err "too many parity shards for GF(2^16)"
   else ∃ M, NewCoderPAR2Vandermonde gf_tables d p = Ok (mkCoder d p M) ∧ matrix_wf M ∧
     ∀ i j, 0 <= i < p → 0 <= j < d → At M i j = Ok (gpow (gen j) (Z.to_nat i))).
Proof.
  split; [exact (initGenerators_ok gf_tables)|]. split; [exact generators_length|].
  split; [exact gen_inj|]. split; [exact gen_nonzero|].
  destruct ((d <=? 0) || (p <=? 0)) eqn:E1; [|destruct (Z.ltb_spec 32768 d) as [E2|E2];
    [|destruct (Z.ltb_spec 65535 p) as [E3|E3]]].
  4:{ apply orb_false_iff in E1 as [Hd%Z.leb_gt Hp%Z.leb_gt].
      destruct (NewCoder_ok gf_tables d p) as (M & HM & Hrel); [lia|lia|].
      exists M. split; [exact HM|]. split; [by apply (mrel_wf _ _ _ _ Hrel)|].
      intros i j Hi Hj. exact (At_ok _ _ _ _ Hrel i j Hi Hj). }
  all: unfold NewCoderPAR2Vandermonde; rewrite (initGenerators_ok gf_tables);
    cbn [mbind result_bind]; rewrite E1, ?generators_length; cbn [err_if mbind result_bind].
  - reflexivity.
  - rewrite (proj2 (Z.ltb_lt _ _) E2). reflexivity.
  - rewrite (proj2 (Z.ltb_ge _ _) E2). cbn [err_if mbind result_bind].
    rewrite (proj2 (Z.ltb_lt _ _) E3). reflexivity.
Qed.

(** The share of a chunk each goroutine gets is a whole number of kernel
    blocks, at least 16 bytes and even; no more goroutines are started than were
    asked for, and their windows cover the chunk. *)
Theorem perGoroutineSplit_bounds b dataLength g :
  0 <= dataLength → 1 <= g →
  let s := perGoroutineSplit b dataLength g in
  let actual := Z.quot (dataLength + s - 1) s in
  minSplitBytes <= s ∧ s mod KernelBlockBytes b = 0 ∧ s mod 2 = 0 ∧
  0 <= actual <= g ∧ dataLength <= actual * s.
Proof.
  intros Hn Hg. cbn zeta. unfold perGoroutineSplit.
  destruct (splitForBlock_ok dataLength g (KernelBlockBytes b) Hn Hg (KernelBlockBytes_cases b))
    as (H16 & H2 & Hk & Hcov).
  set (s := splitForBlock dataLength g (KernelBlockBytes b)) in *.
  split; [exact H16|]. split; [exact Hk|]. split; [exact H2|].
  rewrite Z.quot_div_nonneg by lia.
  pose proof (Z.div_mod (dataLength + s - 1) s). pose proof (Z.mod_pos_bound (dataLength + s - 1) s).
  split; [|nia]. split; [apply Z.div_pos; lia|]. assert (g * s < g * s + s) by lia.
  apply Z.lt_succ_r. apply Z.div_lt_upper_bound; nia.
Qed.

Lemma perGoroutineSplit_bounds_witness :
  perGoroutineSplit (Amd64 true true) 7648 32 = 256 ∧
  256 mod KernelBlockBytes (Amd64 true true) = 0.
Proof.
  destruct (perGoroutineSplit_bounds (Amd64 true true) 7648 32) as (_ & H & _); [lia|lia|].
  split; [reflexivity|exact H].
Defined.

(** C22: The goroutines of one call compute the product of the matrix and the
    slices, whatever the order their kernel calls run in, as long as each is run
    to its end; a cancellation any of them saw is always reported, never
    mistaken for a result. *)
Theorem applyMatrixParallelData_correct b ctx schedule dflt m inp out n L :
  matrix_wf m → Z.of_nat (length inp) = cols m →
  Forall bytes inp → Forall (λ v, Z.of_nat (length v) = L) inp → L mod 2 = 0 → 0 <= L →
  good (rows m) L out → 1 <= dflt → ctx_sticky ctx →
  complete_schedule (perGoroutineSplit b L (numGoroutines' dflt n)) L
    (λ w, length (slice_calls (polled ctx w) inp 0 (rows m))) schedule →
  applyMatrixParallelData gf_tables b ctx schedule dflt m inp out n =
  match after ctx with
  | Some e => Err e
  | None => Ok (matrix_product (entry m) (rows m) (cols m) L inp)
  end.
Proof.
  intros Hm Hi Hb Hl HL HL0 Hg Hd Hst Hs. destruct (Hm) as (Hr & Hc & _).
  exact (applyMatrixParallelData_ok gf_tables b (rows m) (cols m) L m (entry m) inp
    (entry_mrel m Hm) (entry_elts m Hm) Hi Hb Hl HL ctx schedule dflt n out Hg Hc Hr HL0 Hd Hs Hst).
Qed.

(** Two goroutines on 32 bytes, interleaved. *)
Lemma applyMatrixParallelData_correct_witness :
  applyMatrixParallelData gf_tables NonAmd64 background [1; 0; 1; 0] 2
    (mkMatrix 1 2 [1; 2]) [replicate 32 1; replicate 32 2] [replicate 32 9] 2
  = Ok [replicate 32 5].
Proof.
  rewrite (applyMatrixParallelData_correct NonAmd64 background [1; 0; 1; 0] 2
    (mkMatrix 1 2 [1; 2]) [replicate 32 1; replicate 32 2] [replicate 32 9] 2 32);
    [vm_compute; reflexivity|split; [done|split; [done|split; [done|decided]]]|done|decided|decided
    |done|lia|split; [done|decided]|lia|intros w i; done|decided].
Defined.

(** C1: [Reconstruct], given only shards that are the original ones, never
    answers with wrong data and never panics.  It returns the data it was given
    when nothing is missing, [ErrNotEnoughParity] when there are fewer parity
    shards than missing ones, and otherwise the complete original data (or the
    cancellation), unless the chosen parity rows leave the missing shards
    undetermined, which it reports. *)
Theorem Reconstruct_correct b d p c L D data parity ctx schedule dflt n :
  NewCoderPAR2Vandermonde gf_tables d p = Ok c →
  L mod 2 = 0 → 0 <= L → Z.of_nat (length D) = d →
  Forall bytes D → Forall (λ v, Z.of_nat (length v) = L) D →
  data_of D data → parity_of d p L D parity →
  before ctx = None → ctx_sticky ctx → 1 <= dflt →
  complete_schedule (perGoroutineSplit b L (numGoroutines' dflt n)) L
    (calls_of ctx d (Z.of_nat (length (missing_of data)))) schedule →
  let r := Reconstruct gf_tables b c ctx schedule dflt data parity n in
  let u := length (missing_of data) in
  if (u =? 0)%nat then r = Ok data
  else if (length (present (indexed parity)) <? u)%nat then r = Err ErrNotEnoughParity
  else r = match after ctx with Some e => Err e | None => Ok (Some <$> D) end ∨
       (r = Err "singular matrix" ∧
        kernel_nonzero (Z.of_nat u) (missing_matrix (missing_of data) (used_of data parity))).
Proof.
  intros Hc HL HL0 HDl HD HDL Hdata Hparity Hb Hst Hd Hs. cbn zeta.
  destruct (NewCoder_inv d p c Hc) as (Hd' & Hp' & M & -> & HM). clear Hc.
  destruct (Nat.eqb_spec (length (missing_of data)) 0) as [H0|H0].
  { eapply (Reconstruct_nothing_missing gf_tables b d p M); eauto using nil_length_inv. }
  assert (missing_of data ≠ []) as Hmiss by (intros E; rewrite E in H0; done).
  destruct (Nat.ltb_spec (length (present (indexed parity))) (length (missing_of data))) as [Hlt|Hge].
  { eapply (Reconstruct_not_enough gf_tables b d p M); eauto. }
  eapply (Reconstruct_run gf_tables b d p M); eauto.
Qed.

(** A coder for two data and two parity shards of two bytes, used in the
    witnesses below. *)
Lemma sample_coder : ∃ c, NewCoderPAR2Vandermonde gf_tables 2 2 = Ok c.
Proof. destruct (NewCoder_ok gf_tables 2 2) as (M & HM & _); [lia..|]. exists (mkCoder 2 2 M). exact HM. Qed.

Definition sample_data : list (list Z) := [[1; 2]; [3; 4]].
Definition sample_parity (k : Z) : list Z := product_row vandermonde 2 2 k sample_data.

Lemma sample_data_of : data_of sample_data [Some [1; 2]; None].
Proof. split; [done|]. intros [|[|[|i]]] bs H; simpl in H; simplify_eq; done. Qed.

Lemma sample_parity_of : parity_of 2 2 2 sample_data [Some (sample_parity 0); None].
Proof. split; [simpl; lia|]. intros [|[|[|i]]] bs H; simpl in H; simplify_eq; done. Qed.

Lemma background_sticky : ctx_sticky background.
Proof. intros w i H. done. Qed.

Lemma Reconstruct_correct_witness :
  ∃ c, NewCoderPAR2Vandermonde gf_tables 2 2 = Ok c ∧
  Reconstruct gf_tables NonAmd64 c background [0; 0] 1 [Some [1; 2]; None] [None; None] 1
    = Err ErrNotEnoughParity.
Proof.
  destruct sample_coder as [c Hc]. exists c. split; [exact Hc|].
  assert (parity_of 2 2 2 sample_data [None; None]) as Hp.
  { split; [simpl; lia|]. intros [|[|[|i]]] bs H; simpl in H; simplify_eq; done. }
  assert (complete_schedule (perGoroutineSplit NonAmd64 2 (numGoroutines' 1 1)) 2
    (calls_of background 2 (Z.of_nat (length (missing_of [Some [1; 2]; None])))) [0; 0]) as Hs by decided.
  assert (Forall bytes sample_data) as HD by decided.
  assert (Forall (λ v, Z.of_nat (length v) = 2) sample_data) as HDL by decided.
  exact (Reconstruct_correct NonAmd64 2 2 c 2 sample_data [Some [1; 2]; None] [None; None]
    background [0; 0] 1 1 Hc eq_refl ltac:(lia) eq_refl HD HDL sample_data_of Hp eq_refl
    background_sticky ltac:(lia) Hs).
Defined.

(** C33: Reconstruction from consecutive parity shards cannot fail.  For data shards
    of one even length, of which some are missing, and their parity shards, of
    which as many as are missing are there: when the parity shards that are used
    have consecutive exponents, the context is never done and the goroutines run
    to their end, [Reconstruct] ends without error and returns all the data
    shards, since the powers of distinct generators are independent in
    consecutive exponents. *)
Theorem Reconstruct_consecutive b d p c L D data parity ctx schedule dflt n k0 :
  NewCoderPAR2Vandermonde gf_tables d p = Ok c →
  L mod 2 = 0 → 0 <= L → Z.of_nat (length D) = d →
  Forall bytes D → Forall (λ v, Z.of_nat (length v) = L) D →
  data_of D data → parity_of d p L D parity →
  before ctx = None → ctx_sticky ctx → 1 <= dflt →
  complete_schedule (perGoroutineSplit b L (numGoroutines' dflt n)) L
    (calls_of ctx d (Z.of_nat (length (missing_of data)))) schedule →
  after ctx = None → missing_of data ≠ [] →
  (length (missing_of data) <= length (present (indexed parity)))%nat →
  0 <= k0 →
  (∀ i, 0 <= i < Z.of_nat (length (missing_of data)) → nth_row (used_of data parity) i = k0 + i) →
  Reconstruct gf_tables b c ctx schedule dflt data parity n = Ok (Some <$> D).
Proof.
  intros Hc HL HL0 HDl HD HDL Hdata Hparity Hb Hst Hd Hs Ha Hmiss Hge Hk0 Hcons.
  destruct (NewCoder_inv d p c Hc) as (Hd' & Hp' & M & -> & HM). clear Hc.
  destruct (Reconstruct_run gf_tables b d p M Hd' HM L HL HL0 D HDl HD HDL data parity Hdata Hparity
    Hmiss Hge ctx schedule dflt n Hb Hst Hd Hs) as [Hr|[_ Hk]].
  - rewrite Ha in Hr. exact Hr.
  - exfalso. eapply (consecutive_solvable d Hd' D); eauto.
Qed.

Lemma Reconstruct_consecutive_witness :
  ∃ c, NewCoderPAR2Vandermonde gf_tables 2 2 = Ok c ∧
  Reconstruct gf_tables NonAmd64 c background [0; 0] 1 [Some [1; 2]; None]
    [Some (sample_parity 0); None] 1 = Ok [Some [1; 2]; Some [3; 4]].
Proof.
  destruct sample_coder as [c Hc]. exists c. split; [exact Hc|].
  assert (complete_schedule (perGoroutineSplit NonAmd64 2 (numGoroutines' 1 1)) 2
    (calls_of background 2 (Z.of_nat (length (missing_of [Some [1; 2]; None])))) [0; 0]) as Hs by decided.
  assert (Forall bytes sample_data) as HD by decided.
  assert (Forall (λ v, Z.of_nat (length v) = 2) sample_data) as HDL by decided.
  apply (Reconstruct_consecutive NonAmd64 2 2 c 2 sample_data [Some [1; 2]; None]
    [Some (sample_parity 0); None] background [0; 0] 1 1 0 Hc eq_refl ltac:(lia) eq_refl HD HDL
    sample_data_of sample_parity_of eq_refl background_sticky ltac:(lia) Hs eq_refl); clear Hc.
  - discriminate.
  - apply le_n.
  - lia.
  - change (Z.of_nat (length (missing_of [Some [1; 2]; None]))) with 1.
    intros i Hi. assert (i = 0) as -> by lia. reflexivity.
Defined.

(** *** Generated parity *)

Lemma present_all (P : list (list Z)) :
  present (indexed (Some <$> P)) = zip (range 0 (Z.of_nat (length P))) P.
Proof.
  unfold indexed. rewrite length_fmap. generalize 0 at 1 2. intros lo.
  assert (∀ hi, present (zip (range lo hi) (Some <$> P)) = zip (range lo hi) P) as H; [|apply H].
  intros hi. generalize (range lo hi). clear lo hi. induction P as [|v P IH]; intros [|i l]; try done.
  rewrite fmap_cons. simpl. f_equal. apply IH.
Qed.

Lemma generated_parity_of d p L D : 0 <= p →
  parity_of d p L D (Some <$> matrix_product vandermonde p d L D).
Proof.
  intros Hp. unfold matrix_product. split; [rewrite !length_fmap, range_length; lia|].
  intros k bs Hk. rewrite !list_lookup_fmap in Hk.
  destruct (range 0 p !! k) as [x|] eqn:Hx; [|done].
  pose proof (lookup_lt_Some _ _ _ Hx) as Hlt. rewrite range_length in Hlt.
  rewrite range_lookup in Hx by lia. injection Hx as <-. by injection Hk as <-.
Qed.

(** C18: Round trip: parity made by [GenerateParity] restores any data shards that
    are lost afterwards, as long as no more are lost than there are parity
    shards, however the two calls split and schedule their work. *)
Theorem parity_round_trip b b' d p c L D P data ctx ctx' schedule schedule' dflt n n' :
  NewCoderPAR2Vandermonde gf_tables d p = Ok c →
  L mod 2 = 0 → 0 <= L → Z.of_nat (length D) = d →
  Forall bytes D → Forall (λ v, Z.of_nat (length v) = L) D →
  before ctx = None → ctx_sticky ctx → before ctx' = None → after ctx' = None → ctx_sticky ctx' →
  1 <= dflt →
  complete_schedule (perGoroutineSplit b L (numGoroutines' dflt n)) L
    (λ w, length (slice_calls (polled ctx w) D 0 p)) schedule →
  complete_schedule (perGoroutineSplit b' L (numGoroutines' dflt n')) L
    (calls_of ctx' d (Z.of_nat (length (missing_of data)))) schedule' →
  GenerateParity gf_tables b c ctx schedule dflt (Some <$> D) n = Ok P →
  data_of D data → Z.of_nat (length (missing_of data)) <= p →
  Reconstruct gf_tables b' c ctx' schedule' dflt data (Some <$> P) n' = Ok (Some <$> D).
Proof.
  intros Hc HL HL0 HDl HD HDL Hb Hst Hb' Ha' Hst' Hd Hs Hs' Hgen Hdata Hle.
  destruct (NewCoder_inv d p c Hc) as (Hd' & Hp' & M & -> & HM). clear Hc.
  rewrite (GenerateParity_ok gf_tables b d p M L D ctx schedule dflt n) in Hgen by assumption.
  destruct (after ctx); [discriminate Hgen|]. injection Hgen as <-.
  pose proof (generated_parity_of d p L D ltac:(lia)) as Hparity.
  set (P := matrix_product vandermonde p d L D) in *.
  assert (length P = Z.to_nat p) as HP by (unfold P, matrix_product; rewrite length_fmap, range_length; lia).
  destruct (decide (missing_of data = [])) as [Hm|Hm].
  { rewrite <- (nothing_missing D data Hdata Hm).
    eapply (Reconstruct_nothing_missing gf_tables b' d p M); eauto. }
  assert (length (missing_of data) <= length (present (indexed (Some <$> P))))%nat as Hge.
  { rewrite present_all, length_zip, range_length. lia. }
  destruct (Reconstruct_run gf_tables b' d p M Hd' HM L HL HL0 D HDl HD HDL data (Some <$> P) Hdata
    Hparity Hm Hge ctx' schedule' dflt n' Hb' Hst' Hd Hs') as [Hr|[_ Hk]].
  - rewrite Ha' in Hr. exact Hr.
  - exfalso. refine (consecutive_solvable d Hd' D HDl data (Some <$> P) Hdata Hge 0 _ _ Hk); [lia|].
    intros i Hi. unfold used_of. rewrite present_all.
    unfold nth_row. rewrite list_lookup_fmap, lookup_take_lt by lia.
    destruct (lookup_lt_is_Some_2 P (Z.to_nat i)) as [v Hv]; [lia|].
    assert (zip (range 0 (Z.of_nat (length P))) P !! Z.to_nat i = Some (i, v)) as ->; [|cbn; lia].
    apply lookup_zip_Some. split; [|exact Hv]. rewrite range_lookup by lia. f_equal. lia.
Qed.

Lemma parity_round_trip_witness :
  ∃ c P, NewCoderPAR2Vandermonde gf_tables 2 2 = Ok c ∧
  GenerateParity gf_tables NonAmd64 c background [0; 0; 0; 0] 1 [Some [1; 2]; Some [3; 4]] 1 = Ok P ∧
  Reconstruct gf_tables (Amd64 true true) c background [0; 0; 0; 0] 1 [None; None] (Some <$> P) 1
    = Ok [Some [1; 2]; Some [3; 4]].
Proof.
  destruct (NewCoder_ok gf_tables 2 2) as (M & Hc & HM); [lia..|].
  assert (complete_schedule (perGoroutineSplit NonAmd64 2 (numGoroutines' 1 1)) 2
    (λ w, length (slice_calls (polled background w) sample_data 0 2)) [0; 0; 0; 0]) as Hs by decided.
  assert (complete_schedule (perGoroutineSplit (Amd64 true true) 2 (numGoroutines' 1 1)) 2
    (calls_of background 2 (Z.of_nat (length (missing_of [None; None])))) [0; 0; 0; 0]) as Hs' by decided.
  assert (Forall bytes sample_data) as HD by decided.
  assert (Forall (λ v, Z.of_nat (length v) = 2) sample_data) as HDL by decided.
  assert (data_of sample_data [None; None]) as Hdata.
  { split; [reflexivity|]. intros [|[|[|i]]] bs H; discriminate H. }
  pose proof (GenerateParity_ok gf_tables NonAmd64 2 2 M 2 sample_data background [0; 0; 0; 0] 1 1 HM
    eq_refl ltac:(lia) eq_refl HD HDL eq_refl background_sticky ltac:(lia) Hs) as Hgen.
  exists (mkCoder 2 2 M), (matrix_product vandermonde 2 2 2 sample_data).
  split; [exact Hc|]. split; [exact Hgen|].
  exact (parity_round_trip NonAmd64 (Amd64 true true) 2 2 (mkCoder 2 2 M) 2 sample_data _ [None; None]
    background background [0; 0; 0; 0] [0; 0; 0; 0] 1 1 1 Hc eq_refl ltac:(lia) eq_refl HD HDL eq_refl
    background_sticky eq_refl eq_refl background_sticky ltac:(lia) Hs Hs' Hgen Hdata ltac:(decided)).
Defined.
