(* ===== verification/Md5.v ===== *)
(** * MD5 (crypto/md5 of Go's standard library)

    The program identifies packets, files, blocks and file descriptions by MD5
    (RFC 1321).  The digest is executable, so that packets and file sets can be
    evaluated; the proofs about the program use only that it is a function from
    byte strings to sixteen bytes. *)

From S2P Require Import Prelude.

Definition md5_K : list Z :=
  [3614090360; 3905402710; 606105819; 3250441966; 4118548399; 1200080426;
   2821735955; 4249261313; 1770035416; 2336552879; 4294925233; 2304563134;
   1804603682; 4254626195; 2792965006; 1236535329; 4129170786; 3225465664;
   643717713; 3921069994; 3593408605; 38016083; 3634488961; 3889429448;
   568446438; 3275163606; 4107603335; 1163531501; 2850285829; 4243563512;
   1735328473; 2368359562; 4294588738; 2272392833; 1839030562; 4259657740;
   2763975236; 1272893353; 4139469664; 3200236656; 681279174; 3936430074;
   3572445317; 76029189; 3654602809; 3873151461; 530742520; 3299628645;
   4096336452; 1126891415; 2878612391; 4237533241; 1700485571; 2399980690;
   4293915773; 2240044497; 1873313359; 4264355552; 2734768916; 1309151649;
   4149444226; 3174756917; 718787259; 3951481745].

Definition md5_shift : list Z :=
  concat (replicate 4 [7; 12; 17; 22]) ++ concat (replicate 4 [5; 9; 14; 20]) ++
  concat (replicate 4 [4; 11; 16; 23]) ++ concat (replicate 4 [6; 10; 15; 21]).

Definition rotl32 (z n : Z) : Z :=
  wrap32 (Z.lor (Z.shiftl z n) (Z.shiftr z (32 - n))).

Definition not_u32 (z : Z) : Z := Z.lxor z 4294967295.

(** The auxiliary function of step [i] and the word of the block it uses. *)
Definition md5_mix (i b c d : Z) : Z * Z :=
  if i <? 16 then (Z.lor (Z.land b c) (Z.land (not_u32 b) d), i)
  else if i <? 32 then (Z.lor (Z.land d b) (Z.land (not_u32 d) c), (5 * i + 1) mod 16)
  else if i <? 48 then (Z.lxor b (Z.lxor c d), (3 * i + 5) mod 16)
  else (Z.lxor c (Z.lor b (not_u32 d)), (7 * i) mod 16).

Definition md5_state : Type := Z * Z * Z * Z.

Definition md5_step (M : list Z) (st : md5_state) (i : Z) : md5_state :=
  let '(a, b, c, d) := st in
  let '(f, g) := md5_mix i b c d in
  let f := wrap32 (f + a + default 0 (md5_K !! Z.to_nat i) + default 0 (M !! Z.to_nat g)) in
  (d, wrap32 (b + rotl32 f (default 0 (md5_shift !! Z.to_nat i))), b, c).

(** The sixteen little-endian words of a block. *)
Fixpoint words32 (n : nat) (l : list Z) : list Z :=
  match n with
  | O => []
  | S n' => le_combine (take 4 l) :: words32 n' (drop 4 l)
  end.

Definition md5_block (st : md5_state) (block : list Z) : md5_state :=
  let '(a0, b0, c0, d0) := st in
  let '(a, b, c, d) := foldl (md5_step (words32 16 block)) st (range 0 64) in
  (wrap32 (a0 + a), wrap32 (b0 + b), wrap32 (c0 + c), wrap32 (d0 + d)).

Fixpoint md5_blocks (n : nat) (st : md5_state) (l : list Z) : md5_state :=
  match n with
  | O => st
  | S n' => md5_blocks n' (md5_block st (take 64 l)) (drop 64 l)
  end.

Definition md5_pad (data : list Z) : list Z :=
  let n := Z.of_nat (length data) in
  data ++ 128 :: replicate (Z.to_nat ((55 - n) mod 64)) 0 ++ le_split 8 (8 * n).

Definition md5_init : md5_state := (1732584193, 4023233417, 2562383102, 271733878).

(** [md5.Sum], and [Sum] of a hasher that [data] was written to. *)
Definition md5_Sum (data : list Z) : list Z :=
  let p := md5_pad data in
  let '(a, b, c, d) := md5_blocks (length p / 64) md5_init p in
  le_split 4 a ++ le_split 4 b ++ le_split 4 c ++ le_split 4 d.

Example md5_empty : le_combine (rev (md5_Sum [])) = 0xd41d8cd98f00b204e9800998ecf8427e.
Proof. vm_compute. reflexivity. Qed.

Example md5_abc : le_combine (rev (md5_Sum [97; 98; 99])) = 0x900150983cd24fb0d6963f7d28e17f72.
Proof. vm_compute. reflexivity. Qed.

Example md5_long :
  le_combine (rev (md5_Sum (concat (replicate 8 [49; 50; 51; 52; 53; 54; 55; 56; 57; 48]))))
  = 0x57edf4a22be3c955ac49da2e2107b67a.
Proof. vm_compute. reflexivity. Qed.

Lemma md5_length data : length (md5_Sum data) = 16%nat.
Proof.
  unfold md5_Sum. destruct (md5_blocks _ _ _) as [[[a b] c] d].
  by rewrite !length_app, !le_split_length.
Qed.

Lemma md5_bytes data : bytes (md5_Sum data).
Proof.
  unfold md5_Sum. destruct (md5_blocks _ _ _) as [[[a b] c] d].
  unfold bytes. rewrite !Forall_app. repeat split; apply le_split_bytes.
Qed.

#[global] Opaque md5_Sum.
