(* ===== verification/Crc32.v ===== *)
(** * The rolling CRC32 of the block scan (src/par2/checksummer.go)

    [hash/crc32] of Go's standard library, as far as the program uses it: the
    table [crc32.IEEETable] and [crc32.ChecksumIEEE].  On top of it
    [crc32Window], [newCRC32Window] and [update] as the source has them.

    The CRC register is a linear machine over GF(2): consuming a byte [b] in
    the state [t] gives [byte_map (t xor b)] for one linear map [byte_map].  All
    facts about the masks of the window follow from that. *)

From S2P Require Import Prelude.

(** ** hash/crc32 *)

(** [crc32.IEEE], the reversed polynomial. *)
Definition ieee_poly : Z := 3988292384.

(** One turn of the inner loop of [simpleMakeTable]. *)
Definition bit_step (crc : Z) : Z :=
  if Z.odd crc then Z.lxor (Z.shiftr crc 1) ieee_poly else Z.shiftr crc 1.

Definition byte_map (crc : Z) : Z := Nat.iter 8 bit_step crc.

Definition IEEETable : list Z := byte_map <$> range 0 256.

(** Complement of a [uint32]. *)
Definition ones32 : Z := 4294967295.
Definition not32 (z : Z) : Z := Z.lxor z ones32.

(** [IEEETable[byte(t)^b] ^ (t >> 8)]; the index is a byte and the table has 256
    entries, so Go does not even check it. *)
Definition crc_byte (t b : Z) : Z :=
  Z.lxor (default 0 (IEEETable !! Z.to_nat (Z.lxor (wrap8 t) b))) (Z.shiftr t 8).

Definition ChecksumIEEE (data : list Z) : Z :=
  not32 (foldl crc_byte ones32 data).

(** ** checksummer.go *)

Record crc32Window := {
  windowSize : Z;
  crcOldLeaderMaskedTable : list Z
}.

(** The inner loop over the bits of [i]: the checksums of the set bits, and
    how many of them there are. *)
Definition masked_bits (baseTable : list Z) (i : Z) : Z * Z :=
  foldl (λ '(crc, crcCount) j,
      if negb (Z.land i (Z.shiftl 1 j) =? 0)
      then (Z.lxor crc (default 0 (baseTable !! Z.to_nat j)), crcCount + 1)
      else (crc, crcCount))
    (0, 0) (range 0 8).

Definition masked_entry (crc0 crcWindowMask : Z) (baseTable : list Z) (i : Z) : Z :=
  let '(crc, crcCount) := masked_bits baseTable i in
  let crc := if Z.rem crcCount 2 =? 0 then Z.lxor crc crc0 else crc in
  Z.lxor crc crcWindowMask.

(** For the largest int the length [windowSize + 1] wraps to a negative one,
    which is as much out of range as the sum. *)
Definition newCRC32Window (windowSize : Z) : result crc32Window :=
  if windowSize <? 4 then Err "window size too small for sliding calculation"
  else
    a ← make_bytes (windowSize + 1);
    let crc0 := ChecksumIEEE a in
    let a := <[0%nat := 255]> a in
    let a := <[4%nat := 255]> a in
    let crcWindowMask := ChecksumIEEE a in
    let a := <[4%nat := 0]> a in
    let baseTable :=
      (λ i, ChecksumIEEE (<[0%nat := wrap8 (Z.shiftl 1 i)]> a)) <$> range 0 8 in
    let maskedTable :=
      Z.lxor crc0 crcWindowMask ::
      (masked_entry crc0 crcWindowMask baseTable <$> range 1 256) in
    Ok {| windowSize := windowSize; crcOldLeaderMaskedTable := maskedTable |}.

Definition update (w : crc32Window) (crc oldLeader newTrailer : Z) : Z :=
  let t := not32 crc in
  let t := crc_byte t newTrailer in
  let crcExtended := not32 t in
  Z.lxor crcExtended (default 0 (crcOldLeaderMaskedTable w !! Z.to_nat oldLeader)).

Example ChecksumIEEE_check : ChecksumIEEE [49; 50; 51; 52; 53; 54; 55; 56; 57] = 3421780262.
Proof. vm_compute. reflexivity. Qed.

(** ** Linearity of the register *)

Lemma bit_step_lxor a b : bit_step (Z.lxor a b) = Z.lxor (bit_step a) (bit_step b).
Proof.
  unfold bit_step. rewrite Z.shiftr_lxor, <- !Z.bit0_odd, Z.lxor_spec.
  destruct (Z.testbit a 0), (Z.testbit b 0); simpl;
    rewrite ?Z.lxor_assoc; f_equal; rewrite ?(Z.lxor_comm ieee_poly), ?Z.lxor_assoc,
    ?Z.lxor_nilpotent, ?Z.lxor_0_r; done.
Qed.

Lemma bit_step_u32 a : u32 a → u32 (bit_step a).
Proof.
  intros Ha. unfold bit_step. assert (u32 (Z.shiftr a 1)) as Hs.
  { rewrite Z.shiftr_div_pow2 by lia. change (2 ^ 1) with 2. dlia. }
  destruct (Z.odd a); [|done]. apply lxor_u32; [done|decided].
Qed.

Lemma iter_linear (f : Z → Z) n a b :
  (∀ a b, f (Z.lxor a b) = Z.lxor (f a) (f b)) →
  Nat.iter n f (Z.lxor a b) = Z.lxor (Nat.iter n f a) (Nat.iter n f b).
Proof. intros Hf. induction n as [|n IH]; simpl; [done|]. by rewrite IH, Hf. Qed.

Lemma iter_u32 (f : Z → Z) n a :
  (∀ a, u32 a → u32 (f a)) → u32 a → u32 (Nat.iter n f a).
Proof. intros Hf Ha. induction n; simpl; auto. Qed.

Lemma byte_map_lxor a b : byte_map (Z.lxor a b) = Z.lxor (byte_map a) (byte_map b).
Proof. apply iter_linear, bit_step_lxor. Qed.

Lemma byte_map_u32 a : u32 a → u32 (byte_map a).
Proof. apply iter_u32, bit_step_u32. Qed.

(** [byte_map] consumes the low byte and shifts the others down. *)
Lemma byte_map_high q : byte_map (Z.shiftl q 8) = q.
Proof.
  assert (∀ z, bit_step (2 * z) = z) as H.
  { intros z. unfold bit_step. rewrite Z.odd_mul. simpl.
    rewrite Z.shiftr_div_pow2, Z.mul_comm by lia. apply Z.div_mul. lia. }
  rewrite Z.shiftl_mul_pow2 by lia.
  replace (q * 2 ^ 8) with (2 * (2 * (2 * (2 * (2 * (2 * (2 * (2 * q)))))))) by lia.
  unfold byte_map. change 8%nat with (S (S (S (S (S (S (S (S O)))))))).
  cbn [Nat.iter nat_rect]. by rewrite !H.
Qed.

Lemma split_low_byte t : t = Z.lxor (Z.shiftl (Z.shiftr t 8) 8) (wrap8 t).
Proof.
  rewrite wrap8_land. change 255 with (Z.ones 8). bitwise i.
  destruct (Z.lt_ge_cases i 8) as [Hi|Hi].
  - rewrite (Z.testbit_neg_r _ (i - 8)), Z.ones_spec_low by lia.
    by destruct (Z.testbit t i).
  - rewrite Z.shiftr_spec, Z.ones_spec_high by lia.
    replace (i - 8 + 8) with i by lia. by destruct (Z.testbit t i).
Qed.

Lemma crc_byte_linear t b : u8 b → crc_byte t b = byte_map (Z.lxor t b).
Proof.
  intros Hb. unfold crc_byte, IEEETable.
  assert (u8 (Z.lxor (wrap8 t) b)) as Hi by auto with width.
  rewrite list_lookup_fmap, range_lookup by (unfold u8 in Hi; lia). simpl.
  rewrite Z.add_0_l, Z2Nat.id by apply Hi.
  replace (Z.lxor t b) with (Z.lxor (Z.lxor (Z.shiftl (Z.shiftr t 8) 8) (wrap8 t)) b)
    by (by rewrite <- split_low_byte).
  rewrite (Z.lxor_assoc (Z.shiftl _ _)), (byte_map_lxor (Z.shiftl _ _)), byte_map_high.
  apply Z.lxor_comm.
Qed.

(** The register after consuming [data] from the state [t]. *)
Lemma register_lxor data t t' :
  bytes data →
  foldl crc_byte (Z.lxor t t') data =
  Z.lxor (foldl crc_byte t data) (Nat.iter (length data) byte_map t').
Proof.
  intros Hd. revert t t'. induction Hd as [|b data Hb _ IH]; intros t t'; simpl; [done|].
  rewrite !crc_byte_linear by done.
  replace (Z.lxor (Z.lxor t t') b) with (Z.lxor (Z.lxor t b) t')
    by (rewrite !Z.lxor_assoc; f_equal; apply Z.lxor_comm).
  rewrite byte_map_lxor, IH. f_equal. clear. rewrite <- Nat.iter_succ_r. done.
Qed.

Lemma register_u32 data t : bytes data → u32 t → u32 (foldl crc_byte t data).
Proof.
  intros Hd. revert t. induction Hd as [|b data Hb _ IH]; intros t Ht; simpl; [done|].
  apply IH. rewrite crc_byte_linear by done. apply byte_map_u32, lxor_u32; [done|].
  unfold u8, u32 in *. lia.
Qed.

Lemma ones32_u32 : u32 ones32.
Proof. decided. Qed.

Lemma ChecksumIEEE_u32 data : bytes data → u32 (ChecksumIEEE data).
Proof.
  intros Hd. apply lxor_u32; [|apply ones32_u32].
  apply register_u32; [done|apply ones32_u32].
Qed.

Lemma not32_not32 z : not32 (not32 z) = z.
Proof. apply lxor_cancel_r. Qed.

(** A byte [b] followed by [n] zero bytes. *)
Lemma register_zeros t n : foldl crc_byte t (replicate n 0) = Nat.iter n byte_map t.
Proof.
  revert t. induction n as [|n IH]; intros t; [done|].
  cbn [replicate foldl]. rewrite IH, crc_byte_linear, Z.lxor_0_r by decided.
  by rewrite Nat.iter_succ_r.
Qed.

(** What [n] zero bytes make of the difference between two registers. *)
Abbreviation zeros n := (Nat.iter n byte_map).

Lemma zeros_lxor n a b : zeros n (Z.lxor a b) = Z.lxor (zeros n a) (zeros n b).
Proof. apply iter_linear, byte_map_lxor. Qed.

Lemma zeros_0 n : zeros n 0 = 0.
Proof. induction n as [|n IH]; [done|]. simpl. by rewrite IH. Qed.

Lemma zeros_add n m a : zeros (n + m) a = zeros n (zeros m a).
Proof. apply Nat.iter_add. Qed.

Lemma register_head x n t :
  u8 x → foldl crc_byte t (x :: replicate n 0) = Z.lxor (zeros (S n) t) (zeros (S n) x).
Proof.
  intros Hx. cbn [foldl]. rewrite register_zeros, crc_byte_linear by done.
  by rewrite <- Nat.iter_succ_r, zeros_lxor.
Qed.

(** ** The window *)

(** The change that the byte [x], leaving a window of [n] bytes, makes. *)
Definition leader_mask (n : nat) (x : Z) : Z :=
  Z.lxor (zeros (S n) x) (Z.lxor (zeros (S n) ones32) (zeros n ones32)).

Lemma leader_mask_correct x data :
  u8 x → bytes data →
  ChecksumIEEE data = Z.lxor (ChecksumIEEE (x :: data)) (leader_mask (length data) x).
Proof.
  intros Hx Hd. unfold ChecksumIEEE, not32, leader_mask. cbn [foldl].
  rewrite crc_byte_linear by done.
  rewrite <- (lxor_cancel_l ones32 (byte_map _)) at 1.
  rewrite register_lxor, zeros_lxor, <- Nat.iter_succ_r, zeros_lxor by done.
  set (A := foldl crc_byte ones32 data). set (B := zeros (length data) ones32).
  set (C := zeros (S (length data)) ones32). set (D := zeros (S (length data)) x).
  bitwise i. destruct (Z.testbit A i), (Z.testbit B i), (Z.testbit C i),
    (Z.testbit D i), (Z.testbit ones32 i); reflexivity.
Qed.

(** The masks of the code, for a window of [N] bytes. *)
Section Masks.
Context (N : nat) (HN : (4 <= N)%nat).

Local Definition crc0 := not32 (zeros (S N) ones32).
Local Definition window_mask :=
  not32 (Z.lxor (Z.lxor (zeros (S N) ones32) (zeros (S N) 255)) (zeros (N - 3) 255)).
Local Definition base_entry (j : Z) := Z.lxor crc0 (zeros (S N) (2 ^ j)).

Lemma checksum_zeros : ChecksumIEEE (replicate (S N) 0) = crc0.
Proof. unfold ChecksumIEEE. by rewrite register_zeros. Qed.

Lemma checksum_head v :
  u8 v → ChecksumIEEE (v :: replicate N 0) = Z.lxor crc0 (zeros (S N) v).
Proof.
  intros Hv. unfold ChecksumIEEE, crc0, not32. rewrite register_head by done.
  rewrite !Z.lxor_assoc. f_equal. apply Z.lxor_comm.
Qed.

Lemma checksum_ends :
  ChecksumIEEE (255 :: 0 :: 0 :: 0 :: 255 :: replicate (N - 4) 0) = window_mask.
Proof.
  assert (u8 255) as H255 by decided.
  change (255 :: 0 :: 0 :: 0 :: 255 :: replicate (N - 4) 0)
    with ((255 :: replicate 3 0) ++ 255 :: replicate (N - 4) 0).
  unfold ChecksumIEEE, window_mask. rewrite foldl_app, !register_head by done.
  rewrite zeros_lxor, <- !zeros_add.
  by replace (S (N - 4) + 4)%nat with (S N) by lia; replace (S (N - 4)) with (N - 3)%nat by lia.
Qed.

(** The two leading bytes of the mask stand for the initial register. *)
Lemma window_mask_spec :
  Z.lxor crc0 window_mask = Z.lxor (zeros (S N) ones32) (zeros N ones32).
Proof.
  assert (Z.lxor (zeros (S N) ones32) (zeros N ones32)
          = Z.lxor (zeros (S N) 255) (zeros (N - 3) 255)) as ->.
  { assert (Z.lxor (zeros 4 ones32) (zeros 3 ones32) = Z.lxor (zeros 4 255) (zeros 0 255))
      as H by (vm_compute; reflexivity).
    apply (f_equal (zeros (N - 3))) in H. rewrite !zeros_lxor, <- !zeros_add in H.
    replace (N - 3 + 4)%nat with (S N) in H by lia.
    by replace (N - 3 + 3)%nat with N in H by lia; rewrite Nat.add_0_r in H. }
  unfold crc0, window_mask, not32.
  set (A := zeros (S N) ones32). set (B := zeros (S N) 255). set (C := zeros (N - 3) 255).
  bitwise i. destruct (Z.testbit A i), (Z.testbit B i), (Z.testbit C i),
    (Z.testbit ones32 i); reflexivity.
Qed.

Lemma land_bit i j : 0 <= j → (Z.land i (Z.shiftl 1 j) =? 0) = negb (Z.testbit i j).
Proof.
  intros Hj. rewrite Z.shiftl_mul_pow2, Z.mul_1_l by done. apply Bool.eq_iff_eq_true.
  rewrite Z.eqb_eq, negb_true_iff. split; intros H.
  - pose proof (f_equal (λ z, Z.testbit z j) H) as Hb. simpl in Hb.
    rewrite Z.land_spec, Z.pow2_bits_true, Z.testbit_0_l, andb_true_r in Hb by done. done.
  - bitwise k. rewrite Z.pow2_bits_eqb, Z.testbit_0_l by done.
    destruct (Z.eqb_spec j k) as [<-|]; [by rewrite H|]. apply andb_false_r.
Qed.

Lemma mod_pow2_succ i k :
  0 <= k → i mod 2 ^ (k + 1)
           = if Z.testbit i k then Z.lxor (i mod 2 ^ k) (2 ^ k) else i mod 2 ^ k.
Proof.
  intros Hk. destruct (Z.testbit i k) eqn:Hb; bitwise j;
    rewrite ?Z.pow2_bits_eqb by done;
    (destruct (Z.lt_ge_cases j k) as [Hj|Hj];
     [rewrite !Z.mod_pow2_bits_low by lia
     |rewrite (Z.mod_pow2_bits_high i k) by lia]);
    destruct (Z.eqb_spec k j) as [<-|Hne]; try lia;
    rewrite ?Z.mod_pow2_bits_low, ?(Z.mod_pow2_bits_high _ (k + 1)) by lia;
    rewrite ?Hb, ?xorb_false_r, ?xorb_true_r; done.
Qed.

(** The value [masked_entry] gives the bits gathered so far. *)
Local Definition balanced (p : Z * Z) : Z :=
  if Z.rem p.2 2 =? 0 then Z.lxor p.1 crc0 else p.1.

Lemma balanced_add crc c j :
  0 <= c →
  balanced (Z.lxor crc (base_entry j), c + 1) = Z.lxor (balanced (crc, c)) (zeros (S N) (2 ^ j)).
Proof.
  intros Hc. unfold balanced, base_entry. cbn [fst snd].
  rewrite !Z.rem_mod_nonneg by lia.
  destruct (Z.eqb_spec (c mod 2) 0), (Z.eqb_spec ((c + 1) mod 2) 0); try dlia.
  - by rewrite Z.lxor_assoc.
  - rewrite Z.lxor_assoc. f_equal. rewrite Z.lxor_assoc, Z.lxor_comm, Z.lxor_assoc.
    by rewrite Z.lxor_nilpotent, Z.lxor_0_r.
Qed.

Lemma masked_bits_spec (baseTable : list Z) i (k : nat) :
  (∀ j, (j < k)%nat → baseTable !! j = Some (base_entry (Z.of_nat j))) →
  let r := foldl (λ '(crc, crcCount) j,
      if negb (Z.land i (Z.shiftl 1 j) =? 0)
      then (Z.lxor crc (default 0 (baseTable !! Z.to_nat j)), crcCount + 1)
      else (crc, crcCount)) (0, 0) (range 0 (Z.of_nat k)) in
  0 <= r.2 ∧ balanced r = Z.lxor crc0 (zeros (S N) (i mod 2 ^ Z.of_nat k)).
Proof.
  induction k as [|k IH]; intros Hbase.
  - cbv zeta. rewrite range_nil by lia. change (2 ^ Z.of_nat 0) with 1.
    rewrite Z.mod_1_r, zeros_0, Z.lxor_0_r. split; [done|]. apply Z.lxor_0_l.
  - replace (Z.of_nat (S k)) with (Z.of_nat k + 1) by lia.
    rewrite (range_app 0 (Z.of_nat k)), foldl_app, (range_cons (Z.of_nat k)),
      (range_nil (Z.of_nat k + 1)) by lia.
    cbv zeta. cbn [foldl].
    destruct IH as [Hc IH]; [intros; apply Hbase; lia|].
    destruct (foldl _ (0, 0) (range 0 (Z.of_nat k))) as [crc c]. cbn [fst snd] in *.
    rewrite land_bit, negb_involutive, mod_pow2_succ by lia.
    destruct (Z.testbit i (Z.of_nat k)); [|done].
    split; [cbn; lia|]. rewrite Nat2Z.id, (Hbase k) by lia. cbn [from_option id].
    rewrite balanced_add, IH, zeros_lxor by done. by rewrite Z.lxor_assoc.
Qed.

Lemma masked_entry_spec (baseTable : list Z) i :
  (∀ j, (j < 8)%nat → baseTable !! j = Some (base_entry (Z.of_nat j))) → u8 i →
  masked_entry crc0 window_mask baseTable i = leader_mask N i.
Proof.
  intros Hb Hi. destruct (masked_bits_spec baseTable i 8 Hb) as [_ H].
  unfold masked_entry, masked_bits. change (Z.of_nat 8) with 8 in H.
  destruct (foldl _ (0, 0) (range 0 8)) as [crc c]. unfold balanced in H. cbn [fst snd] in H.
  rewrite H, Z.mod_small by apply Hi. unfold leader_mask. rewrite <- window_mask_spec.
  rewrite (Z.lxor_comm crc0), Z.lxor_assoc. done.
Qed.
End Masks.

(** [newCRC32Window] succeeds from four bytes on, as long as the window can be
    allocated, and its table holds the masks of every leading byte. *)
Definition window_ok (w : crc32Window) : Prop :=
  4 <= windowSize w ∧ length (crcOldLeaderMaskedTable w) = 256%nat ∧
  ∀ x, u8 x →
    crcOldLeaderMaskedTable w !! Z.to_nat x = Some (leader_mask (Z.to_nat (windowSize w)) x).

Lemma newCRC32Window_ok n :
  4 <= n < maxAlloc → ∃ w, newCRC32Window n = Ok w ∧ windowSize w = n ∧ window_ok w.
Proof.
  intros [Hn Hmax]. unfold newCRC32Window. rewrite (proj2 (Z.ltb_ge n 4)) by done.
  rewrite make_bytes_ok by lia. cbn [mbind result_bind].
  replace (Z.to_nat (n + 1)) with (S (Z.to_nat n)) by lia.
  assert (4 <= Z.to_nat n)%nat as HN by lia. set (N := Z.to_nat n) in *.
  assert (replicate (S N) 0 = 0 :: 0 :: 0 :: 0 :: 0 :: replicate (N - 4) 0) as Ha.
  { by replace (S N) with (5 + (N - 4))%nat by lia. }
  assert (∀ v, v :: 0 :: 0 :: 0 :: 0 :: replicate (N - 4) 0 = v :: replicate N 0) as Hv.
  { intros v. f_equal. by injection Ha. }
  eexists. split; [reflexivity|]. cbn [windowSize]. split; [done|].
  split; [done|]. fold N. cbn [crcOldLeaderMaskedTable].
  rewrite checksum_zeros. rewrite Ha. cbn [list_insert insert].
  rewrite checksum_ends by done.
  split; [reflexivity|]. intros x Hx.
  destruct (Z.eq_dec x 0) as [->|Hx0].
  { cbn [Z.to_nat lookup list_lookup]. f_equal. rewrite window_mask_spec by done.
    unfold leader_mask. by rewrite zeros_0, Z.lxor_0_l. }
  replace (Z.to_nat x) with (S (Z.to_nat (x - 1))) by (unfold u8 in Hx; lia).
  cbn [lookup list_lookup].
  etransitivity; [apply (list_lookup_fmap _ (range 1 256))|].
  rewrite range_lookup by (unfold u8 in Hx; lia).
  replace (1 + Z.of_nat (Z.to_nat (x - 1))) with x by (unfold u8 in Hx; lia).
  cbn [option_map fmap option_fmap option_map]. f_equal. apply masked_entry_spec; [done| |done].
  intros j Hj. rewrite list_lookup_fmap, range_lookup by lia. cbn.
  f_equal. rewrite Hv.
  assert (u8 (wrap8 (Z.shiftl 1 (Z.of_nat j)))) by auto with width.
  rewrite checksum_head by done. unfold base_entry. f_equal. f_equal.
  rewrite Z.shiftl_mul_pow2, Z.mul_1_l by lia. apply wrap8_id.
  do 8 (destruct j as [|j]; [decided|]). lia.
Qed.

Lemma newCRC32Window_panics n : maxAlloc <= n → newCRC32Window n = Panic makeslice.
Proof.
  intros Hn. unfold newCRC32Window. rewrite (proj2 (Z.ltb_ge n 4)) by (unfold maxAlloc in *; lia).
  by rewrite make_bytes_panics by lia.
Qed.

Lemma newCRC32Window_inv n w : newCRC32Window n = Ok w → 4 <= n < maxAlloc ∧ windowSize w = n ∧ window_ok w.
Proof.
  intros Hw. assert (4 <= n < maxAlloc) as Hn.
  { split; [unfold newCRC32Window in Hw; by destruct (Z.ltb_spec n 4)|].
    destruct (Z.le_gt_cases maxAlloc n); [|lia]. by rewrite newCRC32Window_panics in Hw. }
  destruct (newCRC32Window_ok n Hn) as (w' & Hw' & H). assert (w' = w) as -> by congruence. done.
Qed.

(** Rolling the window by one byte gives the checksum of the next window. *)
Lemma update_ok w x data y :
  window_ok w → Z.of_nat (length (x :: data)) = windowSize w → bytes (x :: data) → u8 y →
  update w (ChecksumIEEE (x :: data)) x y = ChecksumIEEE (data ++ [y]).
Proof.
  intros (_ & _ & Hm) Hlen [Hx Hd]%Forall_cons Hy. unfold update.
  assert (not32 (crc_byte (not32 (ChecksumIEEE (x :: data))) y)
          = ChecksumIEEE (x :: data ++ [y])) as ->.
  { unfold ChecksumIEEE at 1. rewrite not32_not32. unfold ChecksumIEEE.
    by rewrite (app_comm_cons data [y] x), foldl_app. }
  rewrite Hm by done. cbn [from_option id]. symmetry.
  rewrite (leader_mask_correct x (data ++ [y])); [|done|].
  - f_equal. f_equal. rewrite length_app. simpl in *. lia.
  - apply Forall_app. split; [done|]. by constructor.
Qed.
