(* ===== verification/Packet.v ===== *)
(** * PAR2 packets (src/par2/packet.go)

    Headers, packet bodies and the sanitising of file names.  A Go byte slice,
    array or string is a list of bytes; [string]s of the source are byte strings
    too, and [ascii "..."] writes a literal.  [path.Clean] of the standard
    library is modelled by its documented rules on the elements of the path. *)

From stdpp Require Import sorting.
From S2P Require Import Prelude Md5.

(** ** Byte strings *)

Definition ascii (s : string) : list Z :=
  (λ a, Z.of_nat (Ascii.nat_of_ascii a)) <$> String.list_ascii_of_string s.

(** [strings.HasPrefix] and [strings.HasSuffix]. *)
Definition HasPrefix (s p : list Z) : bool := bool_decide (take (length p) s = p).
Definition HasSuffix (s p : list Z) : bool :=
  bool_decide ((length p <= length s)%nat) && bool_decide (drop (length s - length p) s = p).

Definition slash : Z := 47.
Definition backslash : Z := 92.
Definition dot : list Z := ascii ".".
Definition dotdot : list Z := ascii "..".

(** The elements of a path: the strings between its slashes. *)
Fixpoint path_elements (p : list Z) : list (list Z) :=
  match p with
  | [] => [[]]
  | c :: p' =>
      if c =? slash then [] :: path_elements p'
      else match path_elements p' with
           | e :: es => (c :: e) :: es
           | [] => [[c]]
           end
  end.

(** The path whose elements are [es]. *)
Fixpoint join (es : list (list Z)) : list Z :=
  match es with
  | [] => []
  | [e] => e
  | e :: es => e ++ slash :: join es
  end.

(** [path.Clean]: empty elements and [.] disappear, [..] removes the element
    before it, and a leading [..] disappears from a rooted path only.  The stack
    holds the elements kept so far, last one first. *)
Definition clean_step (rooted : bool) (stack : list (list Z)) (e : list Z) : list (list Z) :=
  if bool_decide (e = []) || bool_decide (e = dot) then stack
  else if bool_decide (e = dotdot) then
    match stack with
    | [] => if rooted then [] else [dotdot]
    | top :: rest => if bool_decide (top = dotdot) then dotdot :: stack else rest
    end
  else e :: stack.

Definition IsAbs (p : list Z) : bool := HasPrefix p [slash].

Definition Clean (p : list Z) : list Z :=
  let rooted := IsAbs p in
  let out := (if rooted then [slash] else []) ++
             join (rev (foldl (clean_step rooted) [] (path_elements p))) in
  if bool_decide (out = []) then dot else out.

(** ** Headers *)

Definition expectedMagic : list Z := ascii "PAR2" ++ 0 :: ascii "PKT".

(** [PacketType] and [FileID] are arrays of 16 bytes, here other names of the
    type of byte lists; that an identifier has 16 bytes is [is_id] of
    PacketFacts.v. *)
Abbreviation PacketType := (list Z).
Abbreviation FileID := (list Z).

Definition pad16 (l : list Z) : list Z := l ++ replicate (16 - length l) 0.
Definition type_prefix : list Z := ascii "PAR 2.0" ++ [0].
Definition MainPacketType : PacketType := pad16 (type_prefix ++ ascii "Main").
Definition FileDescPacketType : PacketType := pad16 (type_prefix ++ ascii "FileDesc").
Definition IFSCPacketType : PacketType := pad16 (type_prefix ++ ascii "IFSC").
Definition RecoveryPacketType : PacketType := pad16 (type_prefix ++ ascii "RecvSlic").

Record Header := {
  Magic : list Z;
  Length : Z;
  Hash : list Z;
  RecoverySetID : list Z;
  Type_ : PacketType
}.

(** [io.EOF] and [io.ErrUnexpectedEOF]. *)
Definition EOF : string := "EOF".
Definition ErrUnexpectedEOF : string := "unexpected EOF".

(** [io.ReadFull] of [n] bytes from a reader with the bytes [r] left. *)
Definition ReadFull (n : Z) (r : list Z) : result (list Z * list Z) :=
  if n <=? 0 then Ok ([], r)
  else if bool_decide (r = []) then Err EOF
  else if Z.of_nat (length r) <? n then Err ErrUnexpectedEOF
  else Ok (take (Z.to_nat n) r, drop (Z.to_nat n) r).

Definition ReadHeader (r : list Z) : result (Header * list Z) :=
  '(b, r) ← ReadFull 64 r;
  let h := {| Magic := take 8 b;
              Length := le_combine (take 8 (drop 8 b));
              Hash := take 16 (drop 16 b);
              RecoverySetID := take 16 (drop 32 b);
              Type_ := take 16 (drop 48 b) |} in
  if negb (bool_decide (Magic h = expectedMagic))
  then Err "malformed PAR2 packet header: invalid magic"
  else if (Length h <? 64) || negb (Length h mod 4 =? 0)
  then Err "invalid PAR2 packet length"
  else Ok (h, r).

Definition ComputePacketHash (setID : list Z) (pType : PacketType) (body : list Z) : list Z :=
  md5_Sum (setID ++ pType ++ body).

(** ** File identifiers and names *)

(** The loop of [FileIDLess] over the last [n] bytes still to compare. *)
Fixpoint FileIDLess_loop (n : nat) (id1 id2 : FileID) : bool :=
  match n with
  | O => false
  | S i =>
      let a := default 0 (id1 !! i) in
      let b := default 0 (id2 !! i) in
      if a <? b then true else if a >? b then false else FileIDLess_loop i id1 id2
  end.

Definition FileIDLess (id1 id2 : FileID) : bool := FileIDLess_loop 16 id1 id2.

Fixpoint NullTerminate (bs : list Z) : list Z :=
  match bs with
  | [] => []
  | b :: bs' => if b =? 0 then [] else b :: NullTerminate bs'
  end.

(** [utf8.EncodeRune] of [unicode.ReplacementChar]. *)
Definition replacement : list Z := [239; 191; 189].

Definition DecodeNullPaddedASCIIString (bs : list Z) : list Z :=
  mjoin ((λ b, if b <=? 127 then [b] else replacement) <$> NullTerminate bs).

(** [filepath.FromSlash] is the identity where the separator is a slash. *)
Definition DefangPath (filename : list Z) : result (list Z) :=
  let normalized := (λ c, if c =? backslash then slash else c) <$> filename in
  let cleaned := Clean normalized in
  if IsAbs cleaned then Err "absolute path traversal attempt detected"
  else if (1 <? Z.of_nat (length cleaned)) && bool_decide (cleaned !! 1%nat = Some 58)
  then Err "windows drive absolute path traversal attempt detected"
  else if HasPrefix cleaned dotdot
  then Err "relative directory traversal attempt detected"
  else Ok cleaned.

Definition computeFileID (sixteenKHash : list Z) (byteCount : Z) (filenameBytes : list Z) : FileID :=
  md5_Sum (sixteenKHash ++ le_split 8 byteCount ++ filenameBytes).

(** [slices.IsSortedFunc] with the comparison of [validateFileIDSorted]: no
    element is below the one before it. *)
Fixpoint IsSorted (ids : list FileID) : bool :=
  match ids with
  | a :: (b :: _) as ids' => negb (FileIDLess b a) && IsSorted ids'
  | _ => true
  end.

Definition validateFileIDSorted (fileIDs : list FileID) : result unit :=
  err_if (negb (IsSorted fileIDs)) "recovery set file IDs are not sorted alphabetically".

(** ** Packet bodies *)

Record mainPacket := {
  SliceByteCount : Z;
  RecoverySet : list FileID;
  NonRecoverySet : list FileID
}.

Record FileDescPacket := {
  fd_FileID : FileID;
  fd_Hash : list Z;
  SixteenKHash : list Z;
  ByteCount : Z;
  Filename : list Z
}.

Record ChecksumPair := {
  MD5 : list Z;
  CRC32 : list Z
}.

Record IFSCPacket := {
  ifsc_FileID : FileID;
  ChecksumPairs : list ChecksumPair
}.

Record recoveryPacket := {
  Exponent : Z;
  Data : list Z
}.

(** [n] consecutive arrays of [w] bytes, as [binary.Read] fills a slice. *)
Fixpoint chunks (w n : nat) (l : list Z) : list (list Z) :=
  match n with
  | O => []
  | S n' => take w l :: chunks w n' (drop w l)
  end.

Definition len {A} (l : list A) : Z := Z.of_nat (length l).

Definition ParseMainPacket (body : list Z) : result mainPacket :=
  if len body <? 12 then Err "main packet too short" else
  sliceSize ← le_combine <$> slice_at body 0 8;
  setCount ← le_combine <$> slice_at body 8 12;
  if (sliceSize =? 0) || negb (sliceSize mod 4 =? 0) || (sliceSize >? maxInt)
  then Err "invalid slice size in main packet" else
  buf ← slice_at body 12 (len body);
  if negb (len buf mod 16 =? 0) then Err "invalid file ID list length" else
  let fileIDs := chunks 16 (Z.to_nat (len buf / 16)) buf in
  if wrap32 (len fileIDs) <? setCount
  then Err "insufficient file IDs for recovery set count" else
  recoverySet ← slice_at fileIDs 0 setCount;
  nonRecoverySet ← slice_at fileIDs setCount (len fileIDs);
  validateFileIDSorted recoverySet;;
  Ok {| SliceByteCount := sliceSize;
        RecoverySet := recoverySet;
        NonRecoverySet := nonRecoverySet |}.

(** [None] is the nil packet of a file without bytes. *)
Definition ParseFileDescPacket (body : list Z) : result (option FileDescPacket) :=
  if len body <? 56 then Err "file description packet too short" else
  fID ← slice_at body 0 16;
  hash ← slice_at body 16 32;
  hash16k ← slice_at body 32 48;
  byteCount ← le_combine <$> slice_at body 48 56;
  filenameBytes ← slice_at body 56 (len body);
  let computed := computeFileID hash16k byteCount (NullTerminate filenameBytes) in
  if negb (bool_decide (computed = fID)) then Err "file description ID mismatch" else
  if byteCount =? 0 then Ok None else
  let filename := DecodeNullPaddedASCIIString filenameBytes in
  defanged ← DefangPath filename;
  if byteCount >? maxInt then Err "file byte count exceeds memory boundaries" else
  Ok (Some {| fd_FileID := fID; fd_Hash := hash; SixteenKHash := hash16k;
              ByteCount := byteCount; Filename := defanged |}).

Definition checksum_pair (b : list Z) : ChecksumPair :=
  {| MD5 := take 16 b; CRC32 := drop 16 b |}.

Definition ParseIFSCPacket (body : list Z) : result IFSCPacket :=
  if len body <? 16 then Err "IFSC packet too short" else
  fID ← slice_at body 0 16;
  buf ← slice_at body 16 (len body);
  let pairSize := 20 in
  if (len buf =? 0) || negb (len buf mod pairSize =? 0)
  then Err "invalid checksum pair array length" else
  let pairs := checksum_pair <$> chunks 20 (Z.to_nat (len buf / pairSize)) buf in
  Ok {| ifsc_FileID := fID; ChecksumPairs := pairs |}.

Definition ParseRecoveryPacket (body : list Z) : result recoveryPacket :=
  if (len body <? 4) || negb (len body mod 4 =? 0)
  then Err "invalid recovery packet body alignment" else
  exp ← le_combine <$> slice_at body 0 4;
  if exp >? 32767 then Err "recovery exponent exceeds safe engine limit (32767)" else
  dataCopy ← slice_at body 4 (len body);
  Ok {| Exponent := wrap16 exp; Data := dataCopy |}.
