(* ===== verification/PacketFacts.v ===== *)
(** * Facts about packets

    The order of file identifiers is the order of the integers they encode;
    the parsers are inverse to an encoder; a sanitised name stays inside the
    directory it is resolved in. *)

From stdpp Require Import sorting.
From S2P Require Import Prelude Md5 Packet.

(** ** The order of file identifiers *)

Lemma le_combine_app l1 l2 :
  le_combine (l1 ++ l2) = le_combine l1 + 256 ^ Z.of_nat (length l1) * le_combine l2.
Proof.
  induction l1 as [|b l1 IH]; simpl length; [simpl; lia|].
  rewrite Nat2Z.inj_succ, Z.pow_succ_r by lia. simpl. rewrite IH. lia.
Qed.

Lemma le_combine_take_S l i b :
  l !! i = Some b →
  le_combine (take (S i) l) = le_combine (take i l) + 256 ^ Z.of_nat i * b.
Proof.
  intros Hb. rewrite (take_S_r l i b) by done.
  rewrite le_combine_app, length_take_le by (apply lookup_lt_Some in Hb; lia).
  simpl. lia.
Qed.

Lemma le_combine_inj l1 l2 :
  bytes l1 → bytes l2 → length l1 = length l2 → le_combine l1 = le_combine l2 → l1 = l2.
Proof.
  intros H1 H2 Hl He. rewrite <- (le_split_combine l1), <- (le_split_combine l2) by done.
  by rewrite Hl, He.
Qed.

Lemma FileIDLess_loop_spec n id1 id2 :
  bytes id1 → bytes id2 → (n <= length id1)%nat → (n <= length id2)%nat →
  FileIDLess_loop n id1 id2 = (le_combine (take n id1) <? le_combine (take n id2)).
Proof.
  intros B1 B2. induction n as [|i IH]; intros L1 L2; [done|].
  destruct (lookup_lt_is_Some_2 id1 i) as [a Ha]; [lia|].
  destruct (lookup_lt_is_Some_2 id2 i) as [b Hb]; [lia|].
  cbn [FileIDLess_loop]. rewrite Ha, Hb. cbn [from_option id].
  rewrite !(le_combine_take_S _ i _) by eassumption. rewrite IH by lia.
  pose proof (le_combine_bound (take i id1) (Forall_take' _ _ _ B1)) as W1.
  pose proof (le_combine_bound (take i id2) (Forall_take' _ _ _ B2)) as W2.
  rewrite !length_take_le in W1, W2 by lia.
  set (p := 256 ^ Z.of_nat i) in *. set (x := le_combine (take i id1)) in *.
  set (y := le_combine (take i id2)) in *. rewrite Z.gtb_ltb.
  destruct (Z.ltb_spec a b) as [Hab|Hab].
  - symmetry. apply Z.ltb_lt. nia.
  - destruct (Z.ltb_spec b a) as [Hba|Hba].
    + symmetry. apply Z.ltb_ge. nia.
    + replace a with b by lia. apply Bool.eq_iff_eq_true. rewrite !Z.ltb_lt. lia.
Qed.

(** A file identifier: sixteen bytes. *)
Definition is_id (id : list Z) : Prop := bytes id ∧ length id = 16%nat.

#[export] Instance is_id_dec id : Decision (is_id id).
Proof. unfold is_id; apply _. Defined.

Lemma FileIDLess_spec id1 id2 :
  is_id id1 → is_id id2 → FileIDLess id1 id2 = (le_combine id1 <? le_combine id2).
Proof.
  intros [B1 L1] [B2 L2]. unfold FileIDLess.
  rewrite FileIDLess_loop_spec by (done || lia). by rewrite !take_ge by lia.
Qed.

Lemma FileIDLess_total id1 id2 :
  is_id id1 → is_id id2 → FileIDLess id1 id2 = false → FileIDLess id2 id1 = false → id1 = id2.
Proof.
  intros H1 H2. rewrite !FileIDLess_spec, !Z.ltb_ge by done. intros. destruct H1, H2.
  apply le_combine_inj; [done..|congruence|lia].
Qed.

Lemma IsSorted_spec ids :
  Forall is_id ids →
  IsSorted ids = true ↔ Sorted (λ a b, le_combine a <= le_combine b) ids.
Proof.
  induction ids as [|a [|b ids] IH]; intros Hids.
  - split; [constructor|done].
  - split; [repeat constructor|done].
  - apply Forall_cons in Hids as [Ha Hids]. pose proof Hids as Hb.
    apply Forall_cons in Hb as [Hb _]. cbn [IsSorted].
    rewrite andb_true_iff, negb_true_iff, FileIDLess_spec, Z.ltb_ge by done.
    rewrite IH by done. split.
    + intros [Hab Hs]. constructor; [done|]. by constructor.
    + intros Hs. inversion Hs as [|x l Hs' Hh]; subst. inversion Hh; subst. done.
Qed.

(** ** Arrays of records *)

Lemma chunks_concat w n (l : list Z) :
  length l = (w * n)%nat → mjoin (chunks w n l) = l.
Proof.
  revert l. induction n as [|n IH]; intros l Hl; cbn.
  - symmetry. apply nil_length_inv. lia.
  - rewrite IH, take_drop; [done|]. rewrite length_drop. lia.
Qed.

Lemma chunks_length w n l : length (chunks w n l) = n.
Proof. revert l. induction n; intros l; simpl; auto. Qed.

Lemma chunks_Forall w n l :
  bytes l → length l = (w * n)%nat → Forall (λ c, bytes c ∧ length c = w) (chunks w n l).
Proof.
  revert l. induction n as [|n IH]; intros l Hb Hl; simpl; constructor.
  - split; [by apply Forall_take|]. rewrite length_take. lia.
  - apply IH; [by apply Forall_drop|]. rewrite length_drop. lia.
Qed.

Lemma chunks_join w (cs : list (list Z)) :
  Forall (λ c, length c = w) cs → chunks w (length cs) (mjoin cs) = cs.
Proof.
  induction 1 as [|c cs Hc _ IH]; simpl; [done|].
  by rewrite take_app_length', drop_app_length', IH.
Qed.

Lemma join_length w (cs : list (list Z)) :
  Forall (λ c, length c = w) cs → length (mjoin cs) = (w * length cs)%nat.
Proof.
  induction 1 as [|c cs Hc _ IH]; simpl; [lia|]. rewrite length_app, IH, Hc. lia.
Qed.

Lemma slice_at_app {A} (a b c : list A) lo hi :
  lo = Z.of_nat (length a) → hi = lo + Z.of_nat (length b) →
  slice_at (a ++ b ++ c) lo hi = Ok b.
Proof.
  intros -> ->. rewrite slice_at_ok by (rewrite ?length_app; lia). f_equal.
  rewrite Nat2Z.id, drop_app_length. apply take_app_length'. lia.
Qed.

Lemma slice_at_prefix {A} (b c : list A) hi :
  hi = Z.of_nat (length b) → slice_at (b ++ c) 0 hi = Ok b.
Proof. intros ->. by apply (slice_at_app [] b c). Qed.

Lemma slice_at_suffix {A} (a b : list A) lo hi :
  lo = Z.of_nat (length a) → hi = lo + Z.of_nat (length b) → slice_at (a ++ b) lo hi = Ok b.
Proof. intros Hlo Hhi. rewrite <- (app_nil_r b) at 1. by apply slice_at_app. Qed.

Lemma slice_at_inv {A} (l : list A) lo hi s :
  slice_at l lo hi = Ok s →
  0 <= lo <= hi ∧ hi <= len l ∧ s = take (Z.to_nat (hi - lo)) (drop (Z.to_nat lo) l).
Proof.
  unfold slice_at, len. destruct (Z.leb_spec 0 lo), (Z.leb_spec lo hi),
    (Z.leb_spec hi (Z.of_nat (length l))); cbn [andb]; try done.
  intros [= <-]. split; [lia|]. split; [lia|done].
Qed.

(** A byte string cut at [n]. *)
Lemma cut_at {A} (l : list A) (n : Z) :
  0 <= n <= len l → ∃ a b, l = a ++ b ∧ len a = n ∧ len b = len l - n.
Proof.
  unfold len. intros Hn. exists (take (Z.to_nat n) l), (drop (Z.to_nat n) l).
  rewrite take_drop, length_take, length_drop. split; [done|lia].
Qed.

(** ** Main packets *)

Definition encode_main (p : mainPacket) : list Z :=
  le_split 8 (SliceByteCount p) ++ le_split 4 (len (RecoverySet p)) ++
  mjoin (RecoverySet p ++ NonRecoverySet p).

Definition main_valid (p : mainPacket) : Prop :=
  0 < SliceByteCount p <= maxInt ∧ SliceByteCount p mod 4 = 0 ∧
  Forall is_id (RecoverySet p) ∧ Forall is_id (NonRecoverySet p) ∧
  Sorted (λ a b, le_combine a <= le_combine b) (RecoverySet p).

Lemma is_id_length ids : Forall is_id ids → Forall (λ c, length c = 16%nat) ids.
Proof. intros H. eapply Forall_impl; [exact H|by intros ? []]. Qed.

Lemma ParseMainPacket_cut s8 c4 (ids : list FileID) :
  length s8 = 8%nat → length c4 = 4%nat → Forall is_id ids → len ids < 4294967296 →
  ParseMainPacket (s8 ++ c4 ++ mjoin ids) =
  let s := le_combine s8 in
  let c := le_combine c4 in
  if (s =? 0) || negb (s mod 4 =? 0) || (s >? maxInt)
  then Err "invalid slice size in main packet"
  else if len ids <? c then Err "insufficient file IDs for recovery set count"
  else r ← slice_at ids 0 c; n ← slice_at ids c (len ids);
       validateFileIDSorted r;;
       Ok {| SliceByteCount := s; RecoverySet := r; NonRecoverySet := n |}.
Proof.
  intros H8 H4 Hids Hlen. pose proof (join_length 16 ids (is_id_length _ Hids)) as Hj.
  unfold ParseMainPacket. unfold len at 1.
  rewrite !length_app, H8, H4, (proj2 (Z.ltb_ge _ 12)) by lia.
  rewrite (slice_at_prefix s8 (c4 ++ mjoin ids) 8) by lia.
  rewrite (slice_at_app s8 c4 (mjoin ids) 8 12) by lia.
  cbn [fmap result_fmap mbind result_bind]. cbv zeta.
  destruct (_ || _ : bool); [done|].
  rewrite (app_assoc s8), slice_at_suffix by (unfold len; rewrite ?length_app; lia).
  cbn [mbind result_bind].
  assert (len (mjoin ids) = 16 * len ids) as -> by (unfold len; lia).
  rewrite (Z.mul_comm 16), Z.mod_mul, Z.div_mul by lia. cbn [negb Z.eqb].
  replace (Z.to_nat (len ids)) with (length ids) by (unfold len; lia).
  rewrite chunks_join by (by apply is_id_length).
  rewrite wrap32_id by (unfold len in *; zlia). done.
Qed.

Lemma ParseMainPacket_iff body p :
  bytes body → len body < 68719476736 →
  ParseMainPacket body = Ok p ↔ main_valid p ∧ body = encode_main p.
Proof.
  intros Hb Hlen. split.
  - intros Hp. assert (∃ s8 c4 ids, body = s8 ++ c4 ++ mjoin ids ∧ length s8 = 8%nat ∧
      length c4 = 4%nat ∧ Forall is_id ids ∧ len ids < 4294967296)
      as (s8 & c4 & ids & -> & H8 & H4 & Hids & Hl).
    { revert Hp. unfold ParseMainPacket. destruct (Z.ltb_spec (len body) 12) as [|H12]; [done|].
      destruct (cut_at body 8) as (s8 & r & -> & H8 & Hr); [lia|].
      destruct (cut_at r 4) as (c4 & buf & -> & H4 & Hbuf); [lia|].
      unfold len in H8, H4.
      rewrite (slice_at_prefix s8 (c4 ++ buf) 8), (slice_at_app s8 c4 buf 8 12) by lia.
      cbn [fmap result_fmap mbind result_bind].
      destruct (_ || _ : bool); [done|].
      rewrite (app_assoc s8), slice_at_suffix by (unfold len; rewrite ?length_app; lia).
      rewrite <- app_assoc. cbn [mbind result_bind].
      destruct (Z.eqb_spec (len buf mod 16) 0) as [H16|]; [intros _|done].
      exists s8, c4, (chunks 16 (Z.to_nat (len buf / 16)) buf).
      assert (length buf = (16 * Z.to_nat (len buf / 16))%nat) as Hn.
      { unfold len in *. dlia. }
      rewrite chunks_concat by done. split; [done|]. split; [lia|]. split; [lia|].
      apply Forall_app in Hb as [_ [_ Hb]%Forall_app]. split.
      + by apply chunks_Forall.
      + unfold len at 1. rewrite chunks_length. unfold len in *. dlia. }
    clear Hlen. rewrite ParseMainPacket_cut in Hp by done. cbv zeta in Hp.
    apply Forall_app in Hb as [Hb8 [Hb4 _]%Forall_app].
    set (s := le_combine s8) in *. set (c := le_combine c4) in *.
    destruct (Z.eqb_spec s 0), (Z.eqb_spec (s mod 4) 0), (Z.gtb_spec s maxInt);
      cbn [orb negb] in Hp; try done.
    destruct (Z.ltb_spec (len ids) c) as [|Hc]; [done|].
    pose proof (le_combine_bound s8 Hb8) as Hs0. pose proof (le_combine_bound c4 Hb4) as Hc0.
    fold s in Hs0. fold c in Hc0.
    rewrite !slice_at_ok in Hp by (unfold len in *; lia). cbn [mbind result_bind] in Hp.
    unfold validateFileIDSorted, err_if in Hp. rewrite Z.sub_0_r, drop_0 in Hp.
    destruct (IsSorted _) eqn:Hsort; cbn [negb mbind result_bind] in Hp; [|done].
    injection Hp as <-. unfold main_valid, encode_main.
    cbn [SliceByteCount RecoverySet NonRecoverySet].
    rewrite (take_ge (drop _ ids)) by (rewrite length_drop; unfold len in *; lia).
    split; [split; [lia|split; [done|split; [by apply Forall_take|split]]]|].
    + by apply Forall_drop.
    + apply IsSorted_spec; [by apply Forall_take|done].
    + rewrite take_drop. unfold len at 1. rewrite length_take_le by (unfold len in *; lia).
      rewrite Z2Nat.id by lia. unfold s, c.
      by rewrite <- H8, <- H4, !le_split_combine by done.
  - destruct p as [s rs ns]. unfold main_valid, encode_main.
    cbn [SliceByteCount RecoverySet NonRecoverySet].
    intros [(Hs & Hs4 & Hr & Hn & Hsort) ->].
    assert (Forall is_id (rs ++ ns)) as Hids by (by apply Forall_app).
    assert (len (rs ++ ns) < 4294967296) as Hl.
    { pose proof (join_length 16 _ (is_id_length _ Hids)) as Hj.
      unfold len in *. rewrite !length_app, !le_split_length, Hj, length_app in Hlen.
      rewrite length_app. lia. }
    rewrite ParseMainPacket_cut by (by rewrite ?le_split_length).
    rewrite !le_combine_split, !Z.mod_small
      by (unfold maxInt, len in *; rewrite ?length_app in *; lia). cbv zeta.
    rewrite (proj2 (Z.eqb_neq s 0)), (proj2 (Z.eqb_eq (s mod 4) 0)) by lia.
    rewrite Z.gtb_ltb, (proj2 (Z.ltb_ge maxInt s)) by lia. cbn [orb negb].
    rewrite (proj2 (Z.ltb_ge _ _)) by (unfold len; rewrite length_app; lia).
    rewrite slice_at_prefix, slice_at_suffix by (unfold len; rewrite ?length_app; lia).
    cbn [mbind result_bind].
    unfold validateFileIDSorted, err_if.
    by rewrite (proj2 (IsSorted_spec rs Hr)).
Qed.

(** ** IFSC packets *)

Definition encode_pair (c : ChecksumPair) : list Z := MD5 c ++ CRC32 c.

Definition encode_ifsc (p : IFSCPacket) : list Z :=
  ifsc_FileID p ++ mjoin (encode_pair <$> ChecksumPairs p).

Definition pair_valid (c : ChecksumPair) : Prop :=
  bytes (MD5 c) ∧ length (MD5 c) = 16%nat ∧ bytes (CRC32 c) ∧ length (CRC32 c) = 4%nat.

Definition ifsc_valid (p : IFSCPacket) : Prop :=
  is_id (ifsc_FileID p) ∧ ChecksumPairs p ≠ [] ∧ Forall pair_valid (ChecksumPairs p).

Lemma encode_checksum_pair b : encode_pair (checksum_pair b) = b.
Proof. apply take_drop. Qed.

Lemma checksum_pair_encode c : pair_valid c → checksum_pair (encode_pair c) = c.
Proof.
  intros (_ & Hm & _ & Hc). destruct c as [m c]. unfold checksum_pair, encode_pair.
  cbn [MD5 CRC32] in *. by rewrite take_app_length', drop_app_length'.
Qed.

Lemma encode_pair_length c : pair_valid c → length (encode_pair c) = 20%nat.
Proof. intros (_ & Hm & _ & Hc). unfold encode_pair. rewrite length_app. lia. Qed.

Lemma encode_pairs cs :
  Forall pair_valid cs → Forall (λ c, length c = 20%nat) (encode_pair <$> cs).
Proof.
  intros H. apply Forall_fmap. eapply Forall_impl; [exact H|]. apply encode_pair_length.
Qed.

Lemma ParseIFSCPacket_iff body p :
  bytes body → ParseIFSCPacket body = Ok p ↔ ifsc_valid p ∧ body = encode_ifsc p.
Proof.
  intros Hb. split.
  - unfold ParseIFSCPacket. destruct (Z.ltb_spec (len body) 16) as [|H16]; [done|].
    destruct (cut_at body 16) as (id & buf & -> & Hid & Hbuf); [lia|]. unfold len in Hid.
    rewrite (slice_at_prefix id buf 16), (slice_at_suffix id buf 16)
      by (unfold len in *; rewrite ?length_app; lia).
    cbn [mbind result_bind]. cbv zeta. clear Hbuf.
    destruct (Z.eqb_spec (len buf) 0), (Z.eqb_spec (len buf mod 20) 0); cbn [orb negb];
      [done..| |done]. intros [= <-].
    assert (length buf = (20 * Z.to_nat (len buf / 20))%nat) as Hn by (unfold len in *; dlia).
    apply Forall_app in Hb as [Hbi Hbb]. unfold ifsc_valid, encode_ifsc.
    cbn [ifsc_FileID ChecksumPairs]. split; [split; [by split; [|lia]|split]|].
    + intros Hnil%fmap_nil_inv. apply (f_equal length) in Hnil.
      rewrite chunks_length in Hnil. simpl in Hnil. unfold len in *. lia.
    + apply Forall_fmap. eapply Forall_impl; [by apply chunks_Forall|].
      intros c [Hc Hl]. split; [by apply Forall_take|]. cbn [compose checksum_pair MD5 CRC32].
      rewrite length_take, length_drop, Hl.
      split; [done|]. by split; [apply Forall_drop|].
    + f_equal. rewrite <- list_fmap_compose.
      rewrite (list_fmap_ext _ Datatypes.id), list_fmap_id; [by rewrite chunks_concat|].
      intros ? c _. apply encode_checksum_pair.
  - destruct p as [id cs]. unfold ifsc_valid, encode_ifsc. cbn [ifsc_FileID ChecksumPairs].
    intros [([Hid Hl] & Hne & Hv) ->].
    pose proof (join_length 20 _ (encode_pairs _ Hv)) as Hj. rewrite length_fmap in Hj.
    unfold ParseIFSCPacket. set (buf := mjoin (encode_pair <$> cs)) in *.
    rewrite (proj2 (Z.ltb_ge _ 16)) by (unfold len; rewrite length_app; lia).
    rewrite slice_at_prefix, slice_at_suffix by (unfold len; rewrite ?length_app; lia).
    cbn [mbind result_bind]. cbv zeta.
    assert (len buf = 20 * len cs) as -> by (unfold len; lia).
    assert (0 < len cs) by (unfold len; destruct cs; [done|simpl; lia]).
    rewrite (Z.mul_comm 20), Z.mod_mul, Z.div_mul by lia.
    rewrite (proj2 (Z.eqb_neq _ 0)) by lia. cbn [orb negb Z.eqb].
    replace (Z.to_nat (len cs)) with (length (encode_pair <$> cs))
      by (rewrite length_fmap; unfold len; lia).
    unfold buf. rewrite chunks_join by (by apply encode_pairs).
    rewrite <- list_fmap_compose. do 2 f_equal.
    rewrite (list_fmap_ext _ Datatypes.id); [by rewrite list_fmap_id|].
    intros i c Hc. apply checksum_pair_encode. rewrite Forall_lookup in Hv. by eapply Hv.
Qed.

(** ** Recovery packets *)

Definition encode_recovery (p : recoveryPacket) : list Z := le_split 4 (Exponent p) ++ Data p.

Definition recovery_valid (p : recoveryPacket) : Prop :=
  0 <= Exponent p <= 32767 ∧ bytes (Data p) ∧ len (Data p) mod 4 = 0.

Lemma ParseRecoveryPacket_iff body p :
  bytes body →
  ParseRecoveryPacket body = Ok p ↔ recovery_valid p ∧ body = encode_recovery p.
Proof.
  intros Hb. unfold ParseRecoveryPacket, recovery_valid, encode_recovery. split.
  - destruct (Z.ltb_spec (len body) 4) as [|H4]; [done|].
    destruct (Z.eqb_spec (len body mod 4) 0) as [Hm|]; cbn [orb negb]; [|done].
    destruct (cut_at body 4) as (e & d & -> & He & Hd); [lia|]. unfold len in He.
    apply Forall_app in Hb as [Hbe Hbd].
    rewrite (slice_at_prefix e d 4) by lia. cbn [fmap result_fmap mbind result_bind].
    pose proof (le_combine_bound e Hbe) as Hx. set (x := le_combine e) in *.
    rewrite Z.gtb_ltb. destruct (Z.ltb_spec 32767 x) as [|Hle]; [done|].
    rewrite (slice_at_suffix e d 4) by (unfold len; rewrite ?length_app; lia).
    cbn [mbind result_bind]. intros [= <-]. cbn [Exponent Data].
    rewrite wrap16_id by zlia. split.
    + split; [lia|]. split; [done|]. unfold len in *. rewrite length_app in Hm. dlia.
    + f_equal. unfold x. replace 4%nat with (length e) by lia. by rewrite le_split_combine.
  - destruct p as [x d]. cbn [Exponent Data]. intros [(Hx & Hbd & Hm) ->].
    assert (len (le_split 4 x ++ d) = 4 + len d) as Hl.
    { unfold len. rewrite length_app, le_split_length. lia. }
    rewrite Hl. rewrite (proj2 (Z.ltb_ge _ 4)) by (unfold len; lia).
    rewrite (proj2 (Z.eqb_eq _ 0)) by dlia. cbn [orb negb].
    rewrite (slice_at_prefix (le_split 4 x) d 4) by (by rewrite le_split_length).
    cbn [fmap result_fmap mbind result_bind]. rewrite le_combine_split, Z.mod_small by lia.
    rewrite Z.gtb_ltb, (proj2 (Z.ltb_ge 32767 x)) by lia.
    rewrite (slice_at_suffix (le_split 4 x) d 4) by (rewrite ?le_split_length; unfold len; lia).
    cbn [mbind result_bind]. by rewrite wrap16_id by zlia.
Qed.

(** ** File description packets *)

Lemma ParseFileDescPacket_cut id h h16 b8 name :
  length id = 16%nat → length h = 16%nat → length h16 = 16%nat → length b8 = 8%nat →
  ParseFileDescPacket (id ++ h ++ h16 ++ b8 ++ name) =
  let n := le_combine b8 in
  if negb (bool_decide (computeFileID h16 n (NullTerminate name) = id))
  then Err "file description ID mismatch"
  else if n =? 0 then Ok None
  else defanged ← DefangPath (DecodeNullPaddedASCIIString name);
       if n >? maxInt then Err "file byte count exceeds memory boundaries"
       else Ok (Some {| fd_FileID := id; fd_Hash := h; SixteenKHash := h16;
                        ByteCount := n; Filename := defanged |}).
Proof.
  intros Hid Hh H16 H8. unfold ParseFileDescPacket.
  assert (len (id ++ h ++ h16 ++ b8 ++ name) = 56 + len name) as ->
    by (unfold len; rewrite !length_app; lia).
  rewrite (proj2 (Z.ltb_ge _ 56)) by (unfold len; lia).
  rewrite (slice_at_prefix id _ 16), (slice_at_app id h _ 16 32) by lia.
  rewrite (app_assoc id h), (slice_at_app (id ++ h) h16 _ 32 48) by (rewrite ?length_app; lia).
  rewrite (app_assoc _ h16), (slice_at_app _ b8 _ 48 56) by (rewrite ?length_app; lia).
  rewrite (app_assoc _ b8), (slice_at_suffix _ name 56) by (unfold len; rewrite ?length_app; lia).
  done.
Qed.

Lemma ParseFileDescPacket_short (body : list Z) :
  len body < 56 → ParseFileDescPacket body = Err "file description packet too short".
Proof. intros H. unfold ParseFileDescPacket. by rewrite (proj2 (Z.ltb_lt _ _)). Qed.

Lemma ParseFileDescPacket_fields (body : list Z) :
  56 <= len body → ∃ id h h16 b8 name, body = id ++ h ++ h16 ++ b8 ++ name ∧
    length id = 16%nat ∧ length h = 16%nat ∧ length h16 = 16%nat ∧ length b8 = 8%nat.
Proof.
  intros H. destruct (cut_at body 16) as (id & r & -> & Hid & Hr); [lia|].
  destruct (cut_at r 16) as (h & r2 & -> & Hh & Hr2); [lia|].
  destruct (cut_at r2 16) as (h16 & r3 & -> & Hh16 & Hr3); [lia|].
  destruct (cut_at r3 8) as (b8 & name & -> & Hb8 & _); [lia|].
  exists id, h, h16, b8, name. unfold len in *. repeat split; lia.
Qed.
