(* ===== verification/PathFacts.v ===== *)
(** * Sanitised file names

    What [Clean] and [DefangPath] return: a relative path without empty, [.] or
    [..] elements, so that joining it to a directory stays inside it.  The walk
    [depth] counts how deep a path is below the directory it starts in; a name
    whose walk leaves the directory is refused. *)

From S2P Require Import Prelude Md5 Packet.

(** Depth below the start after walking the elements [es] from depth [d];
    [None] when the walk leaves the start. *)
Fixpoint depth (d : nat) (es : list (list Z)) : option nat :=
  match es with
  | [] => Some d
  | e :: es =>
      if bool_decide (e = []) || bool_decide (e = dot) then depth d es
      else if bool_decide (e = dotdot) then
        match d with O => None | S d => depth d es end
      else depth (S d) es
  end.

Definition normal (e : list Z) : Prop := e ≠ [] ∧ e ≠ dot ∧ e ≠ dotdot ∧ slash ∉ e.

#[export] Instance normal_dec e : Decision (normal e).
Proof. unfold normal; apply _. Defined.

Lemma clean_step_normal rooted stack e : normal e → clean_step rooted stack e = e :: stack.
Proof.
  intros (H1 & H2 & H3 & _). unfold clean_step. by rewrite !bool_decide_eq_false_2.
Qed.

Lemma clean_bottom es stack :
  last stack = Some dotdot → last (foldl (clean_step false) stack es) = Some dotdot.
Proof.
  revert stack. induction es as [|e es IH]; intros stack Hs; [done|]. cbn [foldl].
  apply IH. unfold clean_step. destruct (_ || _ : bool); [done|].
  case_bool_decide.
  - destruct stack as [|top rest]; [done|]. case_bool_decide; [by destruct rest|].
    destruct rest as [|r rest]; [simpl in Hs; congruence|done].
  - destruct stack as [|top rest]; [done|]. exact Hs.
Qed.

Lemma clean_depth es stack :
  Forall normal stack → Forall (λ e, slash ∉ e) es →
  match depth (length stack) es with
  | Some d => Forall normal (foldl (clean_step false) stack es) ∧
              length (foldl (clean_step false) stack es) = d
  | None => last (foldl (clean_step false) stack es) = Some dotdot
  end.
Proof.
  revert stack. induction es as [|e es IH]; intros stack Hst Hes; [done|].
  apply Forall_cons in Hes as [He Hes]. cbn [foldl depth]. unfold clean_step at 2 4 6.
  destruct (_ || _ : bool) eqn:Hemp; [by apply IH|].
  apply orb_false_iff in Hemp as [H1%bool_decide_eq_false H2%bool_decide_eq_false].
  case_bool_decide as H3.
  - destruct stack as [|top rest]; cbn [length].
    + by apply clean_bottom.
    + apply Forall_cons in Hst as [(_ & _ & Htop & _) Hrest].
      rewrite (bool_decide_eq_false_2 (top = dotdot)) by done. by apply IH.
  - apply (IH (e :: stack)); [|done]. by constructor.
Qed.

(** ** Elements and [join] *)

Lemma path_elements_nonempty p : path_elements p ≠ [].
Proof.
  destruct p as [|c p]; simpl; [done|]. destruct (c =? slash); [done|].
  by destruct (path_elements p).
Qed.

Lemma path_elements_noslash p : Forall (λ e, slash ∉ e) (path_elements p).
Proof.
  induction p as [|c p IH]; simpl.
  - constructor; [|done]. apply not_elem_of_nil.
  - destruct (Z.eqb_spec c slash) as [_|Hc].
    + constructor; [apply not_elem_of_nil|done].
    + destruct (path_elements p) as [|e es]; [|apply Forall_cons in IH as [He Hes]];
        (constructor; [|done]); rewrite not_elem_of_cons;
        (split; [done|]); [apply not_elem_of_nil|done].
Qed.

Lemma path_elements_elem p c e : e ∈ path_elements p → c ∈ e → c ∈ p.
Proof.
  revert e. induction p as [|x p IH]; intros e; simpl.
  - intros ->%list_elem_of_singleton. done.
  - destruct (x =? slash).
    + intros [->|He]%elem_of_cons Hc; [by apply elem_of_nil in Hc|].
      apply elem_of_cons. right. by eapply IH.
    + destruct (path_elements p) as [|e0 es] eqn:Hp.
      * intros ->%list_elem_of_singleton ->%list_elem_of_singleton. apply list_elem_of_here.
      * intros [->|He]%elem_of_cons Hc.
        -- apply elem_of_cons in Hc as [->|Hc]; [apply list_elem_of_here|].
           apply elem_of_cons. right. eapply IH; [apply list_elem_of_here|done].
        -- apply elem_of_cons. right. eapply IH; [|done]. by apply elem_of_cons; right.
Qed.

Lemma path_elements_app e p :
  slash ∉ e → path_elements (e ++ slash :: p) = e :: path_elements p.
Proof.
  induction e as [|c e IH]; intros He; [done|].
  apply not_elem_of_cons in He as [Hc He]. cbn [app path_elements].
  rewrite (proj2 (Z.eqb_neq c slash)) by congruence. by rewrite IH.
Qed.

Lemma path_elements_single e : slash ∉ e → path_elements e = [e].
Proof.
  induction e as [|c e IH]; intros He; [done|].
  apply not_elem_of_cons in He as [Hc He]. cbn [path_elements].
  rewrite (proj2 (Z.eqb_neq c slash)) by congruence. by rewrite IH.
Qed.

Lemma path_elements_join es :
  es ≠ [] → Forall (λ e, slash ∉ e) es → path_elements (join es) = es.
Proof.
  intros Hne Hes. induction Hes as [|e es He Hes IH]; [done|].
  destruct es as [|e' es]; [by apply path_elements_single|].
  change (join (e :: e' :: es)) with (e ++ slash :: join (e' :: es)).
  by rewrite path_elements_app, IH.
Qed.

Lemma join_elem es c : c ∈ join es → c = slash ∨ ∃ e, e ∈ es ∧ c ∈ e.
Proof.
  induction es as [|e es IH]; [by intros ?%elem_of_nil|].
  destruct es as [|e' es]; [intros Hc; right; exists e; by rewrite list_elem_of_singleton|].
  change (join (e :: e' :: es)) with (e ++ slash :: join (e' :: es)).
  rewrite elem_of_app, elem_of_cons. intros [Hc|[->|Hc]]; [|by left|].
  - right. exists e. by rewrite elem_of_cons; split; [left|].
  - destruct (IH Hc) as [->|(x & Hx & Hcx)]; [by left|right]. exists x.
    by rewrite elem_of_cons; split; [right|].
Qed.

Lemma IsAbs_cons c p : IsAbs (c :: p) = bool_decide (c = slash).
Proof.
  unfold IsAbs, HasPrefix. change (take (length [slash]) (c :: p)) with [c].
  apply bool_decide_ext. split; congruence.
Qed.

Lemma join_head es c e :
  ∃ p, join ((c :: e) :: es) = c :: p.
Proof. destruct es; [by exists e|]. by eexists. Qed.

Lemma join_relative es : Forall normal es → IsAbs (join es) = false.
Proof.
  intros Hes. destruct es as [|e es]; [done|]. apply Forall_cons in Hes as [He _].
  destruct He as (H1 & _ & _ & H4). destruct e as [|c e]; [done|].
  destruct (join_head es c e) as [p ->]. rewrite IsAbs_cons.
  apply bool_decide_eq_false_2. intros ->. apply H4, list_elem_of_here.
Qed.

Lemma join_normal_nonempty es : es ≠ [] → Forall normal es → join es ≠ [].
Proof.
  intros Hne Hes. destruct es as [|e es]; [done|]. apply Forall_cons in Hes as [He _].
  destruct He as (H1 & _). destruct e as [|c e]; [done|].
  by destruct (join_head es c e) as [p ->].
Qed.

Lemma foldl_clean_normal es stack :
  Forall normal es → foldl (clean_step false) stack es = rev es ++ stack.
Proof.
  intros Hes. revert stack. induction Hes as [|e es He _ IH]; intros stack; [done|].
  cbn [foldl rev]. rewrite clean_step_normal, IH by done. by rewrite <- app_assoc.
Qed.

(** A path in normal form is its own cleaning. *)
Lemma Clean_normal es : es ≠ [] → Forall normal es → Clean (join es) = join es.
Proof.
  intros Hne Hes. unfold Clean. rewrite join_relative by done.
  rewrite path_elements_join; [|done|eapply Forall_impl; [exact Hes|by intros ? (_&_&_&?)]].
  rewrite foldl_clean_normal, app_nil_r, rev_involutive by done. cbn [app].
  by rewrite bool_decide_eq_false_2 by (by apply join_normal_nonempty).
Qed.

(** ** [Clean] of any name *)

Lemma elem_of_rev {A} (x : A) l : x ∈ rev l ↔ x ∈ l.
Proof. rewrite !list_elem_of_In. symmetry. apply in_rev. Qed.

Lemma Clean_rooted p : IsAbs p = true → IsAbs (Clean p) = true.
Proof.
  intros Hp. unfold Clean. rewrite Hp. cbn [app].
  rewrite bool_decide_eq_false_2 by done. rewrite IsAbs_cons. by apply bool_decide_eq_true_2.
Qed.

Lemma Clean_escape p :
  IsAbs p = false → depth 0 (path_elements p) = None → HasPrefix (Clean p) dotdot = true.
Proof.
  intros Hp Hd. unfold Clean. rewrite Hp. cbn [app].
  pose proof (clean_depth (path_elements p) [] (Forall_nil_2 _) (path_elements_noslash p)) as H.
  cbn [length] in H. rewrite Hd in H.
  destruct (foldl _ [] _) as [|e st] using rev_ind; [done|].
  rewrite last_snoc in H. injection H as ->. rewrite rev_app_distr. cbn [rev app].
  assert (∀ q, join (dotdot :: q) ≠ [] ∧ HasPrefix (join (dotdot :: q)) dotdot = true) as Hj.
  { intros [|x q]; [done|]. change (join (dotdot :: x :: q)) with (dotdot ++ slash :: join (x :: q)).
    split; [done|]. apply bool_decide_eq_true_2. done. }
  destruct (Hj (rev st)) as [Hn Hpre]. by rewrite bool_decide_eq_false_2.
Qed.

Lemma Clean_inside p d :
  IsAbs p = false → depth 0 (path_elements p) = Some d →
  ∃ es, Forall normal es ∧ length es = d ∧ Clean p = (if d is O then dot else join es) ∧
        ∀ e, e ∈ es → e ∈ path_elements p.
Proof.
  intros Hp Hd. unfold Clean. rewrite Hp. cbn [app].
  pose proof (clean_depth (path_elements p) [] (Forall_nil_2 _) (path_elements_noslash p)) as H.
  cbn [length] in H. rewrite Hd in H. destruct H as [Hn Hl].
  assert (∀ es stack e, Forall normal (foldl (clean_step false) stack es) →
    e ∈ foldl (clean_step false) stack es → e ∈ stack ∨ e ∈ es ∨ e = dotdot) as Hin.
  { clear. intros es. induction es as [|x es IH]; intros stack e Hn He; [by left|].
    cbn [foldl] in Hn, He. destruct (IH _ _ Hn He) as [Hs|[Hs|Hs]];
      [|right; left; apply elem_of_cons; by right|by right; right].
    unfold clean_step in Hs. destruct (_ || _ : bool); [by left|]. case_bool_decide.
    - destruct stack as [|top rest]; [right; right; by apply list_elem_of_singleton|].
      case_bool_decide; [apply elem_of_cons in Hs as [->|Hs]; [by right; right|by left]|].
      left. apply elem_of_cons. by right.
    - apply elem_of_cons in Hs as [->|Hs]; [right; left; apply list_elem_of_here|by left]. }
  exists (rev (foldl (clean_step false) [] (path_elements p))).
  assert (Forall normal (rev (foldl (clean_step false) [] (path_elements p)))) as Hn'.
  { by apply Forall_rev. }
  split; [done|]. rewrite length_rev. split; [done|]. split.
  - destruct d as [|d].
    + apply nil_length_inv in Hl. by rewrite Hl.
    + rewrite bool_decide_eq_false_2; [done|]. apply join_normal_nonempty; [|done].
      intros Hnil. apply (f_equal length) in Hnil. rewrite length_rev in Hnil.
      rewrite Hl in Hnil. done.
  - intros e He. rewrite elem_of_rev in He.
    destruct (Hin _ _ _ Hn He) as [Hx | [Hx | ->] ]; [by apply elem_of_nil in Hx|done|].
    exfalso. rewrite Forall_forall in Hn. by destruct (Hn _ He) as (_ & _ & ? & _).
Qed.

(** ** [DefangPath] *)

Definition normalize (filename : list Z) : list Z :=
  (λ c, if c =? backslash then slash else c) <$> filename.

Lemma normalize_no_backslash name : backslash ∉ normalize name.
Proof.
  intros (c & Hc & _)%list_elem_of_fmap. destruct (Z.eqb_spec c backslash); [done|congruence].
Qed.

Lemma normalize_id p : backslash ∉ p → normalize p = p.
Proof.
  induction p as [|c p IH]; intros Hp; [done|]. apply not_elem_of_cons in Hp as [Hc Hp].
  unfold normalize in *. rewrite fmap_cons, IH by done.
  by rewrite (proj2 (Z.eqb_neq c backslash)) by congruence.
Qed.

(** A name that stays inside its directory, in the form the program uses. *)
Definition confined (p : list Z) : Prop :=
  IsAbs p = false ∧ (backslash ∉ p) ∧ (p !! 1%nat) ≠ Some 58 ∧
  (p = dot ∨ Forall normal (path_elements p)).

Lemma confined_depth p : confined p → ∃ d, depth 0 (path_elements p) = Some d.
Proof.
  intros (_ & _ & _ & [->|Hn]); [by exists O|].
  generalize O. induction Hn as [|e es (H1 & H2 & H3 & _) _ IH]; intros d; [by exists d|].
  cbn [depth]. rewrite !bool_decide_eq_false_2 by done. apply IH.
Qed.

Lemma DefangPath_cases name :
  DefangPath name =
  let p := Clean (normalize name) in
  if IsAbs p then Err "absolute path traversal attempt detected"
  else if (1 <? len p) && bool_decide (p !! 1%nat = Some 58)
  then Err "windows drive absolute path traversal attempt detected"
  else if HasPrefix p dotdot then Err "relative directory traversal attempt detected"
  else Ok p.
Proof. done. Qed.

Lemma DefangPath_inside name p :
  DefangPath name = Ok p →
  p = Clean (normalize name) ∧ (p !! 1%nat) ≠ Some 58 ∧ HasPrefix p dotdot = false ∧
  IsAbs (normalize name) = false ∧
  ∃ es, Forall normal es ∧ (if es is [] then p = dot else p = join es) ∧
        depth 0 (path_elements (normalize name)) = Some (length es) ∧
        ∀ e, e ∈ es → e ∈ path_elements (normalize name).
Proof.
  rewrite DefangPath_cases. cbv zeta.
  destruct (IsAbs (Clean (normalize name))) eqn:Habs; [done|].
  destruct ((1 <? _) && _) eqn:Hdrive; [done|].
  destruct (HasPrefix _ dotdot) eqn:Hpre; [done|]. intros [= <-].
  split; [done|]. split.
  { intros H58. apply andb_false_iff in Hdrive as [Hl|Hd%bool_decide_eq_false]; [|done].
    apply Z.ltb_ge in Hl. apply lookup_lt_Some in H58. unfold len in Hl. lia. }
  split; [done|].
  assert (IsAbs (normalize name) = false) as Hrel.
  { destruct (IsAbs (normalize name)) eqn:Hr; [|done].
    by rewrite (Clean_rooted _ Hr) in Habs. }
  split; [done|].
  destruct (depth 0 (path_elements (normalize name))) as [d|] eqn:Hd.
  - destruct (Clean_inside _ d Hrel Hd) as (es & Hn & Hl & Hc & Hin).
    exists es. split; [done|]. split; [|by rewrite Hl].
    destruct es, d; try done; simpl in Hl; lia.
  - by rewrite (Clean_escape _ Hrel Hd) in Hpre.
Qed.

Lemma DefangPath_confined name p : DefangPath name = Ok p → confined p.
Proof.
  intros H. apply DefangPath_inside in H as (-> & H58 & _ & Hrel & es & Hn & Hp & _ & Hin).
  destruct es as [|e es].
  - rewrite Hp in *. by split; [done|split; [decided|split; [done|left]]].
  - rewrite Hp in *. split; [by apply join_relative|]. split.
    + intros [?|(x & Hx & Hb)]%join_elem; [done|].
      apply (normalize_no_backslash name). eapply path_elements_elem; [by apply Hin|done].
    + split; [done|]. right. rewrite path_elements_join; [done|done|].
      eapply Forall_impl; [exact Hn|by intros ? (_&_&_&?)].
Qed.

Lemma join_path_elements p : join (path_elements p) = p.
Proof.
  induction p as [|c p IH]; [done|]. cbn [path_elements].
  pose proof (path_elements_nonempty p) as Hne.
  destruct (Z.eqb_spec c slash) as [->|_]; destruct (path_elements p) as [|e es] eqn:Hp;
    [done| |done|].
  - change (join ([] :: e :: es)) with (slash :: join (e :: es)). by rewrite IH.
  - rewrite <- IH. by destruct es.
Qed.

(** A confined name that does not begin with two dots is accepted unchanged. *)
Lemma DefangPath_accepts p :
  confined p → HasPrefix p dotdot = false → DefangPath p = Ok p.
Proof.
  intros (Hrel & Hb & H58 & Hp) Hpre. rewrite DefangPath_cases, normalize_id by done.
  assert (Clean p = p) as ->.
  { destruct Hp as [->|Hn]; [by vm_compute|].
    rewrite <- (join_path_elements p). apply Clean_normal; [apply path_elements_nonempty|done]. }
  cbv zeta. rewrite Hrel, Hpre. rewrite (bool_decide_eq_false_2 _ H58).
  by rewrite andb_false_r.
Qed.
