(* ===== verification/CrcTable.v ===== *)
(** * The CRC lookup table (src/par2/crc_table.go)

    An open-addressing table from CRC32 values to the locations that have them.
    A pointer to one of the [reported] flags is the index of the flag in the
    slice [newCRCLookupTable] allocates; the flags themselves are state of the
    scan.  The map the table is built from is given as the list of its entries
    in the order the [range] loop visits them, so what is proved for every list
    holds for every iteration order.

    The two [for] loops have no bound in the source.  They run here with the
    size of the table as fuel, and running out of it is a panic: that they never
    do is part of what is proved. *)

From stdpp Require Import gmap.
From S2P Require Import Prelude Md5 Packet.

Record checksumLocation := {
  fileID : FileID;
  shardIndex : Z;
  md5Hash : list Z;
  reported : option nat
}.

#[export] Instance checksumLocation_eq_dec : EqDecision checksumLocation.
Proof. solve_decision. Defined.

Record crcTableEntry := {
  crc : Z;
  valid : bool;
  locs : list checksumLocation
}.

Definition empty_entry : crcTableEntry := {| crc := 0; valid := false; locs := [] |}.

Record crcLookupTable := {
  mask : Z;
  table : list crcTableEntry
}.

Definition no_fuel : string := "loop does not terminate".

(** [size := 16; for size < numEntries*4 { size *= 2 }]. *)
Fixpoint table_size (fuel : nat) (numEntries size : Z) : result Z :=
  if size <? numEntries * 4 then
    match fuel with
    | O => Panic no_fuel
    | S fuel => table_size fuel numEntries (size * 2)
    end
  else Ok size.

(** The loop that gives each location the first of the remaining flags. *)
Fixpoint take_flags (ls : list checksumLocation) (flags : list nat) :
    result (list checksumLocation * list nat) :=
  match ls with
  | [] => Ok ([], flags)
  | l :: ls =>
      flag ← index_at flags 0;
      flags ← slice_at flags 1 (len flags);
      '(ls, flags) ← take_flags ls flags;
      Ok ({| fileID := fileID l; shardIndex := shardIndex l; md5Hash := md5Hash l;
             reported := Some flag |} :: ls, flags)
  end.

Definition next_slot (m idx : Z) : Z := Z.land (wrap32 (idx + 1)) m.

Fixpoint insert_loop (fuel : nat) (m : Z) (t : list crcTableEntry) (idx : Z)
    (e : crcTableEntry) : result (list crcTableEntry) :=
  match fuel with
  | O => Panic no_fuel
  | S fuel =>
      slot ← index_at t idx;
      if negb (valid slot) then set_at t idx e
      else insert_loop fuel m t (next_slot m idx) e
  end.

(** The body of the loop over the map. *)
Definition insert_entry (m : Z) (st : list crcTableEntry * list nat)
    (entry : Z * list checksumLocation) : result (list crcTableEntry * list nat) :=
  let '(t, flags) := st in
  let '(c, ls) := entry in
  '(ls, flags) ← take_flags ls flags;
  t ← insert_loop (length t) m t (Z.land c m) {| crc := c; valid := true; locs := ls |};
  Ok (t, flags).

Definition numLocs (checksumMap : list (Z * list checksumLocation)) : nat :=
  sum_list (length ∘ snd <$> checksumMap).

Definition newCRCLookupTable (checksumMap : list (Z * list checksumLocation)) :
    result crcLookupTable :=
  let flags := seq 0 (numLocs checksumMap) in
  let numEntries := len checksumMap in
  size ← table_size 64 numEntries 16;
  let m := wrap32 (size - 1) in
  '(t, _) ← foldM (insert_entry m) (replicate (Z.to_nat size) empty_entry, flags) checksumMap;
  Ok {| mask := m; table := t |}.

Fixpoint Lookup_loop (fuel : nat) (m : Z) (t : list crcTableEntry) (c idx : Z) :
    result (option (list checksumLocation)) :=
  match fuel with
  | O => Panic no_fuel
  | S fuel =>
      entry ← index_at t idx;
      if negb (valid entry) then Ok None
      else if crc entry =? c then Ok (Some (locs entry))
      else Lookup_loop fuel m t c (next_slot m idx)
  end.

(** [None] is the pair of nil and false. *)
Definition Lookup (t : crcLookupTable) (c : Z) : result (option (list checksumLocation)) :=
  Lookup_loop (length (table t)) (mask t) (table t) c (Z.land c (mask t)).

(** ** Probing *)

Lemma filter_valid_all t :
  Forall (λ e, valid e = true) t → filter (λ e, valid e = true) t = t.
Proof.
  induction 1 as [|e t He _ IH]; [done|]. by rewrite filter_cons_True, IH by done.
Qed.

Lemma filter_valid_empty n : filter (λ e, valid e = true) (replicate n empty_entry) = [].
Proof. by induction n as [|n IH]. Qed.

Section Probing.
Context (s : Z) (Hs : 4 <= s <= 32).
Let size : Z := 2 ^ s.
Let m : Z := size - 1.

Implicit Type t : list crcTableEntry.

Lemma size_bounds : 16 <= size <= 4294967296.
Proof.
  unfold size. split; [change 16 with (2 ^ 4)|change 4294967296 with (2 ^ 32)];
    apply Z.pow_le_mono_r; lia.
Qed.

(** The [k]-th slot probed for the value [c]. *)
Definition probe (c k : Z) : Z := (c + k) mod size.

Lemma probe_0 c : Z.land c m = probe c 0.
Proof.
  unfold probe, m, size. rewrite Z.add_0_r, Z.sub_1_r, <- Z.ones_equiv.
  apply Z.land_ones. lia.
Qed.

Lemma probe_bounds c k : 0 <= probe c k < size.
Proof. apply Z.mod_pos_bound. pose proof size_bounds. lia. Qed.

Lemma probe_next c k : next_slot m (probe c k) = probe c (k + 1).
Proof.
  unfold next_slot. rewrite probe_0. unfold probe, wrap32. rewrite Z.add_0_r.
  assert (∃ q, 4294967296 = size * q) as [q ->].
  { exists (2 ^ (32 - s)). unfold size. rewrite <- Z.pow_add_r by lia.
    change 4294967296 with (2 ^ 32). f_equal. lia. }
  pose proof size_bounds as Hb.
  rewrite Z.mod_mod_divide by (by exists q; lia).
  rewrite Zplus_mod_idemp_l. f_equal. lia.
Qed.

Lemma probe_of i c : 0 <= i < size → ∃ k, 0 <= k < size ∧ probe c k = i.
Proof.
  intros Hi. pose proof size_bounds. exists ((i - c) mod size).
  split; [apply Z.mod_pos_bound; lia|]. unfold probe.
  rewrite Zplus_mod_idemp_r. replace (c + (i - c)) with i by lia. by apply Z.mod_small.
Qed.

Definition slot t c k : option crcTableEntry := t !! Z.to_nat (probe c k).

(** Every slot probed before the [k]-th one holds an entry of another value. *)
Definition passes t c k : Prop :=
  ∀ j, 0 <= j < k → ∃ e, slot t c j = Some e ∧ valid e = true ∧ crc e ≠ c.

Definition placed t c ls k : Prop :=
  0 <= k < size ∧ slot t c k = Some {| crc := c; valid := true; locs := ls |} ∧ passes t c k.

(** The table holds exactly the entries of [es], each where probing finds it. *)
Definition table_ok t (es : list (Z * list checksumLocation)) : Prop :=
  length t = Z.to_nat size ∧
  (∀ c ls, (c, ls) ∈ es → ∃ k, placed t c ls k) ∧
  (∀ i e, t !! i = Some e → valid e = true → (crc e, locs e) ∈ es) ∧
  (length (filter (λ e, valid e = true) t) <= length es)%nat.

Lemma slot_some t c k : length t = Z.to_nat size → ∃ e, slot t c k = Some e.
Proof.
  intros Hl. pose proof (probe_bounds c k). pose proof size_bounds.
  destruct (lookup_lt_is_Some_2 t (Z.to_nat (probe c k))) as [e He]; [lia|by exists e].
Qed.

Lemma slot_index t c k e : slot t c k = Some e → index_at t (probe c k) = Ok e.
Proof. intros He. pose proof (probe_bounds c k). by apply index_at_lookup; [lia|]. Qed.

Lemma first_such (P : Z → bool) n k :
  0 <= k < n → P k = true → ∃ k, 0 <= k < n ∧ P k = true ∧ ∀ j, 0 <= j < k → P j = false.
Proof.
  intros Hk HP. destruct (decide (Exists (λ j, P j = true) (range 0 k))) as [Hex|Hall].
  - revert HP. assert (∀ m : nat, ∀ k, 0 <= k < n → k < Z.of_nat m → P k = true →
      ∃ k, 0 <= k < n ∧ P k = true ∧ ∀ j, 0 <= j < k → P j = false) as H.
    { intros m'. induction m' as [|m' IH]; intros k' Hk' Hm HP; [lia|].
      destruct (decide (Exists (λ j, P j = true) (range 0 k'))) as [Hex'|Hall'].
      - apply Exists_exists in Hex' as (j & Hj & HPj). apply elem_of_range in Hj.
        apply (IH j); [lia..|done].
      - exists k'. split; [done|]. split; [done|]. intros j Hj.
        destruct (P j) eqn:HPj; [|done]. destruct Hall'. apply Exists_exists.
        exists j. by rewrite elem_of_range. }
    apply (H (Z.to_nat (k + 1))); lia.
  - exists k. split; [done|]. split; [done|]. intros j Hj.
    destruct (P j) eqn:HPj; [|done]. destruct Hall. apply Exists_exists.
    exists j. by rewrite elem_of_range.
Qed.

(** A table with fewer entries than slots has a first free slot on every
    probe sequence. *)
Lemma first_free t es c :
  table_ok t es → len es < size →
  ∃ k e, 0 <= k < size ∧ slot t c k = Some e ∧ valid e = false ∧
         ∀ j, 0 <= j < k → ∃ e, slot t c j = Some e ∧ valid e = true.
Proof.
  intros (Hl & _ & _ & Hc) Hlt. pose proof size_bounds as Hsz.
  assert (∃ i e, t !! i = Some e ∧ valid e = false) as (i & e & Hi & He).
  { destruct (decide (Exists (λ e, valid e = false) t)) as [Hex|Hall].
    - apply Exists_exists in Hex as (e & Hin & He).
      apply list_elem_of_lookup in Hin as [i Hi]. by exists i, e.
    - exfalso. rewrite filter_valid_all in Hc; [unfold len in Hlt; lia|].
      apply not_Exists_Forall in Hall; [|solve_decision].
      eapply Forall_impl; [exact Hall|]. intros e He. by apply not_false_is_true. }
  assert (0 <= Z.of_nat i < size) as Hib by (apply lookup_lt_Some in Hi; lia).
  destruct (probe_of (Z.of_nat i) c Hib) as (k & Hk & Hp).
  destruct (first_such (λ k, if slot t c k is Some e then negb (valid e) else true) size k)
    as (k' & Hk' & HP & Hmin); [done|by unfold slot; rewrite Hp, Nat2Z.id, Hi, He|].
  destruct (slot_some t c k' Hl) as [e' He']. rewrite He' in HP. apply negb_true_iff in HP.
  exists k', e'. split; [done|]. split; [done|]. split; [done|].
  intros j Hj. specialize (Hmin j Hj). destruct (slot_some t c j Hl) as [ej Hej].
  rewrite Hej in Hmin. exists ej. by apply negb_false_iff in Hmin.
Qed.

Lemma insert_loop_run t c k e e0 (fuel : nat) j :
  slot t c k = Some e0 → valid e0 = false →
  (∀ i, 0 <= i < k → ∃ e, slot t c i = Some e ∧ valid e = true) →
  0 <= j <= k → k - j < Z.of_nat fuel → length t = Z.to_nat size →
  insert_loop fuel m t (probe c j) e = Ok (<[Z.to_nat (probe c k) := e]> t).
Proof.
  intros Hk Hv Hocc Hj Hf Hl. revert j Hj Hf.
  induction fuel as [|fuel IH]; intros j Hj Hf; [lia|]. cbn [insert_loop].
  destruct (Z.eq_dec j k) as [->|Hne].
  - rewrite (slot_index _ _ _ _ Hk). cbn [mbind result_bind]. rewrite Hv. cbn [negb].
    pose proof (probe_bounds c k). pose proof size_bounds. apply set_at_ok. lia.
  - destruct (Hocc j) as (ej & Hej & Hvj); [lia|].
    rewrite (slot_index _ _ _ _ Hej). cbn [mbind result_bind]. rewrite Hvj. cbn [negb].
    rewrite probe_next. apply IH; lia.
Qed.

Lemma Lookup_loop_run t c k (fuel : nat) j :
  passes t c k → 0 <= j <= k → k - j <= Z.of_nat fuel →
  Lookup_loop fuel m t c (probe c j) =
  Lookup_loop (fuel - Z.to_nat (k - j)) m t c (probe c k).
Proof.
  intros Hp. revert j. induction fuel as [|fuel IH]; intros j Hj Hf; [done|].
  destruct (Z.eq_dec j k) as [->|Hne]; [by replace (k - k) with 0 by lia|].
  destruct (Hp j) as (e & He & Hv & Hc); [lia|]. cbn [Lookup_loop].
  rewrite (slot_index _ _ _ _ He). cbn [mbind result_bind]. rewrite Hv. cbn [negb].
  rewrite (proj2 (Z.eqb_neq _ _) Hc), probe_next, IH by lia. f_equal. lia.
Qed.

Lemma Lookup_loop_at t c k e (fuel : nat) :
  slot t c k = Some e → (0 < fuel)%nat → valid e = false ∨ crc e = c →
  Lookup_loop fuel m t c (probe c k) = Ok (if valid e then Some (locs e) else None).
Proof.
  intros He Hf Hor. destruct fuel as [|fuel]; [lia|]. cbn [Lookup_loop].
  rewrite (slot_index _ _ _ _ He). cbn [mbind result_bind].
  destruct (valid e) eqn:Hv; cbn [negb]; [|done].
  destruct Hor as [?|Hc]; [congruence|]. by rewrite (proj2 (Z.eqb_eq _ _) Hc).
Qed.

Lemma insert_ok t es c ls :
  table_ok t es → len es < size → c ∉ es.*1 →
  ∃ t', insert_loop (length t) m t (Z.land c m) {| crc := c; valid := true; locs := ls |} = Ok t' ∧
        table_ok t' (es ++ [(c, ls)]).
Proof.
  intros Hok Hlt Hnew. pose proof Hok as (Hl & Hpl & Hin & Hcnt). pose proof size_bounds.
  destruct (first_free t es c Hok Hlt) as (k & e0 & Hk & Hs0 & Hv0 & Hocc).
  rewrite probe_0. set (e := {| crc := c; valid := true; locs := ls |}).
  exists (<[Z.to_nat (probe c k) := e]> t). split.
  { apply (insert_loop_run t c k e e0); [done..|lia|lia|done]. }
  set (p := Z.to_nat (probe c k)) in *.
  assert (p < length t)%nat as Hp by (pose proof (probe_bounds c k); lia).
  assert (∀ c' j e', slot t c' j = Some e' → valid e' = true →
            slot (<[p := e]> t) c' j = Some e') as Hkeep.
  { intros c' j e' He' Hv'. unfold slot in *. rewrite list_lookup_insert_ne; [done|].
    intros Heq. unfold slot in Hs0. fold p in Hs0. rewrite Heq in Hs0. congruence. }
  split; [by rewrite length_insert|]. split; [|split].
  - intros c' ls' [Hm|Hm]%elem_of_app.
    + destruct (Hpl c' ls' Hm) as (k' & Hk' & Hs' & Hpass). exists k'.
      split; [done|]. split; [by apply Hkeep|]. intros j Hj.
      destruct (Hpass j Hj) as (ej & Hej & Hvj & Hcj). exists ej. by split; [apply Hkeep|].
    + apply list_elem_of_singleton in Hm. injection Hm as -> ->. exists k.
      split; [done|]. split; [by apply list_lookup_insert_eq|]. intros j Hj.
      destruct (Hocc j Hj) as (ej & Hej & Hvj). exists ej. split; [by apply Hkeep|].
      split; [done|]. intros <-. apply Hnew, list_elem_of_fmap.
      exists (crc ej, locs ej). split; [done|]. by eapply Hin.
  - intros i e' Hi Hv. rewrite elem_of_app. destruct (decide (p = i)) as [<-|Hne].
    + rewrite list_lookup_insert_eq in Hi by done. injection Hi as <-. right.
      by apply list_elem_of_singleton.
    + rewrite list_lookup_insert_ne in Hi by done. left. by eapply Hin.
  - rewrite insert_take_drop by done.
    rewrite <- (take_drop p t) in Hcnt. rewrite (drop_S t e0 p) in Hcnt by done.
    rewrite !filter_app, !length_app, !filter_cons in *. rewrite Hv0 in Hcnt.
    cbn [valid e] in *. destruct (decide (true = true)); [|done].
    destruct (decide (false = true)); [done|]. simpl. lia.
Qed.

Lemma lookup_ok t es c :
  table_ok t es → len es < size → NoDup es.*1 →
  Lookup {| mask := m; table := t |} c = Ok ((list_to_map es : gmap Z _) !! c).
Proof.
  intros Hok Hlt Hnd. pose proof Hok as (Hl & Hpl & Hin & _). pose proof size_bounds.
  unfold Lookup. cbn [mask table]. rewrite probe_0.
  destruct ((list_to_map es : gmap Z _) !! c) as [ls|] eqn:Hc.
  - apply elem_of_list_to_map in Hc; [|done].
    destruct (Hpl c ls Hc) as (k & Hk & Hsl & Hpass).
    rewrite (Lookup_loop_run t c k) by (done || lia).
    rewrite (Lookup_loop_at t c k _ _ Hsl); [done|lia|by right].
  - apply not_elem_of_list_to_map in Hc.
    destruct (first_free t es c Hok Hlt) as (k & e & Hk & Hsl & Hv & Hocc).
    rewrite (Lookup_loop_run t c k); [|intros j Hj|lia|lia].
    + rewrite (Lookup_loop_at t c k _ _ Hsl); [by rewrite Hv|lia|by left].
    + destruct (Hocc j Hj) as (ej & Hej & Hvj). exists ej. split; [done|]. split; [done|].
      intros <-. apply Hc, list_elem_of_fmap. exists (crc ej, locs ej). split; [done|].
      by eapply Hin.
Qed.

Lemma empty_ok : table_ok (replicate (Z.to_nat size) empty_entry) [].
Proof.
  split; [by rewrite length_replicate|]. split; [by intros ?? ?%elem_of_nil|]. split.
  - intros i e [-> _]%lookup_replicate_1. done.
  - by rewrite filter_valid_empty.
Qed.

End Probing.

(** ** The constructor *)

Lemma table_size_ok numEntries (fuel : nat) (j : nat) :
  2 ^ Z.of_nat (4 + j) <= 16 ∨ 2 ^ Z.of_nat (3 + j) < numEntries * 4 →
  numEntries * 4 <= 2 ^ Z.of_nat (4 + j + fuel) →
  ∃ i : nat, (j <= i)%nat ∧ table_size fuel numEntries (2 ^ Z.of_nat (4 + j)) = Ok (2 ^ Z.of_nat (4 + i)) ∧
    numEntries * 4 <= 2 ^ Z.of_nat (4 + i) ∧
    (2 ^ Z.of_nat (4 + i) <= 16 ∨ 2 ^ Z.of_nat (4 + i) < numEntries * 8).
Proof.
  assert (∀ n : nat, 2 ^ Z.of_nat (S n) = 2 ^ Z.of_nat n * 2) as Hp.
  { intros n. rewrite Nat2Z.inj_succ, Z.pow_succ_r; lia. }
  revert j. induction fuel as [|fuel IH]; intros j H1 H2; cbn [table_size].
  - rewrite Nat.add_0_r in H2. rewrite (proj2 (Z.ltb_ge _ _)) by done.
    exists j. split; [done|]. split; [done|]. split; [done|].
    pose proof (Hp (3 + j)%nat) as Hj. change (S (3 + j)) with (4 + j)%nat in Hj. lia.
  - destruct (Z.ltb_spec (2 ^ Z.of_nat (4 + j)) (numEntries * 4)) as [Hlt|Hge].
    + rewrite <- Hp. change (S (4 + j)) with (4 + S j)%nat.
      destruct (IH (S j)) as (i & Hi & Hrun & Hb).
      * right. by change (3 + S j)%nat with (4 + j)%nat.
      * by replace (4 + S j + fuel)%nat with (4 + j + S fuel)%nat by lia.
      * exists i. split; [lia|]. by split.
    + exists j. split; [done|]. split; [done|]. split; [done|].
      pose proof (Hp (3 + j)%nat) as Hj. change (S (3 + j)) with (4 + j)%nat in Hj. lia.
Qed.

Definition with_flag (l : checksumLocation) (n : nat) : checksumLocation :=
  {| fileID := fileID l; shardIndex := shardIndex l; md5Hash := md5Hash l; reported := Some n |}.

(** The entries with the flags the constructor gives their locations. *)
Fixpoint flagged (n : nat) (es : list (Z * list checksumLocation)) :
    list (Z * list checksumLocation) :=
  match es with
  | [] => []
  | (c, ls) :: es =>
      (c, zip_with with_flag ls (seq n (length ls))) :: flagged (n + length ls) es
  end.

Lemma take_flags_ok ls n k :
  (length ls <= k)%nat →
  take_flags ls (seq n k) =
  Ok (zip_with with_flag ls (seq n (length ls)), seq (n + length ls) (k - length ls)).
Proof.
  revert n k. induction ls as [|l ls IH]; intros n k Hk; simpl in Hk; cbn [take_flags length].
  - by rewrite Nat.add_0_r, Nat.sub_0_r.
  - destruct k as [|k]; [lia|]. cbn [seq]. cbn [index_at lookup list_lookup].
    unfold index_at. cbn [Z.ltb Z.compare Z.to_nat list_lookup lookup mbind result_bind].
    rewrite slice_at_ok by (unfold len; cbn [length]; rewrite ?length_seq; lia).
    cbn [mbind result_bind].
    change (drop (Z.to_nat 1) (n :: seq (S n) k)) with (seq (S n) k).
    rewrite take_ge by (rewrite ?length_seq; unfold len; cbn [length]; rewrite length_seq; lia).
    rewrite IH by lia. cbn [mbind result_bind zip_with seq].
    by replace (n + S (length ls))%nat with (S n + length ls)%nat by lia.
Qed.

Lemma flagged_keys n es : (flagged n es).*1 = es.*1.
Proof.
  revert n. induction es as [|[c ls] es IH]; intros n; [done|]. cbn [flagged fmap list_fmap fst].
  f_equal. apply IH.
Qed.

Lemma flagged_app n es1 es2 :
  flagged n (es1 ++ es2) = flagged n es1 ++ flagged (n + numLocs es1) es2.
Proof.
  revert n. induction es1 as [|[c ls] es1 IH]; intros n; cbn [flagged app].
  - by rewrite Nat.add_0_r.
  - rewrite IH. unfold numLocs. rewrite fmap_cons. simpl. do 3 f_equal. lia.
Qed.

Lemma flagged_length n es : length (flagged n es) = length es.
Proof. revert n. induction es as [|[c ls] es IH]; intros n; simpl; auto. Qed.

(** All flags are different, and there is one for each location. *)
Lemma flagged_flags n es :
  mjoin ((λ p, reported <$> p.2) <$> flagged n es) = Some <$> seq n (numLocs es).
Proof.
  revert n. induction es as [|[c ls] es IH]; intros n; [done|].
  cbn [flagged]. rewrite fmap_cons. cbn [mjoin list_join snd]. rewrite IH.
  unfold numLocs. rewrite fmap_cons. cbn [compose snd sum_list sum_list_with].
  rewrite (seq_app (length ls)), fmap_app. f_equal. clear.
  revert n. induction ls as [|l ls IH]; intros n; [done|]. cbn. f_equal. apply IH.
Qed.

Lemma numLocs_app es1 es2 : numLocs (es1 ++ es2) = (numLocs es1 + numLocs es2)%nat.
Proof.
  unfold numLocs. rewrite fmap_app. induction (length ∘ snd <$> es1); simpl; lia.
Qed.

Lemma insert_all s done todo t :
  4 <= s <= 32 → NoDup (done ++ todo).*1 → len (done ++ todo) < 2 ^ s →
  table_ok s t (flagged 0 done) →
  ∃ t', foldM (insert_entry (2 ^ s - 1)) (t, seq (numLocs done) (numLocs todo)) todo = Ok (t', []) ∧
        table_ok s t' (flagged 0 (done ++ todo)).
Proof.
  intros Hs. revert done t. induction todo as [|[c ls] todo IH]; intros done t Hnd Hlen Hok.
  - exists t. by rewrite app_nil_r.
  - cbn [foldM insert_entry].
    assert (numLocs ((c, ls) :: todo) = (length ls + numLocs todo)%nat) as ->.
    { unfold numLocs. by rewrite fmap_cons. }
    rewrite take_flags_ok by lia. cbn [mbind result_bind].
    set (ls' := zip_with with_flag ls (seq (numLocs done) (length ls))).
    destruct (insert_ok s Hs t (flagged 0 done) c ls' Hok) as (t1 & Hrun & Hok1).
    + unfold len in *. rewrite flagged_length. rewrite length_app in Hlen. simpl in Hlen. lia.
    + rewrite flagged_keys. rewrite fmap_app in Hnd. intros Hin.
      apply NoDup_app in Hnd as (_ & Hnd & _). apply (Hnd c Hin). apply list_elem_of_here.
    + rewrite Hrun. cbn [mbind result_bind].
      destruct (IH (done ++ [(c, ls)]) t1) as (t' & Hfold & Hok').
      * by rewrite <- app_assoc.
      * by rewrite <- app_assoc.
      * rewrite flagged_app. cbn [flagged]. rewrite Nat.add_0_l. exact Hok1.
      * exists t'. rewrite <- app_assoc in Hok'. split; [|exact Hok'].
        rewrite numLocs_app in Hfold. unfold numLocs in Hfold at 2.
        rewrite fmap_cons in Hfold. cbn [fmap list_fmap compose snd sum_list] in Hfold.
        replace (length ls + numLocs todo - length ls)%nat with (numLocs todo) by lia.
        simpl in Hfold. by rewrite Nat.add_0_r in Hfold.
Qed.

(** The table answers like the map it was built from, in whatever order the
    map was visited. *)
Lemma newCRCLookupTable_ok es :
  NoDup es.*1 → len es <= 536870912 →
  ∃ t, newCRCLookupTable es = Ok t ∧
       ∀ c, Lookup t c = Ok ((list_to_map (flagged 0 es) : gmap Z _) !! c).
Proof.
  intros Hnd Hlen. assert (0 <= len es) as Hlen0 by (unfold len; lia).
  destruct (table_size_ok (len es) 64 0) as (i & _ & Hsize & Hlo & Hhi).
  - by left.
  - transitivity (2 ^ 31); [lia|]. apply Z.pow_le_mono_r; lia.
  - set (s := Z.of_nat (4 + i)) in *.
    assert (4 <= s <= 32) as Hs.
    { split; [lia|]. destruct (Z.le_gt_cases s 32) as [?|Hgt]; [done|].
      assert (2 ^ 33 <= 2 ^ s) by (apply Z.pow_le_mono_r; lia).
      change (2 ^ 33) with 8589934592 in *. lia. }
    pose proof (size_bounds s Hs) as Hb.
    change (2 ^ Z.of_nat (4 + 0)) with 16 in Hsize.
    unfold newCRCLookupTable. rewrite Hsize. cbn [mbind result_bind].
    rewrite wrap32_id by zlia.
    destruct (insert_all s [] es (replicate (Z.to_nat (2 ^ s)) empty_entry) Hs)
      as (t & Hrun & Hok); [done|unfold len in *; simpl; lia|by apply empty_ok|].
    cbn [app] in *. change (numLocs []) with 0%nat in Hrun. rewrite Hrun.
    cbn [mbind result_bind]. eexists. split; [done|]. intros c.
    apply (lookup_ok s Hs t (flagged 0 es)); [done| |by rewrite flagged_keys].
    unfold len in *. rewrite flagged_length. lia.
Qed.
