(* ===== verification/Decoder.v ===== *)
(** * The decoder: packet streams and recovery volumes (src/par2/decoder.go)

    The [Decoder] of the source as a record, and its operations as functions
    from the decoder to the decoder and a result: an operation that returns an
    error keeps the changes it made before.  The data types of the file states
    (src/par2/scan.go) are here too, since the decoder holds them.

    The sandbox root is a finite map from names to files.  A file may have
    readable contents, may open but fail to read, or may fail to open; a name
    that is not in the map does not exist.  [ctx i] tells whether the context
    has been cancelled when the loop polls it for the [i]-th time. *)

From stdpp Require Import gmap.
From S2P Require Import Prelude Md5 Packet.

(** ** File states *)

Record shardLocation := {
  FileID_ : FileID;
  Offset : Z
}.

Inductive fileDamage :=
  | damageUnchecked
  | damageNone
  | damageMissing
  | damageWrongSize
  | damageWrongHash.

#[export] Instance fileDamage_eq_dec : EqDecision fileDamage.
Proof. solve_decision. Defined.
#[export] Instance shardLocation_eq_dec : EqDecision shardLocation.
Proof. solve_decision. Defined.

Record fileIntegrityState := {
  st_FileID : FileID;
  st_Filename : list Z;
  Damage : fileDamage;
  RenameSource : list Z;
  ShardLocations : list shardLocation
}.

#[export] Instance fileIntegrityState_eq_dec : EqDecision fileIntegrityState.
Proof. solve_decision. Defined.

Definition needsRebuild (s : fileIntegrityState) : bool :=
  match Damage s with
  | damageMissing | damageWrongSize | damageWrongHash => true
  | _ => false
  end.

Definition skipsBlockScan (s : fileIntegrityState) : bool :=
  bool_decide (Damage s = damageMissing) || bool_decide (Damage s = damageNone).

(** Assignments to the fields of a state. *)
Definition set_Damage (x : fileDamage) (s : fileIntegrityState) : fileIntegrityState :=
  {| st_FileID := st_FileID s; st_Filename := st_Filename s; Damage := x;
     RenameSource := RenameSource s; ShardLocations := ShardLocations s |}.
Definition set_RenameSource (x : list Z) (s : fileIntegrityState) : fileIntegrityState :=
  {| st_FileID := st_FileID s; st_Filename := st_Filename s; Damage := Damage s;
     RenameSource := x; ShardLocations := ShardLocations s |}.
Definition set_ShardLocations (x : list shardLocation) (s : fileIntegrityState) : fileIntegrityState :=
  {| st_FileID := st_FileID s; st_Filename := st_Filename s; Damage := Damage s;
     RenameSource := RenameSource s; ShardLocations := x |}.

(** ** Shard counts *)

Record ShardCounts := {
  UsableDataShardCount : Z;
  UnusableDataShardCount : Z;
  UsableParityShardCount : Z;
  UnusableParityShardCount : Z;
  RenamesNeeded : Z;
  FilesNeedingRebuild : Z
}.

Definition RepairNeeded (sc : ShardCounts) : bool :=
  (UnusableDataShardCount sc >? 0) || (RenamesNeeded sc >? 0) || (FilesNeedingRebuild sc >? 0).

Definition RepairPossible (sc : ShardCounts) : bool :=
  UsableParityShardCount sc >=? UnusableDataShardCount sc.

Definition BlocksNeeded (sc : ShardCounts) : Z :=
  let deficit := UnusableDataShardCount sc - UsableParityShardCount sc in
  if deficit <? 0 then 0 else deficit.

(** ** The decoder *)

Record Decoder := {
  numGoroutines : Z;
  memoryLimit : Z;
  maxFileSize : Z;
  maxPacketSize : Z;
  sliceByteCount : Z;
  recoverySetID : list Z;
  protectedFiles : list FileDescPacket;
  fileChecksums : gmap FileID IFSCPacket;
  parityShards : gmap Z (list Z);
  fileIntegrity : gmap FileID fileIntegrityState;
  candidateFiles : gmap (list Z) FileID;
  candidateByID : gmap FileID (list Z);
  parityFileBlocks : gmap (list Z) Z
}.

Record DecoderOptions := {
  NumGoroutines : Z;
  MemoryLimit : Z;
  MaxFileSize : Z;
  MaxPacketSize : Z
}.

(** The defaults of [NewDecoder]; [DefaultNumGoroutines] asks the runtime. *)
Definition with_defaults (DefaultNumGoroutines : Z) (opts : DecoderOptions) : DecoderOptions :=
  {| NumGoroutines := if NumGoroutines opts <=? 0 then DefaultNumGoroutines else NumGoroutines opts;
     MemoryLimit := if MemoryLimit opts <=? 0 then 16 * 1024 * 1024 else MemoryLimit opts;
     MaxFileSize := if MaxFileSize opts <=? 0 then 100 * 1024 * 1024 else MaxFileSize opts;
     MaxPacketSize := if MaxPacketSize opts <=? 0 then 128 * 1024 * 1024 else MaxPacketSize opts |}.

Definition zero16 : list Z := replicate 16 0.

Definition new_decoder (opts : DecoderOptions) : Decoder :=
  {| numGoroutines := NumGoroutines opts; memoryLimit := MemoryLimit opts;
     maxFileSize := MaxFileSize opts; maxPacketSize := MaxPacketSize opts;
     sliceByteCount := 0; recoverySetID := zero16; protectedFiles := [];
     fileChecksums := ∅; parityShards := ∅; fileIntegrity := ∅;
     candidateFiles := ∅; candidateByID := ∅; parityFileBlocks := ∅ |}.

(** Assignments to the fields of the decoder. *)
Definition set_sliceByteCount (x : Z) (d : Decoder) : Decoder :=
  {| numGoroutines := numGoroutines d; memoryLimit := memoryLimit d; maxFileSize := maxFileSize d;
     maxPacketSize := maxPacketSize d; sliceByteCount := x; recoverySetID := recoverySetID d;
     protectedFiles := protectedFiles d; fileChecksums := fileChecksums d;
     parityShards := parityShards d; fileIntegrity := fileIntegrity d;
     candidateFiles := candidateFiles d; candidateByID := candidateByID d;
     parityFileBlocks := parityFileBlocks d |}.
Definition set_recoverySetID (x : list Z) (d : Decoder) : Decoder :=
  {| numGoroutines := numGoroutines d; memoryLimit := memoryLimit d; maxFileSize := maxFileSize d;
     maxPacketSize := maxPacketSize d; sliceByteCount := sliceByteCount d; recoverySetID := x;
     protectedFiles := protectedFiles d; fileChecksums := fileChecksums d;
     parityShards := parityShards d; fileIntegrity := fileIntegrity d;
     candidateFiles := candidateFiles d; candidateByID := candidateByID d;
     parityFileBlocks := parityFileBlocks d |}.
Definition set_protectedFiles (x : list FileDescPacket) (d : Decoder) : Decoder :=
  {| numGoroutines := numGoroutines d; memoryLimit := memoryLimit d; maxFileSize := maxFileSize d;
     maxPacketSize := maxPacketSize d; sliceByteCount := sliceByteCount d;
     recoverySetID := recoverySetID d; protectedFiles := x; fileChecksums := fileChecksums d;
     parityShards := parityShards d; fileIntegrity := fileIntegrity d;
     candidateFiles := candidateFiles d; candidateByID := candidateByID d;
     parityFileBlocks := parityFileBlocks d |}.
Definition set_fileChecksums (x : gmap FileID IFSCPacket) (d : Decoder) : Decoder :=
  {| numGoroutines := numGoroutines d; memoryLimit := memoryLimit d; maxFileSize := maxFileSize d;
     maxPacketSize := maxPacketSize d; sliceByteCount := sliceByteCount d;
     recoverySetID := recoverySetID d; protectedFiles := protectedFiles d; fileChecksums := x;
     parityShards := parityShards d; fileIntegrity := fileIntegrity d;
     candidateFiles := candidateFiles d; candidateByID := candidateByID d;
     parityFileBlocks := parityFileBlocks d |}.
Definition set_parity (x : gmap Z (list Z)) (y : gmap (list Z) Z) (d : Decoder) : Decoder :=
  {| numGoroutines := numGoroutines d; memoryLimit := memoryLimit d; maxFileSize := maxFileSize d;
     maxPacketSize := maxPacketSize d; sliceByteCount := sliceByteCount d;
     recoverySetID := recoverySetID d; protectedFiles := protectedFiles d;
     fileChecksums := fileChecksums d; parityShards := x; fileIntegrity := fileIntegrity d;
     candidateFiles := candidateFiles d; candidateByID := candidateByID d;
     parityFileBlocks := y |}.
Definition set_fileIntegrity (x : gmap FileID fileIntegrityState) (d : Decoder) : Decoder :=
  {| numGoroutines := numGoroutines d; memoryLimit := memoryLimit d; maxFileSize := maxFileSize d;
     maxPacketSize := maxPacketSize d; sliceByteCount := sliceByteCount d;
     recoverySetID := recoverySetID d; protectedFiles := protectedFiles d;
     fileChecksums := fileChecksums d; parityShards := parityShards d; fileIntegrity := x;
     candidateFiles := candidateFiles d; candidateByID := candidateByID d;
     parityFileBlocks := parityFileBlocks d |}.
Definition set_candidates (x : gmap (list Z) FileID) (y : gmap FileID (list Z)) (d : Decoder) : Decoder :=
  {| numGoroutines := numGoroutines d; memoryLimit := memoryLimit d; maxFileSize := maxFileSize d;
     maxPacketSize := maxPacketSize d; sliceByteCount := sliceByteCount d;
     recoverySetID := recoverySetID d; protectedFiles := protectedFiles d;
     fileChecksums := fileChecksums d; parityShards := parityShards d;
     fileIntegrity := fileIntegrity d; candidateFiles := x; candidateByID := y;
     parityFileBlocks := parityFileBlocks d |}.

(** ** The sandbox *)

Inductive file :=
  | Contents (data : list Z)
  | BadRead (size : Z)
  | NoOpen.

Abbreviation Root := (gmap (list Z) file).

Definition ErrNotExist : string := "file does not exist".
Definition ErrOpen : string := "cannot open file".
Definition ErrRead : string := "read error".

(** [root.Open]: the handle is the file itself. *)
Definition Open (root : Root) (name : list Z) : result file :=
  match root !! name with
  | None => Err ErrNotExist
  | Some NoOpen => Err ErrOpen
  | Some f => Ok f
  end.

(** [f.Stat] and the size it reports. *)
Definition Size (f : file) : Z :=
  match f with
  | Contents data => len data
  | BadRead size => size
  | NoOpen => 0
  end.

(** Everything that is left to read from an open file. *)
Definition ReadAll (f : file) : result (list Z) :=
  match f with
  | Contents data => Ok data
  | _ => Err ErrRead
  end.

(** ** Packet streams *)

(** An operation on the decoder: the new state, also when it fails. *)
Definition op : Type := Decoder → Decoder * result unit.

Definition ErrCanceled : string := "context canceled".

Definition handler : Type := Header → list Z → op.

(** One packet: what is left of the file, and the decoder after the handler. *)
Definition stream_packet (handle : handler) (d : Decoder) (h : Header) (r : list Z) :
    Decoder * result (list Z) :=
  let bodyLen := int64 (Length h - 64) in
  if (bodyLen <? 0) || (bodyLen >? maxPacketSize d)
  then (d, Err "packet body exceeds safe engine limits")
  else match ReadFull bodyLen r with
  | Err e => (d, Err e)
  | Panic m => (d, Panic m)
  | Ok (body, r) =>
      if negb (bool_decide (ComputePacketHash (RecoverySetID h) (Type_ h) body = Hash h))
      then (d, Err "corrupt packet hash mismatch")
      else if bool_decide (recoverySetID d = zero16) then
        let '(d, res) := handle h body (set_recoverySetID (RecoverySetID h) d) in
        (d, r ← (λ _, r) <$> res; Ok r)
      else if negb (bool_decide (RecoverySetID h = recoverySetID d)) then (d, Ok r)
      else
        let '(d, res) := handle h body d in
        (d, r ← (λ _, r) <$> res; Ok r)
  end.

(** The loop of [streamPAR2Packets]; each turn consumes a header, so the
    number of bytes left is fuel enough. *)
Fixpoint stream_loop (fuel : nat) (ctx : nat → bool) (i : nat) (handle : handler)
    (d : Decoder) (r : list Z) : Decoder * result unit :=
  match fuel with
  | O => (d, Panic "loop does not terminate")
  | S fuel =>
      if ctx i then (d, Err ErrCanceled) else
      match ReadHeader r with
      | Err e =>
          if bool_decide (e = EOF) then (d, Ok tt)
          else (d, Err ("failed to read packet header: " +:+ e))
      | Panic m => (d, Panic m)
      | Ok (h, r) =>
          let '(d, res) := stream_packet handle d h r in
          match res with
          | Ok r => stream_loop fuel ctx (S i) handle d r
          | Err e => (d, Err e)
          | Panic m => (d, Panic m)
          end
      end
  end.

Definition streamPAR2Packets (ctx : nat → bool) (root : Root) (filename : list Z)
    (handle : handler) : op := λ d,
  match Open root filename with
  | Err e => (d, Err e)
  | Panic m => (d, Panic m)
  | Ok f =>
      if Size f >? maxFileSize d then (d, Err "file exceeds maximum allowed size") else
      match ReadAll f with
      | Ok r => stream_loop (S (length r)) ctx 0 handle d r
      | _ => if ctx 0%nat then (d, Err ErrCanceled)
             else (d, Err ("failed to read packet header: " +:+ ErrRead))
      end
  end.

(** ** Packet handlers *)

(** A new exponent is stored and counted for its file; a known one is not. *)
Definition add_parity (p : recoveryPacket) (filename : list Z) (d : Decoder) : Decoder :=
  match parityShards d !! Exponent p with
  | Some _ => d
  | None =>
      set_parity (<[Exponent p := Data p]> (parityShards d))
        (<[filename := default 0 (parityFileBlocks d !! filename) + 1]> (parityFileBlocks d)) d
  end.

(** Run a parser and hand what it returns to [f]. *)
Definition parsed {A} (r : result A) (f : A → Decoder → Decoder) : op := λ d,
  match r with
  | Ok p => (f p d, Ok tt)
  | Err e => (d, Err e)
  | Panic m => (d, Panic m)
  end.

Definition add_file (p : option FileDescPacket) (d : Decoder) : Decoder :=
  match p with
  | None => d
  | Some p =>
      if existsb (λ f, bool_decide (fd_FileID f = fd_FileID p)) (protectedFiles d) then d
      else set_protectedFiles (protectedFiles d ++ [p]) d
  end.

Definition handlePacket (filename : list Z) : handler := λ h body,
  if bool_decide (Type_ h = MainPacketType) then
    parsed (ParseMainPacket body) (λ p, set_sliceByteCount (SliceByteCount p))
  else if bool_decide (Type_ h = FileDescPacketType) then
    parsed (ParseFileDescPacket body) add_file
  else if bool_decide (Type_ h = IFSCPacketType) then
    parsed (ParseIFSCPacket body)
      (λ p d, set_fileChecksums (<[ifsc_FileID p := p]> (fileChecksums d)) d)
  else if bool_decide (Type_ h = RecoveryPacketType) then
    parsed (ParseRecoveryPacket body) (λ p, add_parity p filename)
  else λ d, (d, Ok tt).

Definition handle_volume (filename : list Z) : handler := λ h body,
  if bool_decide (Type_ h = RecoveryPacketType) then
    parsed (ParseRecoveryPacket body) (λ p, add_parity p filename)
  else λ d, (d, Ok tt).

(** ** Loading the set *)

(** [slices.SortFunc] by file identifier.  The identifiers of a decoder are
    distinct, so every sorting algorithm gives this list. *)
Fixpoint insert_file (f : FileDescPacket) (fs : list FileDescPacket) : list FileDescPacket :=
  match fs with
  | [] => [f]
  | g :: fs' => if FileIDLess (fd_FileID g) (fd_FileID f) then g :: insert_file f fs' else f :: fs
  end.

Definition SortFiles (fs : list FileDescPacket) : list FileDescPacket :=
  foldr insert_file [] fs.

Definition loadIndexFile (ctx : nat → bool) (root : Root) (indexFilename : list Z) : op := λ d,
  let '(d, res) := streamPAR2Packets ctx root indexFilename (handlePacket indexFilename) d in
  match res with
  | Ok _ => (set_protectedFiles (SortFiles (protectedFiles d)) d, Ok tt)
  | _ => (d, res)
  end.

(** [strings.ToLower], for comparing with lower-case ASCII literals. *)
Definition lower (c : Z) : Z := if (65 <=? c) && (c <=? 90) then c + 32 else c.
Definition ToLower (s : list Z) : list Z := lower <$> s.

Definition par2_ext : list Z := ascii ".par2".

Definition is_digit (c : Z) : bool := (48 <=? c) && (c <=? 57).

(** What is left after the digits [\d+] that [s] begins with; [None] without
    a digit. *)
Fixpoint skip_digits (s : list Z) : list Z :=
  match s with
  | c :: s' => if is_digit c then skip_digits s' else s
  | [] => []
  end.
Definition digits1 (s : list Z) : option (list Z) :=
  match s with
  | c :: s' => if is_digit c then Some (skip_digits s') else None
  | [] => None
  end.

(** [(?i)\.vol\d+[+-]\d+$] at the beginning of [s]. *)
Definition volumeTag (s : list Z) : bool :=
  bool_decide (ToLower (take 4 s) = ascii ".vol") &&
  match digits1 (drop 4 s) with
  | Some (c :: s) =>
      ((c =? 43) || (c =? 45)) && bool_decide (digits1 s = Some [])
  | _ => false
  end.

(** [volumeTag.ReplaceAllString(s, "")]: the leftmost match, which reaches
    the end of [s]. *)
Fixpoint strip_tag (s : list Z) : list Z :=
  if volumeTag s then [] else
  match s with
  | [] => []
  | c :: s' => c :: strip_tag s'
  end.

Definition setBaseName (name : list Z) : list Z :=
  let name := if HasSuffix (ToLower name) par2_ext
              then take (length name - length par2_ext) name else name in
  strip_tag name.

Definition loadSingleVolumeFile (ctx : nat → bool) (root : Root) (filename : list Z) : op :=
  streamPAR2Packets ctx root filename (handle_volume filename).

Definition is_volume (indexFilename name : list Z) : bool :=
  negb (bool_decide (name = indexFilename)) && HasSuffix (ToLower name) par2_ext &&
  HasPrefix name (setBaseName indexFilename).

(** The loop over the directory entries: a volume that cannot be loaded is
    skipped, and what it delivered before failing is kept. *)
Fixpoint load_volumes (ctx : nat → bool) (vctx : nat → nat → bool) (i : nat) (root : Root)
    (indexFilename : list Z) (entries : list (list Z)) : op := λ d,
  match entries with
  | [] => (d, Ok tt)
  | name :: entries =>
      if ctx i then (d, Err ErrCanceled)
      else if is_volume indexFilename name then
        let '(d, res) := loadSingleVolumeFile (vctx i) root name d in
        match res with
        | Panic m => (d, Panic m)
        | _ => load_volumes ctx vctx (S i) root indexFilename entries d
        end
      else load_volumes ctx vctx (S i) root indexFilename entries d
  end.

Definition loadVolumeFiles (ctx : nat → bool) (vctx : nat → nat → bool) (root : Root)
    (entries : list (list Z)) (indexFilename : list Z) : op :=
  load_volumes ctx vctx 0 root indexFilename entries.

(** The polls of the context while loading: by the index stream, by the loop
    over the volumes, and by the stream of each volume. *)
Record LoadCtx := {
  index_ctx : nat → bool;
  volumes_ctx : nat → bool;
  volume_ctx : nat → nat → bool
}.

Definition NewDecoder (ctx : LoadCtx) (DefaultNumGoroutines : Z) (root : Root)
    (entries : list (list Z)) (indexFilename : list Z) (opts : DecoderOptions) : result Decoder :=
  let d := new_decoder (with_defaults DefaultNumGoroutines opts) in
  let '(d, res) := loadIndexFile (index_ctx ctx) root indexFilename d in
  res;;
  let '(d, res) := loadVolumeFiles (volumes_ctx ctx) (volume_ctx ctx) root entries indexFilename d in
  res;;
  Ok d.

(** ** Candidates and shard counts *)

Definition AddCandidateFile (path : list Z) : op := λ d,
  match DefangPath path with
  | Err e => (d, Err ("invalid candidate file path: " +:+ e))
  | Panic m => (d, Panic m)
  | Ok defanged =>
      match candidateFiles d !! defanged with
      | Some _ => (d, Ok tt)
      | None =>
          let id := md5_Sum (ascii "candidate:" ++ defanged) in
          (set_candidates (<[defanged := id]> (candidateFiles d))
             (<[id := defanged]> (candidateByID d)) d, Ok tt)
      end
  end.

(** The body of the loop of [shardCountsLocked] over the file states. *)
Definition count_loc (sc : ShardCounts) (loc : shardLocation) : ShardCounts :=
  if Offset loc =? -1 then
    {| UsableDataShardCount := UsableDataShardCount sc;
       UnusableDataShardCount := UnusableDataShardCount sc + 1;
       UsableParityShardCount := UsableParityShardCount sc;
       UnusableParityShardCount := UnusableParityShardCount sc;
       RenamesNeeded := RenamesNeeded sc; FilesNeedingRebuild := FilesNeedingRebuild sc |}
  else
    {| UsableDataShardCount := UsableDataShardCount sc + 1;
       UnusableDataShardCount := UnusableDataShardCount sc;
       UsableParityShardCount := UsableParityShardCount sc;
       UnusableParityShardCount := UnusableParityShardCount sc;
       RenamesNeeded := RenamesNeeded sc; FilesNeedingRebuild := FilesNeedingRebuild sc |}.

Definition count_file (state : fileIntegrityState) (sc : ShardCounts) : ShardCounts :=
  let sc := foldl count_loc sc (ShardLocations state) in
  if negb (bool_decide (RenameSource state = [])) then
    {| UsableDataShardCount := UsableDataShardCount sc;
       UnusableDataShardCount := UnusableDataShardCount sc;
       UsableParityShardCount := UsableParityShardCount sc;
       UnusableParityShardCount := UnusableParityShardCount sc;
       RenamesNeeded := RenamesNeeded sc + 1; FilesNeedingRebuild := FilesNeedingRebuild sc |}
  else if needsRebuild state then
    {| UsableDataShardCount := UsableDataShardCount sc;
       UnusableDataShardCount := UnusableDataShardCount sc;
       UsableParityShardCount := UsableParityShardCount sc;
       UnusableParityShardCount := UnusableParityShardCount sc;
       RenamesNeeded := RenamesNeeded sc; FilesNeedingRebuild := FilesNeedingRebuild sc + 1 |}
  else sc.

Definition shardCountsLocked (d : Decoder) : ShardCounts :=
  map_fold (λ _ state sc, count_file state sc)
    {| UsableDataShardCount := 0; UnusableDataShardCount := 0;
       UsableParityShardCount := Z.of_nat (size (parityShards d));
       UnusableParityShardCount := 0; RenamesNeeded := 0; FilesNeedingRebuild := 0 |}
    (fileIntegrity d).
