(* ===== verification/DecoderFacts.v ===== *)
(** * Facts about loading a PAR2 set

    The invariant of the decoder and that every packet keeps it; streams of
    encoded packets are delivered packet by packet; loading never panics and
    never runs forever; which files are volumes of a set. *)

From stdpp Require Import gmap sorting.
From S2P Require Import Prelude Md5 Packet PacketFacts PathFacts Decoder.

(** ** The parsers never panic *)

Lemma validateFileIDSorted_no_panic ids : no_panic (validateFileIDSorted ids).
Proof. unfold validateFileIDSorted, err_if. by destruct (negb _). Qed.

Lemma ParseMainPacket_total body :
  bytes body →
  match ParseMainPacket body with
  | Ok p => 0 < SliceByteCount p <= maxInt ∧ SliceByteCount p mod 4 = 0
  | Err _ => True
  | Panic _ => False
  end.
Proof.
  intros Hb. unfold ParseMainPacket. destruct (Z.ltb_spec (len body) 12) as [|H12]; [done|].
  destruct (cut_at body 8) as (s8 & r & -> & H8 & Hr); [lia|].
  destruct (cut_at r 4) as (c4 & buf & -> & H4 & Hbuf); [lia|]. unfold len in H8, H4.
  apply Forall_app in Hb as [Hb8 [Hb4 _]%Forall_app].
  rewrite (slice_at_prefix s8 _ 8), (slice_at_app s8 c4 buf 8 12) by lia.
  rewrite (app_assoc s8), slice_at_suffix by (unfold len; rewrite ?length_app; lia).
  cbn [fmap result_fmap mbind result_bind]. clear Hr Hbuf.
  pose proof (le_combine_bound s8 Hb8). pose proof (le_combine_bound c4 Hb4).
  set (s := le_combine s8) in *. set (c := le_combine c4) in *.
  destruct (Z.eqb_spec s 0), (Z.eqb_spec (s mod 4) 0), (Z.gtb_spec s maxInt);
    cbn [orb negb]; try done.
  destruct (negb _); [done|]. set (ids := chunks _ _ _).
  destruct (Z.ltb_spec (wrap32 (len ids)) c) as [|Hc]; [done|].
  assert (wrap32 (len ids) <= len ids) by (apply Z.mod_le; unfold len; lia).
  rewrite !slice_at_ok by (unfold len in *; lia). cbn [mbind result_bind].
  pose proof (validateFileIDSorted_no_panic (take (Z.to_nat (c - 0)) (drop (Z.to_nat 0) ids))) as Hv.
  destruct (validateFileIDSorted _); [|done..]. cbn [mbind result_bind SliceByteCount].
  split; [lia|done].
Qed.

Lemma DefangPath_total name : no_panic (DefangPath name).
Proof.
  rewrite DefangPath_cases. cbv zeta. destruct (IsAbs _); [done|].
  destruct (_ && _); [done|]. by destruct (HasPrefix _ _).
Qed.

(** A description of a file the decoder may list. *)
Definition file_ok (f : FileDescPacket) : Prop :=
  is_id (fd_FileID f) ∧ length (fd_Hash f) = 16%nat ∧ length (SixteenKHash f) = 16%nat ∧
  0 < ByteCount f <= maxInt ∧ confined (Filename f) ∧
  ∃ name, fd_FileID f = computeFileID (SixteenKHash f) (ByteCount f) name.

Lemma ParseFileDescPacket_total body :
  bytes body →
  match ParseFileDescPacket body with
  | Ok (Some p) => file_ok p
  | Ok None | Err _ => True
  | Panic _ => False
  end.
Proof.
  intros Hb. destruct (Z.lt_ge_cases (len body) 56) as [Hl|Hl];
    [by rewrite ParseFileDescPacket_short|].
  destruct (ParseFileDescPacket_fields body Hl)
    as (id & h & h16 & b8 & name & -> & Hid & Hh & H16 & H8).
  rewrite ParseFileDescPacket_cut by done. cbv zeta.
  apply Forall_app in Hb as [Hbid [_ [_ [Hb8 _]%Forall_app]%Forall_app]%Forall_app].
  pose proof (le_combine_bound b8 Hb8). set (n := le_combine b8) in *.
  destruct (bool_decide _) eqn:Hcomp; cbn [negb]; [|done].
  apply bool_decide_eq_true in Hcomp.
  destruct (Z.eqb_spec n 0); [done|].
  pose proof (DefangPath_total (DecodeNullPaddedASCIIString name)) as Hd.
  destruct (DefangPath _) as [p| |] eqn:Hp; cbn [mbind result_bind]; [|done..].
  rewrite Z.gtb_ltb. destruct (Z.ltb_spec maxInt n); [done|].
  unfold file_ok. cbn [fd_FileID fd_Hash SixteenKHash ByteCount Filename].
  split; [done|]. split; [done|]. split; [done|]. split; [lia|].
  split; [by eapply DefangPath_confined|]. by exists (NullTerminate name).
Qed.

Lemma ParseIFSCPacket_total body : no_panic (ParseIFSCPacket body).
Proof.
  unfold ParseIFSCPacket. destruct (Z.ltb_spec (len body) 16) as [|H16]; [done|].
  rewrite !slice_at_ok by (unfold len in *; lia). cbn [mbind result_bind]. cbv zeta.
  by destruct (_ || _).
Qed.

Lemma ParseRecoveryPacket_total body :
  bytes body →
  match ParseRecoveryPacket body with
  | Ok p => recovery_valid p
  | Err _ => True
  | Panic _ => False
  end.
Proof.
  intros Hb. destruct (ParseRecoveryPacket body) as [p|e|s] eqn:Hp; [|done|].
  - by apply (ParseRecoveryPacket_iff body p Hb).
  - revert Hp. unfold ParseRecoveryPacket. destruct (Z.ltb_spec (len body) 4); [done|].
    destruct (negb _); cbn [orb]; [done|].
    rewrite !slice_at_ok by (unfold len in *; lia). cbn [fmap result_fmap mbind result_bind].
    by destruct (_ >? _).
Qed.

(** ** The invariant *)

Definition total_blocks (m : gmap (list Z) Z) : Z := map_fold (λ _ n s, n + s) 0 m.

Lemma total_blocks_insert_fresh m k n :
  m !! k = None → total_blocks (<[k := n]> m) = n + total_blocks m.
Proof.
  intros Hk. unfold total_blocks. rewrite map_fold_insert_L; [done| |done].
  intros. lia.
Qed.

Lemma total_blocks_incr m k :
  total_blocks (<[k := default 0 (m !! k) + 1]> m) = total_blocks m + 1.
Proof.
  destruct (m !! k) as [n|] eqn:Hk; cbn [from_option id].
  - rewrite <- (insert_delete_id m k n) at 2 by done.
    rewrite <- insert_delete_eq, !total_blocks_insert_fresh by apply lookup_delete_eq. lia.
  - rewrite total_blocks_insert_fresh by done. lia.
Qed.

Record decoder_ok (d : Decoder) : Prop := {
  ok_slice : sliceByteCount d = 0 ∨
    (0 < sliceByteCount d <= maxInt ∧ sliceByteCount d mod 4 = 0);
  ok_files : Forall file_ok (protectedFiles d);
  ok_distinct : NoDup (fd_FileID <$> protectedFiles d);
  ok_checksums : map_Forall (λ id p, ifsc_FileID p = id ∧ ifsc_valid p) (fileChecksums d);
  ok_parity : map_Forall (λ e data, 0 <= e <= 32767 ∧ bytes data ∧ len data mod 4 = 0)
                (parityShards d);
  ok_blocks : total_blocks (parityFileBlocks d) = Z.of_nat (size (parityShards d))
}.

(** The part of the decoder that loading does not touch. *)
Definition same_limits (d d' : Decoder) : Prop :=
  numGoroutines d' = numGoroutines d ∧ memoryLimit d' = memoryLimit d ∧
  maxFileSize d' = maxFileSize d ∧ maxPacketSize d' = maxPacketSize d ∧
  candidateFiles d' = candidateFiles d ∧ candidateByID d' = candidateByID d.

(** An operation keeps the invariant and what is known already, and does not
    panic. *)
Definition op_ok (f : op) : Prop := ∀ d,
  decoder_ok d →
  decoder_ok (f d).1 ∧ no_panic (f d).2 ∧ same_limits d (f d).1 ∧
  parityShards d ⊆ parityShards (f d).1.

Lemma new_decoder_ok opts : decoder_ok (new_decoder opts).
Proof.
  split; cbn; [by left|constructor|constructor|apply map_Forall_empty|apply map_Forall_empty|].
  unfold total_blocks. rewrite map_fold_empty, map_size_empty. done.
Qed.

Ltac keeps := split_and!; first [assumption | exact I | reflexivity | by repeat split].

Lemma op_ok_ret : op_ok (λ d, (d, Ok tt)).
Proof. intros d Hd. keeps. Qed.

Lemma add_parity_ok p filename d :
  recovery_valid p → decoder_ok d →
  decoder_ok (add_parity p filename d) ∧ same_limits d (add_parity p filename d) ∧
  parityShards d ⊆ parityShards (add_parity p filename d).
Proof.
  intros Hp Hd. unfold add_parity. destruct (parityShards d !! Exponent p) eqn:He; [keeps|].
  split; [|split; [by repeat split|by apply insert_subseteq]].
  destruct Hd as [H1 H2 H3 H4 H5 H6]. split; try done.
  - cbn [parityShards set_parity]. apply map_Forall_insert_2; [|done].
    destruct Hp as (? & ? & ?). done.
  - cbn [parityFileBlocks parityShards set_parity].
    rewrite total_blocks_incr, map_size_insert_None by done. lia.
Qed.

Lemma add_file_ok p d :
  (if p is Some p then file_ok p else True) → decoder_ok d →
  decoder_ok (add_file p d) ∧ same_limits d (add_file p d) ∧
  parityShards d ⊆ parityShards (add_file p d).
Proof.
  intros Hp Hd. destruct p as [p|]; [|keeps]. cbn [add_file].
  destruct (existsb _ _) eqn:Hex; [keeps|].
  split; [|keeps]. destruct Hd as [H1 H2 H3 H4 H5 H6]. split; try done.
  - cbn [protectedFiles set_protectedFiles]. apply Forall_app. split; [done|]. by constructor.
  - cbn [protectedFiles set_protectedFiles]. rewrite fmap_app. apply NoDup_app.
    split; [done|]. split; [|apply NoDup_singleton].
    intros id (f & -> & Hf)%list_elem_of_fmap Hin%list_elem_of_singleton.
    apply not_true_iff_false in Hex. apply Hex, existsb_exists. exists f.
    split; [by apply list_elem_of_In|]. by apply bool_decide_eq_true.
Qed.

Lemma handle_recovery_ok filename body :
  bytes body → op_ok (parsed (ParseRecoveryPacket body) (λ p, add_parity p filename)).
Proof.
  intros Hb d Hd. unfold parsed. pose proof (ParseRecoveryPacket_total body Hb) as Ht.
  destruct (ParseRecoveryPacket body) as [p| |]; [|keeps|done].
  destruct (add_parity_ok p filename d Ht Hd) as (? & ? & ?). done.
Qed.

Lemma handlePacket_ok filename h body : bytes body → op_ok (handlePacket filename h body).
Proof.
  intros Hb. unfold handlePacket.
  destruct (bool_decide _); [|destruct (bool_decide _); [|destruct (bool_decide _);
    [|destruct (bool_decide _); [by apply handle_recovery_ok|apply op_ok_ret]]]].
  - intros d Hd. unfold parsed. pose proof (ParseMainPacket_total body Hb) as Ht.
    destruct (ParseMainPacket body) as [p| |]; [|keeps|done].
    split; [|keeps]. destruct Hd as [H1 H2 H3 H4 H5 H6]. split; try done.
    by right.
  - intros d Hd. unfold parsed. pose proof (ParseFileDescPacket_total body Hb) as Ht.
    destruct (ParseFileDescPacket body) as [p| |]; [|keeps|done].
    destruct (add_file_ok p d) as (? & ? & ?); [by destruct p|done|]. done.
  - intros d Hd. unfold parsed. pose proof (ParseIFSCPacket_total body) as Ht.
    destruct (ParseIFSCPacket body) as [p| |] eqn:Hp; [|keeps|done].
    apply (ParseIFSCPacket_iff body p Hb) in Hp as [Hv _].
    split; [|keeps]. destruct Hd as [H1 H2 H3 H4 H5 H6]. split; try done.
    cbn [fileChecksums set_fileChecksums]. by apply map_Forall_insert_2.
Qed.

Lemma handle_volume_ok filename h body : bytes body → op_ok (handle_volume filename h body).
Proof.
  intros Hb. unfold handle_volume.
  destruct (bool_decide _); [by apply handle_recovery_ok|apply op_ok_ret].
Qed.

(** ** Streams *)

#[export] Instance same_limits_preorder : PreOrder same_limits.
Proof. split; [done|]. intros d1 d2 d3 (?&?&?&?&?&?) (?&?&?&?&?&?). repeat split; congruence. Qed.

Lemma set_recoverySetID_ok x d : decoder_ok d → decoder_ok (set_recoverySetID x d).
Proof. by intros []. Qed.

Lemma ReadFull_bytes n r b r' :
  bytes r → ReadFull n r = Ok (b, r') →
  bytes b ∧ bytes r' ∧ r = b ++ r' ∧ len b = Z.max 0 n.
Proof.
  intros Hr. unfold ReadFull. destruct (Z.leb_spec n 0).
  - intros [= <- <-]. repeat split; [constructor|done|]. unfold len. simpl. lia.
  - case_bool_decide; [done|]. destruct (Z.ltb_spec (Z.of_nat (length r)) n); [done|].
    intros [= <- <-]. split; [by apply Forall_take|]. split; [by apply Forall_drop|].
    rewrite take_drop. split; [done|]. unfold len. rewrite length_take. lia.
Qed.

Lemma ReadFull_no_panic n r : no_panic (ReadFull n r).
Proof.
  unfold ReadFull. destruct (n <=? 0); [done|]. case_bool_decide; [done|].
  by destruct (_ <? _).
Qed.

Lemma ReadHeader_ok r h r' :
  bytes r → ReadHeader r = Ok (h, r') → bytes r' ∧ (64 + length r' = length r)%nat ∧ 64 <= Length h.
Proof.
  intros Hr. unfold ReadHeader. destruct (ReadFull 64 r) as [[b r1]| |] eqn:Hb;
    cbn [mbind result_bind]; [|done..].
  apply ReadFull_bytes in Hb as (_ & Hr1 & -> & Hl); [|done]. cbv zeta.
  destruct (negb _); [done|]. destruct (_ || _ : bool) eqn:Hor; [done|].
  apply orb_false_iff in Hor as [H64%Z.ltb_ge _].
  intros [= <- <-]. split; [done|]. rewrite length_app.
  unfold len in Hl. split; [lia|done].
Qed.

Lemma ReadHeader_no_panic r : no_panic (ReadHeader r).
Proof.
  unfold ReadHeader. pose proof (ReadFull_no_panic 64 r) as H.
  destruct (ReadFull 64 r) as [[b r1]| |]; cbn [mbind result_bind]; [|done..]. cbv zeta.
  destruct (negb _); [done|]. by destruct (_ || _).
Qed.

Definition handler_ok (handle : handler) : Prop :=
  ∀ h body, bytes body → op_ok (handle h body).

Lemma stream_packet_ok handle d h r :
  handler_ok handle → decoder_ok d → bytes r →
  decoder_ok (stream_packet handle d h r).1 ∧
  match (stream_packet handle d h r).2 with
  | Ok r' => bytes r' ∧ (length r' <= length r)%nat
  | Err _ => True
  | Panic _ => False
  end ∧
  same_limits d (stream_packet handle d h r).1 ∧
  parityShards d ⊆ parityShards (stream_packet handle d h r).1.
Proof.
  intros Hh Hd Hr. unfold stream_packet. destruct (_ || _ : bool); [keeps|].
  pose proof (ReadFull_no_panic (int64 (Length h - 64)) r) as Hnp.
  destruct (ReadFull _ r) as [[body r']| |] eqn:Hrd; [|keeps|done].
  apply ReadFull_bytes in Hrd as (Hbody & Hr' & -> & _); [|done].
  assert (length r' <= length (body ++ r'))%nat by (rewrite length_app; lia).
  destruct (negb (bool_decide (_ = Hash h))); [keeps|].
  destruct (bool_decide (recoverySetID d = zero16));
    [|destruct (negb _); [by split_and!|]].
  - destruct (Hh h body Hbody (set_recoverySetID (RecoverySetID h) d))
      as (H1 & H2 & H3 & H4); [by apply set_recoverySetID_ok|].
    destruct (handle _ _ _) as [d' [| |]]; by split_and!.
  - destruct (Hh h body Hbody d Hd) as (H1 & H2 & H3 & H4).
    destruct (handle _ _ _) as [d' [| |]]; by split_and!.
Qed.

Lemma stream_loop_ok handle (fuel : nat) ctx i d r :
  handler_ok handle → decoder_ok d → bytes r → (length r < fuel)%nat →
  decoder_ok (stream_loop fuel ctx i handle d r).1 ∧
  no_panic (stream_loop fuel ctx i handle d r).2 ∧
  same_limits d (stream_loop fuel ctx i handle d r).1 ∧
  parityShards d ⊆ parityShards (stream_loop fuel ctx i handle d r).1.
Proof.
  intros Hh. revert i d r. induction fuel as [|fuel IH]; intros i d r Hd Hr Hf; [lia|].
  cbn [stream_loop]. destruct (ctx i); [keeps|].
  pose proof (ReadHeader_no_panic r) as Hnp.
  destruct (ReadHeader r) as [[h r1]|e|] eqn:Hrh; [|case_bool_decide; keeps|done].
  apply ReadHeader_ok in Hrh as (Hr1 & Hl & _); [|done].
  destruct (stream_packet_ok handle d h r1 Hh Hd Hr1) as (H1 & H2 & H3 & H4).
  destruct (stream_packet handle d h r1) as [d' [r2|e|]]; cbn [fst snd] in *; [|keeps|done].
  destruct H2 as [Hr2 Hl2].
  destruct (IH (S i) d' r2 H1 Hr2) as (K1 & K2 & K3 & K4); [lia|].
  split_and!; [done|done|by transitivity d'|by transitivity (parityShards d')].
Qed.

(** The contents of every readable file are bytes. *)
Definition root_ok (root : Root) : Prop :=
  map_Forall (λ _ f, if f is Contents data then bytes data else True) root.

Lemma streamPAR2Packets_ok ctx root filename handle :
  root_ok root → handler_ok handle → op_ok (streamPAR2Packets ctx root filename handle).
Proof.
  intros Hroot Hh d Hd. unfold streamPAR2Packets, Open.
  destruct (root !! filename) as [[data|size|]|] eqn:Hf; [| |keeps|keeps].
  - destruct (_ >? _); [keeps|]. cbn [ReadAll]. apply stream_loop_ok; [done|done| |lia].
    exact (Hroot _ _ Hf).
  - destruct (_ >? _); [keeps|]. cbn [ReadAll]. destruct (ctx 0%nat); keeps.
Qed.

Lemma load_volumes_ok ctx vctx i root indexFilename entries :
  root_ok root → op_ok (load_volumes ctx vctx i root indexFilename entries).
Proof.
  intros Hroot. revert i. induction entries as [|name entries IH]; intros i d Hd;
    cbn [load_volumes]; [keeps|].
  destruct (ctx i); [keeps|]. destruct (is_volume _ _); [|by apply IH].
  destruct (streamPAR2Packets_ok (vctx i) root name (handle_volume name) Hroot
              (λ h body, handle_volume_ok name h body) d Hd) as (H1 & H2 & H3 & H4).
  unfold loadSingleVolumeFile.
  destruct (streamPAR2Packets _ _ _ _ d) as [d' res]; cbn [fst snd] in *.
  destruct (IH (S i) d' H1) as (K1 & K2 & K3 & K4).
  destruct res; [| |done]; (split_and!; [done|done|by transitivity d'|
    by transitivity (parityShards d')]).
Qed.

(** ** Sorting the protected files *)

Lemma insert_file_perm f fs : insert_file f fs ≡ₚ f :: fs.
Proof.
  induction fs as [|g fs IH]; [done|]. cbn [insert_file].
  destruct (FileIDLess _ _); [|done]. by rewrite IH, Permutation_swap.
Qed.

Lemma SortFiles_perm fs : SortFiles fs ≡ₚ fs.
Proof.
  induction fs as [|f fs IH]; [done|]. unfold SortFiles in *. cbn [foldr].
  by rewrite insert_file_perm, IH.
Qed.

(** In the order of the file identifiers, as integers. *)
Definition before (f g : FileDescPacket) : Prop :=
  le_combine (fd_FileID f) <= le_combine (fd_FileID g).

Lemma insert_file_hd f g fs :
  HdRel before g fs → before g f → HdRel before g (insert_file f fs).
Proof.
  intros Hg Hgf. destruct fs as [|h fs]; [by constructor|]. cbn [insert_file].
  inversion Hg; subst. destruct (FileIDLess _ _); by constructor.
Qed.

Lemma insert_file_sorted f fs :
  file_ok f → Forall file_ok fs → Sorted before fs → Sorted before (insert_file f fs).
Proof.
  intros Hf Hfs. induction fs as [|g fs IH]; intros Hs; [by repeat constructor|].
  apply Forall_cons in Hfs as [Hg Hfs]. cbn [insert_file].
  rewrite FileIDLess_spec by (apply Hg || apply Hf).
  inversion Hs as [|x l Hs' Hhd]; subst.
  destruct (Z.ltb_spec (le_combine (fd_FileID g)) (le_combine (fd_FileID f))).
  - constructor; [by apply IH|]. apply insert_file_hd; [done|]. unfold before. lia.
  - constructor; [done|]. by constructor.
Qed.

Lemma SortFiles_sorted fs : Forall file_ok fs → Sorted before (SortFiles fs).
Proof.
  induction 1 as [|f fs Hf Hfs IH]; [constructor|]. unfold SortFiles in *. cbn [foldr].
  apply insert_file_sorted; [done| |done].
  eapply Permutation_Forall; [symmetry; apply SortFiles_perm|done].
Qed.

(** Every algorithm that sorts files with distinct identifiers gives the same
    list. *)
Lemma SortFiles_unique fs gs :
  Forall file_ok fs → NoDup (fd_FileID <$> fs) → gs ≡ₚ fs → StronglySorted before gs →
  gs = SortFiles fs.
Proof.
  intros Hok Hnd Hp Hs.
  assert (StronglySorted before (SortFiles fs)) as Hs2.
  { apply Sorted_StronglySorted; [|by apply SortFiles_sorted].
    intros a b c. unfold before. lia. }
  assert (gs ≡ₚ SortFiles fs) as Hp2 by (by rewrite SortFiles_perm).
  assert (∀ f g, f ∈ fs → g ∈ fs → before f g → before g f → f = g) as Hanti.
  { intros f g Hf Hg H1 H2. rewrite Forall_forall in Hok.
    destruct (Hok _ Hf) as ([Bf Lf] & _), (Hok _ Hg) as ([Bg Lg] & _).
    assert (fd_FileID f = fd_FileID g) as He.
    { apply le_combine_inj; [done..|congruence|]. unfold before in *. lia. }
    apply list_elem_of_lookup in Hf as [i Hi], Hg as [j Hj].
    assert (i = j) as <-; [|congruence].
    eapply NoDup_lookup; [exact Hnd| |]; rewrite list_lookup_fmap.
    - rewrite Hi. done.
    - rewrite Hj. simpl. by rewrite He. }
  eapply StronglySorted_unique_strong; [|exact Hs|exact Hs2|exact Hp2].
  intros f g Hf Hg. apply Hanti.
  - by rewrite <- Hp.
  - by rewrite <- SortFiles_perm.
Qed.

(** ** NewDecoder *)

Lemma loadIndexFile_ok ctx root indexFilename d :
  root_ok root → decoder_ok d →
  decoder_ok (loadIndexFile ctx root indexFilename d).1 ∧
  no_panic (loadIndexFile ctx root indexFilename d).2 ∧
  same_limits d (loadIndexFile ctx root indexFilename d).1 ∧
  ((loadIndexFile ctx root indexFilename d).2 = Ok tt →
   Sorted before (protectedFiles (loadIndexFile ctx root indexFilename d).1)).
Proof.
  intros Hroot Hd. unfold loadIndexFile.
  destruct (streamPAR2Packets_ok ctx root indexFilename (handlePacket indexFilename) Hroot
              (λ h body, handlePacket_ok indexFilename h body) d Hd) as (H1 & H2 & H3 & _).
  destruct (streamPAR2Packets _ _ _ _ d) as [d' [[]| |]]; cbn [fst snd] in *;
    [|split_and!; done|done].
  split; [|split; [done|split; [done|]]].
  - destruct H1 as [H1 H2' H3' H4 H5 H6].
    split; try done; cbn [protectedFiles set_protectedFiles].
    + eapply Permutation_Forall; [symmetry; apply SortFiles_perm|done].
    + by rewrite SortFiles_perm.
  - intros _. apply SortFiles_sorted. apply H1.
Qed.

Lemma stream_loop_files filename (fuel : nat) ctx i d r :
  protectedFiles (stream_loop fuel ctx i (handle_volume filename) d r).1 = protectedFiles d.
Proof.
  assert (∀ h body d, protectedFiles (handle_volume filename h body d).1 = protectedFiles d) as Hh.
  { intros h body d0. unfold handle_volume, parsed. destruct (bool_decide _); [|done].
    destruct (ParseRecoveryPacket body); [|done..]. cbn. unfold add_parity.
    by destruct (parityShards d0 !! _). }
  revert i d r. induction fuel as [|fuel IH]; intros i d r; [done|]. cbn [stream_loop].
  destruct (ctx i); [done|]. destruct (ReadHeader r) as [[h r1]|e|]; [|by case_bool_decide|done].
  assert (protectedFiles (stream_packet (handle_volume filename) d h r1).1 = protectedFiles d) as Hp.
  { unfold stream_packet. destruct (_ || _ : bool); [done|].
    destruct (ReadFull _ _) as [[body r2]| |]; [|done..]. destruct (negb _); [done|].
    pose proof (Hh h body) as Hb. destruct (bool_decide _); [|destruct (negb _); [done|]].
    - specialize (Hb (set_recoverySetID (RecoverySetID h) d)).
      by destruct (handle_volume _ _ _ _).
    - specialize (Hb d). by destruct (handle_volume _ _ _ _). }
  destruct (stream_packet _ _ _ _) as [d' [r2| |]]; [|done..].
  cbn [fst] in Hp. by rewrite IH.
Qed.

Lemma load_volumes_files ctx vctx i root indexFilename entries d :
  protectedFiles (load_volumes ctx vctx i root indexFilename entries d).1 = protectedFiles d.
Proof.
  revert i d. induction entries as [|name entries IH]; intros i d; [done|].
  cbn [load_volumes]. destruct (ctx i); [done|]. destruct (is_volume _ _); [|apply IH].
  assert (protectedFiles (loadSingleVolumeFile (vctx i) root name d).1 = protectedFiles d) as Hp.
  { unfold loadSingleVolumeFile, streamPAR2Packets.
    destruct (Open root name) as [f| |]; [|done..]. destruct (_ >? _); [done|].
    destruct (ReadAll f); [apply stream_loop_files|destruct (vctx i 0%nat); done..]. }
  destruct (loadSingleVolumeFile _ _ _ _) as [d' [| |]]; cbn [fst] in *; [| |done];
    by rewrite IH.
Qed.

(** ** Encoded streams *)

(** A packet: its recovery set, its type and its body. *)
Record rawPacket := { pk_set : list Z; pk_type : list Z; pk_body : list Z }.

Definition packet_header (p : rawPacket) : Header :=
  {| Magic := expectedMagic; Length := 64 + len (pk_body p);
     Hash := ComputePacketHash (pk_set p) (pk_type p) (pk_body p);
     RecoverySetID := pk_set p; Type_ := pk_type p |}.

Definition encode_header (h : Header) : list Z :=
  Magic h ++ le_split 8 (Length h) ++ Hash h ++ RecoverySetID h ++ Type_ h.

Definition encode_packet (p : rawPacket) : list Z := encode_header (packet_header p) ++ pk_body p.

Definition packet_valid (limit : Z) (p : rawPacket) : Prop :=
  length (pk_set p) = 16%nat ∧ length (pk_type p) = 16%nat ∧
  len (pk_body p) mod 4 = 0 ∧ len (pk_body p) <= limit ∧
  len (pk_body p) < 9223372036854775808.

Definition header_valid (h : Header) : Prop :=
  Magic h = expectedMagic ∧ 64 <= Length h < 18446744073709551616 ∧ Length h mod 4 = 0 ∧
  length (Hash h) = 16%nat ∧ length (RecoverySetID h) = 16%nat ∧ length (Type_ h) = 16%nat.

Lemma encode_header_length h : header_valid h → length (encode_header h) = 64%nat.
Proof.
  intros (Hm & _ & _ & H1 & H2 & H3). unfold encode_header.
  rewrite !length_app, le_split_length, H1, H2, H3, Hm. done.
Qed.

Lemma take_drop_app {A} (a b c : list A) n m :
  n = length a → m = length b → take m (drop n (a ++ b ++ c)) = b.
Proof. intros -> ->. by rewrite drop_app_length, take_app_length. Qed.

Lemma ReadHeader_encode h r : header_valid h → ReadHeader (encode_header h ++ r) = Ok (h, r).
Proof.
  intros Hv. pose proof (encode_header_length h Hv) as Hlen.
  unfold ReadHeader, ReadFull. cbn [Z.leb Z.compare].
  assert (encode_header h ++ r ≠ []) as Hne.
  { intros Hn. apply (f_equal length) in Hn. rewrite length_app in Hn. simpl in Hn. lia. }
  rewrite bool_decide_eq_false_2 by done.
  rewrite (proj2 (Z.ltb_ge _ 64)) by (rewrite length_app; lia).
  change (Z.to_nat 64) with 64%nat.
  rewrite take_app_length', drop_app_length' by done. cbn [mbind result_bind]. cbv zeta.
  destruct Hv as (Hm & Hl & Hl4 & H1 & H2 & H3). destruct h as [mg l hs rs ty].
  cbn [Magic Length Hash RecoverySetID Type_] in *. subst mg. unfold encode_header.
  cbn [Magic Length Hash RecoverySetID Type_].
  rewrite (take_app_length' expectedMagic) by done.
  rewrite (take_drop_app expectedMagic (le_split 8 l)) by (done || by rewrite le_split_length).
  rewrite (app_assoc expectedMagic), (take_drop_app _ hs)
    by (rewrite ?length_app, ?le_split_length; done).
  rewrite (app_assoc _ hs), (take_drop_app _ rs)
    by (rewrite ?length_app, ?le_split_length, ?H1; done).
  rewrite (app_assoc _ rs), <- (app_nil_r ty), (take_drop_app _ ty [])
    by (rewrite ?length_app, ?le_split_length, ?H1, ?H2; done).
  rewrite le_combine_split, Z.mod_small by lia.
  rewrite bool_decide_eq_true_2 by done. cbn [negb].
  rewrite (proj2 (Z.ltb_ge l 64)), (proj2 (Z.eqb_eq _ 0)) by lia. cbn [orb negb].
  by rewrite app_nil_r.
Qed.

Lemma packet_header_valid limit p : packet_valid limit p → header_valid (packet_header p).
Proof.
  intros (H1 & H2 & H3 & H4 & H5).
  assert (0 <= len (pk_body p)) by (unfold len; lia).
  split; [done|]. cbn [packet_header Length Hash RecoverySetID Type_].
  split; [lia|]. split; [dlia|]. split; [apply md5_length|]. done.
Qed.

(** What becomes of one packet, by the recovery set it belongs to. *)
Definition deliver (handle : handler) (d : Decoder) (p : rawPacket) : Decoder * result unit :=
  if bool_decide (recoverySetID d = zero16)
  then handle (packet_header p) (pk_body p) (set_recoverySetID (pk_set p) d)
  else if bool_decide (pk_set p = recoverySetID d) then handle (packet_header p) (pk_body p) d
  else (d, Ok tt).

Fixpoint deliver_all (handle : handler) (d : Decoder) (ps : list rawPacket) :
    Decoder * result unit :=
  match ps with
  | [] => (d, Ok tt)
  | p :: ps =>
      let '(d, res) := deliver handle d p in
      match res with Ok _ => deliver_all handle d ps | _ => (d, res) end
  end.

Definition keeps_limit (handle : handler) : Prop :=
  ∀ h body d, maxPacketSize (handle h body d).1 = maxPacketSize d.

Lemma handlePacket_limit filename : keeps_limit (handlePacket filename).
Proof.
  intros h body d. unfold handlePacket, parsed.
  destruct (bool_decide _); [by destruct (ParseMainPacket body)|].
  destruct (bool_decide _).
  { destruct (ParseFileDescPacket body) as [[p|]| |]; [|done..]. cbn [fst add_file].
    by destruct (existsb _ _). }
  destruct (bool_decide _); [by destruct (ParseIFSCPacket body)|].
  destruct (bool_decide _); [|done]. destruct (ParseRecoveryPacket body) as [p| |]; [|done..].
  cbn [fst]. unfold add_parity. by destruct (parityShards d !! _).
Qed.

Lemma stream_packet_deliver handle d p r :
  packet_valid (maxPacketSize d) p →
  stream_packet handle d (packet_header p) (pk_body p ++ r) =
  let '(d', res) := deliver handle d p in (d', (λ _, r) <$> res).
Proof.
  intros (H1 & H2 & H3 & H4 & H5). unfold stream_packet.
  assert (0 <= len (pk_body p)) as H0 by (unfold len; lia).
  replace (int64 (Length (packet_header p) - 64)) with (len (pk_body p)).
  2:{ unfold int64. cbn [packet_header Length].
      replace (64 + len (pk_body p) - 64) with (len (pk_body p)) by lia.
      by rewrite (proj2 (Z.ltb_lt _ _)) by lia. }
  rewrite (proj2 (Z.ltb_ge _ 0)), Z.gtb_ltb, (proj2 (Z.ltb_ge _ _)) by done. cbn [orb].
  assert (ReadFull (len (pk_body p)) (pk_body p ++ r) = Ok (pk_body p, r)) as ->.
  { unfold ReadFull, len in *. destruct (Z.leb_spec (Z.of_nat (length (pk_body p))) 0).
    - destruct (pk_body p); [done|simpl in *; lia].
    - rewrite bool_decide_eq_false_2 by (destruct (pk_body p); simpl in *; [lia|done]).
      rewrite (proj2 (Z.ltb_ge _ _)) by (rewrite length_app; lia).
      by rewrite Nat2Z.id, take_app_length, drop_app_length. }
  cbn [packet_header Hash RecoverySetID Type_]. rewrite bool_decide_eq_true_2 by done.
  cbn [negb]. unfold deliver.
  destruct (bool_decide (recoverySetID d = zero16)).
  - destruct (handle _ _ _) as [d' []]; done.
  - destruct (bool_decide (pk_set p = recoverySetID d)); cbn [negb]; [|done].
    destruct (handle _ _ _) as [d' []]; done.
Qed.

Lemma deliver_limit handle d p :
  keeps_limit handle → maxPacketSize (deliver handle d p).1 = maxPacketSize d.
Proof.
  intros Hk. unfold deliver. destruct (bool_decide _); [by rewrite Hk|].
  destruct (bool_decide _); [by rewrite Hk|done].
Qed.

(** Whole packets at the head of a stream are delivered one after the other. *)
Lemma stream_loop_packets handle ps r (fuel : nat) i d :
  keeps_limit handle → Forall (packet_valid (maxPacketSize d)) ps →
  stream_loop (length ps + fuel) (λ _, false) i handle d (mjoin (encode_packet <$> ps) ++ r) =
  match deliver_all handle d ps with
  | (d', Ok _) => stream_loop fuel (λ _, false) (i + length ps) handle d' r
  | (d', res) => (d', res)
  end.
Proof.
  intros Hk. revert i d. induction ps as [|p ps IH]; intros i d Hps.
  { cbn. by rewrite Nat.add_0_r. }
  apply Forall_cons in Hps as [Hp Hps].
  cbn [length Nat.add fmap list_fmap mjoin list_join stream_loop deliver_all].
  unfold encode_packet at 1. rewrite <- !app_assoc.
  rewrite ReadHeader_encode by (by eapply packet_header_valid).
  rewrite stream_packet_deliver by done.
  pose proof (deliver_limit handle d p Hk) as Hl.
  destruct (deliver handle d p) as [d' [u| |]]; cbn [fst fmap result_fmap] in *; [|done..].
  etransitivity; [apply IH; by rewrite Hl|].
  destruct (deliver_all handle d' ps) as [d2 [| |]]; [|done..].
  by rewrite Nat.add_succ_r.
Qed.

Lemma mjoin_cons {A} (x : list A) l : mjoin (x :: l) = x ++ mjoin l.
Proof. done. Qed.

(** A file of whole packets followed by [r]. *)
Lemma streamPAR2Packets_packets root filename handle ps r d :
  root !! filename = Some (Contents (mjoin (encode_packet <$> ps) ++ r)) →
  len (mjoin (encode_packet <$> ps) ++ r) <= maxFileSize d →
  keeps_limit handle → Forall (packet_valid (maxPacketSize d)) ps →
  ∃ fuel, streamPAR2Packets (λ _, false) root filename handle d =
  match deliver_all handle d ps with
  | (d', Ok _) => stream_loop (S fuel) (λ _, false) (length ps) handle d' r
  | (d', res) => (d', res)
  end.
Proof.
  intros Hf Hlen Hk Hps. unfold streamPAR2Packets, Open. rewrite Hf. cbn [Size ReadAll].
  rewrite Z.gtb_ltb, (proj2 (Z.ltb_ge _ _)) by done.
  assert (64 * length ps <= length (mjoin (encode_packet <$> ps)))%nat as Hl.
  { clear Hlen Hf. induction Hps as [|p ps Hp Hps IH]; [simpl; lia|].
    rewrite fmap_cons, mjoin_cons. cbn [length].
    assert (64 <= length (encode_packet p))%nat; [|rewrite length_app; lia].
    unfold encode_packet. rewrite length_app, encode_header_length; [lia|].
    by eapply packet_header_valid. }
  exists (length (mjoin (encode_packet <$> ps) ++ r) - length ps)%nat.
  rewrite <- (stream_loop_packets handle ps r _ 0%nat d Hk Hps).
  f_equal. rewrite length_app. lia.
Qed.

(** ** Names of volumes *)

Lemma digits1_elem s r c : digits1 s = Some r → c ∈ s → is_digit c = true ∨ c ∈ r.
Proof.
  assert (∀ s, c ∈ s → is_digit c = true ∨ c ∈ skip_digits s) as Hs.
  { clear s r. induction s as [|x s IH]; [by intros ?%elem_of_nil|].
    cbn [skip_digits]. destruct (is_digit x) eqn:Hx; [|by right].
    intros [->|Hc]%elem_of_cons; [by left|auto]. }
  destruct s as [|x s]; [done|]. cbn [digits1]. destruct (is_digit x) eqn:Hx; [|done].
  intros [= <-] [->|Hc]%elem_of_cons; [by left|auto].
Qed.

Lemma lower_dot c : lower c = 46 → c = 46.
Proof. unfold lower. destruct (Z.leb_spec 65 c), (Z.leb_spec c 90); simpl; lia. Qed.

Lemma volumeTag_dot s : volumeTag s = true → 46 ∉ tail s.
Proof.
  unfold volumeTag. intros [H4%bool_decide_eq_true Hd]%andb_true_iff Hin.
  destruct s as [|c0 [|c1 [|c2 [|c3 s]]]]; try done.
  change (drop 4 (c0 :: c1 :: c2 :: c3 :: s)) with s in Hd. injection H4 as _ H1 H2 H3.
  cbn [tail] in Hin.
  apply elem_of_cons in Hin as [<-|Hin]; [done|].
  apply elem_of_cons in Hin as [<-|Hin]; [done|].
  apply elem_of_cons in Hin as [<-|Hin]; [done|].
  destruct (digits1 s) as [[|c s']|] eqn:Hs; [done| |done].
  apply andb_true_iff in Hd as [Hc Hd%bool_decide_eq_true].
  destruct (digits1_elem s _ 46 Hs Hin) as [|Hin2]; [done|].
  apply elem_of_cons in Hin2 as [<-|Hin2]; [done|].
  destruct (digits1_elem s' _ 46 Hd Hin2) as [|?%elem_of_nil]; done.
Qed.

(** The tag of a volume: its first exponent and its number of blocks. *)
Definition tag (ds : list Z) (sep : Z) (ds' : list Z) : list Z :=
  ascii ".vol" ++ ds ++ sep :: ds'.

Definition tag_ok (ds : list Z) (sep : Z) (ds' : list Z) : Prop :=
  ds ≠ [] ∧ ds' ≠ [] ∧ Forall (λ c, is_digit c = true) ds ∧
  Forall (λ c, is_digit c = true) ds' ∧ (sep = 43 ∨ sep = 45).

Definition volume_name (base ds : list Z) (sep : Z) (ds' : list Z) : list Z :=
  base ++ tag ds sep ds' ++ par2_ext.

Lemma digits1_app ds r :
  ds ≠ [] → Forall (λ c, is_digit c = true) ds →
  (if r is c :: _ then is_digit c = false else True) → digits1 (ds ++ r) = Some r.
Proof.
  intros Hne Hds Hr. destruct Hds as [|x ds Hx Hds]; [done|].
  cbn [app digits1]. rewrite Hx. f_equal. clear Hne.
  induction Hds as [|y ds Hy _ IH]; cbn [app skip_digits]; [|by rewrite Hy].
  destruct r as [|c r]; [done|]. cbn [skip_digits]. by rewrite Hr.
Qed.

Lemma volumeTag_tag ds sep ds' : tag_ok ds sep ds' → volumeTag (tag ds sep ds') = true.
Proof.
  intros (H1 & H2 & H3 & H4 & H5). unfold volumeTag.
  change (take 4 (tag ds sep ds')) with (ascii ".vol").
  change (drop 4 (tag ds sep ds')) with (ds ++ sep :: ds').
  rewrite digits1_app by (done || by destruct H5 as [->| ->]).
  assert (digits1 ds' = Some []) as ->.
  { rewrite <- (app_nil_r ds'). by apply digits1_app. }
  by destruct H5 as [->| ->].
Qed.

Lemma strip_tag_tag base ds sep ds' :
  tag_ok ds sep ds' → strip_tag (base ++ tag ds sep ds') = base.
Proof.
  intros Ht. induction base as [|c base IH].
  - assert (∀ s, volumeTag s = true → strip_tag s = []) as Hs.
    { intros [|c s] Hs; cbn [strip_tag]; [done|by rewrite Hs]. }
    by apply Hs, volumeTag_tag.
  - cbn [app strip_tag]. destruct (volumeTag _) eqn:Hv.
    + apply volumeTag_dot in Hv. cbn [tail] in Hv. destruct Hv.
      apply elem_of_app. right. apply list_elem_of_here.
    + by rewrite IH.
Qed.

Lemma strip_tag_prefix s : ∃ r, s = strip_tag s ++ r.
Proof.
  induction s as [|c s [r Hr]]; [exists []; by destruct (volumeTag [])|].
  cbn [strip_tag]. destruct (volumeTag _); [by exists (c :: s)|].
  exists r. cbn [app]. by rewrite <- Hr.
Qed.

Lemma HasSuffix_par2 s : HasSuffix (ToLower (s ++ par2_ext)) par2_ext = true.
Proof.
  unfold HasSuffix, ToLower. rewrite fmap_app, length_app, length_fmap.
  change (lower <$> par2_ext) with par2_ext.
  rewrite bool_decide_eq_true_2 by lia. apply bool_decide_eq_true_2.
  rewrite Nat.add_sub. apply drop_app_length'. by rewrite length_fmap.
Qed.

Lemma setBaseName_par2 s : setBaseName (s ++ par2_ext) = strip_tag s.
Proof.
  unfold setBaseName. rewrite HasSuffix_par2, length_app, Nat.add_sub.
  by rewrite take_app_length.
Qed.

Lemma HasPrefix_app s r : HasPrefix (s ++ r) s = true.
Proof. apply bool_decide_eq_true_2. apply take_app_length. Qed.

(** Every volume of a set belongs to the index file and to every other volume
    of it. *)
Lemma is_volume_ok base index ds sep ds' :
  tag_ok ds sep ds' →
  index = base ++ par2_ext ∨
    (∃ es sep' es', tag_ok es sep' es' ∧ index = volume_name base es sep' es') →
  volume_name base ds sep ds' ≠ index →
  is_volume index (volume_name base ds sep ds') = true.
Proof.
  intros Ht Hi Hne. unfold is_volume. rewrite bool_decide_eq_false_2 by done.
  unfold volume_name in *. rewrite (app_assoc base), HasSuffix_par2. cbn [negb andb].
  destruct Hi as [->|(es & sep' & es' & Ht' & ->)].
  - rewrite setBaseName_par2. destruct (strip_tag_prefix base) as [r Hr].
    rewrite Hr at 1. rewrite <- !app_assoc. apply HasPrefix_app.
  - rewrite (app_assoc base), setBaseName_par2, strip_tag_tag by done.
    rewrite <- app_assoc. apply HasPrefix_app.
Qed.

(** What loading returns satisfies the invariant, and keeps the options. *)
Lemma NewDecoder_ok ctx cores root entries indexFilename opts d :
  root_ok root → NewDecoder ctx cores root entries indexFilename opts = Ok d →
  decoder_ok d ∧ same_limits (new_decoder (with_defaults cores opts)) d.
Proof.
  intros Hroot. unfold NewDecoder. pose proof (new_decoder_ok (with_defaults cores opts)) as H0.
  destruct (loadIndexFile_ok (index_ctx ctx) root indexFilename _ Hroot H0) as (H1 & _ & L1 & _).
  destruct (loadIndexFile _ _ _ _) as [d1 [[]| |]]; cbn [fst snd mbind result_bind] in *; [|done..].
  destruct (load_volumes_ok (volumes_ctx ctx) (volume_ctx ctx) 0 root indexFilename entries Hroot d1 H1)
    as (K1 & _ & L2 & _). unfold loadVolumeFiles.
  destruct (load_volumes _ _ _ _ _ _ d1) as [d2 [[]| |]]; cbn [fst snd mbind result_bind] in *;
    [|done..]. intros [= <-]. split; [done|by etransitivity].
Qed.

Lemma NewDecoder_decoder_ok ctx cores root entries indexFilename opts d :
  root_ok root → NewDecoder ctx cores root entries indexFilename opts = Ok d → decoder_ok d.
Proof. intros Hroot H. by apply NewDecoder_ok in H as [? _]. Qed.
