(* ===== verification/Blocks.v ===== *)
(** * The block scan (src/par2/scan.go, [blockScanner])

    Matching windows of a file against the checksums of the set: [matchBlock],
    [claimGrid], the sliding window of [scanChunk], and the division of a file
    into chunks.

    Scans of different chunks and files run at the same time and share the
    [reported] flags.  One scan is modelled with all the others as its
    environment: [flags_by_others t] is the set of flags that other goroutines
    have set when this one makes its [t]-th atomic access to a flag.  What is
    proved holds for every environment, so for every interleaving.  The events
    a scan sends on [matchChan] are collected in the order it sends them. *)

From stdpp Require Import gmap.
From S2P Require Import Prelude Md5 Crc32 Packet CrcTable Decoder.

Record matchEvent := {
  targetFileID : FileID;
  ev_shardIndex : Z;
  sourceFileID : FileID;
  offset : Z
}.

#[export] Instance matchEvent_eq_dec : EqDecision matchEvent.
Proof. solve_decision. Defined.

Record blockMatch := {
  inPlace : bool;
  reportedNew : bool
}.

Definition no_match : blockMatch := {| inPlace := false; reportedNew := false |}.

(** The state of one scan: the flags it has set, its accesses to flags so far,
    and the events it has sent. *)
Record scanState := {
  flags_set : gset nat;
  accesses : nat;
  events : list matchEvent
}.

Definition scan_start : scanState := {| flags_set := ∅; accesses := 0; events := [] |}.

(** The polls of the context. *)
Inductive place :=
  | AtExistence | AtCandidates | AtProtected | AtScanFiles | AtScanCandidates
  | AtChunks | AtSemaphore | AtSlide | AtEnd.

Definition Ctx : Type := place → nat → bool.

(** [f.ReadAt(buf, off)] into a zeroed buffer of [n] bytes. *)
Definition ReadAt (data : list Z) (off : Z) (n : nat) : list Z :=
  let got := take n (drop (Z.to_nat off) data) in
  got ++ replicate (n - length got) 0.

Definition scanChunkSize : Z := 32 * 1024 * 1024.

Section Scanner.
Context (window : crc32Window) (lookupTable : crcLookupTable) (bs : Z).
Context (candidateByID : gmap FileID (list Z)) (flags_by_others : nat → gset nat).
Context (ctx : Ctx).

Definition isCandidate (id : FileID) : bool :=
  match candidateByID !! id with Some _ => true | None => false end.

(** [loc.reported.Load()], and [loc.reported.CompareAndSwap(false, true)]. *)
Definition flag_value (f : option nat) (st : scanState) : result bool :=
  match f with
  | None => Panic "nil pointer dereference"
  | Some n => Ok (bool_decide (n ∈ flags_set st ∪ flags_by_others (accesses st)))
  end.

Definition accessed (st : scanState) : scanState :=
  {| flags_set := flags_set st; accesses := S (accesses st); events := events st |}.

Definition Load (f : option nat) (st : scanState) : result (bool * scanState) :=
  b ← flag_value f st; Ok (b, accessed st).

Definition CompareAndSwap (f : option nat) (st : scanState) : result (bool * scanState) :=
  b ← flag_value f st;
  if b : bool then Ok (false, accessed st)
  else Ok (true, {| flags_set := match f with Some n => {[n]} ∪ flags_set st | None => flags_set st end;
                    accesses := S (accesses st); events := events st |}).

Fixpoint allReported (locations : list checksumLocation) (st : scanState) :
    result (bool * scanState) :=
  match locations with
  | [] => Ok (true, st)
  | loc :: locations =>
      '(b, st) ← Load (reported loc) st;
      if negb b then Ok (false, st) else allReported locations st
  end.

Definition send (e : matchEvent) (st : scanState) : scanState :=
  {| flags_set := flags_set st; accesses := accesses st; events := events st ++ [e] |}.

(** The variables of the loop over the locations in [matchBlock]. *)
Record matchVars := {
  own : bool;
  other : bool;
  new : bool;
  mv_state : scanState
}.

Definition match_loc (source : FileID) (blockHash : list Z) (absPos shardIdx : Z)
    (atShardBoundary : bool) (v : matchVars) (loc : checksumLocation) : result matchVars :=
  if negb (bool_decide (md5Hash loc = blockHash)) then Ok v else
  let here := atShardBoundary && (shardIndex loc =? shardIdx) in
  let own' := if here then own v || bool_decide (fileID loc = source) else own v in
  let other' := if here then other v || negb (bool_decide (fileID loc = source)) else other v in
  '(b, st) ← Load (reported loc) (mv_state v);
  '(fresh, st) ← (if negb b then CompareAndSwap (reported loc) st else Ok (false, st));
  let st := send {| targetFileID := fileID loc; ev_shardIndex := shardIndex loc;
                    sourceFileID := source; offset := absPos |} st in
  Ok {| own := own'; other := other'; new := new v || fresh; mv_state := st |}.

Definition matchBlock (source : FileID) (slice : list Z) (crc absPos : Z) (st : scanState) :
    result (blockMatch * scanState) :=
  let shardIdx := absPos / bs in
  let atShardBoundary := absPos mod bs =? 0 in
  found ← Lookup lookupTable crc;
  match found with
  | None => Ok (no_match, st)
  | Some locations =>
      '(skip, st) ← (if negb atShardBoundary then allReported locations st else Ok (false, st));
      if skip : bool then Ok (no_match, st) else
      let blockHash := md5_Sum slice in
      v ← foldM (match_loc source blockHash absPos shardIdx atShardBoundary)
            {| own := false; other := false; new := false; mv_state := st |} locations;
      Ok ({| inPlace := own v || (other v && isCandidate source); reportedNew := new v |},
          mv_state v)
  end.

(** The window of [data], the bytes of the file from [start], at [abs]. *)
Definition window_at (data : list Z) (start abs : Z) : result (list Z) :=
  slice_at data (abs - start) (abs - start + bs).

Definition claim_step (source : FileID) (data : list Z) (start : Z)
    (st : list bool * scanState) (abs : Z) : result (list bool * scanState) :=
  slice ← window_at data start abs;
  '(m, s) ← matchBlock source slice (ChecksumIEEE slice) abs st.2;
  Ok (st.1 ++ [inPlace m], s).

Definition firstAligned (start : Z) : Z := (start + bs - 1) / bs * bs.

Definition claimGrid (source : FileID) (data : list Z) (start : Z) (st : scanState) :
    result (list bool * scanState) :=
  let lastWindow := len data - bs in
  foldM (claim_step source data start) ([], st)
    (range_by bs (firstAligned start) (start + lastWindow + 1)).

(** [claimed[i]] under its guards: the block that begins at [blockStart] has
    been claimed. *)
Definition is_claimed (claimed : list bool) (start blockStart : Z) : bool :=
  let i := (blockStart - firstAligned start) / bs in
  (blockStart >=? firstAligned start) && (i <? len claimed) &&
  default false (claimed !! Z.to_nat i).

(** The variables of the sliding loop. *)
Record slideVars := {
  sl_j : Z;
  crcSlice : Z;
  justMissed : bool;
  nextBoundary : Z
}.

Fixpoint slide (fuel : nat) (source : FileID) (data : list Z) (start : Z) (claimed : list bool)
    (v : slideVars) (st : scanState) : result scanState :=
  let lastWindow := len data - bs in
  let j := sl_j v in
  if j >? lastWindow then Ok st else
  match fuel with
  | O => Panic no_fuel
  | S fuel =>
      if (Z.land j 65535 =? 0) && ctx AtSlide (Z.to_nat (start + j)) then Ok st else
      let absPos := start + j in
      let blockStart := absPos / bs * bs in
      let entered := absPos >=? nextBoundary v in
      let boundary := if entered then blockStart + bs else nextBoundary v in
      if entered && is_claimed claimed start blockStart then
        slide fuel source data start claimed
          {| sl_j := boundary - start; crcSlice := crcSlice v; justMissed := false;
             nextBoundary := boundary |} st
      else
        slice ← slice_at data j (j + bs);
        crc ← (if justMissed v then
                 before ← index_at data (j - 1);
                 last ← index_at slice (len slice - 1);
                 Ok (update window (crcSlice v) before last)
               else Ok (ChecksumIEEE slice));
        '(m, st) ← matchBlock source slice crc absPos st;
        if reportedNew m then
          slide fuel source data start claimed
            {| sl_j := j + bs; crcSlice := crc; justMissed := false; nextBoundary := boundary |} st
        else
          slide fuel source data start claimed
            {| sl_j := j + 1; crcSlice := crc; justMissed := true; nextBoundary := boundary |} st
  end.

Definition scanChunk (f : file) (source : FileID) (start end_ : Z) (st : scanState) :
    result scanState :=
  let bufferSize := end_ - start in
  if bufferSize <? bs then Ok st else
  match f with
  | Contents content =>
      let data := ReadAt content start (Z.to_nat bufferSize) in
      '(claimed, st) ← claimGrid source data start st;
      slide (length data) source data start claimed
        {| sl_j := 0; crcSlice := 0; justMissed := false; nextBoundary := -1 |} st
  | _ => Err ErrRead
  end.

Definition chunk_start (chunkIdx : Z) : Z := chunkIdx * scanChunkSize.
Definition chunk_end (fileSize chunkIdx : Z) : Z :=
  Z.min (int64 (wrap64 (chunk_start chunkIdx + scanChunkSize + bs - 1))) fileSize.

(** The sum is an int64, which the size of a file does not come near. *)
Definition numChunks (fileSize : Z) : Z := (fileSize + scanChunkSize - 1) / scanChunkSize.

Definition scanLastPartialBlock (f : file) (source : FileID) (byteCount : Z) (st : scanState) :
    result scanState :=
  if byteCount mod bs =? 0 then Ok st else
  let shards := wrap64 (byteCount + bs - 1) / bs in
  let lastBlockStart := (shards - 1) * bs in
  let lastBlockLen := byteCount - lastBlockStart in
  zeros ← make_bytes bs;
  match f with
  | Contents content =>
      let paddedBlock := ReadAt content lastBlockStart (Z.to_nat lastBlockLen) ++
                         drop (Z.to_nat lastBlockLen) zeros in
      '(_, st) ← matchBlock source paddedBlock (ChecksumIEEE paddedBlock) lastBlockStart st;
      Ok st
  | _ => Err ErrRead
  end.

End Scanner.

(** Everything the scans of a set share, and the environments of each of them:
    of chunk [i] of a file, and of its last partial block. *)
Record Scanner := {
  sc_window : crc32Window;
  sc_table : crcLookupTable;
  sc_slice : Z;
  sc_candidates : gmap FileID (list Z);
  chunk_env : FileID → Z → nat → gset nat;
  tail_env : FileID → nat → gset nat;
  sc_ctx : Ctx
}.

Definition scan_chunk_of (s : Scanner) (f : file) (source : FileID) (fileSize i : Z) :
    result scanState :=
  scanChunk (sc_window s) (sc_table s) (sc_slice s) (sc_candidates s) (chunk_env s source i)
    (sc_ctx s) f source (chunk_start i) (chunk_end (sc_slice s) fileSize i) scan_start.

(** One goroutine per chunk, each of which may give up when the context is
    done while it waits for the semaphore; the first error is returned when
    all have finished.  The events are those of all chunks. *)
Fixpoint scan_chunks (s : Scanner) (f : file) (source : FileID) (fileSize : Z) (idxs : list Z) :
    result (list matchEvent) :=
  match idxs with
  | [] => Ok []
  | i :: idxs =>
      if sc_ctx s AtChunks (Z.to_nat i) then Ok [] else
      let rest := scan_chunks s f source fileSize idxs in
      if sc_ctx s AtSemaphore (Z.to_nat i) then rest else
      match scan_chunk_of s f source fileSize i with
      | Ok st => evs ← rest; Ok (events st ++ evs)
      | Err e => match rest with Panic m => Panic m | _ => Err e end
      | Panic m => Panic m
      end
  end.

Definition scanFileChunks (s : Scanner) (f : file) (source : FileID) (fileSize : Z) :
    result (list matchEvent) :=
  scan_chunks s f source fileSize (range 0 (numChunks fileSize)).

(** The common end of [scanFile] and [scanCandidateFile]; the last block of a
    protected file is found by the length it should have. *)
Definition scan_contents (s : Scanner) (f : file) (source : FileID) (fileSize byteCount : Z) :
    result (list matchEvent) :=
  if fileSize =? 0 then Ok [] else
  evs ← scanFileChunks s f source fileSize;
  st ← scanLastPartialBlock (sc_table s) (sc_slice s) (sc_candidates s)
         (tail_env s source) f source byteCount scan_start;
  Ok (evs ++ events st).

(** [scanFile]: the damage it records, if any, and its events. *)
Definition scanFile (s : Scanner) (root : Root) (fd : FileDescPacket) :
    option fileDamage * result (list matchEvent) :=
  match Open root (Filename fd) with
  | Err e => if bool_decide (e = ErrNotExist) then (Some damageMissing, Ok [])
             else (None, Err e)
  | Panic m => (None, Panic m)
  | Ok f =>
      (if negb (Size f =? ByteCount fd) then Some damageWrongSize else None,
       scan_contents s f (fd_FileID fd) (Size f) (ByteCount fd))
  end.

Definition scanCandidateFile (s : Scanner) (root : Root) (path : list Z) (id : FileID) :
    result (list matchEvent) :=
  match Open root path with
  | Err e => if bool_decide (e = ErrNotExist) then Ok [] else Err e
  | Panic m => Panic m
  | Ok f => scan_contents s f id (Size f) (Size f)
  end.
