(* ===== verification/BlocksFacts.v ===== *)
(** * Facts about the block scan

    The scan is proved against an interface to the lookup table, [LookupSpec]:
    what it answers, and that every location it answers with has a flag.  The
    sliding window with its rolling checksum is the scan that computes every
    checksum afresh; it never panics and always ends; it reports only windows
    that hold a block of the set; and every block on the grid is reported,
    whatever other goroutines do with the flags. *)

From stdpp Require Import gmap.
From S2P Require Import Prelude Md5 Crc32 Packet CrcTable Decoder Blocks.

(** What the scan needs of the lookup table. *)
Class LookupSpec (t : crcLookupTable) (answer : Z → option (list checksumLocation)) := {
  lookup_answer : ∀ c, Lookup t c = Ok (answer c);
  lookup_flags : ∀ c ls, answer c = Some ls → Forall (λ l, is_Some (reported l)) ls
}.

Lemma flagged_some n es c ls :
  (c, ls) ∈ flagged n es → Forall (λ l, is_Some (reported l)) ls.
Proof.
  revert n. induction es as [|[c' ls'] es IH]; intros n; [by intros ?%elem_of_nil|].
  cbn [flagged]. intros [[= -> ->]|Hin]%elem_of_cons; [|by eapply IH].
  clear IH. generalize n at 1. induction ls' as [|l ls' IH]; intros k; [constructor|].
  cbn. constructor; [by eexists|]. apply IH.
Qed.

(** The table of the program provides the interface. *)
Lemma newCRCLookupTable_spec es :
  NoDup es.*1 → len es <= 536870912 →
  ∃ t, newCRCLookupTable es = Ok t ∧
       LookupSpec t (λ c, (list_to_map (flagged 0 es) : gmap Z _) !! c).
Proof.
  intros Hnd Hlen. destruct (newCRCLookupTable_ok es Hnd Hlen) as (t & Ht & Hl).
  exists t. split; [done|]. split; [done|]. intros c ls Hc.
  apply elem_of_list_to_map in Hc; [|by rewrite flagged_keys]. by eapply flagged_some.
Qed.

(** ** What a window reports *)

Definition event_of (source : FileID) (abs : Z) (l : checksumLocation) : matchEvent :=
  {| targetFileID := fileID l; ev_shardIndex := shardIndex l; sourceFileID := source;
     offset := abs |}.

Section Scan.
Context (window : crc32Window) (t : crcLookupTable) (bs : Z).
Context (candidateByID : gmap FileID (list Z)) (others : nat → gset nat) (ctx : Ctx).
Context (answer : Z → option (list checksumLocation)) `{Ht : !LookupSpec t answer}.
Context (Hbs : 4 <= bs) (Hw : window_ok window) (Hsize : windowSize window = bs).

(** The blocks of the set that a window equals, by CRC32 and MD5. *)
Definition hits (slice : list Z) : list checksumLocation :=
  filter (λ l, md5Hash l = md5_Sum slice) (default [] (answer (ChecksumIEEE slice))).

Definition block_events (source : FileID) (slice : list Z) (abs : Z) : list matchEvent :=
  event_of source abs <$> hits slice.

(** A window on the grid holds the block that belongs there. *)
Definition expected_here (source : FileID) (slice : list Z) (abs : Z) : bool :=
  existsb (λ l, (shardIndex l =? abs / bs) &&
                (bool_decide (fileID l = source) || isCandidate candidateByID source)) (hits slice).

Definition matchBlock' := matchBlock t bs candidateByID others.

Lemma flag_value_ok l st :
  is_Some (reported l) → ∃ b, flag_value others (reported l) st = Ok b.
Proof. intros [n ->]. by eexists. Qed.

Lemma allReported_ok ls st :
  Forall (λ l, is_Some (reported l)) ls →
  ∃ b st', allReported others ls st = Ok (b, st') ∧ events st' = events st.
Proof.
  intros Hls. revert st. induction Hls as [|l ls Hl _ IH]; intros st; [by exists true, st|].
  cbn [allReported]. unfold Load. destruct (flag_value_ok l st Hl) as [b Hb].
  rewrite Hb. cbn [mbind result_bind]. destruct b; cbn [negb]; [|by eexists _, _].
  destruct (IH (accessed st)) as (b' & st' & -> & He). by exists b', st'.
Qed.

Lemma match_loc_miss source blockHash abs idx atb v l :
  md5Hash l ≠ blockHash → match_loc others source blockHash abs idx atb v l = Ok v.
Proof. intros H. unfold match_loc. by rewrite bool_decide_eq_false_2. Qed.

Lemma match_loc_hit source blockHash abs idx (atb : bool) v l :
  is_Some (reported l) → md5Hash l = blockHash →
  ∃ v', match_loc others source blockHash abs idx atb v l = Ok v' ∧
    events (mv_state v') = events (mv_state v) ++ [event_of source abs l] ∧
    own v' = own v || (atb && (shardIndex l =? idx) && bool_decide (fileID l = source)) ∧
    other v' = other v || (atb && (shardIndex l =? idx) && negb (bool_decide (fileID l = source))).
Proof.
  intros Hl Hh. unfold match_loc. rewrite bool_decide_eq_true_2 by done. cbn [negb].
  unfold Load, CompareAndSwap. destruct (flag_value_ok l (mv_state v) Hl) as [b Hb].
  rewrite Hb. cbn [mbind result_bind].
  destruct (flag_value_ok l (accessed (mv_state v)) Hl) as [b2 Hb2].
  assert (∃ fresh st, (if negb b then
      b ← flag_value others (reported l) (accessed (mv_state v));
      (if b : bool then Ok (false, accessed (accessed (mv_state v)))
       else Ok (true, {| flags_set := match reported l with
                                      | Some n => {[n]} ∪ flags_set (accessed (mv_state v))
                                      | None => flags_set (accessed (mv_state v)) end;
                         accesses := S (accesses (accessed (mv_state v)));
                         events := events (accessed (mv_state v)) |}))
    else Ok (false, accessed (mv_state v))) = Ok (fresh, st) ∧ events st = events (mv_state v))
    as (fresh & st & Hr & Hst).
  { destruct b; cbn [negb]; [by eexists _, _|].
    rewrite Hb2. cbn [mbind result_bind]. destruct b2; by eexists _, _. }
  rewrite Hr. cbn [mbind result_bind]. eexists. split; [reflexivity|].
  cbn [own other mv_state events send]. rewrite Hst. split; [done|].
  destruct (atb && (shardIndex l =? idx)); cbn [andb]; by rewrite ?orb_false_r.
Qed.

Lemma match_loc_fold source blockHash abs idx (atb : bool) ls v :
  Forall (λ l, is_Some (reported l)) ls →
  ∃ v', foldM (match_loc others source blockHash abs idx atb) v ls = Ok v' ∧
    let hs := filter (λ l, md5Hash l = blockHash) ls in
    events (mv_state v') = events (mv_state v) ++ (event_of source abs <$> hs) ∧
    own v' = own v || existsb (λ l, atb && (shardIndex l =? idx) && bool_decide (fileID l = source)) hs ∧
    other v' = other v || existsb (λ l, atb && (shardIndex l =? idx) && negb (bool_decide (fileID l = source))) hs ∧
    (hs = [] → v' = v).
Proof.
  intros Hls. revert v. induction Hls as [|l ls Hl _ IH]; intros v.
  { exists v. cbn. rewrite app_nil_r, !orb_false_r. done. }
  cbn [foldM]. rewrite filter_cons. destruct (decide (md5Hash l = blockHash)) as [Hh|Hh].
  2:{ rewrite match_loc_miss by done. cbn [mbind result_bind]. apply IH. }
  destruct (match_loc_hit source blockHash abs idx atb v l Hl Hh) as (v1 & -> & He1 & Ho1 & Hot1).
  cbn [mbind result_bind]. destruct (IH v1) as (v' & -> & He & Ho & Hot & _).
  exists v'. split; [done|]. cbv zeta. rewrite fmap_cons. cbn [existsb].
  rewrite He, Ho, Hot, He1, Ho1, Hot1, <- app_assoc, !orb_assoc. done.
Qed.

Lemma existsb_or {A} (f g : A → bool) l :
  existsb (λ x, f x || g x) l = existsb f l || existsb g l.
Proof.
  induction l as [|x l IH]; [done|]. cbn. rewrite IH.
  destruct (f x), (g x), (existsb f l), (existsb g l); done.
Qed.

Lemma existsb_and_const {A} (f : A → bool) b l :
  existsb (λ x, f x && b) l = existsb f l && b.
Proof.
  induction l as [|x l IH]; [done|]. cbn. rewrite IH.
  destruct (f x), (existsb f l), b; done.
Qed.

Lemma existsb_ext {A} (f g : A → bool) l : (∀ x, f x = g x) → existsb f l = existsb g l.
Proof. intros H. induction l as [|x l IH]; [done|]. cbn. by rewrite H, IH. Qed.

(** [matchBlock] succeeds and reports the blocks that the window equals; off
    the grid it may report nothing, when all of them have been reported.  What
    it says about a window on the grid does not depend on the flags. *)
Lemma matchBlock_spec source slice abs st :
  ∃ m st', matchBlock' source slice (ChecksumIEEE slice) abs st = Ok (m, st') ∧
    (events st' = events st ++ block_events source slice abs ∨
     (abs mod bs ≠ 0 ∧ events st' = events st)) ∧
    (reportedNew m = true → events st' = events st ++ block_events source slice abs ∧ hits slice ≠ []) ∧
    (abs mod bs = 0 → events st' = events st ++ block_events source slice abs ∧
                      inPlace m = expected_here source slice abs).
Proof.
  unfold matchBlock', matchBlock, block_events, expected_here, hits. rewrite lookup_answer.
  cbn [mbind result_bind]. destruct (answer (ChecksumIEEE slice)) as [ls|] eqn:Ha.
  2:{ eexists _, st. split; [done|]. cbn. rewrite app_nil_r. split_and!; auto; done. }
  cbn [from_option id]. pose proof (lookup_flags _ _ Ha) as Hfl.
  assert (∃ skip st1, (if negb (abs mod bs =? 0) then allReported others ls st else Ok (false, st))
            = Ok (skip, st1) ∧ events st1 = events st ∧ (skip = true → abs mod bs ≠ 0))
    as (skip & st1 & -> & He1 & Hskip).
  { destruct (Z.eqb_spec (abs mod bs) 0); cbn [negb].
    - by exists false, st.
    - destruct (allReported_ok ls st Hfl) as (b & st' & -> & He). by exists b, st'. }
  cbn [mbind result_bind]. destruct skip.
  { eexists _, st1. split; [done|]. split; [right; auto|]. split; [done|].
    intros H0. by destruct (Hskip eq_refl). }
  edestruct match_loc_fold as (v' & -> & He & Ho & Hot & Hn); [exact Hfl|].
  cbn [mbind result_bind]. eexists _, (mv_state v'). split; [reflexivity|].
  cbn [own other new mv_state orb] in *. rewrite He1 in He.
  split; [by left|]. split.
  - cbn [reportedNew]. intros Hnew. split; [done|]. intros Hnil.
    rewrite (Hn Hnil) in Hnew. done.
  - intros H0. split; [done|]. cbn [inPlace]. rewrite Ho, Hot.
    rewrite (proj2 (Z.eqb_eq _ 0) H0). cbn [andb].
    rewrite <- existsb_and_const, <- existsb_or. apply existsb_ext. intros l.
    destruct (shardIndex l =? abs / bs), (bool_decide (fileID l = source)),
      (isCandidate candidateByID source); done.
Qed.

(** ** Windows of a chunk *)

Definition win (data : list Z) (start abs : Z) : list Z :=
  take (Z.to_nat bs) (drop (Z.to_nat (abs - start)) data).

Lemma window_at_ok data start abs :
  start <= abs <= start + (len data - bs) → window_at bs data start abs = Ok (win data start abs).
Proof.
  intros H. unfold window_at. rewrite slice_at_ok by (unfold len in *; lia).
  unfold win. do 2 f_equal. lia.
Qed.

Lemma elem_of_range_by st lo hi x :
  0 < st → x ∈ range_by st lo hi → lo <= x < hi ∧ ∃ k, 0 <= k ∧ x = lo + st * k.
Proof.
  intros Hst. unfold range_by. intros (k & -> & Hk%elem_of_range)%list_elem_of_fmap.
  assert (st * k < hi - lo) as H.
  { assert (st * ((hi - lo + st - 1) / st) <= hi - lo + st - 1) by (apply Z.mul_div_le; lia). nia. }
  split; [nia|]. exists k. lia.
Qed.

Lemma range_by_elem st lo hi k :
  0 < st → 0 <= k → lo + st * k < hi → lo + st * k ∈ range_by st lo hi.
Proof.
  intros Hst Hk Hlt. apply list_elem_of_fmap. exists k. split; [done|]. apply elem_of_range.
  split; [done|]. assert (k + 1 <= (hi - lo + st - 1) / st); [|lia].
  apply Z.div_le_lower_bound; lia.
Qed.

Definition grid (data : list Z) (start : Z) : list Z :=
  range_by bs (firstAligned bs start) (start + (len data - bs) + 1).

Lemma firstAligned_ok start : start <= firstAligned bs start ∧ firstAligned bs start mod bs = 0.
Proof.
  unfold firstAligned. split.
  - pose proof (Z.div_mod (start + bs - 1) bs) as H.
    pose proof (Z.mod_pos_bound (start + bs - 1) bs). nia.
  - apply Z.mod_mul. lia.
Qed.

Lemma grid_elem data start abs :
  abs ∈ grid data start → start <= abs <= start + (len data - bs) ∧ abs mod bs = 0.
Proof.
  intros (H & k & Hk & ->)%elem_of_range_by; [|lia].
  pose proof (firstAligned_ok start) as [H1 H2]. split; [lia|].
  rewrite Z.mul_comm, Z.mod_add by lia. done.
Qed.

Lemma grid_intro data start abs :
  start <= abs <= start + (len data - bs) → abs mod bs = 0 → abs ∈ grid data start.
Proof.
  intros H Hm. pose proof (firstAligned_ok start) as [H1 H2].
  assert (firstAligned bs start <= abs) as Hle.
  { unfold firstAligned in *. apply Z.div_exact in Hm; [|lia]. rewrite Hm.
    rewrite (Z.mul_comm bs). apply Z.mul_le_mono_nonneg_r; [lia|].
    assert ((start + bs - 1) / bs < abs / bs + 1); [|lia].
    apply Z.div_lt_upper_bound; lia. }
  replace abs with (firstAligned bs start + bs * ((abs - firstAligned bs start) / bs)) at 1.
  - apply range_by_elem; [lia| |].
    + apply Z.div_pos; lia.
    + pose proof (Z.mul_div_le (abs - firstAligned bs start) bs). lia.
  - assert ((abs - firstAligned bs start) mod bs = 0) as Hd.
    { rewrite Zminus_mod, Hm, H2. apply Z.mod_0_l. lia. }
    apply Z.div_exact in Hd; lia.
Qed.

(** What the grid of a chunk reports, and which of its blocks are claimed. *)
Definition grid_events (source : FileID) (data : list Z) (start : Z) (l : list Z) : list matchEvent :=
  mjoin ((λ abs, block_events source (win data start abs) abs) <$> l).

Lemma claim_step_ok source data start claimed0 st abs :
  start <= abs <= start + (len data - bs) → abs mod bs = 0 →
  ∃ st', claim_step t bs candidateByID others source data start (claimed0, st) abs =
    Ok (claimed0 ++ [expected_here source (win data start abs) abs], st') ∧
    events st' = events st ++ block_events source (win data start abs) abs.
Proof.
  intros Hr Hm. unfold claim_step. rewrite window_at_ok by done.
  cbn [mbind result_bind fst snd].
  destruct (matchBlock_spec source (win data start abs) abs st) as (m & st1 & Hrun & _ & _ & Hg).
  unfold matchBlock' in Hrun. rewrite Hrun. cbn [mbind result_bind].
  destruct (Hg Hm) as [He <-]. by exists st1.
Qed.

Lemma claimGrid_spec source data start st :
  ∃ claimed st', claimGrid t bs candidateByID others source data start st = Ok (claimed, st') ∧
    events st' = events st ++ grid_events source data start (grid data start) ∧
    claimed = (λ abs, expected_here source (win data start abs) abs) <$> grid data start.
Proof.
  unfold claimGrid.
  assert (∀ l claimed0 st, (∀ abs, abs ∈ l → start <= abs <= start + (len data - bs) ∧ abs mod bs = 0) →
    ∃ st', foldM (claim_step t bs candidateByID others source data start) (claimed0, st) l =
      Ok (claimed0 ++ ((λ abs, expected_here source (win data start abs) abs) <$> l), st') ∧
      events st' = events st ++ grid_events source data start l) as H.
  { clear st. intros l. induction l as [|abs l IH]; intros claimed0 st Hl.
    - exists st. cbn. by rewrite !app_nil_r.
    - destruct (Hl abs (list_elem_of_here _ _)) as [Hr Hm].
      destruct (claim_step_ok source data start claimed0 st abs Hr Hm) as (st1 & Hrun & He).
      cbn [foldM]. rewrite Hrun. cbn [mbind result_bind].
      destruct (IH (claimed0 ++ [expected_here source (win data start abs) abs]) st1)
        as (st' & Hrun' & He').
      { intros. apply Hl. by apply elem_of_cons; right. }
      exists st'. rewrite Hrun', He', He, <- !app_assoc. done. }
  destruct (H (grid data start) [] st) as (st' & Hrun & He).
  { intros abs Habs. by apply grid_elem. }
  eexists _, st'. split; [exact Hrun|]. by split.
Qed.

(** ** The sliding window *)

(** [slide] with every checksum computed afresh. *)
Fixpoint slide_ref (fuel : nat) (source : FileID) (data : list Z) (start : Z) (claimed : list bool)
    (j boundary : Z) (st : scanState) : result scanState :=
  if j >? len data - bs then Ok st else
  match fuel with
  | O => Panic no_fuel
  | S fuel =>
      if (Z.land j 65535 =? 0) && ctx AtSlide (Z.to_nat (start + j)) then Ok st else
      let absPos := start + j in
      let blockStart := absPos / bs * bs in
      let entered := absPos >=? boundary in
      let boundary := if entered then blockStart + bs else boundary in
      if entered && is_claimed bs claimed start blockStart then
        slide_ref fuel source data start claimed (boundary - start) boundary st
      else
        let slice := win data start absPos in
        '(m, st) ← matchBlock t bs candidateByID others source slice (ChecksumIEEE slice) absPos st;
        slide_ref fuel source data start claimed
          (if reportedNew m then j + bs else j + 1) boundary st
  end.

(** The window before [j], split at its first byte, and the window at [j],
    split at its last. *)
Lemma win_roll data j :
  bytes data → 1 <= j → j <= len data - bs →
  ∃ x mid y, win data 0 (j - 1) = x :: mid ∧ win data 0 j = mid ++ [y] ∧
    index_at data (j - 1) = Ok x ∧ len (win data 0 j) = bs ∧
    index_at (win data 0 j) (len (win data 0 j) - 1) = Ok y ∧ bytes (x :: mid) ∧ u8 y.
Proof.
  intros Hb Hj Hl. unfold win, len in *. rewrite !Z.sub_0_r.
  destruct (lookup_lt_is_Some_2 data (Z.to_nat (j - 1))) as [x Hx]; [lia|].
  set (n := (Z.to_nat bs - 1)%nat). assert (Z.to_nat bs = S n) as Hn by lia.
  destruct (lookup_lt_is_Some_2 data (Z.to_nat j + n)) as [y Hy]; [lia|].
  exists x, (take n (drop (Z.to_nat j) data)), y. rewrite Hn.
  rewrite (drop_S data x (Z.to_nat (j - 1))) by done.
  replace (S (Z.to_nat (j - 1))) with (Z.to_nat j) by lia. split; [done|].
  assert (take (S n) (drop (Z.to_nat j) data) = take n (drop (Z.to_nat j) data) ++ [y]) as Htk.
  { apply take_S_r. by rewrite lookup_drop. }
  rewrite Htk. split; [done|].
  assert (length (take n (drop (Z.to_nat j) data)) = n) as Hlen
    by (rewrite length_take, length_drop; lia).
  split; [by apply index_at_lookup; [lia|]|].
  rewrite length_app, Hlen. cbn [length].
  split; [lia|]. split.
  - apply index_at_lookup; [lia|]. replace (Z.to_nat _) with n by lia.
    rewrite lookup_app_r by lia. by rewrite Hlen, Nat.sub_diag.
  - unfold bytes in Hb |- *. rewrite Forall_lookup in Hb. split; [|by eapply Hb].
    constructor; [by eapply Hb|]. apply Forall_take, Forall_drop. by rewrite Forall_lookup.
Qed.

Lemma win_rel data start j : win data start (start + j) = win data 0 j.
Proof. unfold win. do 3 f_equal. lia. Qed.

Lemma slide_eq (fuel : nat) source data start claimed v st :
  bytes data → 0 <= sl_j v →
  (justMissed v = true → 1 <= sl_j v ∧
     (sl_j v <= len data - bs → crcSlice v = ChecksumIEEE (win data 0 (sl_j v - 1)))) →
  0 <= start →
  slide window t bs candidateByID others ctx fuel source data start claimed v st =
  slide_ref fuel source data start claimed (sl_j v) (nextBoundary v) st.
Proof.
  intros Hb. revert v st. induction fuel as [|fuel IH]; intros v st Hj Hm Hst; [done|].
  cbn [slide slide_ref]. rewrite Z.gtb_ltb.
  destruct (Z.ltb_spec (len data - bs) (sl_j v)) as [|Hle]; [done|].
  destruct (_ && ctx _ _); [done|].
  set (abs := start + sl_j v). set (boundary := if abs >=? nextBoundary v then _ else _).
  destruct (_ && is_claimed _ _ _ _) eqn:Hcl.
  - apply andb_true_iff in Hcl as [Hent _]. subst boundary. rewrite Hent.
    rewrite IH; [done| |done|done]. cbn [sl_j].
    pose proof (Z.mod_pos_bound abs bs). pose proof (Z.div_mod abs bs). subst abs. nia.
  - rewrite slice_at_ok by (unfold len in *; lia). cbn [mbind result_bind].
    replace (sl_j v + bs - sl_j v) with bs by lia.
    assert (win data start abs = take (Z.to_nat bs) (drop (Z.to_nat (sl_j v)) data)) as <-.
    { subst abs. rewrite win_rel. unfold win. do 3 f_equal. lia. }
    assert ((if justMissed v then
               before ← index_at data (sl_j v - 1);
               last ← index_at (win data start abs) (len (win data start abs) - 1);
               Ok (update window (crcSlice v) before last)
             else Ok (ChecksumIEEE (win data start abs))) = Ok (ChecksumIEEE (win data start abs)))
      as Hcrc.
    { destruct (justMissed v); [|done]. destruct Hm as [Hj1 Hcrc]; [done|].
      destruct (win_roll data (sl_j v) Hb Hj1 Hle) as (x & mid & y & H1 & H2 & H3 & H4 & H5 & H6 & H7).
      subst abs. rewrite win_rel, H3, H5. cbn [mbind result_bind].
      rewrite (Hcrc Hle), H1, H2. f_equal. apply update_ok; [done| |done|done].
      rewrite Hsize. unfold len in H4. rewrite H2, length_app in H4. simpl in *. lia. }
    rewrite Hcrc. cbn [mbind result_bind].
    destruct (matchBlock _ _ _ _ _ _ _ _ _) as [[m st1]| |]; cbn [mbind result_bind]; [|done..].
    destruct (reportedNew m); rewrite IH; cbn [sl_j justMissed crcSlice nextBoundary];
      [done|lia|done|done|done|lia| |done].
    intros _. split; [lia|]. intros _. replace (sl_j v + 1 - 1) with (sl_j v) by lia.
    subst abs. by rewrite win_rel.
Qed.

(** The slide ends, without a panic, and reports blocks only. *)
Lemma slide_ref_spec (fuel : nat) source data start claimed j boundary st :
  0 <= j → 0 <= start → len data - j <= Z.of_nat fuel →
  ∃ st' evs, slide_ref fuel source data start claimed j boundary st = Ok st' ∧
    events st' = events st ++ evs ∧
    ∀ e, e ∈ evs → ∃ abs, start <= abs <= start + (len data - bs) ∧
      e ∈ block_events source (win data start abs) abs.
Proof.
  revert j boundary st. induction fuel as [|fuel IH]; intros j boundary st Hj Hst Hf;
    cbn [slide_ref]; rewrite Z.gtb_ltb.
  - rewrite (proj2 (Z.ltb_lt _ _)) by lia. exists st, []. rewrite app_nil_r.
    split; [done|]. split; [done|]. by intros e ?%elem_of_nil.
  - assert (∃ st' evs, Ok st = Ok st' ∧ events st' = events st ++ evs ∧
      ∀ e, e ∈ evs → ∃ abs, start <= abs <= start + (len data - bs) ∧
        e ∈ block_events source (win data start abs) abs) as Hdone.
    { exists st, []. rewrite app_nil_r. split; [done|]. split; [done|]. by intros e ?%elem_of_nil. }
    destruct (Z.ltb_spec (len data - bs) j) as [|Hle]; [done|].
    destruct (_ && ctx _ _); [done|].
    set (abs := start + j). set (b := if abs >=? boundary then _ else _).
    destruct (_ && is_claimed _ _ _ _) eqn:Hcl.
    + apply andb_true_iff in Hcl as [Hent _]. subst b. rewrite Hent.
      pose proof (Z.mod_pos_bound abs bs). pose proof (Z.div_mod abs bs).
      apply IH; subst abs; nia.
    + destruct (matchBlock_spec source (win data start abs) abs st) as (m & st1 & Hrun & Hev & _).
      unfold matchBlock' in Hrun. rewrite Hrun. cbn [mbind result_bind].
      destruct (IH (if reportedNew m then j + bs else j + 1) b st1) as (st' & evs & -> & He & Hs);
        [destruct (reportedNew m); lia|done|destruct (reportedNew m); lia|].
      destruct Hev as [Hev|[_ Hev]].
      * exists st', (block_events source (win data start abs) abs ++ evs).
        rewrite He, Hev, <- app_assoc. split; [done|]. split; [done|].
        intros e [Hin|Hin]%elem_of_app; [|by apply Hs]. exists abs. split; [lia|done].
      * exists st', evs. by rewrite He, Hev.
Qed.

End Scan.

(** ** Whole chunks *)

(** The block of [bs] bytes at [abs], padded with zeros past the end. *)
Definition block_at (bs : Z) (content : list Z) (abs : Z) : list Z :=
  ReadAt content abs (Z.to_nat bs).

Lemma ReadAt_full content off n :
  0 <= off → off + Z.of_nat n <= len content →
  ReadAt content off n = take n (drop (Z.to_nat off) content).
Proof.
  intros H0 H. unfold ReadAt, len in *. rewrite length_take, length_drop.
  replace (n - _)%nat with 0%nat by lia. apply app_nil_r.
Qed.

Lemma ReadAt_length content off n : length (ReadAt content off n) = n.
Proof.
  unfold ReadAt. rewrite length_app, length_replicate, length_take. lia.
Qed.

Lemma ReadAt_lookup content off n k :
  (k < n)%nat → ReadAt content off n !! k = Some (default 0 (content !! (Z.to_nat off + k)%nat)).
Proof.
  intros Hk. unfold ReadAt. rewrite <- lookup_drop.
  destruct (drop (Z.to_nat off) content !! k) as [x|] eqn:Hx.
  - rewrite lookup_app_l, lookup_take_lt by (rewrite ?length_take; apply lookup_lt_Some in Hx; lia).
    by rewrite Hx.
  - apply lookup_ge_None in Hx. rewrite take_ge by lia.
    rewrite lookup_app_r by lia. by rewrite lookup_replicate_2 by lia.
Qed.

Lemma ReadAt_bytes content off n : bytes content → bytes (ReadAt content off n).
Proof.
  intros Hb. apply Forall_app. split; [by apply Forall_take, Forall_drop|].
  apply Forall_replicate. decided.
Qed.

Lemma win_ReadAt bs content start n abs :
  0 <= start → start <= abs → 0 <= bs → abs + bs <= start + Z.of_nat n →
  start + Z.of_nat n <= len content →
  win bs (ReadAt content start n) start abs = block_at bs content abs.
Proof.
  intros H1 H2 Hbs H3 H4. unfold win, block_at. rewrite !ReadAt_full by (unfold len in *; lia).
  rewrite skipn_firstn_comm, take_take, drop_drop. f_equal; [lia|]. f_equal. lia.
Qed.

(** [scanChunk] without the rolling checksum. *)
Definition scanChunk_ref t bs candidateByID others ctx (content : list Z) source start end_ st :
    result scanState :=
  if end_ - start <? bs then Ok st else
  let data := ReadAt content start (Z.to_nat (end_ - start)) in
  '(claimed, st) ← claimGrid t bs candidateByID others source data start st;
  slide_ref t bs candidateByID others ctx (length data) source data start claimed 0 (-1) st.

Section Chunks.
Context (window : crc32Window) (t : crcLookupTable) (bs : Z).
Context (candidateByID : gmap FileID (list Z)) (others : nat → gset nat) (ctx : Ctx).
Context (answer : Z → option (list checksumLocation)) `{Ht : !LookupSpec t answer}.
Context (Hbs : 4 <= bs) (Hw : window_ok window) (Hsize : windowSize window = bs).

Lemma scanChunk_eq content source start end_ st :
  bytes content → 0 <= start →
  scanChunk window t bs candidateByID others ctx (Contents content) source start end_ st =
  scanChunk_ref t bs candidateByID others ctx content source start end_ st.
Proof.
  intros Hb Hs. unfold scanChunk, scanChunk_ref. destruct (_ <? _); [done|]. cbv zeta.
  destruct (claimGrid _ _ _ _ _ _ _ _) as [[claimed st1]| |]; cbn [mbind result_bind]; [|done..].
  apply (slide_eq window t bs candidateByID others ctx); cbn; try done.
  by apply ReadAt_bytes.
Qed.

(** The events of a scan are about blocks of the set, and those of the windows
    on the grid are all there. *)
Definition events_ok (source : FileID) (content : list Z) (lo hi : Z) (evs : list matchEvent) : Prop :=
  (∀ e, e ∈ evs → ∃ abs, lo <= abs <= hi - bs ∧
     e ∈ block_events answer source (block_at bs content abs) abs) ∧
  (∀ abs e, lo <= abs <= hi - bs → abs mod bs = 0 →
     e ∈ block_events answer source (block_at bs content abs) abs → e ∈ evs).

Lemma scanChunk_spec content source start end_ st :
  bytes content → 0 <= start → end_ <= len content →
  ∃ st' evs, scanChunk window t bs candidateByID others ctx (Contents content) source start end_ st
               = Ok st' ∧ events st' = events st ++ evs ∧
             events_ok source content start end_ evs.
Proof.
  intros Hb Hs He. rewrite scanChunk_eq by done. unfold scanChunk_ref.
  destruct (Z.ltb_spec (end_ - start) bs) as [Hlt|Hge].
  { exists st, []. rewrite app_nil_r. split; [done|]. split; [done|]. split.
    - by intros e ?%elem_of_nil.
    - intros abs e Habs. lia. }
  set (data := ReadAt content start (Z.to_nat (end_ - start))).
  assert (len data = end_ - start) as Hdata by (unfold len, data; rewrite ReadAt_length; lia).
  assert (∀ abs, start <= abs <= end_ - bs → win bs data start abs = block_at bs content abs) as Hwin.
  { intros abs Habs. apply win_ReadAt; lia. }
  cbv zeta. destruct (claimGrid_spec t bs candidateByID others answer Hbs source data start st)
    as (claimed & st1 & -> & He1 & _). cbn [mbind result_bind].
  destruct (slide_ref_spec t bs candidateByID others ctx answer Hbs (length data) source data start
    claimed 0 (-1) st1) as (st' & evs & -> & He2 & Hsound); [lia|done|unfold len in *; lia|].
  exists st', (grid_events bs answer source data start (grid bs data start) ++ evs).
  rewrite He2, He1, <- app_assoc. split; [done|]. split; [done|]. split.
  - intros e [Hin|Hin]%elem_of_app.
    + unfold grid_events in Hin. apply list_elem_of_join in Hin as (l & Hin & Hl).
      apply list_elem_of_fmap in Hl as (abs & -> & Habs).
      apply grid_elem in Habs as [Habs _]; [|done]. exists abs.
      rewrite <- Hwin by lia. split; [lia|done].
    + destruct (Hsound e Hin) as (abs & Habs & Hev). exists abs.
      rewrite <- Hwin by lia. split; [lia|done].
  - intros abs e Habs Hm Hev. apply elem_of_app. left. unfold grid_events.
    apply list_elem_of_join. exists (block_events answer source (win bs data start abs) abs).
    split; [by rewrite Hwin|]. apply list_elem_of_fmap. exists abs. split; [done|].
    apply grid_intro; [done|lia|done].
Qed.

(** The last, partial block of a file of which [byteCount] bytes count. *)
Lemma scanLastPartialBlock_spec content source byteCount st :
  0 < byteCount <= maxInt → bs <= maxAlloc →
  ∃ st' evs, scanLastPartialBlock t bs candidateByID others (Contents content) source byteCount st
               = Ok st' ∧ events st' = events st ++ evs ∧
    let last := byteCount / bs * bs in
    evs = if byteCount mod bs =? 0 then [] else
          block_events answer source
            (ReadAt content last (Z.to_nat (byteCount mod bs)) ++
             replicate (Z.to_nat (bs - byteCount mod bs)) 0) last.
Proof.
  intros Hbc Hmax. unfold scanLastPartialBlock. destruct (Z.eqb_spec (byteCount mod bs) 0) as [|Hm].
  { exists st, []. by rewrite app_nil_r. }
  pose proof (Z.div_mod byteCount bs). pose proof (Z.mod_pos_bound byteCount bs).
  assert (wrap64 (byteCount + bs - 1) / bs = byteCount / bs + 1) as ->.
  { unfold wrap64. rewrite Z.mod_small by (unfold maxInt, maxAlloc in *; lia).
    symmetry. apply Z.div_unique with (byteCount mod bs - 1); [left; lia|lia]. }
  replace (byteCount / bs + 1 - 1) with (byteCount / bs) by lia.
  replace (byteCount - byteCount / bs * bs) with (byteCount mod bs) by lia. cbv zeta.
  rewrite make_bytes_ok by lia. cbn [mbind result_bind].
  rewrite drop_replicate, <- Z2Nat.inj_sub by lia.
  set (blk := ReadAt _ _ _ ++ _). set (last := byteCount / bs * bs).
  destruct (matchBlock_spec t bs candidateByID others answer source blk last st)
    as (m & st' & Hrun & _ & _ & Hg). unfold matchBlock' in Hrun. rewrite Hrun.
  cbn [mbind result_bind]. exists st', (block_events answer source blk last).
  split; [done|]. split; [|done]. apply Hg. unfold last. apply Z.mod_mul. lia.
Qed.

End Chunks.

(** ** Whole files *)

Record scanner_ok (s : Scanner) (answer : Z → option (list checksumLocation)) : Prop := {
  so_slice : 4 <= sc_slice s < maxAlloc;
  so_window : window_ok (sc_window s);
  so_size : windowSize (sc_window s) = sc_slice s;
  so_table : LookupSpec (sc_table s) answer
}.

Lemma chunk_of fileSize bs abs :
  4 <= bs → 0 <= abs <= fileSize - bs → fileSize + scanChunkSize + bs <= maxInt →
  let i := abs / scanChunkSize in
  0 <= i < numChunks fileSize ∧ chunk_start i <= abs <= chunk_end bs fileSize i - bs.
Proof.
  intros Hbs Habs Hmax. cbv zeta. unfold numChunks, chunk_end, chunk_start.
  set (C := scanChunkSize) in *. assert (0 < C) as HC by reflexivity.
  assert (abs / C * C <= abs < abs / C * C + C) as Hq.
  { pose proof (Z.mod_pos_bound abs C HC). pose proof (Z.div_mod abs C ltac:(lia)) as Hd.
    rewrite (Z.mul_comm (abs / C)). set (q := C * (abs / C)) in *. lia. }
  pose proof (Z.div_pos abs C ltac:(lia) HC). rewrite int64_wrap by lia.
  split; [split; [lia|]|split; [lia|]].
  - assert (abs / C + 1 <= (fileSize + C - 1) / C); [|lia].
    apply Z.div_le_lower_bound; lia.
  - lia.
Qed.

Section Files.
Context (s : Scanner) (answer : Z → option (list checksumLocation)) (Hs : scanner_ok s answer).
Let bs := sc_slice s.

Lemma scan_chunk_of_spec content source i :
  bytes content → 0 <= i →
  ∃ st, scan_chunk_of s (Contents content) source (len content) i = Ok st ∧
        events_ok bs answer source content (chunk_start i) (chunk_end bs (len content) i) (events st).
Proof.
  destruct Hs as [H1 H2 H3 H4]. intros Hb Hi. unfold scan_chunk_of.
  destruct (scanChunk_spec (sc_window s) (sc_table s) bs (sc_candidates s) (chunk_env s source i)
    (sc_ctx s) answer) with (content := content) (source := source) (start := chunk_start i)
    (end_ := chunk_end bs (len content) i) (st := scan_start) as (st & evs & Hrun & He & Hok);
    [apply H1|done|done|done| | |].
  - unfold chunk_start. assert (0 < scanChunkSize) by done. nia.
  - apply Z.le_min_r.
  - exists st. split; [exact Hrun|]. by rewrite He.
Qed.

Lemma scan_chunks_spec content source idxs :
  bytes content → Forall (λ i, 0 <= i) idxs →
  ∃ evs, scan_chunks s (Contents content) source (len content) idxs = Ok evs ∧
    (∀ e, e ∈ evs → ∃ abs, 0 <= abs <= len content - bs ∧
       e ∈ block_events answer source (block_at bs content abs) abs) ∧
    ((∀ p n, sc_ctx s p n = false) → ∀ i abs e, i ∈ idxs →
       chunk_start i <= abs <= chunk_end bs (len content) i - bs → abs mod bs = 0 →
       e ∈ block_events answer source (block_at bs content abs) abs → e ∈ evs).
Proof.
  intros Hb Hi. induction Hi as [|i idxs Hi _ IH].
  { exists []. split; [done|]. split; [by intros e ?%elem_of_nil|].
    by intros _ i abs e ?%elem_of_nil. }
  destruct IH as (evs & Hrun & Hsound & Hcomp). cbn [scan_chunks].
  destruct (sc_ctx s AtChunks _) eqn:Hc1.
  { exists []. split; [done|]. split; [by intros e ?%elem_of_nil|].
    intros Hno. by rewrite Hno in Hc1. }
  destruct (sc_ctx s AtSemaphore _) eqn:Hc2.
  { exists evs. split; [done|]. split; [done|]. intros Hno. by rewrite Hno in Hc2. }
  destruct (scan_chunk_of_spec content source i Hb Hi) as (st & -> & Hsd & Hcp).
  rewrite Hrun. cbn [mbind result_bind]. exists (events st ++ evs). split; [done|]. split.
  - intros e [Hin|Hin]%elem_of_app; [|by apply Hsound].
    destruct (Hsd e Hin) as (abs & Habs & Hev). exists abs. split; [|done].
    unfold chunk_start, chunk_end in Habs. assert (0 < scanChunkSize) by done. nia.
  - intros Hno j abs e [->|Hj]%elem_of_cons Habs Hm Hev; apply elem_of_app; [left|right].
    + by eapply Hcp.
    + by eapply Hcomp.
Qed.

(** Scanning a readable file: every event is a block of the set that is in the
    file, and a block on the grid is reported when nothing is cancelled. *)
Lemma scan_contents_spec content source byteCount :
  bytes content → 0 < byteCount <= maxInt ∨ byteCount = len content → len content <= maxInt →
  ∃ evs, scan_contents s (Contents content) source (len content) byteCount = Ok evs ∧
    (∀ e, e ∈ evs →
       (∃ abs, 0 <= abs <= len content - bs ∧
          e ∈ block_events answer source (block_at bs content abs) abs) ∨
       (let last := byteCount / bs * bs in byteCount mod bs ≠ 0 ∧
          e ∈ block_events answer source
            (ReadAt content last (Z.to_nat (byteCount mod bs)) ++
             replicate (Z.to_nat (bs - byteCount mod bs)) 0) last)) ∧
    ((∀ p n, sc_ctx s p n = false) → len content + scanChunkSize + bs <= maxInt → ∀ abs e,
       0 <= abs <= len content - bs → abs mod bs = 0 →
       e ∈ block_events answer source (block_at bs content abs) abs → e ∈ evs).
Proof.
  pose proof Hs as [H1 H2 H3 H4]. intros Hb Hbc Hmax. unfold scan_contents.
  destruct (Z.eqb_spec (len content) 0) as [H0|H0].
  { exists []. split; [done|]. split; [by intros e ?%elem_of_nil|].
    intros _ _ abs e Habs. subst bs. lia. }
  destruct (scan_chunks_spec content source (range 0 (numChunks (len content))) Hb)
    as (evs & Hrun & Hsound & Hcomp).
  { apply Forall_forall. intros i Hi%elem_of_range. lia. }
  unfold scanFileChunks. rewrite Hrun. cbn [mbind result_bind].
  destruct (scanLastPartialBlock_spec (sc_table s) bs (sc_candidates s) (tail_env s source) answer)
    with (content := content) (source := source) (byteCount := byteCount) (st := scan_start)
    as (st & evs2 & Hrun2 & He & Hev); [apply H1|unfold len in *; lia|subst bs; lia|].
  subst bs. rewrite Hrun2. cbn [mbind result_bind]. rewrite He. cbn [events scan_start app].
  exists (evs ++ evs2). split; [done|]. split.
  - intros e [Hin|Hin]%elem_of_app; [left; by apply Hsound|right].
    cbv zeta in Hev. rewrite Hev in Hin. destruct (Z.eqb_spec (byteCount mod sc_slice s) 0).
    + by apply elem_of_nil in Hin.
    + by split.
  - intros Hno Hend abs e Habs Hm Hin. apply elem_of_app. left.
    pose proof (chunk_of (len content) (sc_slice s) abs) as Hch. cbv zeta in Hch.
    destruct Hch as [Hi Hr]; [apply H1|done|done|].
    eapply (Hcomp Hno (abs / scanChunkSize)); [by apply elem_of_range|exact Hr|done|done].
Qed.

End Files.

(** ** Blocks of a table *)

(** The entries of the table say that [block] is block [idx] of file [id]. *)
Definition describes (es : list (Z * list checksumLocation)) (block : list Z) (id : FileID)
    (idx : Z) : Prop :=
  ∃ ls l, (ChecksumIEEE block, ls) ∈ es ∧ l ∈ ls ∧
          fileID l = id ∧ shardIndex l = idx ∧ md5Hash l = md5_Sum block.

Definition plain (l : checksumLocation) : FileID * Z * list Z := (fileID l, shardIndex l, md5Hash l).

Definition plain_entry (p : Z * list checksumLocation) : Z * list (FileID * Z * list Z) :=
  (p.1, plain <$> p.2).

Lemma flagged_plain n es : plain_entry <$> flagged n es = plain_entry <$> es.
Proof.
  revert n. induction es as [|[c ls] es IH]; intros n; [done|]. cbn [flagged].
  rewrite !fmap_cons, IH. unfold plain_entry at 1 3. cbn [fst snd]. do 2 f_equal. clear.
  revert n. induction ls as [|l ls IH]; intros n; [done|]. cbn. f_equal. apply IH.
Qed.

Lemma elem_of_plain (es es' : list (Z * list checksumLocation)) c ls l :
  plain_entry <$> es = plain_entry <$> es' →
  (c, ls) ∈ es → l ∈ ls → ∃ ls' l', (c, ls') ∈ es' ∧ l' ∈ ls' ∧ plain l' = plain l.
Proof.
  intros He Hin Hl. assert (plain_entry (c, ls) ∈ plain_entry <$> es') as H.
  { rewrite <- He. by apply list_elem_of_fmap_2. }
  apply list_elem_of_fmap in H as ([c' ls'] & Hc & Hin'). injection Hc as -> Hls.
  assert (plain l ∈ plain <$> ls') as H by (rewrite <- Hls; by apply list_elem_of_fmap_2).
  apply list_elem_of_fmap in H as (l' & Hp & Hl'). exists ls', l'. by split_and!.
Qed.

Lemma block_events_describes es source block abs e :
  NoDup es.*1 →
  e ∈ block_events (λ c, (list_to_map (flagged 0 es) : gmap Z _) !! c) source block abs ↔
  describes es block (targetFileID e) (ev_shardIndex e) ∧ sourceFileID e = source ∧ offset e = abs.
Proof.
  intros Hnd. unfold block_events, hits. rewrite list_elem_of_fmap.
  destruct e as [tg idx src off]. cbn [targetFileID ev_shardIndex sourceFileID offset]. split.
  - intros (l & [= -> -> -> ->] & Hl). apply list_elem_of_filter in Hl as [Hh Hl].
    split; [|done]. destruct (_ !! ChecksumIEEE block) as [ls|] eqn:Ha in Hl;
      [|by apply elem_of_nil in Hl].
    apply elem_of_list_to_map_2 in Ha.
    destruct (elem_of_plain _ es _ _ l (flagged_plain 0 es) Ha Hl) as (ls' & l' & H1 & H2 & [=]).
    exists ls', l'. split_and!; congruence.
  - intros ((ls & l & H1 & H2 & <- & <- & H5) & -> & ->).
    destruct (elem_of_plain _ (flagged 0 es) _ _ l (symmetry (flagged_plain 0 es)) H1 H2)
      as (ls' & l' & H3 & H4 & [=]).
    exists l'. split; [unfold event_of; congruence|]. apply list_elem_of_filter.
    split; [congruence|].
    rewrite (proj1 (elem_of_list_to_map (M := gmap Z) _ _ _ ltac:(by rewrite flagged_keys)) H3).
    exact H4.
Qed.
