(* ===== verification/Verify.v ===== *)
(** * Verification of a set (src/par2/scan.go, [Decoder])

    [VerifyScans] and its phases: the file states before the scan, the two
    prescans by full-file hash, the lookup table, the scan and its collector,
    and the hash check afterwards.

    Go leaves open the order in which a map is visited and the order in which
    events of different goroutines arrive at the collector.  A [Schedule] fixes
    them, together with what the environment of each scan does; theorems are
    about every schedule that only permutes. *)

From stdpp Require Import gmap.
From S2P Require Import Prelude Md5 Crc32 Packet CrcTable Decoder Blocks.

(** [d.fileIntegrity[id]], dereferenced. *)
Definition get_state (id : FileID) (d : Decoder) : result fileIntegrityState :=
  match fileIntegrity d !! id with
  | Some s => Ok s
  | None => Panic "nil pointer dereference"
  end.

Definition put_state (id : FileID) (s : fileIntegrityState) (d : Decoder) : Decoder :=
  set_fileIntegrity (<[id := s]> (fileIntegrity d)) d.

(** ** The states before the scan *)

Definition shard_count (byteCount slice : Z) : Z :=
  wrap64 (wrap64 (byteCount + slice) - 1) / slice.

Definition init_file (d : Decoder) (st : Z * gmap FileID fileIntegrityState) (f : FileDescPacket) :
    result (Z * gmap FileID fileIntegrityState) :=
  let '(totalShards, m) := st in
  if sliceByteCount d =? 0 then Err "invalid PAR2 set: sliceByteCount is zero" else
  let shards := shard_count (ByteCount f) (sliceByteCount d) in
  if shards >? 32768
  then Err "invalid PAR2 set: file block count exceeds specification limit (32768)" else
  let totalShards := totalShards + shards in
  if totalShards >? 32768
  then Err "invalid PAR2 set: total recovery block count exceeds specification limit (32768)" else
  let locs := replicate (Z.to_nat shards) {| FileID_ := zero16; Offset := -1 |} in
  Ok (totalShards,
      <[fd_FileID f := {| st_FileID := fd_FileID f; st_Filename := Filename f;
                          Damage := damageUnchecked; RenameSource := [];
                          ShardLocations := locs |}]> m).

Definition initFileIntegrity (d : Decoder) : result Decoder :=
  '(_, m) ← foldM (init_file d) (0, ∅) (protectedFiles d);
  Ok (set_fileIntegrity m d).

(** [for i, x := range l] with the index. *)
Definition indexed {A} (l : list A) : list (nat * A) := zip (seq 0 (length l)) l.

Definition check_exists (ctx : Ctx) (root : Root) (d : Decoder) (ifd : nat * FileDescPacket) :
    result Decoder :=
  let '(i, fd) := ifd in
  if ctx AtExistence i then Err ErrCanceled else
  match Open root (Filename fd) with
  | Ok _ => Ok d
  | Panic m => Panic m
  | Err e =>
      if bool_decide (e = ErrNotExist) then
        s ← get_state (fd_FileID fd) d;
        Ok (put_state (fd_FileID fd) (set_Damage damageMissing s) d)
      else Err e
  end.

Definition checkFileExistence (ctx : Ctx) (root : Root) (d : Decoder) : result Decoder :=
  foldM (check_exists ctx root) d (indexed (protectedFiles d)).

Definition quickHashSize : Z := 16 * 1024.

(** [quickHash16K] and [computeFileMD5] of an open file. *)
Definition quickHash16K (f : file) : result (list Z) :=
  data ← ReadAll f; Ok (md5_Sum (take (Z.to_nat quickHashSize) data)).
Definition computeFileMD5 (f : file) : result (list Z) :=
  data ← ReadAll f; Ok (md5_Sum data).

(** Every shard of a file of [n] shards, in place in the file [id]. *)
Definition in_place (slice : Z) (id : FileID) (n : nat) : list shardLocation :=
  (λ i, {| FileID_ := id; Offset := Z.of_nat i * slice |}) <$> seq 0 n.

Definition located (slice : Z) (id : FileID) (s : fileIntegrityState) : fileIntegrityState :=
  set_ShardLocations (in_place slice id (length (ShardLocations s))) s.

Definition missing_step (d : Decoder) (m : gmap (Z * list Z) FileDescPacket) (fd : FileDescPacket) :
    result (gmap (Z * list Z) FileDescPacket) :=
  s ← get_state (fd_FileID fd) d;
  Ok (if bool_decide (Damage s = damageMissing)
      then <[(ByteCount fd, SixteenKHash fd) := fd]> m else m).

Definition missingByQuickKey (d : Decoder) : result (gmap (Z * list Z) FileDescPacket) :=
  foldM (missing_step d) ∅ (protectedFiles d).

(** One candidate against the missing files: the decoder, and whether the
    candidate is resolved. *)
Definition prescan_candidate (root : Root) (missing : gmap (Z * list Z) FileDescPacket)
    (path : list Z) (id : FileID) (d : Decoder) : result (Decoder * bool) :=
  match Open root path with
  | Err _ => Ok (d, true)
  | Panic m => Panic m
  | Ok f =>
      match quickHash16K f with
      | Err _ => Ok (d, false)
      | Panic m => Panic m
      | Ok quickHash =>
          match missing !! (Size f, quickHash) with
          | None => Ok (d, false)
          | Some fd =>
              match computeFileMD5 f with
              | Err _ => Ok (d, false)
              | Panic m => Panic m
              | Ok fullHash =>
                  if negb (bool_decide (fullHash = fd_Hash fd)) then Ok (d, false) else
                  s ← get_state (fd_FileID fd) d;
                  let s := set_RenameSource path s in
                  let s := located (sliceByteCount d) id s in
                  Ok (put_state (fd_FileID fd) s d, true)
              end
          end
      end
  end.

Fixpoint prescan_candidates (ctx : Ctx) (i : nat) (root : Root)
    (missing : gmap (Z * list Z) FileDescPacket) (cands : list (list Z * FileID))
    (resolved : gset (list Z)) (d : Decoder) : result (Decoder * gset (list Z)) :=
  match cands with
  | [] => Ok (d, resolved)
  | (path, id) :: cands =>
      if ctx AtCandidates i then Ok (d, resolved) else
      '(d, r) ← prescan_candidate root missing path id d;
      prescan_candidates ctx (S i) root missing cands
        (if r : bool then {[path]} ∪ resolved else resolved) d
  end.

Definition prescanCandidateMatches (ctx : Ctx) (root : Root) (cands : list (list Z * FileID))
    (d : Decoder) : result (Decoder * gset (list Z)) :=
  if bool_decide (candidateFiles d = ∅) then Ok (d, ∅) else
  missing ← missingByQuickKey d;
  if bool_decide (missing = ∅) then Ok (d, ∅) else
  prescan_candidates ctx 0 root missing cands ∅ d.

Definition prescan_protected (root : Root) (fd : FileDescPacket) (d : Decoder) : result Decoder :=
  s ← get_state (fd_FileID fd) d;
  if bool_decide (Damage s = damageMissing) then Ok d else
  match Open root (Filename fd) with
  | Err _ => Ok d
  | Panic m => Panic m
  | Ok f =>
      if negb (Size f =? ByteCount fd) then Ok d else
      match quickHash16K f with
      | Err _ => Ok d
      | Panic m => Panic m
      | Ok quickHash =>
          if negb (bool_decide (quickHash = SixteenKHash fd)) then Ok d else
          match computeFileMD5 f with
          | Err _ => Ok d
          | Panic m => Panic m
          | Ok fullHash =>
              if negb (bool_decide (fullHash = fd_Hash fd)) then Ok d else
              s ← get_state (fd_FileID fd) d;
              let s := set_Damage damageNone s in
              Ok (put_state (fd_FileID fd) (located (sliceByteCount d) (fd_FileID fd) s) d)
          end
      end
  end.

Fixpoint prescan_all (ctx : Ctx) (i : nat) (root : Root) (fds : list FileDescPacket) (d : Decoder) :
    result Decoder :=
  match fds with
  | [] => Ok d
  | fd :: fds =>
      if ctx AtProtected i then Ok d else
      d ← prescan_protected root fd d;
      prescan_all ctx (S i) root fds d
  end.

Definition prescanProtectedMatches (ctx : Ctx) (root : Root) (d : Decoder) : result Decoder :=
  prescan_all ctx 0 root (protectedFiles d) d.

(** ** The lookup table *)

Definition checksum_locations (id : FileID) (p : IFSCPacket) : list (Z * checksumLocation) :=
  (λ ip, (le_combine (CRC32 ip.2),
          {| fileID := id; shardIndex := Z.of_nat ip.1; md5Hash := MD5 ip.2; reported := None |}))
  <$> indexed (ChecksumPairs p).

Definition add_location (m : gmap Z (list checksumLocation)) (cl : Z * checksumLocation) :
    gmap Z (list checksumLocation) :=
  <[cl.1 := default [] (m !! cl.1) ++ [cl.2]]> m.

Definition checksumMap (ifscs : list (FileID * IFSCPacket)) (d : Decoder) :
    gmap Z (list checksumLocation) :=
  foldl (λ m '(id, p),
      match fileIntegrity d !! id with
      | None => m
      | Some _ => foldl add_location m (checksum_locations id p)
      end) ∅ ifscs.

(** ** Schedules *)

Record Schedule := {
  ctx_polls : Ctx;
  candidate_order : list (list Z * FileID) → list (list Z * FileID);
  ifsc_order : list (FileID * IFSCPacket) → list (FileID * IFSCPacket);
  crc_order : list (Z * list checksumLocation) → list (Z * list checksumLocation);
  event_order : list matchEvent → list matchEvent;
  chunk_flags : FileID → Z → nat → gset nat;
  tail_flags : FileID → nat → gset nat
}.

Definition buildLookupTable (sched : Schedule) (d : Decoder) : result crcLookupTable :=
  let m := checksumMap (ifsc_order sched (map_to_list (fileChecksums d))) d in
  newCRCLookupTable (crc_order sched (map_to_list m)).

(** ** The scan *)

(** The body of the collector for one event. *)
Definition collect (d : Decoder) (e : matchEvent) : result Decoder :=
  state ← get_state (targetFileID e) d;
  loc ← index_at (ShardLocations state) (ev_shardIndex e);
  if Offset loc =? -1 then
    locs ← set_at (ShardLocations state) (ev_shardIndex e)
             {| FileID_ := sourceFileID e; Offset := offset e |};
    Ok (put_state (targetFileID e) (set_ShardLocations locs state) d)
  else Ok d.

(** The goroutines of the protected files: the damage each records in its own
    state, all their events, and the first error. *)
Fixpoint scan_files (s : Scanner) (root : Root) (i : nat) (fds : list FileDescPacket) (d : Decoder) :
    result (Decoder * list matchEvent * option string) :=
  match fds with
  | [] => Ok (d, [], None)
  | fd :: fds =>
      if sc_ctx s AtScanFiles i then Ok (d, [], None) else
      state ← get_state (fd_FileID fd) d;
      if skipsBlockScan state then scan_files s root (S i) fds d else
      let '(dmg, res) := scanFile s root fd in
      let d := match dmg with
               | Some x => put_state (fd_FileID fd) (set_Damage x state) d
               | None => d
               end in
      match res with
      | Panic m => Panic m
      | Ok evs =>
          '(d, evs', err) ← scan_files s root (S i) fds d; Ok (d, evs ++ evs', err)
      | Err e =>
          '(d, evs', err) ← scan_files s root (S i) fds d; Ok (d, evs', Some (default e err))
      end
  end.

Fixpoint scan_candidates (s : Scanner) (root : Root) (i : nat) (resolved : gset (list Z))
    (names : gset (list Z)) (cands : list (list Z * FileID)) :
    result (list matchEvent * option string) :=
  match cands with
  | [] => Ok ([], None)
  | (path, id) :: cands =>
      if sc_ctx s AtScanCandidates i then Ok ([], None) else
      if bool_decide (path ∈ resolved) || bool_decide (path ∈ names)
      then scan_candidates s root (S i) resolved names cands else
      match scanCandidateFile s root path id with
      | Panic m => Panic m
      | Ok evs =>
          '(evs', err) ← scan_candidates s root (S i) resolved names cands; Ok (evs ++ evs', err)
      | Err e =>
          '(evs', err) ← scan_candidates s root (S i) resolved names cands;
          Ok (evs', Some (default e err))
      end
  end.

Definition scan (s : Scanner) (sched : Schedule) (root : Root) (cands : list (list Z * FileID))
    (resolved : gset (list Z)) (d : Decoder) : result Decoder :=
  '(d, evs1, err1) ← scan_files s root 0 (protectedFiles d) d;
  let protectedNames := list_to_set (Filename <$> protectedFiles d) in
  '(evs2, err2) ← scan_candidates s root 0 resolved protectedNames cands;
  d ← foldM collect d (event_order sched (evs1 ++ evs2));
  match err1, err2 with
  | None, None => Ok d
  | Some e, _ | None, Some e => Err e
  end.

(** ** After the scan *)

Definition isAllShardsConsecutive (d : Decoder) (fd : FileDescPacket) (state : fileIntegrityState) : bool :=
  forallb (λ '(idx, loc), (Offset loc =? Z.of_nat idx * sliceByteCount d) &&
                          bool_decide (FileID_ loc = fd_FileID fd))
    (indexed (ShardLocations state)).

(** The damage [verifySingleFileHash] records. *)
Definition verifySingleFileHash (root : Root) (fd : FileDescPacket) : fileDamage :=
  match Open root (Filename fd) with
  | Ok f =>
      match ReadAll f with
      | Ok data => if bool_decide (md5_Sum data = fd_Hash fd) then damageNone else damageWrongHash
      | _ => damageWrongHash
      end
  | _ => damageMissing
  end.

(** The name found, or the empty string. *)
Definition detectRenameCandidate (root : Root) (d : Decoder) (fd : FileDescPacket)
    (state : fileIntegrityState) : list Z :=
  match ShardLocations state with
  | [] => []
  | firstLoc :: _ =>
      if Offset firstLoc =? -1 then [] else
      let candidateID := FileID_ firstLoc in
      if bool_decide (candidateID = fd_FileID fd) then [] else
      let candidatePath := default [] (candidateByID d !! candidateID) in
      if bool_decide (candidatePath = []) then [] else
      if bool_decide (candidatePath = Filename fd) then [] else
      if negb (forallb (λ '(idx, loc), bool_decide (FileID_ loc = candidateID) &&
                                       (Offset loc =? Z.of_nat idx * sliceByteCount d))
                 (indexed (ShardLocations state))) then [] else
      match Open root candidatePath with
      | Ok f =>
          match ReadAll f with
          | Ok data => if bool_decide (md5_Sum data = fd_Hash fd) then candidatePath else []
          | _ => []
          end
      | _ => []
      end
  end.

Definition verify_hash (root : Root) (d : Decoder) (fd : FileDescPacket) : result Decoder :=
  state ← get_state (fd_FileID fd) d;
  if bool_decide (Damage state = damageNone) || bool_decide (Damage state = damageWrongSize) ||
     negb (bool_decide (RenameSource state = []))
  then Ok d
  else if bool_decide (Damage state = damageMissing) then
    let rename := detectRenameCandidate root d fd state in
    Ok (if bool_decide (rename = []) then d
        else put_state (fd_FileID fd) (set_RenameSource rename state) d)
  else if isAllShardsConsecutive d fd state then
    Ok (put_state (fd_FileID fd) (set_Damage (verifySingleFileHash root fd) state) d)
  else
    let rename := detectRenameCandidate root d fd state in
    let state := set_Damage damageWrongHash state in
    Ok (put_state (fd_FileID fd)
          (if bool_decide (rename = []) then state else set_RenameSource rename state) d).

Definition verifyProtectedFilesHashes (root : Root) (d : Decoder) : result Decoder :=
  foldM (verify_hash root) d (protectedFiles d).

(** ** VerifyScans *)

Definition VerifyScans (sched : Schedule) (root : Root) (d : Decoder) : result Decoder :=
  let ctx := ctx_polls sched in
  let cands := candidate_order sched (map_to_list (candidateFiles d)) in
  d ← initFileIntegrity d;
  d ← checkFileExistence ctx root d;
  '(d, resolved) ← prescanCandidateMatches ctx root cands d;
  d ← prescanProtectedMatches ctx root d;
  window ← newCRC32Window (sliceByteCount d);
  table ← buildLookupTable sched d;
  let scanner := {| sc_window := window; sc_table := table; sc_slice := sliceByteCount d;
                    sc_candidates := candidateByID d; chunk_env := chunk_flags sched;
                    tail_env := tail_flags sched; sc_ctx := ctx |} in
  d ← scan scanner sched root cands resolved d;
  d ← verifyProtectedFilesHashes root d;
  if ctx AtEnd 0%nat then Err ErrCanceled else Ok d.
