(* ===== verification/VerifyFacts.v ===== *)
(** * Facts about verification

    The invariant of the phases of [VerifyScans]: a file whose state says that
    it is intact, or that a candidate has its contents, has been checked by its
    full hash.  What [ShardCounts] counts; that the collector's counts do not
    depend on the order of the events; and what a set whose files are all
    intact gives. *)

From stdpp Require Import gmap.
From S2P Require Import Prelude Md5 Crc32 Packet PathFacts PacketFacts CrcTable Decoder DecoderFacts.
From S2P Require Import Blocks BlocksFacts Verify.

(** ** Shard counts *)

(** What one file adds to the counts. *)
Definition missing_locs (s : fileIntegrityState) : Z :=
  len (filter (λ l, Offset l = -1) (ShardLocations s)).
Definition usable_locs (s : fileIntegrityState) : Z :=
  len (filter (λ l, Offset l ≠ -1) (ShardLocations s)).
Definition is_rename (s : fileIntegrityState) : Z :=
  if bool_decide (RenameSource s = []) then 0 else 1.
Definition is_rebuild (s : fileIntegrityState) : Z :=
  if bool_decide (RenameSource s = []) && needsRebuild s then 1 else 0.

(** The sum of [f] over the file states. *)
Definition sum_states (f : fileIntegrityState → Z) (m : gmap FileID fileIntegrityState) : Z :=
  foldr (λ p n, f p.2 + n) 0 (map_to_list m).

Lemma count_locs locs sc :
  foldl count_loc sc locs =
  {| UsableDataShardCount := UsableDataShardCount sc + len (filter (λ l, Offset l ≠ -1) locs);
     UnusableDataShardCount := UnusableDataShardCount sc + len (filter (λ l, Offset l = -1) locs);
     UsableParityShardCount := UsableParityShardCount sc;
     UnusableParityShardCount := UnusableParityShardCount sc;
     RenamesNeeded := RenamesNeeded sc; FilesNeedingRebuild := FilesNeedingRebuild sc |}.
Proof.
  revert sc. induction locs as [|l locs IH]; intros sc.
  - destruct sc. cbn. f_equal; unfold len; simpl; lia.
  - cbn [foldl]. rewrite IH, !filter_cons. unfold count_loc, len.
    destruct (Z.eqb_spec (Offset l) (-1)) as [He|He];
      destruct (decide (Offset l = -1)), (decide (Offset l ≠ -1)); try done;
      cbn [length UsableDataShardCount UnusableDataShardCount UsableParityShardCount
           UnusableParityShardCount RenamesNeeded FilesNeedingRebuild]; f_equal; lia.
Qed.

Lemma count_file_spec s sc :
  count_file s sc =
  {| UsableDataShardCount := usable_locs s + UsableDataShardCount sc;
     UnusableDataShardCount := missing_locs s + UnusableDataShardCount sc;
     UsableParityShardCount := UsableParityShardCount sc;
     UnusableParityShardCount := UnusableParityShardCount sc;
     RenamesNeeded := is_rename s + RenamesNeeded sc;
     FilesNeedingRebuild := is_rebuild s + FilesNeedingRebuild sc |}.
Proof.
  unfold count_file, is_rename, is_rebuild, usable_locs, missing_locs. rewrite count_locs.
  destruct (bool_decide (RenameSource s = [])), (needsRebuild s);
    cbn [negb andb UsableDataShardCount UnusableDataShardCount UsableParityShardCount
         UnusableParityShardCount RenamesNeeded FilesNeedingRebuild]; f_equal; lia.
Qed.

Lemma shardCounts_spec d :
  shardCountsLocked d =
  {| UsableDataShardCount := sum_states usable_locs (fileIntegrity d);
     UnusableDataShardCount := sum_states missing_locs (fileIntegrity d);
     UsableParityShardCount := Z.of_nat (size (parityShards d));
     UnusableParityShardCount := 0;
     RenamesNeeded := sum_states is_rename (fileIntegrity d);
     FilesNeedingRebuild := sum_states is_rebuild (fileIntegrity d) |}.
Proof.
  unfold shardCountsLocked, sum_states. rewrite map_fold_foldr.
  induction (map_to_list (fileIntegrity d)) as [|[id s] l IH]; [done|].
  cbn [foldr]. rewrite IH. unfold uncurry at 1. rewrite count_file_spec. done.
Qed.

Lemma sum_states_nonneg f m : (∀ s, 0 <= f s) → 0 <= sum_states f m.
Proof.
  intros Hf. unfold sum_states. induction (map_to_list m) as [|[id s] l IH]; cbn; [lia|].
  specialize (Hf s). lia.
Qed.

Lemma sum_states_zero f m :
  (∀ s, 0 <= f s) → sum_states f m = 0 ↔ map_Forall (λ _ s, f s = 0) m.
Proof.
  intros Hf. rewrite map_Forall_to_list. unfold sum_states.
  induction (map_to_list m) as [|[id s] l IH]; cbn.
  - split; [constructor|done].
  - rewrite Forall_cons. cbn. rewrite <- IH.
    assert (0 <= foldr (λ p n, f p.2 + n) 0 l) as Hl.
    { clear IH. induction l as [|[id' s'] l IHl]; cbn; [lia|]. specialize (Hf s'). lia. }
    specialize (Hf s). lia.
Qed.

Lemma sum_perm {A} (f : A → Z) (l l' : list A) :
  l ≡ₚ l' → foldr (λ x n, f x + n) 0 l = foldr (λ x n, f x + n) 0 l'.
Proof. induction 1; cbn; lia. Qed.

Lemma sum_states_insert_fresh f m id s :
  m !! id = None → sum_states f (<[id := s]> m) = f s + sum_states f m.
Proof.
  intros Hn. unfold sum_states.
  by rewrite (sum_perm (λ p, f p.2) _ _ (map_to_list_insert m id s Hn)).
Qed.

(** [f] of the state of a file. *)
Definition of_file (f : fileIntegrityState → Z) (d : Decoder) (fd : FileDescPacket) : Z :=
  match fileIntegrity d !! fd_FileID fd with Some s => f s | None => 0 end.

(** The sum over the states is one over the files of the set. *)
Lemma sum_states_files f d :
  NoDup (fd_FileID <$> protectedFiles d) →
  (∀ fd, fd ∈ protectedFiles d → is_Some (fileIntegrity d !! fd_FileID fd)) →
  (∀ id s, fileIntegrity d !! id = Some s → id ∈ fd_FileID <$> protectedFiles d) →
  sum_states f (fileIntegrity d) =
  foldr (λ fd n, of_file f d fd + n) 0 (protectedFiles d).
Proof.
  intros Hnd Hall Honly.
  set (state fd := default {| st_FileID := []; st_Filename := []; Damage := damageNone;
    RenameSource := []; ShardLocations := [] |} (fileIntegrity d !! fd_FileID fd)).
  assert (map_to_list (fileIntegrity d) ≡ₚ (λ fd, (fd_FileID fd, state fd)) <$> protectedFiles d) as Hp.
  { apply NoDup_Permutation; [apply NoDup_map_to_list| |].
    - apply (NoDup_fmap_1 fst). by rewrite <- list_fmap_compose.
    - intros [id s]. rewrite elem_of_map_to_list, list_elem_of_fmap. split.
      + intros Hs. pose proof (Honly _ _ Hs) as (fd & -> & Hfd)%list_elem_of_fmap.
        exists fd. unfold state. by rewrite Hs.
      + intros (fd & [= -> ->] & Hfd). destruct (Hall fd Hfd) as [s' Hs]. unfold state. by rewrite Hs. }
  unfold sum_states. rewrite (sum_perm (λ p, f p.2) _ _ Hp), foldr_fmap. cbn [snd].
  revert Hall. generalize (protectedFiles d). clear. induction l as [|fd fds IH]; intros Hall; [done|].
  cbn [foldr]. rewrite IH by (intros; apply Hall; by apply elem_of_cons; right). f_equal.
  unfold state, of_file. by destruct (Hall fd (list_elem_of_here _ _)) as [s ->].
Qed.

(** A file that needs nothing. *)
Definition healthy (s : fileIntegrityState) : Prop :=
  RenameSource s = [] ∧ needsRebuild s = false ∧ Forall (λ l, Offset l ≠ -1) (ShardLocations s).

Lemma missing_locs_zero s : missing_locs s = 0 ↔ Forall (λ l, Offset l ≠ -1) (ShardLocations s).
Proof.
  unfold missing_locs, len. induction (ShardLocations s) as [|l ls IH]; [by split|].
  rewrite filter_cons, Forall_cons. destruct (decide (Offset l = -1)); cbn [length].
  - split; [lia|by intros [? _]].
  - rewrite IH. split; [by intros|by intros [_ ?]].
Qed.

Lemma RepairNeeded_spec d :
  RepairNeeded (shardCountsLocked d) = false ↔ map_Forall (λ _ s, healthy s) (fileIntegrity d).
Proof.
  assert (∀ s, 0 <= missing_locs s) by (intros; unfold missing_locs, len; lia).
  assert (∀ s, 0 <= is_rename s) by (intros; unfold is_rename; case_bool_decide; lia).
  assert (∀ s, 0 <= is_rebuild s).
  { intros s. unfold is_rebuild. destruct (_ && _); lia. }
  rewrite shardCounts_spec. unfold RepairNeeded.
  cbn [UnusableDataShardCount RenamesNeeded FilesNeedingRebuild].
  assert (0 <= sum_states missing_locs (fileIntegrity d)) by (by apply sum_states_nonneg).
  assert (0 <= sum_states is_rename (fileIntegrity d)) by (by apply sum_states_nonneg).
  assert (0 <= sum_states is_rebuild (fileIntegrity d)) by (by apply sum_states_nonneg).
  rewrite !orb_false_iff, !Z.gtb_ltb, !Z.ltb_ge.
  transitivity ((sum_states missing_locs (fileIntegrity d) = 0 ∧
    sum_states is_rename (fileIntegrity d) = 0) ∧ sum_states is_rebuild (fileIntegrity d) = 0); [lia|].
  rewrite !sum_states_zero by done. unfold healthy. split.
  - intros [[Hmi Hr] Hb] id s Hid. specialize (Hmi id s Hid). specialize (Hr id s Hid).
    specialize (Hb id s Hid). cbn in *. rewrite missing_locs_zero in Hmi.
    unfold is_rename, is_rebuild in *. case_bool_decide; [|done].
    cbn [andb] in Hb. by destruct (needsRebuild s).
  - intros Hm. split; [split|]; intros id s Hid; destruct (Hm id s Hid) as (Hr & Hb & Hmi); cbn.
    + by apply missing_locs_zero.
    + unfold is_rename. by rewrite bool_decide_eq_true_2.
    + unfold is_rebuild. by rewrite bool_decide_eq_true_2, Hb.
Qed.

(** ** The invariant of the phases *)

(** The file [name] has the contents that [fd] describes, by full hash. *)
Definition verified (root : Root) (name : list Z) (fd : FileDescPacket) : Prop :=
  ∃ data, root !! name = Some (Contents data) ∧ md5_Sum data = fd_Hash fd.

(** A rename is recorded only next to the damage of a missing file and, once the
    hashes are checked ([late]), of a wrong one. *)
Definition rename_beside (late : bool) (x : fileDamage) : Prop :=
  x = damageMissing ∨ (late = true ∧ x = damageWrongHash).

(** Renames are from names that [src] allows. *)
Record state_ok (root : Root) (d0 : Decoder) (src : list Z → Prop) (late : bool)
    (fd : FileDescPacket) (s : fileIntegrityState) : Prop := {
  s_name : st_Filename s = Filename fd;
  s_shards : length (ShardLocations s) =
             Z.to_nat (shard_count (ByteCount fd) (sliceByteCount d0));
  s_damage : Damage s = damageNone → verified root (Filename fd) fd;
  s_rename : RenameSource s ≠ [] →
    verified root (RenameSource s) fd ∧ src (RenameSource s) ∧ rename_beside late (Damage s)
}.

(** The decoder [d] differs from [d0] in its file states only; each protected
    file has one, and it is right. *)
Record verifying (root : Root) (d0 : Decoder) (src : list Z → Prop) (late : bool) (d : Decoder) : Prop := {
  v_same : d = set_fileIntegrity (fileIntegrity d) d0;
  v_all : ∀ fd, fd ∈ protectedFiles d0 → is_Some (fileIntegrity d !! fd_FileID fd);
  v_state : ∀ id s, fileIntegrity d !! id = Some s →
    ∃ fd, fd ∈ protectedFiles d0 ∧ fd_FileID fd = id ∧ state_ok root d0 src late fd s
}.

Lemma foldM_ok_list {S A} (f : S → A → result S) (I : S → Prop) (l : list A) s s' :
  (∀ s x s', x ∈ l → I s → f s x = Ok s' → I s') → I s → foldM f s l = Ok s' → I s'.
Proof.
  revert s. induction l as [|x l IH]; intros s Hf Hs; cbn [foldM]; [by intros [= <-]|].
  destruct (f s x) as [s1| |] eqn:Hx; cbn [mbind result_bind]; [|done..].
  apply IH; [|eapply Hf; [apply list_elem_of_here|done|done]].
  intros s2 y s3 Hy. apply Hf. by apply elem_of_cons; right.
Qed.

Lemma indexed_elem {A} (l : list A) i x : (i, x) ∈ indexed l → x ∈ l.
Proof.
  unfold indexed. intros Hin. apply (list_elem_of_fmap_2 snd) in Hin.
  rewrite snd_zip in Hin; [done|]. by rewrite length_seq.
Qed.

Lemma get_state_inv id d s : get_state id d = Ok s ↔ fileIntegrity d !! id = Some s.
Proof. unfold get_state. destruct (fileIntegrity d !! id); naive_solver. Qed.

Section Phases.
Context (root : Root) (d0 : Decoder) (src : list Z → Prop) (late : bool).
Hypothesis (Hdistinct : NoDup (fd_FileID <$> protectedFiles d0)).

Lemma same_fd fd fd' :
  fd ∈ protectedFiles d0 → fd' ∈ protectedFiles d0 → fd_FileID fd = fd_FileID fd' → fd = fd'.
Proof. by apply NoDup_key. Qed.

Lemma verifying_get d fd s :
  verifying root d0 src late d → fd ∈ protectedFiles d0 →
  fileIntegrity d !! fd_FileID fd = Some s → state_ok root d0 src late fd s.
Proof.
  intros Hv Hfd Hs. destruct (v_state _ _ _ _ _ Hv _ _ Hs) as (fd' & Hin & He & Hok).
  by rewrite (same_fd fd fd' Hfd Hin (eq_sym He)).
Qed.

Lemma verifying_put d fd s :
  verifying root d0 src late d → fd ∈ protectedFiles d0 → state_ok root d0 src late fd s →
  verifying root d0 src late (put_state (fd_FileID fd) s d).
Proof.
  intros [H1 H2 H3] Hfd Hs. split.
  - unfold put_state. cbn [fileIntegrity set_fileIntegrity].
    transitivity (set_fileIntegrity (<[fd_FileID fd := s]> (fileIntegrity d))
                    (set_fileIntegrity (fileIntegrity d) d0)); [by rewrite <- H1|done].
  - intros fd' Hfd'. cbn [put_state fileIntegrity set_fileIntegrity].
    destruct (decide (fd_FileID fd = fd_FileID fd')) as [<-|Hne].
    + rewrite lookup_insert_eq. by eexists.
    + rewrite lookup_insert_ne by done. by apply H2.
  - intros id s' Hid. cbn [put_state fileIntegrity set_fileIntegrity] in Hid.
    destruct (decide (fd_FileID fd = id)) as [<-|Hne].
    + rewrite lookup_insert_eq in Hid. injection Hid as <-. by exists fd.
    + rewrite lookup_insert_ne in Hid by done. by apply H3.
Qed.

Lemma verifying_files d : verifying root d0 src late d → protectedFiles d = protectedFiles d0.
Proof. intros Hv. by rewrite (v_same _ _ _ _ _ Hv). Qed.
Lemma verifying_slice d : verifying root d0 src late d → sliceByteCount d = sliceByteCount d0.
Proof. intros Hv. by rewrite (v_same _ _ _ _ _ Hv). Qed.

(** *** The initial states *)

Definition initial_state (fd : FileDescPacket) : fileIntegrityState :=
  {| st_FileID := fd_FileID fd; st_Filename := Filename fd; Damage := damageUnchecked;
     RenameSource := [];
     ShardLocations := replicate (Z.to_nat (shard_count (ByteCount fd) (sliceByteCount d0)))
                         {| FileID_ := zero16; Offset := -1 |} |}.

Lemma initial_state_ok fd : state_ok root d0 src late fd (initial_state fd).
Proof. split; cbn; try done. by rewrite length_replicate. Qed.

(** The states of the files of [fs]. *)
Definition initial_states (fs : list FileDescPacket) : gmap FileID fileIntegrityState :=
  foldl (λ m fd, <[fd_FileID fd := initial_state fd]> m) ∅ fs.

Definition total_shards (fs : list FileDescPacket) : Z :=
  foldr (λ fd n, shard_count (ByteCount fd) (sliceByteCount d0) + n) 0 fs.

Lemma init_files_inv fs tot m tot' m' :
  foldM (init_file d0) (tot, m) fs = Ok (tot', m') →
  m' = foldl (λ m fd, <[fd_FileID fd := initial_state fd]> m) m fs ∧
  tot' = tot + total_shards fs ∧
  (fs ≠ [] → sliceByteCount d0 ≠ 0 ∧ tot' <= 32768).
Proof.
  revert tot m. induction fs as [|fd fs IH]; intros tot m; cbn [foldM].
  - intros [= <- <-]. split; [done|]. split; [cbn; lia|done].
  - destruct (init_file d0 (tot, m) fd) as [[tot1 m1]| |] eqn:Hstep; cbn [mbind result_bind];
      [|done..]. unfold init_file in Hstep.
    destruct (Z.eqb_spec (sliceByteCount d0) 0) as [|Hs]; [done|].
    set (n := shard_count (ByteCount fd) (sliceByteCount d0)) in *.
    rewrite !Z.gtb_ltb in Hstep. destruct (Z.ltb_spec 32768 n); [done|].
    destruct (Z.ltb_spec 32768 (tot + n)); [done|]. injection Hstep as <- <-.
    intros Hrun. destruct (IH _ _ Hrun) as (-> & -> & Hfs). split; [done|].
    change (total_shards (fd :: fs)) with (n + total_shards fs).
    split; [lia|]. intros _. split; [done|].
    destruct fs as [|fd' fs]; [cbn; lia|]. by apply Hfs.
Qed.

Lemma init_files_ok fs tot m :
  sliceByteCount d0 ≠ 0 →
  Forall (λ fd, 0 <= shard_count (ByteCount fd) (sliceByteCount d0)) fs → 0 <= tot →
  tot + total_shards fs <= 32768 →
  ∃ m', foldM (init_file d0) (tot, m) fs = Ok (tot + total_shards fs, m').
Proof.
  intros Hs Hfs. revert tot m. induction Hfs as [|fd fs Hfd Hfs IH]; intros tot m Ht Hle;
    cbn [foldM total_shards foldr] in *; [exists m; do 2 f_equal; lia|].
  assert (0 <= total_shards fs) as H0.
  { clear -Hfs. induction Hfs; cbn; [lia|]. unfold total_shards in *. cbn in *. lia. }
  unfold total_shards in *.
  assert (init_file d0 (tot, m) fd = Ok (tot + shard_count (ByteCount fd) (sliceByteCount d0),
            <[fd_FileID fd := initial_state fd]> m)) as ->.
  { unfold init_file. rewrite (proj2 (Z.eqb_neq _ 0)) by done.
    by rewrite !Z.gtb_ltb, !(proj2 (Z.ltb_ge _ _)) by lia. }
  cbn [mbind result_bind]. edestruct IH as [m' Hm']; [| |rewrite Hm'; exists m'; do 2 f_equal; lia]; lia.
Qed.

Lemma initial_states_lookup (fs : list FileDescPacket) (m : gmap FileID fileIntegrityState) id s :
  NoDup (fd_FileID <$> fs) →
  (foldl (λ m fd, <[fd_FileID fd := initial_state fd]> m) m fs) !! id = Some s ↔
  (∃ fd, fd ∈ fs ∧ fd_FileID fd = id ∧ s = initial_state fd) ∨
  ((id ∉ (fd_FileID <$> fs)) ∧ m !! id = Some s).
Proof.
  revert m. induction fs as [|fd fs IH]; intros m Hnd; cbn [foldl].
  - split; [right; split; [apply not_elem_of_nil|done]|].
    intros [(fd & Hin%elem_of_nil & _)|[_ ?]]; done.
  - rewrite fmap_cons in Hnd. apply NoDup_cons in Hnd as [Hnew Hnd].
    rewrite IH by done. rewrite fmap_cons. split.
    + intros [(fd' & Hin & H)|[Hni Hl]].
      * left. exists fd'. split; [by apply elem_of_cons; right|done].
      * destruct (decide (fd_FileID fd = id)) as [<-|Hne].
        -- rewrite lookup_insert_eq in Hl. injection Hl as <-. left. exists fd.
           split; [apply list_elem_of_here|done].
        -- rewrite lookup_insert_ne in Hl by done. right.
           split; [apply not_elem_of_cons; by split|done].
    + intros [(fd' & [->|Hin]%elem_of_cons & He & Hs)|[Hni Hl]].
      * right. subst id s. split; [done|]. by rewrite lookup_insert_eq.
      * left. by exists fd'.
      * apply not_elem_of_cons in Hni as [Hne Hni]. right. split; [done|].
        by rewrite lookup_insert_ne.
Qed.

Lemma initFileIntegrity_verifying d :
  initFileIntegrity d0 = Ok d →
  verifying root d0 src late d ∧ fileIntegrity d = initial_states (protectedFiles d0).
Proof.
  unfold initFileIntegrity.
  destruct (foldM (init_file d0) (0, ∅) (protectedFiles d0)) as [[tot m]| |] eqn:Hrun;
    cbn [mbind result_bind]; [|done..]. intros [= <-].
  apply init_files_inv in Hrun as (-> & _ & _). split; [|done]. split; [done| |].
  - intros fd Hfd. exists (initial_state fd). apply initial_states_lookup; [done|].
    left. by exists fd.
  - intros id s. cbn [fileIntegrity set_fileIntegrity].
    intros [(fd & Hin & He & ->)|[_ Hl]]%initial_states_lookup; [| |done].
    + exists fd. split; [done|]. split; [done|]. apply initial_state_ok.
    + by rewrite lookup_empty in Hl.
Qed.

(** *** Every phase keeps the invariant *)

Lemma state_ok_set_Damage fd s x :
  state_ok root d0 src late fd s → (x = damageNone → verified root (Filename fd) fd) →
  RenameSource s = [] ∨ rename_beside late x → state_ok root d0 src late fd (set_Damage x s).
Proof.
  intros [H1 H2 H3 H4] Hx Hr. split; cbn; [done..|]. intros Hs. destruct (H4 Hs) as (? & ? & _).
  by destruct Hr.
Qed.

Lemma state_ok_set_RenameSource fd s x :
  state_ok root d0 src late fd s → (x ≠ [] → verified root x fd) →
  (x ≠ [] → src x) → rename_beside late (Damage s) →
  state_ok root d0 src late fd (set_RenameSource x s).
Proof. intros [H1 H2 H3 H4] Hx Hsrc Hb. split; cbn; [done..|]. intros Hs. auto. Qed.

Lemma state_ok_set_ShardLocations fd s locs :
  state_ok root d0 src late fd s → length locs = length (ShardLocations s) →
  state_ok root d0 src late fd (set_ShardLocations locs s).
Proof. intros [H1 H2 H3 H4] Hx. split; cbn; try done. congruence. Qed.

Lemma state_ok_located fd s id :
  state_ok root d0 src late fd s → state_ok root d0 src late fd (located (sliceByteCount d0) id s).
Proof.
  intros Hs. apply state_ok_set_ShardLocations; [done|].
  unfold in_place. by rewrite length_fmap, length_seq.
Qed.

Lemma checkFileExistence_verifying ctx d d' :
  verifying root d0 src late d → checkFileExistence ctx root d = Ok d' → verifying root d0 src late d'.
Proof.
  intros Hv. unfold checkFileExistence. rewrite (verifying_files d Hv).
  apply foldM_ok_list; [|done]. clear d d' Hv.
  intros d [i fd] d' Hin%indexed_elem Hv. unfold check_exists.
  destruct (ctx AtExistence i); [done|].
  destruct (Open root (Filename fd)) as [f|e|]; [by intros [= <-]| |done].
  case_bool_decide; [|done].
  destruct (get_state (fd_FileID fd) d) as [s| |] eqn:Hg; cbn [mbind result_bind]; [|done..].
  intros [= <-]. apply get_state_inv in Hg. apply verifying_put; [done|done|].
  apply state_ok_set_Damage; [by eapply verifying_get|done|]. right. by left.
Qed.

Lemma Open_read_inv name f data :
  Open root name = Ok f → ReadAll f = Ok data → root !! name = Some (Contents data).
Proof.
  unfold Open. destruct (root !! name) as [[c|n|]|]; try done;
    intros [= <-]; [by intros [= ->]|done].
Qed.

Lemma computeFileMD5_inv f h : computeFileMD5 f = Ok h → ∃ data, ReadAll f = Ok data ∧ h = md5_Sum data.
Proof.
  unfold computeFileMD5. destruct (ReadAll f) as [data| |]; cbn [mbind result_bind]; [|done..].
  intros [= <-]. by exists data.
Qed.

(** The candidate that is looked up under its size and hash is a file of the
    set that is missing. *)
Definition missing_in (d : Decoder) (fd : FileDescPacket) : Prop :=
  fd ∈ protectedFiles d0 ∧
  ∃ s, fileIntegrity d !! fd_FileID fd = Some s ∧ Damage s = damageMissing.

Lemma missingByQuickKey_elem d m k fd :
  verifying root d0 src late d → missingByQuickKey d = Ok m → m !! k = Some fd → missing_in d fd.
Proof.
  intros Hv Hm. revert k fd. unfold missing_in. rewrite <- (verifying_files d Hv).
  change ((λ m : gmap (Z * list Z) FileDescPacket, ∀ k fd, m !! k = Some fd →
    fd ∈ protectedFiles d ∧
    ∃ s, fileIntegrity d !! fd_FileID fd = Some s ∧ Damage s = damageMissing) m).
  revert Hm. apply foldM_ok_list; [|intros k fd Hl; by rewrite lookup_empty in Hl].
  intros m1 fd1 m2 Hin Hm1. unfold missing_step.
  destruct (get_state _ _) as [s| |] eqn:Hg; cbn [mbind result_bind]; [|done..]. intros [= <-] k fd.
  apply get_state_inv in Hg.
  case_bool_decide; [|apply Hm1]. intros [[_ <-]|[_ Hl]]%lookup_insert_Some; [|by eapply Hm1].
  split; [done|by exists s].
Qed.

Lemma prescan_candidate_verifying missing path id d d' r :
  (∀ k fd, missing !! k = Some fd → missing_in d fd) → src path →
  verifying root d0 src late d → prescan_candidate root missing path id d = Ok (d', r) →
  verifying root d0 src late d' ∧ ∀ fd, missing_in d fd → missing_in d' fd.
Proof.
  intros Hmis Hsrc Hv. unfold prescan_candidate.
  destruct (Open root path) as [f| |] eqn:Ho; [|by intros [= <- <-]|done].
  destruct (quickHash16K f); [|by intros [= <- <-]|done].
  destruct (missing !! _) as [fd|] eqn:Hfd; [|by intros [= <- <-]].
  destruct (computeFileMD5 f) as [h| |] eqn:Hh; [|by intros [= <- <-]|done].
  destruct (negb _) eqn:Heq; [by intros [= <- <-]|].
  apply negb_false_iff, bool_decide_eq_true in Heq.
  destruct (get_state (fd_FileID fd) d) as [s| |] eqn:Hg; cbn [mbind result_bind]; [|done..].
  intros [= <- <-]. apply get_state_inv in Hg.
  apply Hmis in Hfd as (Hfd & s0 & Hs0 & Hdam). assert (s0 = s) as -> by congruence.
  apply computeFileMD5_inv in Hh as (data & Hdata & ->). split.
  - rewrite (verifying_slice d Hv). apply verifying_put; [done|done|].
    apply state_ok_located. apply state_ok_set_RenameSource; [by eapply verifying_get| |done|by left].
    intros _. exists data. split; [by eapply Open_read_inv|done].
  - intros fd' (Hin & s' & Hs' & Hd'). split; [done|].
    cbn [put_state fileIntegrity set_fileIntegrity].
    destruct (decide (fd_FileID fd = fd_FileID fd')) as [<-|Hne].
    + rewrite lookup_insert_eq. by eexists.
    + rewrite lookup_insert_ne by done. by exists s'.
Qed.

Lemma prescan_candidates_verifying ctx i missing cands resolved d d' r :
  (∀ k fd, missing !! k = Some fd → missing_in d fd) → (∀ p id, (p, id) ∈ cands → src p) →
  verifying root d0 src late d → prescan_candidates ctx i root missing cands resolved d = Ok (d', r) →
  verifying root d0 src late d'.
Proof.
  intros Hmis Hsrc. revert i resolved d Hmis.
  induction cands as [|[path id] cands IH]; intros i resolved d Hmis Hv; cbn [prescan_candidates];
    [by intros [= <- <-]|].
  destruct (ctx _ _); [by intros [= <- <-]|].
  destruct (prescan_candidate root missing path id d) as [[d1 b]| |] eqn:Hp;
    cbn [mbind result_bind]; [|done..].
  apply prescan_candidate_verifying in Hp as [Hv1 Hm1]; [|done| |done].
  - apply IH; [| |done].
    + intros p j Hin. apply (Hsrc p j). by apply elem_of_cons; right.
    + intros k fd Hk. by eapply Hm1, Hmis.
  - eapply Hsrc, list_elem_of_here.
Qed.

Lemma prescanCandidateMatches_verifying ctx cands d d' r :
  (∀ p id, (p, id) ∈ cands → src p) → verifying root d0 src late d → prescanCandidateMatches ctx root cands d = Ok (d', r) →
  verifying root d0 src late d'.
Proof.
  intros Hsrc Hv. unfold prescanCandidateMatches. case_bool_decide; [by intros [= <- <-]|].
  destruct (missingByQuickKey d) as [m| |] eqn:Hm; cbn [mbind result_bind]; [|done..].
  case_bool_decide; [by intros [= <- <-]|]. apply prescan_candidates_verifying; [|done..].
  intros k fd. by eapply missingByQuickKey_elem.
Qed.

Lemma no_rename fd s :
  state_ok root d0 src false fd s → Damage s ≠ damageMissing → RenameSource s = [].
Proof.
  intros Hs Hd. destruct (decide (RenameSource s = [])) as [|Hr]; [done|].
  destruct (s_rename _ _ _ _ _ _ Hs Hr) as (_ & _ & [|[]]); done.
Qed.

Lemma prescan_protected_verifying fd d d' :
  late = false → fd ∈ protectedFiles d0 → verifying root d0 src late d → prescan_protected root fd d = Ok d' →
  verifying root d0 src late d'.
Proof.
  intros Hlate Hfd Hv. unfold prescan_protected.
  destruct (get_state (fd_FileID fd) d) as [s| |] eqn:Hg; cbn [mbind result_bind]; [|done..].
  case_bool_decide as Hd; [by intros [= <-]|].
  destruct (Open root (Filename fd)) as [f| |] eqn:Ho; [|by intros [= <-]|done].
  destruct (negb _); [by intros [= <-]|].
  destruct (quickHash16K f); [|by intros [= <-]|done].
  destruct (negb _); [by intros [= <-]|].
  destruct (computeFileMD5 f) as [h| |] eqn:Hh; [|by intros [= <-]|done].
  destruct (negb _) eqn:Heq; [by intros [= <-]|].
  apply negb_false_iff, bool_decide_eq_true in Heq. cbn [mbind result_bind].
  intros [= <-]. apply get_state_inv in Hg.
  apply computeFileMD5_inv in Hh as (data & Hdata & ->).
  rewrite (verifying_slice d Hv). apply verifying_put; [done|done|].
  pose proof (verifying_get d fd s Hv Hfd Hg) as Hok.
  apply state_ok_located. apply state_ok_set_Damage; [done| |].
  - intros _. exists data. split; [by eapply Open_read_inv|done].
  - left. rewrite Hlate in Hok. by eapply no_rename.
Qed.

Lemma prescanProtectedMatches_verifying ctx d d' :
  late = false → verifying root d0 src late d → prescanProtectedMatches ctx root d = Ok d' → verifying root d0 src late d'.
Proof.
  intros Hlate Hv. unfold prescanProtectedMatches. rewrite (verifying_files d Hv).
  assert (∀ fds i d, (∀ fd, fd ∈ fds → fd ∈ protectedFiles d0) → verifying root d0 src late d →
    prescan_all ctx i root fds d = Ok d' → verifying root d0 src late d') as H; [|by apply H].
  clear d Hv. intros fds. induction fds as [|fd fds IH]; intros i d Hfds Hv; cbn [prescan_all];
    [by intros [= <-]|].
  destruct (ctx _ _); [by intros [= <-]|].
  destruct (prescan_protected root fd d) as [d1| |] eqn:Hp; cbn [mbind result_bind]; [|done..].
  apply IH.
  - intros. apply Hfds. by apply elem_of_cons; right.
  - eapply prescan_protected_verifying; [exact Hlate| |exact Hv|exact Hp]. apply Hfds, list_elem_of_here.
Qed.

(** The damage a scan records does not touch what is known of the file. *)
Lemma scan_file_verifying s fd d st dmg res :
  late = false → fd ∈ protectedFiles d0 → verifying root d0 src late d →
  fileIntegrity d !! fd_FileID fd = Some st → skipsBlockScan st = false →
  scanFile s root fd = (dmg, res) →
  verifying root d0 src late
    (match dmg with Some x => put_state (fd_FileID fd) (set_Damage x st) d | None => d end).
Proof.
  intros Hlate Hfd Hv Hg Hskip Hsf. destruct dmg as [x|]; [|done].
  pose proof (verifying_get d fd st Hv Hfd Hg) as Hok.
  apply verifying_put; [done|done|]. apply state_ok_set_Damage; [done| |].
  2:{ left. rewrite Hlate in Hok. eapply no_rename; [exact Hok|]. intros He.
      unfold skipsBlockScan in Hskip. by rewrite He in Hskip. }
  revert Hsf. unfold scanFile. destruct (Open root _) as [f|e|]; [| |done].
  - by destruct (negb _); intros [= <- _].
  - by case_bool_decide; intros [= <- _].
Qed.

Lemma scan_files_verifying s i fds d d' evs err :
  late = false → (∀ fd, fd ∈ fds → fd ∈ protectedFiles d0) → verifying root d0 src late d →
  scan_files s root i fds d = Ok (d', evs, err) → verifying root d0 src late d'.
Proof.
  intros Hlate. revert i d evs err. induction fds as [|fd fds IH]; intros i d evs err Hfds Hv;
    cbn [scan_files]; [by intros [= <- <- <-]|].
  destruct (sc_ctx s _ _); [by intros [= <- <- <-]|].
  destruct (get_state (fd_FileID fd) d) as [st| |] eqn:Hg; cbn [mbind result_bind]; [|done..].
  assert (∀ fd, fd ∈ fds → fd ∈ protectedFiles d0) as Hfds'.
  { intros. apply Hfds. by apply elem_of_cons; right. }
  destruct (skipsBlockScan st) eqn:Hskip; [by apply IH|].
  destruct (scanFile s root fd) as [dmg res] eqn:Hsf. apply get_state_inv in Hg.
  pose proof (scan_file_verifying s fd d st dmg res Hlate (Hfds _ (list_elem_of_here _ _)) Hv Hg Hskip Hsf) as Hv1.
  set (d1 := match dmg with Some x => _ | None => d end) in *.
  destruct res as [evs1|e|]; [| |done].
  - destruct (scan_files s root (S i) fds d1) as [[[d2 evs2] err2]| |] eqn:Hrec;
      cbn [mbind result_bind]; [|done..]. intros [= <- <- <-]. by eapply IH.
  - destruct (scan_files s root (S i) fds d1) as [[[d2 evs2] err2]| |] eqn:Hrec;
      cbn [mbind result_bind]; [|done..]. intros [= <- <- <-]. by eapply IH.
Qed.

Lemma collect_verifying d e d' :
  verifying root d0 src late d → collect d e = Ok d' → verifying root d0 src late d'.
Proof.
  intros Hv. unfold collect.
  destruct (get_state (targetFileID e) d) as [s| |] eqn:Hg; cbn [mbind result_bind]; [|done..].
  destruct (index_at _ _) as [loc| |]; cbn [mbind result_bind]; [|done..].
  destruct (_ =? _); [|by intros [= <-]].
  destruct (set_at _ _ _) as [locs| |] eqn:Hset; cbn [mbind result_bind]; [|done..].
  intros [= <-]. apply get_state_inv in Hg.
  destruct (v_state _ _ _ _ _ Hv _ _ Hg) as (fd & Hfd & <- & Hok).
  apply verifying_put; [done|done|]. apply state_ok_set_ShardLocations; [done|].
  unfold set_at in Hset. destruct (_ && _); [|done]. injection Hset as <-. apply length_insert.
Qed.

Lemma scan_verifying s sched cands resolved d d' :
  late = false → verifying root d0 src late d → scan s sched root cands resolved d = Ok d' → verifying root d0 src late d'.
Proof.
  intros Hlate Hv. unfold scan. rewrite (verifying_files d Hv).
  destruct (scan_files _ _ _ _ _) as [[[d1 evs1] err1]| |] eqn:H1; cbn [mbind result_bind]; [|done..].
  apply scan_files_verifying in H1; [|done..].
  destruct (scan_candidates _ _ _ _ _ _) as [[evs2 err2]| |]; cbn [mbind result_bind]; [|done..].
  destruct (foldM collect d1 _) as [d2| |] eqn:H2; cbn [mbind result_bind]; [|done..].
  assert (verifying root d0 src late d2) as Hv2.
  { revert H2. apply foldM_ok_list; [|done]. intros d3 e d4 _. apply collect_verifying. }
  destruct err1, err2; try done. by intros [= <-].
Qed.

Lemma detectRenameCandidate_verified d fd s :
  detectRenameCandidate root d fd s ≠ [] →
  verified root (detectRenameCandidate root d fd s) fd ∧
  ∃ id, candidateByID d !! id = Some (detectRenameCandidate root d fd s).
Proof.
  unfold detectRenameCandidate. destruct (ShardLocations s) as [|loc locs]; [done|].
  destruct (_ =? _); [done|]. case_bool_decide; [done|]. case_bool_decide as Hp; [done|].
  case_bool_decide; [done|]. destruct (negb _); [done|].
  destruct (Open root _) as [f| |] eqn:Ho; [|done..].
  destruct (ReadAll f) as [data| |] eqn:Hr; [|done..].
  case_bool_decide; [|done]. intros _. split.
  - exists data. split; [by eapply Open_read_inv|done].
  - exists (FileID_ loc). by destruct (candidateByID d !! FileID_ loc).
Qed.

Lemma verifySingleFileHash_verified fd :
  verifySingleFileHash root fd = damageNone → verified root (Filename fd) fd.
Proof.
  unfold verifySingleFileHash. destruct (Open root _) as [f| |] eqn:Ho; [|done..].
  destruct (ReadAll f) as [data| |] eqn:Hr; [|done..].
  case_bool_decide; [|done]. intros _. exists data. split; [by eapply Open_read_inv|done].
Qed.

Lemma verifySingleFileHash_checked fd : verifySingleFileHash root fd ≠ damageUnchecked.
Proof.
  unfold verifySingleFileHash. destruct (Open root _) as [f| |]; [|done..].
  destruct (ReadAll f); [|done..]. by case_bool_decide.
Qed.

(** After its hash check a file is no longer unchecked; other files are not
    touched. *)
Lemma verify_hash_spec d fd d' :
  late = true → (∀ id p, candidateByID d0 !! id = Some p → src p) →
  fd ∈ protectedFiles d0 → verifying root d0 src late d → verify_hash root d fd = Ok d' →
  verifying root d0 src late d' ∧
  (∃ s, fileIntegrity d' !! fd_FileID fd = Some s ∧ Damage s ≠ damageUnchecked ∨
        fileIntegrity d' !! fd_FileID fd = Some s ∧ RenameSource s ≠ []) ∧
  ∀ id, id ≠ fd_FileID fd → fileIntegrity d' !! id = fileIntegrity d !! id.
Proof.
  intros Hlate Hsrc Hfd Hv. unfold verify_hash.
  destruct (get_state (fd_FileID fd) d) as [s| |] eqn:Hg; cbn [mbind result_bind]; [|done..].
  apply get_state_inv in Hg. pose proof (verifying_get d fd s Hv Hfd Hg) as Hok.
  assert (detectRenameCandidate root d fd s ≠ [] → src (detectRenameCandidate root d fd s)) as Hcand.
  { intros H'. apply detectRenameCandidate_verified in H' as [_ [id Hid]]. apply (Hsrc id).
    assert (candidateByID d = candidateByID d0) as <- by (by rewrite (v_same _ _ _ _ _ Hv)).
    exact Hid. }
  assert (∀ s', state_ok root d0 src late fd s' → Damage s' ≠ damageUnchecked →
    put_state (fd_FileID fd) s' d = d' →
    verifying root d0 src late d' ∧
    (∃ s, fileIntegrity d' !! fd_FileID fd = Some s ∧ Damage s ≠ damageUnchecked ∨
          fileIntegrity d' !! fd_FileID fd = Some s ∧ RenameSource s ≠ []) ∧
    ∀ id, id ≠ fd_FileID fd → fileIntegrity d' !! id = fileIntegrity d !! id) as Hput.
  { intros s' Hs' Hne <-. split; [by apply verifying_put|].
    cbn [put_state fileIntegrity set_fileIntegrity]. split.
    - exists s'. left. by rewrite lookup_insert_eq.
    - intros id Hid. by rewrite lookup_insert_ne. }
  destruct (_ || _ : bool) eqn:Hdone.
  { intros [= <-]. split; [done|]. split; [|done]. exists s.
    apply orb_true_iff in Hdone as [[H|H]%orb_true_iff|H%negb_true_iff].
    - apply bool_decide_eq_true in H. left. by rewrite H.
    - apply bool_decide_eq_true in H. left. by rewrite H.
    - apply bool_decide_eq_false in H. by right. }
  apply orb_false_iff in Hdone as [_ Hr0%negb_false_iff%bool_decide_eq_true]. cbv zeta.
  destruct (bool_decide (Damage s = damageMissing)) eqn:Hmis.
  { apply bool_decide_eq_true in Hmis. case_bool_decide as Hr.
    - intros [= <-]. split; [done|]. split; [|done]. exists s. left. by rewrite Hmis.
    - intros [= H]. apply (Hput _) in H; [done| |cbn; by rewrite Hmis].
      apply state_ok_set_RenameSource; [done| |done|by left].
      intros H'. by apply detectRenameCandidate_verified. }
  destruct (isAllShardsConsecutive d fd s).
  - intros [= H]. apply (Hput _) in H; [done| |apply verifySingleFileHash_checked].
    apply state_ok_set_Damage; [done|apply verifySingleFileHash_verified|by left].
  - intros [= H]. apply (Hput _) in H; [done| |by case_bool_decide].
    assert (state_ok root d0 src late fd (set_Damage damageWrongHash s)) as Hok'.
    { apply state_ok_set_Damage; [done..|by left]. }
    case_bool_decide; [done|]. apply state_ok_set_RenameSource; [done| |done|by right].
    intros H'. by apply detectRenameCandidate_verified.
Qed.

Definition checked (d : Decoder) (fd : FileDescPacket) : Prop :=
  ∃ s, fileIntegrity d !! fd_FileID fd = Some s ∧ Damage s ≠ damageUnchecked ∨
       fileIntegrity d !! fd_FileID fd = Some s ∧ RenameSource s ≠ [].

Lemma verifyProtectedFilesHashes_spec d d' :
  late = true → (∀ id p, candidateByID d0 !! id = Some p → src p) →
  verifying root d0 src late d → verifyProtectedFilesHashes root d = Ok d' →
  verifying root d0 src late d' ∧ ∀ fd, fd ∈ protectedFiles d0 → checked d' fd.
Proof.
  intros Hlate Hsrc Hv. unfold verifyProtectedFilesHashes. rewrite (verifying_files d Hv).
  assert (∀ fds d, NoDup (fd_FileID <$> fds) → (∀ fd, fd ∈ fds → fd ∈ protectedFiles d0) →
    verifying root d0 src late d → foldM (verify_hash root) d fds = Ok d' →
    verifying root d0 src late d' ∧ (∀ fd, fd ∈ fds → checked d' fd) ∧
    ∀ id, id ∉ fd_FileID <$> fds → fileIntegrity d' !! id = fileIntegrity d !! id) as H.
  { clear d Hv. intros fds. induction fds as [|fd fds IH]; intros d Hnd Hfds Hv; cbn [foldM].
    - intros [= <-]. split; [done|]. split; [by intros fd ?%elem_of_nil|done].
    - rewrite fmap_cons in *. apply NoDup_cons in Hnd as [Hnew Hnd].
      destruct (verify_hash root d fd) as [d1| |] eqn:H1; cbn [mbind result_bind]; [|done..].
      destruct (verify_hash_spec d fd d1) as (Hv1 & Hc1 & Ho1);
        [done|done|apply Hfds, list_elem_of_here|done|done|].
      intros Hrun. destruct (IH d1 Hnd) as (Hv' & Hc & Ho); [|done|done|].
      { intros. apply Hfds. by apply elem_of_cons; right. }
      split; [done|]. split.
      + intros fd' [->|Hin]%elem_of_cons; [|by apply Hc].
        unfold checked. by rewrite Ho.
      + intros id [Hne Hni]%not_elem_of_cons. rewrite Ho by done. by apply Ho1. }
  intros Hrun. destruct (H _ d Hdistinct (λ _ Hin, Hin) Hv Hrun) as (H1 & H2 & _). done.
Qed.

End Phases.

Lemma verifying_late root d0 src d : verifying root d0 src false d → verifying root d0 src true d.
Proof.
  intros [H1 H2 H3]. split; [done..|]. intros id s Hs.
  destruct (H3 id s Hs) as (fd & Hfd & He & [H4 H5 H6 H7]). exists fd. split; [done|].
  split; [done|]. split; [done..|]. intros Hr. destruct (H7 Hr) as (? & ? & [|[]]); [|done].
  split; [done|]. split; [done|]. by left.
Qed.

(** Verification that ends well has checked every file of the set. *)
Lemma VerifyScans_verifying sched root d0 (src : list Z → Prop) d :
  NoDup (fd_FileID <$> protectedFiles d0) →
  (∀ p id, (p, id) ∈ candidate_order sched (map_to_list (candidateFiles d0)) → src p) →
  (∀ id p, candidateByID d0 !! id = Some p → src p) →
  VerifyScans sched root d0 = Ok d →
  verifying root d0 src true d ∧ ∀ fd, fd ∈ protectedFiles d0 → checked d fd.
Proof.
  intros Hnd Hsrc1 Hsrc2. unfold VerifyScans. cbv zeta.
  destruct (initFileIntegrity d0) as [d1| |] eqn:H1; cbn [mbind result_bind]; [|done..].
  apply (initFileIntegrity_verifying root d0 src false Hnd) in H1 as [H1 _].
  destruct (checkFileExistence _ _ d1) as [d2| |] eqn:H2; cbn [mbind result_bind]; [|done..].
  apply (checkFileExistence_verifying root d0 src false Hnd) in H2; [|done].
  destruct (prescanCandidateMatches _ _ _ d2) as [[d3 res]| |] eqn:H3; cbn [mbind result_bind]; [|done..].
  apply (prescanCandidateMatches_verifying root d0 src false Hnd) in H3; [|done..].
  destruct (prescanProtectedMatches _ _ d3) as [d4| |] eqn:H4; cbn [mbind result_bind]; [|done..].
  apply (prescanProtectedMatches_verifying root d0 src false Hnd) in H4; [|done..].
  destruct (newCRC32Window _) as [w| |]; cbn [mbind result_bind]; [|done..].
  destruct (buildLookupTable _ _) as [t| |]; cbn [mbind result_bind]; [|done..].
  destruct (scan _ _ _ _ _ d4) as [d5| |] eqn:H5; cbn [mbind result_bind]; [|done..].
  apply (scan_verifying root d0 src false Hnd) in H5; [|done..].
  apply verifying_late in H5.
  destruct (verifyProtectedFilesHashes root d5) as [d6| |] eqn:H6; cbn [mbind result_bind]; [|done..].
  apply (verifyProtectedFilesHashes_spec root d0 src true Hnd) in H6; [|done..].
  destruct (ctx_polls sched AtEnd 0%nat); [done|]. by intros [= <-].
Qed.
