(* ===== verification/VerifyOutcome.v ===== *)
(** * What verification concludes

    The counts do not depend on the order in which the goroutines of the scan
    deliver their matches: states that differ only in where blocks were found
    are equivalent ([same_view]), and the counts respect that.  A set whose
    files are all intact is found healthy. *)

From stdpp Require Import gmap.
From S2P Require Import Prelude Md5 Crc32 Packet PacketFacts CrcTable Decoder DecoderFacts Blocks.
From S2P Require Import BlocksFacts Verify VerifyFacts.

(** ** States up to where blocks were found *)

Abbreviation shape := (fileDamage * list Z * list bool)%type.

Definition shape_of (s : fileIntegrityState) : shape :=
  (Damage s, RenameSource s, (λ l, Offset l =? -1) <$> ShardLocations s).

Definition view (d : Decoder) : gmap FileID shape := shape_of <$> fileIntegrity d.

Definition same_view (d1 d2 : Decoder) : Prop :=
  view d1 = view d2 ∧ parityShards d1 = parityShards d2.

#[export] Instance same_view_equiv : Equivalence same_view.
Proof.
  split; [done|by intros ?? [??]|]. intros ??? [H1 H2] [H3 H4].
  split; [by rewrite H1|by rewrite H2].
Qed.

Lemma sum_states_view f g d1 d2 :
  (∀ s, f s = g (shape_of s)) → view d1 = view d2 →
  sum_states f (fileIntegrity d1) = sum_states f (fileIntegrity d2).
Proof.
  intros Hf Hv.
  assert (∀ m, sum_states f m = foldr (λ p n, g p.2 + n) 0 (map_to_list (shape_of <$> m))) as H.
  { intros m. unfold sum_states.
    assert (∀ l l' : list (FileID * shape), l ≡ₚ l' →
      foldr (λ p n, g p.2 + n) 0 l = foldr (λ p n, g p.2 + n) 0 l') as Hp.
    { induction 1; cbn; lia. }
    rewrite (Hp _ (prod_map id shape_of <$> map_to_list m)) by (by rewrite map_to_list_fmap).
    induction (map_to_list m) as [|[id s] l IH]; [done|]. cbn. by rewrite IH, Hf. }
  rewrite !H. unfold view in Hv. by rewrite Hv.
Qed.

Lemma usable_locs_shape s : usable_locs s = len (filter (λ b, b = false) (shape_of s).2).
Proof.
  unfold usable_locs, len, shape_of. cbn [snd]. induction (ShardLocations s) as [|l ls IH]; [done|].
  rewrite fmap_cons, !filter_cons.
  destruct (Z.eqb_spec (Offset l) (-1)); repeat case_decide; try done; cbn [length]; lia.
Qed.

Lemma missing_locs_shape s : missing_locs s = len (filter (λ b, b = true) (shape_of s).2).
Proof.
  unfold missing_locs, len, shape_of. cbn [snd]. induction (ShardLocations s) as [|l ls IH]; [done|].
  rewrite fmap_cons, !filter_cons.
  destruct (Z.eqb_spec (Offset l) (-1)); repeat case_decide; try done; cbn [length]; lia.
Qed.

#[export] Instance shardCounts_proper : Proper (same_view ==> eq) shardCountsLocked.
Proof.
  intros d1 d2 [Hv Hp]. rewrite !shardCounts_spec, Hp. f_equal.
  - exact (sum_states_view _ (λ v, len (filter (λ b, b = false) v.2)) d1 d2 usable_locs_shape Hv).
  - exact (sum_states_view _ (λ v, len (filter (λ b, b = true) v.2)) d1 d2 missing_locs_shape Hv).
  - exact (sum_states_view _ (λ v, if bool_decide (v.1.2 = []) then 0 else 1) d1 d2
             (λ _, eq_refl) Hv).
  - exact (sum_states_view _ (λ v, if bool_decide (v.1.2 = []) &&
      match v.1.1 with damageMissing | damageWrongSize | damageWrongHash => true | _ => false end
      then 1 else 0) d1 d2 (λ _, eq_refl) Hv).
Qed.

(** ** The collector *)

Definition mark (e : matchEvent) (v : gmap FileID shape) : gmap FileID shape :=
  alter (λ x : shape, (x.1, <[Z.to_nat (ev_shardIndex e) := false]> x.2)) (targetFileID e) v.

(** The event names a block that its file has. *)
Definition in_range (v : gmap FileID shape) (e : matchEvent) : Prop :=
  offset e ≠ -1 ∧ ∃ x, v !! targetFileID e = Some x ∧ 0 <= ev_shardIndex e < len x.2.

Lemma mark_commute e1 e2 v : mark e1 (mark e2 v) = mark e2 (mark e1 v).
Proof.
  unfold mark. destruct (decide (targetFileID e1 = targetFileID e2)) as [->|Hne];
    [|by apply alter_alter_ne].
  rewrite !alter_alter_eq. apply alter_ext. intros [x l] _. cbn. f_equal.
  destruct (decide (Z.to_nat (ev_shardIndex e1) = Z.to_nat (ev_shardIndex e2))) as [->|];
    [done|by apply list_insert_insert_ne].
Qed.

Lemma in_range_mark e e' v : in_range v e → in_range (mark e' v) e.
Proof.
  intros (Ho & x & Hx & Hi). split; [done|]. unfold mark.
  destruct (decide (targetFileID e' = targetFileID e)) as [He|Hne].
  - exists (x.1, <[Z.to_nat (ev_shardIndex e') := false]> x.2). split.
    + rewrite <- He in Hx. by rewrite <- He, lookup_alter_eq, Hx.
    + cbn. unfold len in *. by rewrite length_insert.
  - exists x. by rewrite lookup_alter_ne.
Qed.

Lemma collect_view d e :
  in_range (view d) e → ∃ d', collect d e = Ok d' ∧ view d' = mark e (view d) ∧
    parityShards d' = parityShards d.
Proof.
  intros (Ho & x & Hx & Hi). unfold view in Hx. rewrite lookup_fmap in Hx.
  destruct (fileIntegrity d !! targetFileID e) as [s|] eqn:Hs; [|done]. injection Hx as <-.
  cbn in Hi. unfold len in Hi. rewrite length_fmap in Hi.
  unfold collect, get_state. rewrite Hs. cbn [mbind result_bind].
  destruct (lookup_lt_is_Some_2 (ShardLocations s) (Z.to_nat (ev_shardIndex e))) as [l Hl]; [lia|].
  rewrite (index_at_lookup _ _ l) by (done || lia). cbn [mbind result_bind].
  unfold mark, view. destruct (Z.eqb_spec (Offset l) (-1)) as [He|He].
  - rewrite set_at_ok by lia. cbn [mbind result_bind]. eexists. split; [reflexivity|].
    split; [|done]. cbn [put_state fileIntegrity set_fileIntegrity].
    apply map_eq. intros id. rewrite lookup_fmap.
    destruct (decide (targetFileID e = id)) as [<-|Hne].
    + rewrite lookup_insert_eq, lookup_alter_eq, lookup_fmap, Hs. cbn. unfold shape_of. cbn.
      do 2 f_equal. rewrite list_fmap_insert. cbn. by rewrite (proj2 (Z.eqb_neq _ _) Ho).
    + by rewrite lookup_insert_ne, lookup_alter_ne, lookup_fmap.
  - exists d. split; [done|]. split; [|done]. apply map_eq. intros id.
    destruct (decide (targetFileID e = id)) as [<-|Hne]; [|by rewrite lookup_alter_ne].
    rewrite lookup_alter_eq, lookup_fmap, Hs. cbn. unfold shape_of. cbn. do 2 f_equal.
    symmetry. apply list_insert_id. rewrite list_lookup_fmap, Hl. cbn.
    by rewrite (proj2 (Z.eqb_neq _ _) He).
Qed.

Lemma collect_all_view evs d :
  Forall (in_range (view d)) evs →
  ∃ d', foldM collect d evs = Ok d' ∧ view d' = foldl (λ v e, mark e v) (view d) evs ∧
    parityShards d' = parityShards d.
Proof.
  revert d. induction evs as [|e evs IH]; intros d Hevs; [by exists d|].
  apply Forall_cons in Hevs as [He Hevs].
  destruct (collect_view d e He) as (d1 & Hrun & Hv & Hp). cbn [foldM]. rewrite Hrun.
  cbn [mbind result_bind foldl]. rewrite <- Hv.
  destruct (IH d1) as (d' & Hrun' & Hv' & Hp').
  { eapply Forall_impl; [exact Hevs|]. intros e' He'. rewrite Hv. by apply in_range_mark. }
  exists d'. rewrite Hp'. by split_and!.
Qed.

Lemma mark_all_perm evs evs' v :
  evs ≡ₚ evs' → foldl (λ v e, mark e v) v evs = foldl (λ v e, mark e v) v evs'.
Proof.
  intros Hp. revert v. induction Hp as [|e l l' _ IH|e1 e2 l|l1 l2 l3 _ IH1 _ IH2]; intros v; cbn.
  - done.
  - apply IH.
  - by rewrite mark_commute.
  - by rewrite IH1.
Qed.

(** A block that the file does not have makes the collector panic. *)
Lemma collect_out_of_range d e s :
  fileIntegrity d !! targetFileID e = Some s → len (ShardLocations s) <= ev_shardIndex e →
  collect d e = Panic oob.
Proof.
  intros Hs Hi. unfold collect, get_state. rewrite Hs. cbn [mbind result_bind].
  unfold index_at, len in *. rewrite (proj2 (Z.ltb_ge _ 0)) by lia.
  by rewrite lookup_ge_None_2 by lia.
Qed.

(** ** Intact sets *)

(** The file is on disk as [fd] describes it. *)
Definition intact (root : Root) (fd : FileDescPacket) : Prop :=
  ∃ data, root !! Filename fd = Some (Contents data) ∧ len data = ByteCount fd ∧
    md5_Sum (take (Z.to_nat quickHashSize) data) = SixteenKHash fd ∧ md5_Sum data = fd_Hash fd.

Definition never_cancelled (ctx : Ctx) : Prop := ∀ p n, ctx p n = false.

(** The state of a file that the prescan has found intact. *)
Definition good_state (d0 : Decoder) (fd : FileDescPacket) (s : fileIntegrityState) : Prop :=
  Damage s = damageNone ∧ RenameSource s = [] ∧
  Forall (λ l, Offset l ≠ -1) (ShardLocations s).

Section Intact.
Context (root : Root) (d0 : Decoder).
Hypothesis (Hdistinct : NoDup (fd_FileID <$> protectedFiles d0)).
Hypothesis (Hintact : ∀ fd, fd ∈ protectedFiles d0 → intact root fd).
Hypothesis (Hslice : 4 <= sliceByteCount d0).

Lemma intact_open fd :
  fd ∈ protectedFiles d0 → ∃ data, Open root (Filename fd) = Ok (Contents data) ∧
    len data = ByteCount fd ∧ md5_Sum (take (Z.to_nat quickHashSize) data) = SixteenKHash fd ∧
    md5_Sum data = fd_Hash fd.
Proof.
  intros (data & Hf & H)%Hintact. exists data. unfold Open. by rewrite Hf.
Qed.

Lemma check_intact ctx d fds i0 :
  never_cancelled ctx → (∀ fd, fd ∈ fds → fd ∈ protectedFiles d0) →
  foldM (check_exists ctx root) d (zip (seq i0 (length fds)) fds) = Ok d.
Proof.
  intros Hctx. revert i0. induction fds as [|fd fds IH]; intros i0 Hfds; [done|].
  cbn [length seq zip zip_with foldM].
  assert (check_exists ctx root d (i0, fd) = Ok d) as ->.
  { unfold check_exists. rewrite Hctx.
    destruct (intact_open fd) as (data & -> & _); [apply Hfds, list_elem_of_here|done]. }
  cbn [mbind result_bind]. apply IH. intros. apply Hfds. by apply elem_of_cons; right.
Qed.

Lemma prescan_intact fd d s :
  fd ∈ protectedFiles d0 → sliceByteCount d = sliceByteCount d0 →
  fileIntegrity d !! fd_FileID fd = Some s → RenameSource s = [] → Damage s ≠ damageMissing →
  ∃ s', prescan_protected root fd d = Ok (put_state (fd_FileID fd) s' d) ∧ good_state d0 fd s'.
Proof.
  intros Hfd Hsl Hs Hr Hd. unfold prescan_protected, get_state. rewrite Hs. cbn [mbind result_bind].
  rewrite bool_decide_eq_false_2 by done.
  destruct (intact_open fd Hfd) as (data & -> & Hlen & Hq & Hh). cbn [Size].
  rewrite Hlen, Z.eqb_refl. cbn [negb]. unfold quickHash16K, computeFileMD5.
  cbn [ReadAll mbind result_bind]. rewrite Hq, Hh, !bool_decide_eq_true_2 by done.
  cbn [negb]. eexists. split; [reflexivity|]. split; [done|]. split; [done|].
  cbn [located set_ShardLocations ShardLocations]. unfold in_place. apply Forall_fmap.
  apply Forall_forall. intros i _. cbn. nia.
Qed.

(** [d] has good states for the files of [fds]. *)
Definition goods (d : Decoder) (fds : list FileDescPacket) : Prop :=
  ∀ fd, fd ∈ fds → ∃ s, fileIntegrity d !! fd_FileID fd = Some s ∧ good_state d0 fd s.

Lemma prescan_all_intact ctx fds i d :
  never_cancelled ctx → NoDup (fd_FileID <$> fds) → (∀ fd, fd ∈ fds → fd ∈ protectedFiles d0) →
  sliceByteCount d = sliceByteCount d0 →
  (∀ fd, fd ∈ fds → fileIntegrity d !! fd_FileID fd = Some (initial_state d0 fd)) →
  ∃ d', prescan_all ctx i root fds d = Ok d' ∧ goods d' fds ∧
    d' = set_fileIntegrity (fileIntegrity d') d ∧
    (∀ id, id ∉ fd_FileID <$> fds → fileIntegrity d' !! id = fileIntegrity d !! id).
Proof.
  intros Hctx. revert i d. induction fds as [|fd fds IH]; intros i d Hnd Hfds Hsl Hinit;
    cbn [prescan_all].
  - exists d. split; [done|]. split; [by intros fd ?%elem_of_nil|]. split; [by destruct d|done].
  - rewrite Hctx. rewrite fmap_cons in *. apply NoDup_cons in Hnd as [Hnew Hnd].
    destruct (prescan_intact fd d (initial_state d0 fd)) as (s' & -> & Hgood);
      [apply Hfds, list_elem_of_here|done|apply Hinit, list_elem_of_here|done|done|].
    cbn [mbind result_bind].
    destruct (IH (S i) (put_state (fd_FileID fd) s' d)) as (d' & Hrun & Hg & Hsame & Ho);
      [done| |done| |].
    + intros. apply Hfds. by apply elem_of_cons; right.
    + intros fd' Hin. cbn [put_state fileIntegrity set_fileIntegrity].
      rewrite lookup_insert_ne; [apply Hinit; by apply elem_of_cons; right|].
      intros He. apply Hnew. rewrite He. by apply list_elem_of_fmap_2.
    + exists d'. split; [done|]. split; [|split].
      * intros fd' [->|Hin]%elem_of_cons; [|by apply Hg]. exists s'. rewrite Ho by done.
        cbn [put_state fileIntegrity set_fileIntegrity]. by rewrite lookup_insert_eq.
      * by rewrite Hsame.
      * intros id [Hne Hni]%not_elem_of_cons. rewrite Ho by done.
        cbn [put_state fileIntegrity set_fileIntegrity]. by rewrite lookup_insert_ne.
Qed.

Lemma scan_files_intact s i d fds :
  never_cancelled (sc_ctx s) → goods d fds → scan_files s root i fds d = Ok (d, [], None).
Proof.
  intros Hctx. revert i. induction fds as [|fd fds IH]; intros i Hg; cbn [scan_files]; [done|].
  rewrite Hctx. destruct (Hg fd (list_elem_of_here _ _)) as (st & Hst & Hgood).
  unfold get_state. rewrite Hst. cbn [mbind result_bind].
  assert (skipsBlockScan st = true) as ->.
  { unfold skipsBlockScan. destruct Hgood as [-> _]. done. }
  apply IH. intros fd' Hin. apply Hg. by apply elem_of_cons; right.
Qed.

Lemma verify_hash_intact d fds : goods d fds → foldM (verify_hash root) d fds = Ok d.
Proof.
  induction fds as [|fd fds IH]; intros Hg; [done|]. cbn [foldM].
  destruct (Hg fd (list_elem_of_here _ _)) as (st & Hst & Hgood).
  assert (verify_hash root d fd = Ok d) as ->.
  { unfold verify_hash, get_state. rewrite Hst. cbn [mbind result_bind].
    destruct Hgood as [-> _]. done. }
  cbn [mbind result_bind]. apply IH. intros fd' Hin. apply Hg. by apply elem_of_cons; right.
Qed.
End Intact.

(** The number of checksums the set lists. *)
Definition total_pairs (d : Decoder) : nat :=
  sum_list ((λ p, length (ChecksumPairs p.2)) <$> map_to_list (fileChecksums d)).

Lemma add_locations_size cls m :
  (size (foldl add_location m cls) <= size m + length cls)%nat.
Proof.
  revert m. induction cls as [|cl cls IH]; intros m; cbn [foldl length]; [lia|].
  specialize (IH (add_location m cl)).
  assert (size (add_location m cl) <= S (size m))%nat as Hs; [|lia].
  unfold add_location. rewrite (map_size_insert (M := gmap Z)).
  destruct (m !! cl.1); cbn; lia.
Qed.

Lemma checksumMap_size ifscs d :
  (size (checksumMap ifscs d) <= sum_list ((λ p, length (ChecksumPairs p.2)) <$> ifscs))%nat.
Proof.
  unfold checksumMap.
  assert (∀ m : gmap Z (list checksumLocation),
    (size (foldl (λ m '(id, p), match fileIntegrity d !! id with
       | None => m | Some _ => foldl add_location m (checksum_locations id p) end) m ifscs)
     <= size m + sum_list ((λ p, length (ChecksumPairs p.2)) <$> ifscs))%nat) as H.
  { induction ifscs as [|[id p] ifscs IH]; intros m; cbn [foldl]; [simpl; lia|].
    rewrite fmap_cons. cbn [snd sum_list sum_list_with]. etransitivity; [apply IH|].
    destruct (fileIntegrity d !! id); [|simpl; lia].
    pose proof (add_locations_size (checksum_locations id p) m) as Ha.
    unfold checksum_locations in Ha at 2. rewrite length_fmap in Ha. unfold indexed in Ha.
    rewrite length_zip_with, length_seq in Ha. cbn in *. lia. }
  specialize (H ∅). rewrite map_size_empty in H. lia.
Qed.

(** A schedule that only chooses orders. *)
Definition permutes (sched : Schedule) : Prop :=
  (∀ l, ifsc_order sched l ≡ₚ l) ∧ (∀ l, crc_order sched l ≡ₚ l) ∧
  (∀ l, event_order sched l ≡ₚ l) ∧ (∀ l, candidate_order sched l ≡ₚ l).

(** The entries that [buildLookupTable] makes the table from. *)
Definition table_entries (sched : Schedule) (d : Decoder) : list (Z * list checksumLocation) :=
  crc_order sched (map_to_list (checksumMap (ifsc_order sched (map_to_list (fileChecksums d))) d)).

Lemma table_entries_keys sched d : permutes sched → NoDup (table_entries sched d).*1.
Proof. intros (_ & Hc & _). unfold table_entries. rewrite (Hc _). apply NoDup_fst_map_to_list. Qed.

Lemma buildLookupTable_entries sched d :
  permutes sched → Z.of_nat (total_pairs d) <= 536870912 →
  ∃ t, buildLookupTable sched d = Ok t ∧
       LookupSpec t (λ c, (list_to_map (flagged 0 (table_entries sched d)) : gmap Z _) !! c).
Proof.
  intros Hperm Htot. apply newCRCLookupTable_spec; [by apply table_entries_keys|].
  destruct Hperm as (Hi & Hc & _). unfold table_entries, len.
  rewrite (Permutation_length (Hc _)), length_map_to_list.
  pose proof (checksumMap_size (ifsc_order sched (map_to_list (fileChecksums d))) d) as Hs.
  unfold total_pairs in Htot.
  assert (∀ l l' : list nat, l ≡ₚ l' → sum_list l = sum_list l') as Hsum.
  { induction 1; simpl; lia. }
  rewrite (Hsum _ ((λ p, length (ChecksumPairs p.2)) <$> map_to_list (fileChecksums d))) in Hs
    by (by rewrite (Hi _)). lia.
Qed.

Lemma buildLookupTable_ok sched d :
  permutes sched → Z.of_nat (total_pairs d) <= 536870912 →
  ∃ t, buildLookupTable sched d = Ok t ∧ ∃ answer, LookupSpec t answer.
Proof.
  intros Hperm Htot. destruct (buildLookupTable_entries sched d Hperm Htot) as (t & Ht & Hl).
  exists t. split; [done|by eexists].
Qed.

(** ** A set whose files are all intact *)

Lemma foldl_initial_lookup d0 fd :
  NoDup (fd_FileID <$> protectedFiles d0) → fd ∈ protectedFiles d0 →
  initial_states d0 (protectedFiles d0) !! fd_FileID fd = Some (initial_state d0 fd).
Proof. intros Hnd Hfd. apply initial_states_lookup; [done|]. left. by exists fd. Qed.

Lemma VerifyScans_intact sched root d0 :
  NoDup (fd_FileID <$> protectedFiles d0) →
  (∀ fd, fd ∈ protectedFiles d0 → intact root fd) →
  4 <= sliceByteCount d0 < maxAlloc → candidateFiles d0 = ∅ →
  Forall (λ fd, 0 <= shard_count (ByteCount fd) (sliceByteCount d0)) (protectedFiles d0) →
  total_shards d0 (protectedFiles d0) <= 32768 → Z.of_nat (total_pairs d0) <= 536870912 →
  permutes sched → candidate_order sched [] = [] → never_cancelled (ctx_polls sched) →
  ∃ d, VerifyScans sched root d0 = Ok d ∧ RepairNeeded (shardCountsLocked d) = false.
Proof.
  intros Hnd Hint [Hsl Hmem] Hcand Hsh Htot Hpairs Hperm Hco Hctx. unfold VerifyScans. cbv zeta.
  assert (∃ d1, initFileIntegrity d0 = Ok d1) as [d1 H1].
  { unfold initFileIntegrity. destruct (init_files_ok d0 (protectedFiles d0) 0 ∅) as [m Hm];
      [lia|done|done|lia|]. rewrite Hm. by eexists. }
  rewrite H1. cbn [mbind result_bind].
  apply (initFileIntegrity_verifying root d0 (λ _, True) true Hnd) in H1 as [Hv1 Hst1].
  pose proof (v_same _ _ _ _ _ Hv1) as Hs1.
  unfold checkFileExistence, indexed. rewrite (verifying_files _ _ _ _ _ Hv1).
  rewrite (check_intact root d0) by done. cbn [mbind result_bind].
  assert (prescanCandidateMatches (ctx_polls sched) root
    (candidate_order sched (map_to_list (candidateFiles d0))) d1 = Ok (d1, ∅)) as ->.
  { unfold prescanCandidateMatches. rewrite Hs1. cbn [candidateFiles set_fileIntegrity].
    by rewrite bool_decide_eq_true_2. }
  cbn [mbind result_bind].
  destruct (prescan_all_intact root d0 Hint Hsl (ctx_polls sched) (protectedFiles d0) 0 d1)
    as (d2 & Hrun2 & Hg2 & Hs2 & Ho2); [done|done|done|by rewrite Hs1| |].
  { intros fd Hfd. rewrite Hst1. by apply foldl_initial_lookup. }
  unfold prescanProtectedMatches. rewrite (verifying_files _ _ _ _ _ Hv1), Hrun2.
  cbn [mbind result_bind].
  assert (d2 = set_fileIntegrity (fileIntegrity d2) d0) as Hs2'.
  { rewrite Hs2 at 1. by rewrite Hs1. }
  assert (sliceByteCount d2 = sliceByteCount d0) as -> by (by rewrite Hs2').
  destruct (newCRC32Window_ok (sliceByteCount d0) (conj Hsl Hmem)) as (w & -> & _). cbn [mbind result_bind].
  destruct (buildLookupTable_ok sched d2) as (t & -> & _); [done| |].
  { unfold total_pairs. rewrite Hs2'. exact Hpairs. }
  cbn [mbind result_bind]. unfold scan.
  assert (protectedFiles d2 = protectedFiles d0) as -> by (by rewrite Hs2').
  set (s := {| sc_window := w |}).
  rewrite (scan_files_intact root d0 s 0 d2 (protectedFiles d0) Hctx Hg2).
  cbn [mbind result_bind]. rewrite Hcand, map_to_list_empty, Hco. cbn [scan_candidates].
  cbn [mbind result_bind app].
  assert (event_order sched [] = []) as ->.
  { apply Permutation_nil_r. apply Hperm. }
  cbn [foldM mbind result_bind]. unfold verifyProtectedFilesHashes.
  assert (protectedFiles d2 = protectedFiles d0) as -> by (by rewrite Hs2').
  rewrite (verify_hash_intact root d0) by done. cbn [mbind result_bind]. rewrite Hctx.
  exists d2. split; [done|]. apply RepairNeeded_spec. intros id st Hid.
  destruct (decide (id ∈ fd_FileID <$> protectedFiles d0)) as [Hin|Hni].
  - apply list_elem_of_fmap in Hin as (fd & -> & Hfd).
    destruct (Hg2 fd Hfd) as (st' & Hst' & Hd & Hr & Hl).
    assert (st = st') as -> by congruence. split; [done|]. split; [|done].
    unfold needsRebuild. by rewrite Hd.
  - rewrite Ho2 in Hid by done.
    destruct (v_state _ _ _ _ _ Hv1 _ _ Hid) as (fd & Hfd & <- & _).
    destruct Hni. by apply list_elem_of_fmap_2.
Qed.
