(* ===== verification/VerifyCollect.v ===== *)
(** * What the collector records

    The first match of a block that has none is recorded, later ones are not:
    the locations after a list of events, in closed form. *)

From stdpp Require Import gmap.
From S2P Require Import Prelude Packet CrcTable Decoder Blocks Verify VerifyFacts VerifyOutcome.

(** The event is about block [i] of the file [id]. *)
Definition hits (id : FileID) (i : nat) (e : matchEvent) : bool :=
  bool_decide (targetFileID e = id) && (ev_shardIndex e =? Z.of_nat i).

Definition event_loc (e : matchEvent) : shardLocation :=
  {| FileID_ := sourceFileID e; Offset := offset e |}.

(** A block that has a location keeps it; otherwise it gets that of the first
    event about it. *)
Definition settled (evs : list matchEvent) (id : FileID) (i : nat) (loc : shardLocation) : shardLocation :=
  if Offset loc =? -1 then from_option event_loc loc (find (hits id i) evs) else loc.

Definition collected (evs : list matchEvent) (id : FileID) (s : fileIntegrityState) : fileIntegrityState :=
  set_ShardLocations (imap (settled evs id) (ShardLocations s)) s.

Lemma settled_nil id i loc : settled [] id i loc = loc.
Proof. unfold settled. by destruct (_ =? _). Qed.

Lemma settled_cons e evs id i loc :
  offset e ≠ -1 → settled evs id i (settled [e] id i loc) = settled (e :: evs) id i loc.
Proof.
  intros Ho. unfold settled. destruct (Z.eqb_spec (Offset loc) (-1)) as [Hl|Hl].
  - cbn [find]. destruct (hits id i e); cbn [from_option].
    + cbn [event_loc Offset]. by rewrite (proj2 (Z.eqb_neq _ _) Ho).
    + by rewrite (proj2 (Z.eqb_eq _ _) Hl).
  - by rewrite (proj2 (Z.eqb_neq _ _) Hl).
Qed.

Lemma collected_nil id s : collected [] id s = s.
Proof.
  unfold collected. destruct s as [a b c e locs]. unfold set_ShardLocations. cbn. f_equal.
  apply list_eq. intros i. rewrite list_lookup_imap. destruct (locs !! i); [|done]. cbn. by rewrite settled_nil.
Qed.

Lemma collected_cons e evs id s :
  offset e ≠ -1 → collected evs id (collected [e] id s) = collected (e :: evs) id s.
Proof.
  intros Ho. unfold collected, set_ShardLocations. cbn. f_equal. apply list_eq. intros i.
  rewrite !list_lookup_imap. destruct (ShardLocations s !! i); [|done]. cbn. f_equal. by apply settled_cons.
Qed.

(** Events about other files, or other blocks, change nothing. *)
Lemma collected_other e id s : targetFileID e ≠ id → collected [e] id s = s.
Proof.
  intros Hne. rewrite <- (collected_nil id s) at 2. unfold collected, set_ShardLocations. cbn. f_equal.
  apply imap_ext. intros i loc _. unfold settled. cbn [find]. unfold hits.
  by rewrite bool_decide_eq_false_2.
Qed.

(** The collector's result on one event, and on all of them. *)
Definition records (d : Decoder) (evs : list matchEvent) (d' : Decoder) : Prop :=
  d' = set_fileIntegrity (fileIntegrity d') d ∧
  ∀ id, fileIntegrity d' !! id = collected evs id <$> fileIntegrity d !! id.

Lemma collect_records d e : in_range (view d) e → ∃ d', collect d e = Ok d' ∧ records d [e] d'.
Proof.
  intros (Ho & x & Hx & Hi). unfold view in Hx. rewrite lookup_fmap in Hx.
  destruct (fileIntegrity d !! targetFileID e) as [s|] eqn:Hs; [|done]. injection Hx as <-.
  cbn in Hi. unfold len in Hi. rewrite length_fmap in Hi.
  unfold collect, get_state. rewrite Hs. cbn [mbind result_bind].
  destruct (lookup_lt_is_Some_2 (ShardLocations s) (Z.to_nat (ev_shardIndex e))) as [l Hl]; [lia|].
  rewrite (index_at_lookup _ _ l) by (done || lia). cbn [mbind result_bind].
  assert (∀ i, hits (targetFileID e) i e = true ↔ i = Z.to_nat (ev_shardIndex e)) as Hhit.
  { intros i. unfold hits. rewrite bool_decide_eq_true_2 by done. cbn [andb]. rewrite Z.eqb_eq. lia. }
  destruct (Z.eqb_spec (Offset l) (-1)) as [He|He].
  - rewrite set_at_ok by lia. cbn [mbind result_bind]. eexists. split; [reflexivity|].
    split; [done|]. intros id. cbn [put_state fileIntegrity set_fileIntegrity].
    destruct (decide (targetFileID e = id)) as [<-|Hne].
    + rewrite lookup_insert_eq, Hs. cbn. f_equal. unfold collected. f_equal. apply list_eq. intros i.
      rewrite list_lookup_imap. destruct (decide (i = Z.to_nat (ev_shardIndex e))) as [->|Hi'].
      * rewrite list_lookup_insert_eq by lia. rewrite Hl. cbn. unfold settled.
        rewrite (proj2 (Z.eqb_eq _ _) He). cbn [find]. by rewrite (proj2 (Hhit _) eq_refl).
      * rewrite list_lookup_insert_ne by done. destruct (ShardLocations s !! i) as [loc|]; [|done].
        cbn. f_equal. unfold settled. cbn [find].
        destruct (hits _ i e) eqn:Hh; [by apply Hhit in Hh|]. by destruct (_ =? _).
    + rewrite lookup_insert_ne by done. destruct (fileIntegrity d !! id); [|done]. cbn.
      by rewrite collected_other.
  - exists d. split; [done|]. split; [by destruct d|]. intros id.
    destruct (fileIntegrity d !! id) as [s'|] eqn:Hs'; [|done]. cbn. f_equal.
    destruct (decide (targetFileID e = id)) as [<-|Hne]; [|by rewrite collected_other].
    assert (s' = s) as -> by congruence. rewrite <- (collected_nil (targetFileID e) s) at 1.
    unfold collected. f_equal. apply list_eq. intros i. rewrite !list_lookup_imap.
    destruct (ShardLocations s !! i) as [loc|] eqn:Hloc; [|done]. cbn. f_equal. unfold settled.
    destruct (Z.eqb_spec (Offset loc) (-1)) as [Hm|]; [|done]. cbn [find].
    destruct (hits _ i e) eqn:Hh; [|done]. apply Hhit in Hh as ->. congruence.
Qed.

Lemma in_range_collect d e d' e' :
  in_range (view d) e → collect d e = Ok d' → in_range (view d) e' ↔ in_range (view d') e'.
Proof.
  intros He Hrun. destruct (collect_view d e He) as (d2 & Hrun2 & Hv & _).
  assert (d2 = d') as -> by congruence. rewrite Hv. split; [apply in_range_mark|].
  intros (Ho & x & Hx & Hi). split; [done|]. unfold mark in Hx.
  destruct (decide (targetFileID e = targetFileID e')) as [Hte|Hne].
  - rewrite <- Hte in *. rewrite lookup_alter_eq in Hx.
    destruct (view d !! targetFileID e) as [y|]; [|done]. injection Hx as <-.
    exists y. split; [done|]. cbn in Hi. unfold len in *. by rewrite length_insert in Hi.
  - rewrite lookup_alter_ne in Hx by done. by exists x.
Qed.

Lemma collect_all_records d evs :
  Forall (in_range (view d)) evs → ∃ d', foldM collect d evs = Ok d' ∧ records d evs d'.
Proof.
  revert d. induction evs as [|e evs IH]; intros d Hevs.
  { exists d. split; [done|]. split; [by destruct d|]. intros id.
    destruct (fileIntegrity d !! id); [|done]. cbn. by rewrite collected_nil. }
  apply Forall_cons in Hevs as [He Hevs].
  destruct (collect_records d e He) as (d1 & Hrun & Hsame & H1). cbn [foldM]. rewrite Hrun. cbn [mbind result_bind].
  destruct (IH d1) as (d' & -> & Hsame' & H').
  { eapply Forall_impl; [exact Hevs|]. intros e' He'. by apply (in_range_collect d e d1). }
  exists d'. split; [done|]. split; [by rewrite Hsame', Hsame|]. intros id. rewrite H', H1.
  destruct (fileIntegrity d !! id); [|done]. cbn. f_equal. apply collected_cons, He.
Qed.

(** An event about a block that its file does not have. *)
Definition beyond (d : Decoder) (e : matchEvent) : Prop :=
  ∃ s, fileIntegrity d !! targetFileID e = Some s ∧ len (ShardLocations s) <= ev_shardIndex e.

Lemma collect_all_panics d evs :
  Forall (λ e, in_range (view d) e ∨ beyond d e) evs → Exists (beyond d) evs →
  foldM collect d evs = Panic oob.
Proof.
  revert d. induction evs as [|e evs IH]; intros d Hall Hex; [by apply Exists_nil in Hex|].
  apply Forall_cons in Hall as [He Hall]. cbn [foldM].
  destruct He as [He|(s & Hs & Hi)]; [|by rewrite (collect_out_of_range d e s Hs Hi)].
  apply Exists_cons in Hex as [(s & Hs & Hi)|Hex]; [by rewrite (collect_out_of_range d e s Hs Hi)|].
  destruct (collect_records d e He) as (d1 & Hrun & _ & H1). rewrite Hrun. cbn [mbind result_bind].
  assert (∀ e', beyond d e' → beyond d1 e') as Hb.
  { intros e' (s & Hs & Hi). eexists. split; [by rewrite H1, Hs|]. cbn. unfold len in *. by rewrite length_imap. }
  apply IH.
  - eapply Forall_impl; [exact Hall|]. intros e' [He'|He']; [left; by apply (in_range_collect d e d1)|right; by apply Hb].
  - eapply Exists_impl; [exact Hex|exact Hb].
Qed.
