(* ===== verification/VerifyLocated.v ===== *)
(** * Where verification locates blocks

    The invariant of the phases of [VerifyScans] on the locations of blocks: a
    block that is located lies at its place in a file that has the contents of
    its own file, by full hash, or the bytes at its location have the CRC32 and
    the MD5 that the set gives for it. *)

From stdpp Require Import gmap.
From S2P Require Import Prelude Md5 Crc32 Packet PacketFacts CrcTable Decoder DecoderFacts Blocks.
From S2P Require Import BlocksFacts Verify VerifyFacts VerifyOutcome.

(** ** The claim about a location *)

(** The file on disk that an identifier stands for. *)
Definition names_file (d0 : Decoder) (id : FileID) (name : list Z) : Prop :=
  (∃ fd, fd ∈ protectedFiles d0 ∧ fd_FileID fd = id ∧ Filename fd = name) ∨
  candidateFiles d0 !! name = Some id.

(** [block] has the checksums of block [i] of file [id]. *)
Definition has_checksums (d0 : Decoder) (id : FileID) (i : nat) (block : list Z) : Prop :=
  ∃ p pr, fileChecksums d0 !! id = Some p ∧ ChecksumPairs p !! i = Some pr ∧
    le_combine (CRC32 pr) = ChecksumIEEE block ∧ MD5 pr = md5_Sum block.

(** Where its last block begins when a file of [n] bytes ends in a part of one. *)
Definition tail_offset (d0 : Decoder) (n off : Z) : Prop :=
  n mod sliceByteCount d0 ≠ 0 ∧ off = n / sliceByteCount d0 * sliceByteCount d0.

(** The length up to which a file with [data] is read for a block at [off]: what
    it has, or, for its last, partial block, what its description says. *)
Definition read_length (d0 : Decoder) (id : FileID) (data : list Z) (off n : Z) : Prop :=
  n = len data ∨
  ∃ fd, fd ∈ protectedFiles d0 ∧ fd_FileID fd = id ∧ n = ByteCount fd ∧ tail_offset d0 n off.

Inductive location_ok (root : Root) (d0 : Decoder) (id : FileID) (i : nat) (loc : shardLocation) : Prop :=
  | in_whole_file fd name data :
      fd ∈ protectedFiles d0 → fd_FileID fd = id → names_file d0 (FileID_ loc) name →
      root !! name = Some (Contents data) → md5_Sum data = fd_Hash fd →
      Offset loc = Z.of_nat i * sliceByteCount d0 → location_ok root d0 id i loc
  | by_checksums name data n :
      names_file d0 (FileID_ loc) name → root !! name = Some (Contents data) →
      0 <= Offset loc → read_length d0 (FileID_ loc) data (Offset loc) n →
      has_checksums d0 id i (block_at (sliceByteCount d0) (take (Z.to_nat n) data) (Offset loc)) →
      location_ok root d0 id i loc.

(** Files that can be read hold bytes, and are no longer than an [int]. *)
Definition disk_ok (root : Root) : Prop :=
  map_Forall (λ _ f, if f is Contents data then bytes data ∧ len data <= maxInt else True) root.

(** ** The entries of the lookup table *)

Lemma add_locations_elem cls m c ls l :
  (foldl add_location m cls) !! c = Some ls → l ∈ ls →
  (c, l) ∈ cls ∨ ∃ ls', m !! c = Some ls' ∧ l ∈ ls'.
Proof.
  revert m. induction cls as [|[c' l'] cls IH]; intros m; cbn [foldl]; [intros; right; by exists ls|].
  intros Hc Hl. destruct (IH _ Hc Hl) as [Hin|(ls' & Hls & Hin)]; [left; by apply elem_of_cons; right|].
  unfold add_location in Hls. cbn [fst snd] in Hls.
  apply lookup_insert_Some in Hls as [[<- <-]|[_ Hls]]; [|right; by exists ls'].
  apply elem_of_app in Hin as [Hin|Hin]; [|apply list_elem_of_singleton in Hin as ->; left; apply list_elem_of_here].
  destruct (m !! c') as [ls0|] eqn:Hm; cbn in Hin; [|by apply elem_of_nil in Hin].
  right. by exists ls0.
Qed.

Lemma checksum_locations_elem id p c l :
  (c, l) ∈ checksum_locations id p →
  ∃ i pr, ChecksumPairs p !! i = Some pr ∧ c = le_combine (CRC32 pr) ∧ fileID l = id ∧
          shardIndex l = Z.of_nat i ∧ md5Hash l = MD5 pr.
Proof.
  unfold checksum_locations. intros ([i pr] & [= -> ->] & Hin)%list_elem_of_fmap.
  apply list_elem_of_lookup in Hin as [k Hk]. apply lookup_zip_Some in Hk as [Hi Hpr].
  apply lookup_seq in Hi as [-> _]. exists k, pr. by split_and!.
Qed.

Lemma checksumMap_elem ifscs d c ls l :
  checksumMap ifscs d !! c = Some ls → l ∈ ls →
  ∃ p i pr, (fileID l, p) ∈ ifscs ∧ ChecksumPairs p !! i = Some pr ∧ c = le_combine (CRC32 pr) ∧
            shardIndex l = Z.of_nat i ∧ md5Hash l = MD5 pr ∧ is_Some (fileIntegrity d !! fileID l).
Proof.
  unfold checksumMap.
  assert (∀ m : gmap Z (list checksumLocation),
    foldl (λ m '(id, p), match fileIntegrity d !! id with None => m
      | Some _ => foldl add_location m (checksum_locations id p) end) m ifscs !! c = Some ls → l ∈ ls →
    (∃ p i pr, (fileID l, p) ∈ ifscs ∧ ChecksumPairs p !! i = Some pr ∧ c = le_combine (CRC32 pr) ∧
            shardIndex l = Z.of_nat i ∧ md5Hash l = MD5 pr ∧ is_Some (fileIntegrity d !! fileID l)) ∨
    ∃ ls', m !! c = Some ls' ∧ l ∈ ls') as H.
  { induction ifscs as [|[id p] ifscs IH]; intros m; cbn [foldl]; [intros; right; by exists ls|].
    intros Hc Hl. destruct (IH _ Hc Hl) as [(p' & i & pr & Hin & Hrest)|(ls' & Hls & Hin)].
    { left. exists p', i, pr. split; [by apply elem_of_cons; right|done]. }
    destruct (fileIntegrity d !! id) eqn:Hst; [|right; by exists ls'].
    destruct (add_locations_elem _ _ _ _ _ Hls Hin) as [Hcl|?]; [left|by right].
    apply checksum_locations_elem in Hcl as (i & pr & Hpr & Hcc & <- & Hidx & Hmd).
    exists p, i, pr. rewrite Hst. split; [apply list_elem_of_here|by split_and!]. }
  intros Hc Hl. destruct (H ∅ Hc Hl) as [?|(ls' & Hls & _)]; [done|]. by rewrite lookup_empty in Hls.
Qed.

(** ** The events of the scans *)

(** The last block, cut at [n], as the scan pads it. *)
Lemma tail_block bs content n :
  0 < bs → 0 < n →
  ReadAt content (n / bs * bs) (Z.to_nat (n mod bs)) ++ replicate (Z.to_nat (bs - n mod bs)) 0 =
  block_at bs (take (Z.to_nat n) content) (n / bs * bs).
Proof.
  intros Hbs Hn. pose proof (Z.mod_pos_bound n bs Hbs) as Hm. pose proof (Z.div_mod n bs ltac:(lia)) as Hd.
  assert (0 <= n / bs) by (apply Z.div_pos; lia).
  apply list_eq_same_length with (n := Z.to_nat bs).
  - unfold block_at. by rewrite ReadAt_length.
  - rewrite length_app, ReadAt_length, length_replicate. lia.
  - intros k x y Hk. unfold block_at. rewrite (ReadAt_lookup (take _ _)) by done.
    destruct (decide (k < Z.to_nat (n mod bs))%nat) as [Hlt|Hge].
    + rewrite lookup_app_l by (rewrite ReadAt_length; lia). rewrite ReadAt_lookup by done.
      rewrite lookup_take_lt by nia. congruence.
    + rewrite lookup_app_r by (rewrite ReadAt_length; lia). rewrite lookup_replicate_2 by (rewrite ReadAt_length; lia).
      rewrite lookup_take_ge by nia. cbn. congruence.
Qed.

Section Events.
Context (root : Root) (d0 : Decoder) (s : Scanner) (es : list (Z * list checksumLocation)).
Hypothesis (Hslice : sc_slice s = sliceByteCount d0).
Hypothesis (Hs : scanner_ok s (λ c, (list_to_map (flagged 0 es) : gmap Z _) !! c)).
Hypothesis (Hkeys : NoDup es.*1).
Hypothesis (Hes : ∀ block id idx, describes es block id idx →
  0 <= idx ∧ has_checksums d0 id (Z.to_nat idx) block).
Hypothesis (Hdisk : disk_ok root).

Definition event_ok (e : matchEvent) : Prop :=
  0 <= ev_shardIndex e ∧
  location_ok root d0 (targetFileID e) (Z.to_nat (ev_shardIndex e))
    {| FileID_ := sourceFileID e; Offset := offset e |}.

Lemma scan_contents_events name id data byteCount evs :
  root !! name = Some (Contents data) → names_file d0 id name →
  (∀ off, tail_offset d0 byteCount off → read_length d0 id data off byteCount) →
  0 < byteCount <= maxInt ∨ byteCount = len data →
  scan_contents s (Contents data) id (len data) byteCount = Ok evs → Forall event_ok evs.
Proof.
  intros Hdata Hname Hread Hbc Hrun. destruct (Hdisk _ _ Hdata) as [Hb Hmax].
  destruct (scan_contents_spec s _ Hs data id byteCount Hb Hbc Hmax) as (evs' & Hrun' & Hsound & _).
  assert (evs' = evs) as -> by congruence. pose proof (so_slice _ _ Hs) as Hbs.
  apply Forall_forall. intros e He. destruct (Hsound e He) as [(abs & Habs & Hev)|(Hm & Hev)];
    apply block_events_describes in Hev as (Hd & Hsrc & Hoff); [|done| |done];
    apply Hes in Hd as [H0 Hc]; (split; [done|]).
  - apply (by_checksums _ _ _ _ _ name data (len data)); cbn; rewrite ?Hsrc, ?Hoff; [done|done|lia|by left|].
    unfold len. rewrite Nat2Z.id, take_ge by done. by rewrite <- Hslice.
  - assert (0 < byteCount) as Hpos.
    { destruct Hbc as [|Hbc]; [lia|]. destruct (decide (byteCount = 0)) as [->|]; [done|].
      unfold len in Hbc. lia. }
    apply (by_checksums _ _ _ _ _ name data byteCount); cbn; rewrite ?Hsrc, ?Hoff;
      [done|done| |by apply Hread; unfold tail_offset; rewrite <- Hslice|].
    + assert (0 <= byteCount / sc_slice s) by (apply Z.div_pos; lia). nia.
    + rewrite <- Hslice. rewrite tail_block in Hc by lia. exact Hc.
Qed.

(** A file that cannot be read gives no events. *)
Lemma unreadable_no_events f id size byteCount evs :
  (∀ data, f ≠ Contents data) → scan_contents s f id size byteCount = Ok evs → evs = [].
Proof.
  intros Hf. unfold scan_contents. destruct (size =? 0); [by intros [= <-]|].
  assert (∀ start end_ st st', scanChunk (sc_window s) (sc_table s) (sc_slice s) (sc_candidates s)
    st (sc_ctx s) f id start end_ scan_start = Ok st' → events st' = []) as Hchunk.
  { intros start end_ st st'. unfold scanChunk. destruct (_ <? _); [by intros [= <-]|].
    destruct f; [by edestruct Hf|done..]. }
  assert (∀ idxs evs, scan_chunks s f id size idxs = Ok evs → evs = []) as Hchunks.
  { induction idxs as [|i idxs IH]; intros evs'; cbn [scan_chunks]; [by intros [= <-]|].
    destruct (sc_ctx s _ _); [by intros [= <-]|]. destruct (sc_ctx s _ _); [apply IH|].
    destruct (scan_chunk_of s f id size i) as [st| |] eqn:Hst; [|by destruct (scan_chunks _ _ _ _ _)|done].
    apply Hchunk in Hst. destruct (scan_chunks s f id size idxs) as [evs2| |] eqn:H2;
      cbn [mbind result_bind]; [|done..]. intros [= <-]. by rewrite Hst, (IH evs2). }
  unfold scanFileChunks. destruct (scan_chunks _ _ _ _ _) as [evs1| |] eqn:H1; cbn [mbind result_bind]; [|done..].
  apply Hchunks in H1 as ->.
  destruct (scanLastPartialBlock _ _ _ _ f _ _ _) as [st| |] eqn:H2; cbn [mbind result_bind]; [|done..].
  intros [= <-]. unfold scanLastPartialBlock in H2. destruct (_ =? _); [by injection H2 as <-|].
  destruct (make_bytes _); cbn [mbind result_bind] in H2; [|done..]. destruct f; [by edestruct Hf|done..].
Qed.

Lemma Open_cases name f : Open root name = Ok f → root !! name = Some f.
Proof. unfold Open. destruct (root !! name) as [[]|]; by intros [= <-]. Qed.

Lemma scanFile_events fd evs :
  fd ∈ protectedFiles d0 → 0 < ByteCount fd <= maxInt → (scanFile s root fd).2 = Ok evs →
  Forall event_ok evs.
Proof.
  intros Hfd Hbc. unfold scanFile. destruct (Open root (Filename fd)) as [f|e|] eqn:Ho; [| |done].
  2:{ case_bool_decide; cbn; [by intros [= <-]|done]. }
  cbn [snd]. apply Open_cases in Ho. intros Hrun. destruct f as [data|n|].
  - eapply (scan_contents_events (Filename fd) (fd_FileID fd)); [done| | |by left|exact Hrun].
    + left. by exists fd.
    + intros off Hoff. right. by exists fd.
  - apply unreadable_no_events in Hrun; [by subst|done].
  - apply unreadable_no_events in Hrun; [by subst|done].
Qed.

Lemma scanCandidateFile_events path id evs :
  candidateFiles d0 !! path = Some id → scanCandidateFile s root path id = Ok evs → Forall event_ok evs.
Proof.
  intros Hc. unfold scanCandidateFile. destruct (Open root path) as [f|e|] eqn:Ho; [| |done].
  2:{ case_bool_decide; [by intros [= <-]|done]. }
  apply Open_cases in Ho. intros Hrun. destruct f as [data|n|].
  - eapply (scan_contents_events path id); [done|by right|by intros; left|by right|exact Hrun].
  - apply unreadable_no_events in Hrun; [by subst|done].
  - apply unreadable_no_events in Hrun; [by subst|done].
Qed.

Lemma scan_candidates_events i resolved names cands evs :
  (∀ path id, (path, id) ∈ cands → candidateFiles d0 !! path = Some id) →
  scan_candidates s root i resolved names cands = Ok (evs, None) → Forall event_ok evs.
Proof.
  revert i evs. induction cands as [|[path id] cands IH]; intros i evs Hc; cbn [scan_candidates];
    [by intros [= <-]|].
  assert (∀ path id, (path, id) ∈ cands → candidateFiles d0 !! path = Some id) as Hc'.
  { intros. apply Hc. by apply elem_of_cons; right. }
  destruct (sc_ctx s _ _); [by intros [= <-]|]. destruct (_ || _ : bool); [by apply IH|].
  destruct (scanCandidateFile s root path id) as [evs1|e|] eqn:H1; [| |done];
    destruct (scan_candidates s root (S i) resolved names cands) as [[evs2 err]| |] eqn:H2;
    cbn [mbind result_bind]; try done.
  intros [= <- ->]. apply Forall_app. split; [|by eapply IH].
  eapply scanCandidateFile_events; [|done]. apply Hc, list_elem_of_here.
Qed.

End Events.

(** ** Every phase keeps it *)

Section Locate.
Context (root : Root) (d0 : Decoder).
Hypothesis (Hids : NoDup (fd_FileID <$> protectedFiles d0)).

Definition locations_ok (id : FileID) (s : fileIntegrityState) : Prop :=
  ∀ i loc, ShardLocations s !! i = Some loc → Offset loc ≠ -1 → location_ok root d0 id i loc.

Definition all_located (d : Decoder) : Prop :=
  map_Forall (λ id s, locations_ok id s) (fileIntegrity d).

Lemma all_located_put d id s : all_located d → locations_ok id s → all_located (put_state id s d).
Proof. intros Hd Hs. by apply map_Forall_insert_2. Qed.

Lemma all_located_get d id s : all_located d → fileIntegrity d !! id = Some s → locations_ok id s.
Proof. intros Hd Hs. exact (Hd _ _ Hs). Qed.

(** A file located whole in a file with its contents. *)
Lemma locations_ok_located fd s id name data :
  fd ∈ protectedFiles d0 → names_file d0 id name → root !! name = Some (Contents data) →
  md5_Sum data = fd_Hash fd → locations_ok (fd_FileID fd) (located (sliceByteCount d0) id s).
Proof.
  intros Hfd Hname Hdata Hh i loc. cbn [located set_ShardLocations ShardLocations]. unfold in_place.
  rewrite list_lookup_fmap. destruct (seq _ _ !! i) as [k|] eqn:Hk; [|done].
  apply lookup_seq in Hk as [-> _]. intros [= <-] _. by eapply in_whole_file.
Qed.

Lemma check_exists_located ctx d ifd d' :
  all_located d → check_exists ctx root d ifd = Ok d' → all_located d'.
Proof.
  intros Hd. destruct ifd as [i fd]. unfold check_exists. destruct (ctx AtExistence i); [done|].
  destruct (Open root (Filename fd)) as [f|e|]; [by intros [= <-]| |done].
  case_bool_decide; [|done].
  destruct (get_state (fd_FileID fd) d) as [s| |] eqn:Hg; cbn [mbind result_bind]; [|done..].
  intros [= <-]. apply get_state_inv in Hg. apply all_located_put; [done|].
  by apply (all_located_get d (fd_FileID fd) s).
Qed.

Lemma prescan_candidate_located missing path id d d' r :
  candidateFiles d0 !! path = Some id → (∀ k fd, missing !! k = Some fd → fd ∈ protectedFiles d0) →
  sliceByteCount d = sliceByteCount d0 → all_located d →
  prescan_candidate root missing path id d = Ok (d', r) → all_located d'.
Proof.
  intros Hcand Hmis Hsl Hd. unfold prescan_candidate.
  destruct (Open root path) as [f| |] eqn:Ho; [|by intros [= <- <-]|done].
  destruct (quickHash16K f); [|by intros [= <- <-]|done].
  destruct (missing !! _) as [fd|] eqn:Hfd; [|by intros [= <- <-]].
  destruct (computeFileMD5 f) as [h| |] eqn:Hh; [|by intros [= <- <-]|done].
  destruct (negb _) eqn:Heq; [by intros [= <- <-]|].
  apply negb_false_iff, bool_decide_eq_true in Heq.
  destruct (get_state (fd_FileID fd) d) as [s| |]; cbn [mbind result_bind]; [|done..].
  intros [= <- _]. apply computeFileMD5_inv in Hh as (data & Hdata & ->). rewrite Hsl.
  apply all_located_put; [done|].
  eapply locations_ok_located; [by eapply Hmis|by right|by eapply Open_read_inv|done].
Qed.

Lemma prescan_protected_located fd d d' :
  fd ∈ protectedFiles d0 → sliceByteCount d = sliceByteCount d0 → all_located d →
  prescan_protected root fd d = Ok d' → all_located d'.
Proof.
  intros Hfd Hsl Hd. unfold prescan_protected.
  destruct (get_state (fd_FileID fd) d) as [s| |] eqn:Hg; cbn [mbind result_bind]; [|done..].
  case_bool_decide; [by intros [= <-]|].
  destruct (Open root (Filename fd)) as [f| |] eqn:Ho; [|by intros [= <-]|done].
  destruct (negb _); [by intros [= <-]|]. destruct (quickHash16K f); [|by intros [= <-]|done].
  destruct (negb _); [by intros [= <-]|].
  destruct (computeFileMD5 f) as [h| |] eqn:Hh; [|by intros [= <-]|done].
  destruct (negb _) eqn:Heq; [by intros [= <-]|].
  apply negb_false_iff, bool_decide_eq_true in Heq. cbn [mbind result_bind].
  intros [= <-]. apply computeFileMD5_inv in Hh as (data & Hdata & ->). rewrite Hsl.
  apply all_located_put; [done|].
  eapply locations_ok_located; [done|left; by exists fd|by eapply Open_read_inv|done].
Qed.

Lemma collect_located d e d' :
  all_located d → event_ok root d0 e → collect d e = Ok d' → all_located d'.
Proof.
  intros Hd [H0 He]. unfold collect.
  destruct (get_state (targetFileID e) d) as [s| |] eqn:Hg; cbn [mbind result_bind]; [|done..].
  destruct (index_at _ _) as [loc| |]; cbn [mbind result_bind]; [|done..].
  destruct (_ =? _); [|by intros [= <-]].
  destruct (set_at _ _ _) as [locs| |] eqn:Hset; cbn [mbind result_bind]; [|done..].
  intros [= <-]. apply get_state_inv in Hg. apply all_located_put; [done|].
  unfold set_at in Hset. destruct (_ && _); [|done]. injection Hset as <-.
  intros i loc'. cbn [set_ShardLocations ShardLocations].
  intros [(<- & <- & _)|[_ Hl]]%list_lookup_insert_Some; [done|].
  by apply (all_located_get d _ s Hd Hg).
Qed.

Lemma verify_hash_located d fd d' :
  all_located d → verify_hash root d fd = Ok d' → all_located d'.
Proof.
  intros Hd. unfold verify_hash.
  destruct (get_state (fd_FileID fd) d) as [s| |] eqn:Hg; cbn [mbind result_bind]; [|done..].
  apply get_state_inv in Hg. pose proof (all_located_get _ _ _ Hd Hg) as Hs.
  destruct (_ || _ : bool); [by intros [= <-]|]. cbv zeta.
  destruct (bool_decide (Damage s = damageMissing)).
  { case_bool_decide; intros [= <-]; [done|]. by apply all_located_put. }
  destruct (isAllShardsConsecutive d fd s); intros [= <-]; apply all_located_put; try done.
  by case_bool_decide.
Qed.

(** The scan of the protected files. *)
Lemma scan_files_located s es i fds d d' evs :
  sc_slice s = sliceByteCount d0 →
  scanner_ok s (λ c, (list_to_map (flagged 0 es) : gmap Z _) !! c) → NoDup es.*1 →
  (∀ block id idx, describes es block id idx → 0 <= idx ∧ has_checksums d0 id (Z.to_nat idx) block) →
  disk_ok root → (∀ fd, fd ∈ fds → fd ∈ protectedFiles d0 ∧ 0 < ByteCount fd <= maxInt) →
  all_located d → scan_files s root i fds d = Ok (d', evs, None) →
  all_located d' ∧ Forall (event_ok root d0) evs.
Proof.
  intros Hsl Hs Hk Hes Hdisk. revert i d evs.
  induction fds as [|fd fds IH]; intros i d evs Hfds Hd; cbn [scan_files]; [by intros [= <- <-]|].
  destruct (sc_ctx s _ _); [by intros [= <- <-]|].
  destruct (get_state (fd_FileID fd) d) as [st| |] eqn:Hg; cbn [mbind result_bind]; [|done..].
  assert (∀ fd, fd ∈ fds → fd ∈ protectedFiles d0 ∧ 0 < ByteCount fd <= maxInt) as Hfds'.
  { intros. apply Hfds. by apply elem_of_cons; right. }
  destruct (skipsBlockScan st); [by apply IH|].
  destruct (Hfds fd (list_elem_of_here _ _)) as [Hfd Hbc].
  pose proof (scanFile_events root d0 s es Hsl Hs Hk Hes Hdisk fd) as Hev.
  destruct (scanFile s root fd) as [dmg res]. cbn [snd] in Hev.
  set (d1 := match dmg with Some x => _ | None => d end).
  assert (all_located d1) as Hd1.
  { subst d1. destruct dmg as [x|]; [|done]. apply get_state_inv in Hg.
    apply all_located_put; [done|]. by apply (all_located_get d _ st). }
  destruct res as [evs1|e|]; [| |done];
    destruct (scan_files s root (S i) fds d1) as [[[d2 evs2] err2]| |] eqn:Hrec;
    cbn [mbind result_bind]; try done.
  intros [= <- <- ->]. destruct (IH (S i) d1 evs2 Hfds' Hd1 Hrec) as [H1 H2]. split; [done|].
  apply Forall_app. split; [|done]. by eapply Hev.
Qed.

Lemma scan_located s es sched cands resolved d d' :
  sc_slice s = sliceByteCount d0 →
  scanner_ok s (λ c, (list_to_map (flagged 0 es) : gmap Z _) !! c) → NoDup es.*1 →
  (∀ block id idx, describes es block id idx → 0 <= idx ∧ has_checksums d0 id (Z.to_nat idx) block) →
  disk_ok root → (∀ l, event_order sched l ≡ₚ l) →
  (∀ fd, fd ∈ protectedFiles d0 → 0 < ByteCount fd <= maxInt) → protectedFiles d = protectedFiles d0 →
  (∀ path id, (path, id) ∈ cands → candidateFiles d0 !! path = Some id) →
  all_located d → scan s sched root cands resolved d = Ok d' → all_located d'.
Proof.
  intros Hsl Hs Hk Hes Hdisk Hperm Hbc Hpf Hc Hd. unfold scan. rewrite Hpf.
  destruct (scan_files _ _ _ _ _) as [[[d1 evs1] err1]| |] eqn:H1; cbn [mbind result_bind]; [|done..].
  destruct (scan_candidates _ _ _ _ _ _) as [[evs2 err2]| |] eqn:H2; cbn [mbind result_bind]; [|done..].
  destruct (foldM collect d1 _) as [d2| |] eqn:H3; cbn [mbind result_bind]; [|done..].
  destruct err1, err2; try done. intros [= <-].
  eapply scan_files_located in H1 as [Hd1 He1]; [|done..|by split; [|apply Hbc]|done].
  eapply (scan_candidates_events root d0 s es) in H2; [|done..].
  revert H3. apply foldM_ok_list; [|done]. intros d3 e d4 Hin Hd3. apply collect_located; [done|].
  rewrite (Hperm _) in Hin. apply elem_of_app in Hin as [Hin|Hin].
  - rewrite Forall_forall in He1. by apply He1.
  - rewrite Forall_forall in H2. by apply H2.
Qed.

End Locate.

(** ** The whole verification *)

Lemma table_entries_checksums sched d block id idx :
  permutes sched → describes (table_entries sched d) block id idx →
  0 <= idx ∧ has_checksums d id (Z.to_nat idx) block.
Proof.
  intros (Hi & Hc & _) (ls & l & Hin & Hl & <- & <- & Hmd). unfold table_entries in Hin.
  rewrite (Hc _) in Hin. apply elem_of_map_to_list in Hin.
  destruct (checksumMap_elem _ _ _ _ _ Hin Hl) as (p & i & pr & Hp & Hpr & Hcrc & Hidx & Hmd5 & _).
  rewrite (Hi _) in Hp. apply elem_of_map_to_list in Hp. rewrite Hidx. split; [lia|].
  exists p, pr. rewrite Nat2Z.id. split; [done|]. split; [done|]. split; congruence.
Qed.

Lemma same_checksums d0 d id i block :
  d = set_fileIntegrity (fileIntegrity d) d0 → has_checksums d id i block → has_checksums d0 id i block.
Proof. intros -> (p & pr & Hp & H). by exists p, pr. Qed.

Lemma prescanCandidateMatches_located root d0 ctx cands d d' r :
  NoDup (fd_FileID <$> protectedFiles d0) →
  (∀ path id, (path, id) ∈ cands → candidateFiles d0 !! path = Some id) →
  verifying root d0 (λ _, True) false d → all_located root d0 d →
  prescanCandidateMatches ctx root cands d = Ok (d', r) → all_located root d0 d'.
Proof.
  intros Hids Hc Hv Hd. unfold prescanCandidateMatches. case_bool_decide as Hne; [by intros [= <- <-]|].
  clear Hne.
  destruct (missingByQuickKey d) as [m| |] eqn:Hm; cbn [mbind result_bind]; [|done..].
  case_bool_decide as Hne; [by intros [= <- <-]|]. clear Hne.
  assert (∀ k fd, m !! k = Some fd → missing_in d0 d fd) as Hmis.
  { intros k fd. by apply (missingByQuickKey_elem root d0 (λ _, True) false d). }
  clear Hm. generalize 0%nat, (∅ : gset (list Z)). revert d Hv Hd Hmis.
  induction cands as [|[path id] cands IH]; intros d Hv Hd Hmis i res; cbn [prescan_candidates];
    [by intros [= <- <-]|].
  destruct (ctx _ _); [by intros [= <- <-]|].
  destruct (prescan_candidate root m path id d) as [[d1 b]| |] eqn:Hp; cbn [mbind result_bind]; [|done..].
  pose proof Hp as Hp'. apply (prescan_candidate_located root d0) in Hp';
    [|by apply Hc, list_elem_of_here|intros k fd Hk; by apply (Hmis k fd)|by apply (verifying_slice root d0 (λ _, True) false)|done].
  apply (prescan_candidate_verifying root d0 (λ _, True) false Hids) in Hp as [Hv1 Hm1]; [|done..].
  apply IH; [|done|done|].
  - intros. apply Hc. by apply elem_of_cons; right.
  - intros k fd Hk. by eapply Hm1, Hmis.
Qed.

Lemma prescanProtectedMatches_located root d0 ctx d d' :
  NoDup (fd_FileID <$> protectedFiles d0) →
  verifying root d0 (λ _, True) false d → all_located root d0 d →
  prescanProtectedMatches ctx root d = Ok d' → all_located root d0 d'.
Proof.
  intros Hids Hv Hd. unfold prescanProtectedMatches. rewrite (verifying_files _ _ _ _ d Hv).
  assert (∀ fds i d, (∀ fd, fd ∈ fds → fd ∈ protectedFiles d0) → verifying root d0 (λ _, True) false d →
    all_located root d0 d → prescan_all ctx i root fds d = Ok d' → all_located root d0 d') as H; [|by apply H].
  clear d Hv Hd. intros fds. induction fds as [|fd fds IH]; intros i d Hfds Hv Hd; cbn [prescan_all];
    [by intros [= <-]|].
  destruct (ctx _ _); [by intros [= <-]|].
  destruct (prescan_protected root fd d) as [d1| |] eqn:Hp; cbn [mbind result_bind]; [|done..].
  assert (fd ∈ protectedFiles d0) as Hfd by (apply Hfds, list_elem_of_here).
  apply IH.
  - intros. apply Hfds. by apply elem_of_cons; right.
  - by apply (prescan_protected_verifying root d0 (λ _, True) false Hids) in Hp.
  - apply (prescan_protected_located root d0) in Hp; [done|done| |done].
    by apply (verifying_slice root d0 (λ _, True) false).
Qed.

Lemma VerifyScans_located sched root d0 d :
  decoder_ok d0 → permutes sched → disk_ok root → Z.of_nat (total_pairs d0) <= 536870912 →
  VerifyScans sched root d0 = Ok d → all_located root d0 d.
Proof.
  intros [Hslice Hfiles Hids _ _ _] Hperm Hdisk Htot. unfold VerifyScans. cbv zeta.
  rewrite Forall_forall in Hfiles.
  assert (∀ path id, (path, id) ∈ candidate_order sched (map_to_list (candidateFiles d0)) →
    candidateFiles d0 !! path = Some id) as Hcand.
  { intros path id. destruct Hperm as (_ & _ & _ & Hp). rewrite (Hp _). by intros ?%elem_of_map_to_list. }
  destruct (initFileIntegrity d0) as [d1| |] eqn:H1; cbn [mbind result_bind]; [|done..].
  apply (initFileIntegrity_verifying root d0 (λ _, True) false Hids) in H1 as [Hv1 Hst1].
  assert (all_located root d0 d1) as Hl1.
  { intros id s Hs. rewrite Hst1 in Hs. apply initial_states_lookup in Hs as [(fd & _ & _ & ->)|[_ Hs]];
      [|by rewrite lookup_empty in Hs|done].
    intros i loc Hi Hne. apply lookup_replicate in Hi as [-> _]. done. }
  destruct (checkFileExistence _ _ d1) as [d2| |] eqn:H2; cbn [mbind result_bind]; [|done..].
  assert (all_located root d0 d2) as Hl2.
  { revert H2. apply foldM_ok_list; [|done]. intros d' x d'' _. apply check_exists_located. }
  apply (checkFileExistence_verifying root d0 (λ _, True) false Hids) in H2; [|done].
  destruct (prescanCandidateMatches _ _ _ d2) as [[d3 res]| |] eqn:H3; cbn [mbind result_bind]; [|done..].
  pose proof (prescanCandidateMatches_located root d0 _ _ d2 d3 res Hids Hcand H2 Hl2 H3) as Hl3.
  apply (prescanCandidateMatches_verifying root d0 (λ _, True) false Hids) in H3; [|done..].
  destruct (prescanProtectedMatches _ _ d3) as [d4| |] eqn:H4; cbn [mbind result_bind]; [|done..].
  pose proof (prescanProtectedMatches_located root d0 _ d3 d4 Hids H3 Hl3 H4) as Hl4.
  apply (prescanProtectedMatches_verifying root d0 (λ _, True) false Hids) in H4; [|done..].
  pose proof (v_same _ _ _ _ _ H4) as Hsame.
  destruct (newCRC32Window _) as [w| |] eqn:Hw; cbn [mbind result_bind]; [|done..].
  assert (sliceByteCount d4 = sliceByteCount d0) as Hsl by (by rewrite Hsame).
  apply newCRC32Window_inv in Hw as (Hs4 & Hsz & Hok).
  destruct (buildLookupTable_entries sched d4 Hperm) as (t & -> & Hlk); [by rewrite Hsame|].
  cbn [mbind result_bind]. set (scn := Build_Scanner _ _ _ _ _ _ _).
  destruct (scan _ _ _ _ _ d4) as [d5| |] eqn:H5; cbn [mbind result_bind]; [|done..].
  apply (scan_located root d0 scn (table_entries sched d4)) in H5; cycle 1.
  { exact Hsl. } { split; cbn; [lia|done|done|done]. } { by apply table_entries_keys. }
  { intros block id idx Hd. apply (table_entries_checksums _ _ _ _ _ Hperm) in Hd as [H0 Hc].
    split; [done|]. by eapply same_checksums. }
  { done. } { apply Hperm. } { intros fd Hfd. by destruct (Hfiles fd Hfd) as (_ & _ & _ & ? & _). }
  { by rewrite Hsame. } { done. } { done. }
  destruct (verifyProtectedFilesHashes root d5) as [d6| |] eqn:H6; cbn [mbind result_bind]; [|done..].
  destruct (ctx_polls sched AtEnd 0%nat); [done|]. intros [= <-]. revert H6.
  apply foldM_ok_list; [|done]. intros d' x d'' _. apply verify_hash_located.
Qed.
