(* ===== verification/VerifyTotal.v ===== *)
(** * Verification does not panic

    No phase of [VerifyScans] indexes out of range, runs out of fuel or follows
    a nil pointer, when no file of the set has more checksums than blocks. *)

From stdpp Require Import gmap.
From S2P Require Import Prelude Md5 Crc32 Packet PacketFacts CrcTable Decoder DecoderFacts Blocks.
From S2P Require Import BlocksFacts Verify VerifyFacts VerifyOutcome VerifyLocated.

(** ** Results that are no panic *)

(** No panic, an error only for a [cause], and [I] of the value if there is one. *)
Definition fine (cause : Prop) {A} (I : A → Prop) (r : result A) : Prop :=
  match r with Ok a => I a | Err _ => cause | Panic _ => False end.

Section Fine.
Context (cause : Prop).

Lemma fine_bind {A B} (I : A → Prop) (J : B → Prop) (r : result A) (f : A → result B) :
  fine cause I r → (∀ a, I a → fine cause J (f a)) → fine cause J (a ← r; f a).
Proof. destruct r; cbn; auto. Qed.

Lemma fine_foldM {S A} (I : S → Prop) (f : S → A → result S) (l : list A) s :
  I s → (∀ s x, x ∈ l → I s → fine cause I (f s x)) → fine cause I (foldM f s l).
Proof.
  revert s. induction l as [|x l IH]; intros s Hs Hf; cbn [foldM]; [done|].
  eapply fine_bind; [apply Hf; [apply list_elem_of_here|done]|]. intros s' Hs'.
  apply IH; [done|]. intros s2 y Hy. apply Hf. by apply elem_of_cons; right.
Qed.

Lemma fine_keeps {A} (I : A → Prop) (r : result A) :
  fine cause (λ _, True) r → (∀ a, r = Ok a → I a) → fine cause I r.
Proof. destruct r; cbn; auto. Qed.

Lemma fine_weaken {A} (I : A → Prop) (r : result A) : fine cause I r → fine cause (λ _, True) r.
Proof. by destruct r. Qed.

End Fine.

(** An error to be caught needs no cause. *)
Abbreviation caught := (fine True (λ _, True)).

Lemma Open_fine root name : caught (Open root name).
Proof. unfold Open. by destruct (root !! name) as [[]|]. Qed.

Lemma quickHash16K_fine f : caught (quickHash16K f).
Proof. by destruct f. Qed.

Lemma computeFileMD5_fine f : caught (computeFileMD5 f).
Proof. by destruct f. Qed.

(** Why a verification can end in an error. *)
Inductive failure (ctx : Ctx) (root : Root) (d0 : Decoder) : Prop :=
  | out_of_limits e : initFileIntegrity d0 = Err e → failure ctx root d0
  | no_slices : sliceByteCount d0 = 0 → failure ctx root d0
  | cancelled p n : ctx p n = true → failure ctx root d0
  | unreadable name f : root !! name = Some f → (∀ data, f ≠ Contents data) → failure ctx root d0.

(** ** The phases *)

Section Total.
Context (ctx : Ctx) (root : Root) (d0 : Decoder).
Hypothesis (Hids : NoDup (fd_FileID <$> protectedFiles d0)).

Abbreviation cause := (failure ctx root d0).
Abbreviation verifying := (verifying root d0 (λ _, True)).

(** Opening fails for a file that is there and cannot be opened. *)
Lemma Open_unreadable name e : Open root name = Err e → e ≠ ErrNotExist → cause.
Proof.
  unfold Open. destruct (root !! name) as [[]|] eqn:Hf; try done; [|by intros [= <-]].
  intros _ _. by eapply unreadable.
Qed.

Lemma get_state_fine late d fd :
  verifying late d → fd ∈ protectedFiles d0 → fine cause (λ s, fileIntegrity d !! fd_FileID fd = Some s)
    (get_state (fd_FileID fd) d).
Proof. intros Hv Hfd. unfold get_state. by destruct (v_all _ _ _ _ _ Hv fd Hfd) as [s ->]. Qed.

Lemma initFileIntegrity_fine : fine cause (verifying false) (initFileIntegrity d0).
Proof.
  apply fine_keeps; [|by intros d [Hv _]%(initFileIntegrity_verifying root d0 (λ _, True) false Hids)].
  assert (fine True (λ _, True) (initFileIntegrity d0)) as H.
  { unfold initFileIntegrity. eapply fine_bind; [apply (fine_foldM True (λ _, True)); [done|]|by intros []].
    intros [t m] fd _ _. unfold init_file. repeat case_match; done. }
  destruct (initFileIntegrity d0) as [|e|] eqn:He; [done| |done]. by apply (out_of_limits _ _ _ e).
Qed.

Lemma checkFileExistence_fine d : verifying false d → fine cause (verifying false) (checkFileExistence ctx root d).
Proof.
  intros Hv. apply fine_keeps.
  2:{ intros d'. by apply (checkFileExistence_verifying root d0 (λ _, True) false Hids). }
  unfold checkFileExistence. rewrite (verifying_files _ _ _ _ d Hv).
  apply (fine_weaken cause (λ d, ∀ fd, fd ∈ protectedFiles d0 → is_Some (fileIntegrity d !! fd_FileID fd))).
  apply fine_foldM; [apply Hv|]. clear d Hv. intros d [i fd] Hin%indexed_elem Hall. unfold check_exists.
  destruct (ctx _ _) eqn:Hc; [by eapply cancelled|].
  destruct (Open root (Filename fd)) as [|e|] eqn:Ho; [done| |by pose proof (Open_fine root (Filename fd)); rewrite Ho in *].
  case_bool_decide as He; [|by eapply Open_unreadable].
  unfold get_state. destruct (Hall fd Hin) as [s ->]. cbn. intros fd' Hfd'.
  apply lookup_insert_is_Some'. right. by apply Hall.
Qed.

Lemma prescan_candidate_fine m path id d :
  (∀ k fd, m !! k = Some fd → missing_in d0 d fd) → fine cause (λ _, True) (prescan_candidate root m path id d).
Proof.
  intros Hm. unfold prescan_candidate.
  pose proof (Open_fine root path) as Ho. destruct (Open root path) as [f| |]; [|done..].
  pose proof (quickHash16K_fine f) as Hq. destruct (quickHash16K f); [|done..].
  destruct (m !! _) as [fd|] eqn:Hfd; [|done].
  pose proof (computeFileMD5_fine f) as Hc. destruct (computeFileMD5 f); [|done..].
  destruct (negb _); [done|]. destruct (Hm _ _ Hfd) as (_ & s & Hs & _).
  unfold get_state. by rewrite Hs.
Qed.

Lemma missingByQuickKey_fine d : verifying false d → fine cause (λ _, True) (missingByQuickKey d).
Proof.
  intros Hv. unfold missingByQuickKey. rewrite (verifying_files _ _ _ _ d Hv).
  apply fine_foldM; [done|]. intros m fd Hfd _. unfold missing_step.
  eapply fine_bind; [by apply (get_state_fine false)|done].
Qed.

Lemma prescanCandidateMatches_fine polls cands d :
  verifying false d → fine cause (λ dr, verifying false dr.1) (prescanCandidateMatches polls root cands d).
Proof.
  intros Hv. apply fine_keeps.
  2:{ intros [d' r]. cbn. by apply (prescanCandidateMatches_verifying root d0 (λ _, True) false Hids). }
  unfold prescanCandidateMatches. case_bool_decide as Hne; [done|]. clear Hne.
  pose proof (missingByQuickKey_fine d Hv) as Hf.
  destruct (missingByQuickKey d) as [m| |] eqn:Hm; cbn [mbind result_bind]; [|done..]. clear Hf.
  case_bool_decide as Hne; [done|]. clear Hne.
  assert (∀ k fd, m !! k = Some fd → missing_in d0 d fd) as Hmis.
  { intros k fd. by apply (missingByQuickKey_elem root d0 (λ _, True) false d). }
  clear Hm. generalize 0%nat, (∅ : gset (list Z)). revert d Hv Hmis.
  induction cands as [|[path id] cands IH]; intros d Hv Hmis i res; cbn [prescan_candidates]; [done|].
  destruct (polls _ _); [done|]. pose proof (prescan_candidate_fine m path id d Hmis) as Hf.
  destruct (prescan_candidate root m path id d) as [[d1 b]| |] eqn:Hp; cbn [mbind result_bind]; [|done..].
  apply (prescan_candidate_verifying root d0 (λ _, True) false Hids) in Hp as [Hv1 Hm1]; [|done..].
  apply IH; [done|]. intros k fd Hk. by eapply Hm1, Hmis.
Qed.

Lemma prescan_protected_fine fd d :
  verifying false d → fd ∈ protectedFiles d0 → fine cause (verifying false) (prescan_protected root fd d).
Proof.
  intros Hv Hfd. apply fine_keeps.
  2:{ intros d'. by apply (prescan_protected_verifying root d0 (λ _, True) false Hids). }
  unfold prescan_protected. pose proof (get_state_fine false d fd Hv Hfd) as Hs.
  destruct (get_state (fd_FileID fd) d) as [s| |]; cbn [mbind result_bind]; [|done..].
  case_bool_decide; [done|].
  pose proof (Open_fine root (Filename fd)) as Ho. destruct (Open root (Filename fd)) as [f| |]; [|done..].
  destruct (negb _); [done|].
  pose proof (quickHash16K_fine f) as Hq. destruct (quickHash16K f); [|done..]. destruct (negb _); [done|].
  pose proof (computeFileMD5_fine f) as Hc. destruct (computeFileMD5 f); [|done..]. by destruct (negb _).
Qed.

Lemma prescanProtectedMatches_fine polls d :
  verifying false d → fine cause (verifying false) (prescanProtectedMatches polls root d).
Proof.
  intros Hv. unfold prescanProtectedMatches. rewrite (verifying_files _ _ _ _ d Hv).
  assert (∀ fd, fd ∈ protectedFiles d0 → fd ∈ protectedFiles d0) as Hfds by done. revert Hfds.
  generalize (protectedFiles d0) at 1 3. intros fds. generalize 0%nat. revert d Hv.
  induction fds as [|fd fds IH]; intros d Hv i Hfds; cbn [prescan_all]; [done|].
  destruct (polls _ _); [done|]. eapply fine_bind; [apply prescan_protected_fine; [done|]|].
  - apply Hfds, list_elem_of_here.
  - intros d1 Hv1. apply IH; [done|]. intros. apply Hfds. by apply elem_of_cons; right.
Qed.

Lemma verifyProtectedFilesHashes_fine d :
  verifying true d → fine cause (λ _, True) (verifyProtectedFilesHashes root d).
Proof.
  intros Hv. unfold verifyProtectedFilesHashes. rewrite (verifying_files _ _ _ _ d Hv).
  apply (fine_weaken cause (λ d, ∀ fd, fd ∈ protectedFiles d0 → is_Some (fileIntegrity d !! fd_FileID fd))).
  apply fine_foldM; [apply Hv|]. clear d Hv. intros d fd Hfd Hall. unfold verify_hash, get_state.
  destruct (Hall fd Hfd) as [s ->]. cbn [mbind result_bind].
  assert (∀ s', fine cause (λ d, ∀ fd, fd ∈ protectedFiles d0 → is_Some (fileIntegrity d !! fd_FileID fd))
    (Ok (put_state (fd_FileID fd) s' d))) as Hput.
  { intros s' fd' Hfd'. apply lookup_insert_is_Some'. right. by apply Hall. }
  destruct (_ || _ : bool); [done|]. case_bool_decide; [by case_bool_decide|].
  destruct (isAllShardsConsecutive _ _ _); apply Hput.
Qed.

(** ** The scan *)

Section Scan.
Context (s : Scanner) (es : list (Z * list checksumLocation)).
Hypothesis (Hs : scanner_ok s (λ c, (list_to_map (flagged 0 es) : gmap Z _) !! c)).
Hypothesis (Hkeys : NoDup es.*1).
Hypothesis (Hdisk : disk_ok root).
Hypothesis (Hfits : ∀ block id idx, describes es block id idx → ∃ fd,
  fd ∈ protectedFiles d0 ∧ fd_FileID fd = id ∧ 0 <= idx < shard_count (ByteCount fd) (sliceByteCount d0)).

(** An event of a block that the table lists. *)
Definition known (e : matchEvent) : Prop :=
  0 <= offset e ∧ ∃ block, describes es block (targetFileID e) (ev_shardIndex e).

Lemma block_events_known source block abs e :
  0 <= abs → e ∈ block_events (λ c, (list_to_map (flagged 0 es) : gmap Z _) !! c) source block abs → known e.
Proof.
  intros Habs He. apply block_events_describes in He as (Hd & _ & <-); [|done]. split; [done|by exists block].
Qed.

Lemma scan_contents_known id data byteCount :
  bytes data ∧ len data <= maxInt → 0 < byteCount <= maxInt ∨ byteCount = len data →
  fine cause (Forall known) (scan_contents s (Contents data) id (len data) byteCount).
Proof.
  intros [Hb Hmax] Hbc.
  destruct (scan_contents_spec s _ Hs data id byteCount Hb Hbc Hmax) as (evs & -> & Hsound & _).
  pose proof (so_slice _ _ Hs) as Hbs. apply Forall_forall. intros e He.
  destruct (Hsound e He) as [(abs & Habs & Hev)|(Hm & Hev)]; (eapply block_events_known; [|exact Hev]); [lia|].
  assert (0 <= byteCount) by (unfold len in *; lia).
  assert (0 <= byteCount / sc_slice s) by (apply Z.div_pos; lia). nia.
Qed.

(** A file that cannot be read ends in an error, or before it is read. *)
Lemma scan_contents_unreadable name f id size byteCount :
  root !! name = Some f → (∀ data, f ≠ Contents data) → fine cause (Forall known) (scan_contents s f id size byteCount).
Proof.
  intros Hname Hf. assert cause as Hcause by (by eapply unreadable). apply fine_keeps.
  2:{ intros evs H. apply unreadable_no_events in H as ->; [constructor|done]. }
  unfold scan_contents. destruct (size =? 0); [done|].
  assert (∀ i, fine cause (λ _, True) (scan_chunk_of s f id size i)) as Hchunk.
  { intros i. unfold scan_chunk_of, scanChunk. destruct (_ <? _); [done|]. destruct f; [by edestruct Hf|done..]. }
  assert (∀ idxs, fine cause (λ _, True) (scan_chunks s f id size idxs)) as Hchunks.
  { induction idxs as [|i idxs IH]; cbn [scan_chunks]; [done|].
    destruct (sc_ctx s _ _); [done|]. destruct (sc_ctx s _ _); [done|]. specialize (Hchunk i).
    destruct (scan_chunk_of s f id size i); [|by destruct (scan_chunks s f id size idxs)|done].
    eapply fine_bind; [exact IH|done]. }
  eapply fine_bind; [apply Hchunks|]. intros evs _.
  eapply (fine_bind cause (λ _, True)); [|done]. unfold scanLastPartialBlock. destruct (_ =? _); [done|].
  pose proof (so_slice _ _ Hs). rewrite make_bytes_ok by lia. cbn [mbind result_bind].
  destruct f; [by edestruct Hf|done..].
Qed.

Lemma scan_open_known name id f byteCount :
  Open root name = Ok f → 0 < byteCount <= maxInt ∨ byteCount = Size f →
  fine cause (Forall known) (scan_contents s f id (Size f) byteCount).
Proof.
  intros Ho%Open_cases Hbc. destruct f as [data|n|]; [|by eapply scan_contents_unreadable..].
  apply scan_contents_known; [apply (Hdisk _ _ Ho)|done].
Qed.

Lemma scanFile_known fd : 0 < ByteCount fd <= maxInt → fine cause (Forall known) (scanFile s root fd).2.
Proof.
  intros Hbc. unfold scanFile. pose proof (Open_fine root (Filename fd)) as Hf.
  destruct (Open root (Filename fd)) as [f|e|] eqn:Ho; [| |done].
  - cbn [snd]. eapply scan_open_known; [done|by left].
  - case_bool_decide; cbn; [constructor|by eapply Open_unreadable].
Qed.

Lemma scanCandidateFile_known path id : fine cause (Forall known) (scanCandidateFile s root path id).
Proof.
  unfold scanCandidateFile. pose proof (Open_fine root path) as Hf.
  destruct (Open root path) as [f|e|] eqn:Ho; [| |done].
  - eapply scan_open_known; [done|by right].
  - case_bool_decide; cbn; [constructor|by eapply Open_unreadable].
Qed.

Lemma nothing_known : Forall known [] ∧ (is_Some (@None string) → cause).
Proof. split; [constructor|by intros []]. Qed.

Lemma scan_candidates_known i resolved names cands :
  fine cause (λ r, Forall known r.1 ∧ (is_Some r.2 → cause)) (scan_candidates s root i resolved names cands).
Proof.
  revert i. induction cands as [|[path id] cands IH]; intros i; cbn [scan_candidates];
    [apply nothing_known|].
  destruct (sc_ctx s _ _); [apply nothing_known|]. destruct (_ || _ : bool); [apply IH|].
  pose proof (scanCandidateFile_known path id) as Hf.
  destruct (scanCandidateFile s root path id) as [evs|e|]; [| |done];
    (eapply fine_bind; [apply IH|]); intros [evs' err] [He Hc]; cbn in *;
    [split; [by apply Forall_app|done]|by split].
Qed.

Lemma scan_files_known i fds d :
  verifying false d → (∀ fd, fd ∈ fds → fd ∈ protectedFiles d0 ∧ 0 < ByteCount fd <= maxInt) →
  fine cause (λ r, Forall known r.1.2 ∧ (is_Some r.2 → cause)) (scan_files s root i fds d).
Proof.
  revert i d. induction fds as [|fd fds IH]; intros i d Hv Hfds; cbn [scan_files];
    [apply nothing_known|].
  destruct (sc_ctx s _ _); [apply nothing_known|].
  destruct (Hfds fd (list_elem_of_here _ _)) as [Hfd Hbc].
  assert (∀ fd, fd ∈ fds → fd ∈ protectedFiles d0 ∧ 0 < ByteCount fd <= maxInt) as Hfds'.
  { intros. apply Hfds. by apply elem_of_cons; right. }
  eapply fine_bind; [by apply (get_state_fine false)|]. intros st Hst.
  destruct (skipsBlockScan st) eqn:Hskip; [by apply IH|].
  pose proof (scanFile_known fd Hbc) as Hf. destruct (scanFile s root fd) as [dmg res] eqn:Hscan.
  cbn [snd] in Hf.
  pose proof (scan_file_verifying root d0 (λ _, True) false Hids s fd d st dmg res eq_refl Hfd Hv Hst Hskip Hscan)
    as Hv1.
  destruct res as [evs|e|]; [| |done];
    (eapply fine_bind; [by apply IH|]); intros [[d' evs'] err] [He Hc]; cbn in *;
    [split; [by apply Forall_app|done]|by split].
Qed.

(** The collector finds the block of every known event. *)
Lemma collect_known d e : verifying false d → known e → fine cause (verifying false) (collect d e).
Proof.
  intros Hv (Hoff & block & Hd). destruct (Hfits _ _ _ Hd) as (fd & Hfd & Hid & Hidx).
  apply fine_keeps; [|by intros d'; apply collect_verifying].
  destruct (v_all _ _ _ _ _ Hv fd Hfd) as [st Hst].
  pose proof (verifying_get root d0 (λ _, True) false Hids d fd st Hv Hfd Hst) as Hok.
  destruct (collect_view d e) as (d' & -> & _); [|done]. split; [lia|].
  exists (shape_of st). unfold view. rewrite lookup_fmap, <- Hid, Hst. split; [done|].
  cbn. unfold len. rewrite length_fmap, (s_shards _ _ _ _ _ _ Hok). lia.
Qed.

Lemma scan_fine sched cands resolved d :
  (∀ l, event_order sched l ≡ₚ l) → (∀ fd, fd ∈ protectedFiles d0 → 0 < ByteCount fd <= maxInt) →
  verifying false d → fine cause (verifying false) (scan s sched root cands resolved d).
Proof.
  intros Hperm Hbc Hv. unfold scan. rewrite (verifying_files _ _ _ _ d Hv).
  pose proof (scan_files_known 0 (protectedFiles d0) d Hv ltac:(by intros; split; [|apply Hbc])) as Hf.
  destruct (scan_files _ _ _ _ _) as [[[d1 evs1] err1]| |] eqn:H1; cbn [mbind result_bind]; [|done..].
  apply (scan_files_verifying root d0 (λ _, True) false Hids) in H1; [|done..]. destruct Hf as [Hf Hc1]. cbn in Hf, Hc1.
  pose proof (scan_candidates_known 0 resolved (list_to_set (Filename <$> protectedFiles d1)) cands) as Hf2.
  rewrite (verifying_files _ _ _ _ d1 H1) in *.
  destruct (scan_candidates _ _ _ _ _ _) as [[evs2 err2]| |]; cbn [mbind result_bind]; [|done..].
  destruct Hf2 as [Hf2 Hc2]. cbn in Hf2, Hc2.
  eapply (fine_bind cause (verifying false)).
  - apply fine_foldM; [done|]. intros d2 e He Hv2. apply collect_known; [done|].
    rewrite (Hperm _) in He. apply elem_of_app in He as [He|He]; [rewrite Forall_forall in Hf; by apply Hf|].
    rewrite Forall_forall in Hf2. by apply Hf2.
  - intros d2 Hv2. by destruct err1, err2; cbn; auto.
Qed.

End Scan.
End Total.

(** ** The whole verification *)

(** No checksum packet lists more blocks than its file has. *)
Definition checksums_fit (d : Decoder) : Prop :=
  ∀ fd p, fd ∈ protectedFiles d → fileChecksums d !! fd_FileID fd = Some p →
    len (ChecksumPairs p) <= shard_count (ByteCount fd) (sliceByteCount d).

Lemma table_entries_fit sched root d0 d block id idx :
  permutes sched → checksums_fit d0 → verifying root d0 (λ _, True) false d →
  describes (table_entries sched d) block id idx → ∃ fd,
    fd ∈ protectedFiles d0 ∧ fd_FileID fd = id ∧ 0 <= idx < shard_count (ByteCount fd) (sliceByteCount d0).
Proof.
  intros (Hi & Hc & _) Hfit [Hsame _ Hstate] (ls & l & Hin & Hl & <- & <- & _). unfold table_entries in Hin.
  rewrite (Hc _) in Hin. apply elem_of_map_to_list in Hin.
  destruct (checksumMap_elem _ _ _ _ _ Hin Hl) as (p & i & pr & Hp & Hpr & _ & Hidx & _ & [st Hst]).
  rewrite (Hi _) in Hp. apply elem_of_map_to_list in Hp.
  destruct (Hstate _ _ Hst) as (fd & Hfd & Hid & _). exists fd. split; [done|]. split; [done|].
  rewrite Hsame in Hp. rewrite <- Hid in Hp. pose proof (Hfit fd p Hfd Hp) as Hlen.
  apply lookup_lt_Some in Hpr. unfold len in Hlen. lia.
Qed.

Lemma VerifyScans_fine sched root d0 :
  decoder_ok d0 → permutes sched → disk_ok root → Z.of_nat (total_pairs d0) <= 536870912 →
  checksums_fit d0 → sliceByteCount d0 < maxAlloc →
  fine (failure (ctx_polls sched) root d0) (λ _, True) (VerifyScans sched root d0).
Proof.
  intros [Hslice Hfiles Hids _ _ _] Hperm Hdisk Htot Hfit Hmem. unfold VerifyScans. cbv zeta.
  rewrite Forall_forall in Hfiles.
  eapply fine_bind; [by apply initFileIntegrity_fine|]. intros d1 Hv1.
  eapply fine_bind; [by apply checkFileExistence_fine|]. intros d2 Hv2.
  eapply fine_bind; [by apply prescanCandidateMatches_fine|]. intros [d3 res] Hv3. cbn in Hv3.
  eapply fine_bind; [by apply prescanProtectedMatches_fine|]. intros d4 Hv4.
  pose proof (v_same _ _ _ _ _ Hv4) as Hsame.
  assert (sliceByteCount d4 = sliceByteCount d0) as Hsl by (by rewrite Hsame).
  destruct (Z.ltb_spec (sliceByteCount d4) 4) as [Hlt|Hs4].
  { unfold newCRC32Window. rewrite (proj2 (Z.ltb_lt _ _) Hlt). cbn. apply no_slices.
    destruct Hslice as [|[H0 Hm]]; [done|]. rewrite Hsl in Hlt. apply Z.div_exact in Hm; [|done]. lia. }
  destruct (newCRC32Window_ok (sliceByteCount d4)) as (w & -> & Hsz & Hok); [lia|].
  destruct (buildLookupTable_entries sched d4 Hperm) as (t & -> & Hlk); [by rewrite Hsame|].
  cbn [mbind result_bind]. set (scn := Build_Scanner _ _ _ _ _ _ _).
  eapply (fine_bind _ (verifying root d0 (λ _, True) false)).
  - apply (scan_fine (ctx_polls sched) root d0 Hids scn (table_entries sched d4)).
    + split; cbn; [lia|done|done|done].
    + by apply table_entries_keys.
    + exact Hdisk.
    + intros block id idx. by apply (table_entries_fit sched root).
    + apply Hperm.
    + intros fd Hfd. by destruct (Hfiles fd Hfd) as (_ & _ & _ & ? & _).
    + exact Hv4.
  - intros d5 Hv5%verifying_late. eapply fine_bind; [by apply (verifyProtectedFilesHashes_fine _ root d0)|].
    intros d6 _. destruct (ctx_polls sched AtEnd 0%nat) eqn:He; [by eapply cancelled|done].
Qed.

(** Slices that cannot be allocated stop the process, if nothing else ends the
    verification first. *)
Lemma VerifyScans_oversized sched root d0 :
  decoder_ok d0 → maxAlloc <= sliceByteCount d0 →
  match VerifyScans sched root d0 with
  | Ok _ => False
  | Err _ => failure (ctx_polls sched) root d0
  | Panic _ => True
  end.
Proof.
  intros Hok Hmem. pose proof (ok_distinct _ Hok) as Hids. unfold VerifyScans. cbv zeta.
  set (cands := candidate_order sched _).
  pose proof (initFileIntegrity_fine (ctx_polls sched) root d0 Hids) as H1.
  destruct (initFileIntegrity d0) as [d1| |]; [|exact H1|done]. cbn [mbind result_bind].
  pose proof (checkFileExistence_fine (ctx_polls sched) root d0 Hids d1 H1) as H2.
  destruct (checkFileExistence _ _ d1) as [d2| |]; [|exact H2|done]. cbn [mbind result_bind].
  pose proof (prescanCandidateMatches_fine (ctx_polls sched) root d0 Hids (ctx_polls sched) cands d2 H2) as H3.
  destruct (prescanCandidateMatches _ _ _ d2) as [[d3 res]| |]; [|exact H3|done]. cbn [mbind result_bind].
  pose proof (prescanProtectedMatches_fine (ctx_polls sched) root d0 Hids (ctx_polls sched) d3 H3) as H4.
  destruct (prescanProtectedMatches _ _ d3) as [d4| |]; [|exact H4|done]. cbn [mbind result_bind].
  pose proof (v_same _ _ _ _ _ H4) as Hsame. rewrite newCRC32Window_panics; [done|].
  rewrite Hsame. exact Hmem.
Qed.
