(* ===== verification/Report.v ===== *)
(** * The report of a verification (src/par2/scan.go, [logVerificationReport])

    What the user is told: a status for every protected file, their counts, and
    a verdict.  A message of the log is a constructor with the attributes that
    are logged with it; the level and the wording are the logger's. *)

From stdpp Require Import gmap sorting.
From S2P Require Import Prelude Packet Decoder Verify.

(** ** The messages *)

(** "File status: ..." *)
Inductive file_status :=
  | MISNAMED (expected found : list Z)
  | MISSING (file : list Z)
  | SIZE_MISMATCH (file : list Z) (expected : Z)
  | DAMAGED (file : list Z) (missingBlocks totalBlocks : Z)
  | CORRUPT (file : list Z)
  | OK (file : list Z).

(** The message at the end. *)
Inductive verdict :=
  | MissingOrCorruptBlocks (missingBlocks damagedFiles missingFiles availableParity : Z)
  | MustBeRebuilt (filesToRebuild filesToRename : Z)
  | RepairWillRename (filesToRename : Z)
  | AllFilesVerified.

#[export] Instance file_status_eq_dec : EqDecision file_status.
Proof. solve_decision. Defined.
#[export] Instance verdict_eq_dec : EqDecision verdict.
Proof. solve_decision. Defined.

(** The messages in order, with the counts of the summary. *)
Record report := {
  file_lines : list file_status;
  okCount : Z;
  missingCount : Z;
  damagedCount : Z;
  renameCount : Z;
  totalFiles : Z;
  recoveryBlocks : Z;
  verdict_of : verdict
}.

(** ** The report *)

(** The number of blocks without a location. *)
Definition missing_blocks (s : fileIntegrityState) : Z :=
  foldl (λ n loc, if Offset loc =? -1 then n + 1 else n) 0 (ShardLocations s).

(** One case of the switch: the message of a file. *)
Definition status_of (fd : FileDescPacket) (s : fileIntegrityState) : file_status :=
  if negb (bool_decide (RenameSource s = [])) then MISNAMED (Filename fd) (RenameSource s)
  else match Damage s with
  | damageMissing => MISSING (Filename fd)
  | damageWrongSize => SIZE_MISMATCH (Filename fd) (ByteCount fd)
  | damageWrongHash =>
      let missing := missing_blocks s in
      if missing >? 0
      then DAMAGED (Filename fd) missing (len (ShardLocations s))
      else CORRUPT (Filename fd)
  | _ => OK (Filename fd)
  end.

(** The counters [okCount, missingCount, damagedCount, renameCount] after it. *)
Definition count_status (x : file_status) (c : Z * Z * Z * Z) : Z * Z * Z * Z :=
  let '(ok, missing, damaged, rename) := c in
  match x with
  | MISNAMED _ _ => (ok, missing, damaged, rename + 1)
  | MISSING _ => (ok, missing + 1, damaged, rename)
  | SIZE_MISMATCH _ _ | DAMAGED _ _ _ | CORRUPT _ => (ok, missing, damaged + 1, rename)
  | OK _ => (ok + 1, missing, damaged, rename)
  end.

Definition report_step (d : Decoder) (st : list file_status * (Z * Z * Z * Z)) (fd : FileDescPacket) :
    result (list file_status * (Z * Z * Z * Z)) :=
  state ← get_state (fd_FileID fd) d;
  let x := status_of fd state in
  Ok (st.1 ++ [x], count_status x st.2).

Definition final_verdict (counts : ShardCounts) (damaged missing : Z) : verdict :=
  if UnusableDataShardCount counts >? 0
  then MissingOrCorruptBlocks (UnusableDataShardCount counts) damaged missing (UsableParityShardCount counts)
  else if FilesNeedingRebuild counts >? 0
  then MustBeRebuilt (FilesNeedingRebuild counts) (RenamesNeeded counts)
  else if RenamesNeeded counts >? 0
  then RepairWillRename (RenamesNeeded counts)
  else AllFilesVerified.

Definition logVerificationReport (d : Decoder) (finalCounts : ShardCounts) : result report :=
  '(lines, (ok, missing, damaged, rename)) ← foldM (report_step d) ([], (0, 0, 0, 0)) (protectedFiles d);
  Ok {| file_lines := lines; okCount := ok; missingCount := missing; damagedCount := damaged;
        renameCount := rename; totalFiles := len (protectedFiles d);
        recoveryBlocks := Z.of_nat (size (parityShards d));
        verdict_of := final_verdict finalCounts damaged missing |}.

(** ** The listing at the start *)

(** [strings.Compare(a, b) <= 0]: bytewise, a prefix first. *)
Fixpoint name_le (a b : list Z) : bool :=
  match a, b with
  | [], _ => true
  | _ :: _, [] => false
  | x :: a, y :: b => (x <? y) || ((x =? y) && name_le a b)
  end.

Definition file_le (a b : FileDescPacket) : Prop := name_le (Filename a) (Filename b).

#[export] Instance file_le_dec : RelDecision file_le.
Proof. unfold file_le. solve_decision. Defined.

(** The lines of the files with their sizes, and of the candidates. *)
Record listing := {
  protects : list (list Z * Z);
  to_consider : list (list Z)
}.

(** [slices.SortFunc] does not keep the order of files of the same name: [ties]
    is the order in which it meets them.  [map_order] is the order in which Go
    visits the candidates. *)
Definition logFilesAndCandidates (ties : list FileDescPacket → list FileDescPacket)
    (map_order : list (list Z * FileID) → list (list Z * FileID)) (d : Decoder) : listing :=
  {| protects := (λ fd, (Filename fd, ByteCount fd)) <$> merge_sort file_le (ties (protectedFiles d));
     to_consider := (map_order (map_to_list (candidateFiles d))).*1 |}.
