(* ===== verification/ReportFacts.v ===== *)
(** * The report and the verdict agree

    The counts of the report are those that [Repair] goes by, and what it says
    of a file is so. *)

From stdpp Require Import gmap.
From S2P Require Import Prelude Md5 Crc32 Packet CrcTable Decoder DecoderFacts Blocks Verify VerifyFacts.
From S2P Require Import VerifyOutcome Report.

(** ** The counts *)

(** What one file adds to the counts of the report. *)
Definition is_fine (s : fileIntegrityState) : Z :=
  if bool_decide (RenameSource s = []) && negb (needsRebuild s) then 1 else 0.
Definition is_missing (s : fileIntegrityState) : Z :=
  if bool_decide (RenameSource s = []) && bool_decide (Damage s = damageMissing) then 1 else 0.
Definition is_damaged (s : fileIntegrityState) : Z :=
  if bool_decide (RenameSource s = []) && needsRebuild s && negb (bool_decide (Damage s = damageMissing))
  then 1 else 0.

Lemma missing_blocks_spec s : missing_blocks s = missing_locs s.
Proof.
  unfold missing_blocks, missing_locs. transitivity (0 + len (filter (λ l, Offset l = -1) (ShardLocations s))); [|lia].
  generalize 0. induction (ShardLocations s) as [|l ls IH]; intros n; cbn [foldl]; [unfold len; simpl; lia|].
  rewrite IH, filter_cons. unfold len.
  destruct (Z.eqb_spec (Offset l) (-1)), (decide (Offset l = -1)); try done; cbn [length]; lia.
Qed.

Lemma count_status_of fd s ok missing damaged rename :
  count_status (status_of fd s) (ok, missing, damaged, rename) =
  (ok + is_fine s, missing + is_missing s, damaged + is_damaged s, rename + is_rename s).
Proof.
  unfold status_of, is_fine, is_missing, is_damaged, is_rename, needsRebuild. cbv zeta.
  destruct (bool_decide (RenameSource s = [])); cbn [negb andb];
    [|cbn [count_status]; by rewrite !Z.add_0_r].
  destruct (Damage s), (Z.gtb (missing_blocks s) 0);
    rewrite ?bool_decide_eq_true_2, ?bool_decide_eq_false_2 by done; cbn [count_status negb andb];
    by rewrite !Z.add_0_r.
Qed.

Lemma rebuild_missing_damaged s : is_rebuild s = is_missing s + is_damaged s.
Proof.
  unfold is_rebuild, is_missing, is_damaged, needsRebuild.
  destruct (bool_decide (RenameSource s = [])), (Damage s); reflexivity.
Qed.

(** The sum over the files of the set. *)
Definition sum_files (f : fileIntegrityState → Z) (d : Decoder) (fds : list FileDescPacket) : Z :=
  foldr (λ fd n, of_file f d fd + n) 0 fds.

Definition status_in (d : Decoder) (fd : FileDescPacket) (x : file_status) : Prop :=
  ∃ s, fileIntegrity d !! fd_FileID fd = Some s ∧ x = status_of fd s.

Lemma report_steps d fds lines ok missing damaged rename :
  (∀ fd, fd ∈ fds → is_Some (fileIntegrity d !! fd_FileID fd)) →
  ∃ xs, Forall2 (status_in d) fds xs ∧
    foldM (report_step d) (lines, (ok, missing, damaged, rename)) fds =
    Ok (lines ++ xs, (ok + sum_files is_fine d fds, missing + sum_files is_missing d fds,
                      damaged + sum_files is_damaged d fds, rename + sum_files is_rename d fds)).
Proof.
  revert lines ok missing damaged rename.
  induction fds as [|fd fds IH]; intros lines ok missing damaged rename Hall.
  { exists []. split; [constructor|]. cbn. by rewrite app_nil_r, !Z.add_0_r. }
  destruct (Hall fd (list_elem_of_here _ _)) as [s Hs]. cbn [foldM]. unfold report_step at 2, get_state.
  rewrite Hs. cbn [mbind result_bind fst snd]. rewrite count_status_of.
  destruct (IH (lines ++ [status_of fd s]) (ok + is_fine s) (missing + is_missing s)
    (damaged + is_damaged s) (rename + is_rename s)) as (xs & Hxs & ->).
  { intros. apply Hall. by apply elem_of_cons; right. }
  exists (status_of fd s :: xs). split; [constructor; [by exists s|done]|].
  rewrite <- app_assoc. unfold sum_files. cbn [foldr].
  assert (∀ f, of_file f d fd = f s) as Hf by (intros f; unfold of_file; by rewrite Hs).
  by rewrite !Hf, !Z.add_assoc.
Qed.

Lemma sum_files_add f g d fds :
  sum_files (λ s, f s + g s) d fds = sum_files f d fds + sum_files g d fds.
Proof.
  unfold sum_files, of_file. induction fds as [|fd fds IH]; cbn [foldr]; [done|]. rewrite IH.
  destruct (fileIntegrity d !! fd_FileID fd); lia.
Qed.

Lemma sum_files_ext f g d fds : (∀ s, f s = g s) → sum_files f d fds = sum_files g d fds.
Proof.
  intros H. unfold sum_files, of_file. induction fds as [|fd fds IH]; cbn [foldr]; [done|]. rewrite IH.
  destruct (fileIntegrity d !! fd_FileID fd); [by rewrite H|done].
Qed.

Lemma sum_files_one d fds :
  (∀ fd, fd ∈ fds → is_Some (fileIntegrity d !! fd_FileID fd)) → sum_files (λ _, 1) d fds = len fds.
Proof.
  unfold sum_files, of_file, len. induction fds as [|fd fds IH]; intros Hall; cbn [foldr length]; [done|].
  rewrite IH by (intros; apply Hall; by apply elem_of_cons; right).
  destruct (Hall fd (list_elem_of_here _ _)) as [s ->]. lia.
Qed.

Lemma Forall2_impl_in {A B} (P Q : A → B → Prop) l k :
  Forall2 P l k → (∀ x y, x ∈ l → P x y → Q x y) → Forall2 Q l k.
Proof.
  induction 1 as [|x y l k Hxy _ IH]; intros H; constructor.
  - apply H; [apply list_elem_of_here|done].
  - apply IH. intros x' y' Hx. apply H. by apply elem_of_cons; right.
Qed.

(** ** Files without damage are complete *)

(** Where no damage is recorded no block is missing. *)
Definition whole (d : Decoder) : Prop :=
  0 <= sliceByteCount d ∧
  map_Forall (λ _ s, Damage s = damageNone → Forall (λ l, Offset l ≠ -1) (ShardLocations s)) (fileIntegrity d).

Lemma whole_put d id s :
  whole d → (Damage s = damageNone → Forall (λ l, Offset l ≠ -1) (ShardLocations s)) → whole (put_state id s d).
Proof. intros [H0 H] Hs. split; [exact H0|]. by apply map_Forall_insert_2. Qed.

Lemma whole_get d id s : whole d → get_state id d = Ok s →
  Damage s = damageNone → Forall (λ l, Offset l ≠ -1) (ShardLocations s).
Proof. intros [_ H] Hg%get_state_inv. exact (H _ _ Hg). Qed.

Lemma located_whole slice id s : 0 <= slice → Forall (λ l, Offset l ≠ -1) (ShardLocations (located slice id s)).
Proof.
  intros H. cbn [located set_ShardLocations ShardLocations]. unfold in_place.
  apply Forall_fmap, Forall_forall. intros i _. cbn. lia.
Qed.

Lemma check_exists_whole ctx root d ifd d' : whole d → check_exists ctx root d ifd = Ok d' → whole d'.
Proof.
  intros Hd. destruct ifd as [i fd]. unfold check_exists. destruct (ctx AtExistence i); [done|].
  destruct (Open root (Filename fd)) as [f|e|]; [by intros [= <-]| |done]. case_bool_decide; [|done].
  destruct (get_state (fd_FileID fd) d) as [s| |]; cbn [mbind result_bind]; [|done..].
  intros [= <-]. by apply whole_put.
Qed.

Lemma prescan_candidate_whole root missing path id d d' r :
  whole d → prescan_candidate root missing path id d = Ok (d', r) → whole d'.
Proof.
  intros Hd. unfold prescan_candidate.
  repeat (case_match; try done; try by intros [= <- <-]).
  destruct (get_state (fd_FileID _) d) as [s| |]; cbn [mbind result_bind]; [|done..].
  intros [= <- _]. apply whole_put; [done|]. intros _. apply located_whole, Hd.
Qed.

Lemma prescanCandidateMatches_whole ctx root cands d d' r :
  whole d → prescanCandidateMatches ctx root cands d = Ok (d', r) → whole d'.
Proof.
  intros Hd. unfold prescanCandidateMatches. destruct (bool_decide _); [by intros [= <- <-]|].
  destruct (missingByQuickKey d) as [m| |]; cbn [mbind result_bind]; [|done..].
  destruct (bool_decide (m = ∅)); [by intros [= <- <-]|]. generalize 0%nat, (∅ : gset (list Z)). revert d Hd.
  induction cands as [|[path id] cands IH]; intros d Hd i res; cbn [prescan_candidates]; [by intros [= <- <-]|].
  destruct (ctx _ _); [by intros [= <- <-]|].
  destruct (prescan_candidate root m path id d) as [[d1 b]| |] eqn:Hp; cbn [mbind result_bind]; [|done..].
  apply IH. by eapply prescan_candidate_whole.
Qed.

Lemma prescan_protected_whole root fd d d' : whole d → prescan_protected root fd d = Ok d' → whole d'.
Proof.
  intros Hd. unfold prescan_protected.
  destruct (get_state (fd_FileID fd) d) as [s| |]; cbn [mbind result_bind]; [|done..].
  repeat (case_match; try done; try by intros [= <-]). cbn [mbind result_bind].
  intros [= <-]. apply whole_put; [done|]. intros _. apply located_whole, Hd.
Qed.

Lemma prescanProtectedMatches_whole ctx root d d' :
  whole d → prescanProtectedMatches ctx root d = Ok d' → whole d'.
Proof.
  unfold prescanProtectedMatches. generalize (protectedFiles d), 0%nat. intros fds i Hd. revert d i Hd.
  induction fds as [|fd fds IH]; intros d i Hd; cbn [prescan_all]; [by intros [= <-]|].
  destruct (ctx _ _); [by intros [= <-]|].
  destruct (prescan_protected root fd d) as [d1| |] eqn:Hp; cbn [mbind result_bind]; [|done..].
  apply IH. by eapply prescan_protected_whole.
Qed.

Lemma collect_whole d e d' : whole d → collect d e = Ok d' → whole d'.
Proof.
  intros Hd. unfold collect.
  destruct (get_state (targetFileID e) d) as [s| |] eqn:Hg; cbn [mbind result_bind]; [|done..].
  destruct (index_at _ _) as [loc| |] eqn:Hi; cbn [mbind result_bind]; [|done..].
  destruct (Z.eqb_spec (Offset loc) (-1)) as [He|]; [|by intros [= <-]].
  destruct (set_at _ _ _) as [locs| |]; cbn [mbind result_bind]; [|done..].
  intros [= <-]. apply whole_put; [done|]. cbn. intros Hn.
  pose proof (whole_get d _ s Hd Hg Hn) as Hall. exfalso. unfold index_at in Hi.
  destruct (_ <? 0); [done|]. destruct (ShardLocations s !! _) as [x|] eqn:Hx; [|done]. injection Hi as ->.
  rewrite Forall_lookup in Hall. by apply (Hall _ _ Hx).
Qed.

(** A scan records only damage. *)
Lemma scanFile_damage s root fd x : (scanFile s root fd).1 = Some x → x ≠ damageNone.
Proof.
  unfold scanFile. destruct (Open root (Filename fd)); cbn; [| |done].
  - destruct (negb _); [by intros [= <-]|done].
  - case_bool_decide; [by intros [= <-]|done].
Qed.

Lemma scan_files_whole s root i fds d d' evs err :
  whole d → scan_files s root i fds d = Ok (d', evs, err) → whole d'.
Proof.
  revert i d evs err. induction fds as [|fd fds IH]; intros i d evs err Hd; cbn [scan_files];
    [by intros [= <- _ _]|].
  destruct (sc_ctx s _ _); [by intros [= <- _ _]|].
  destruct (get_state (fd_FileID fd) d) as [st| |] eqn:Hg; cbn [mbind result_bind]; [|done..].
  destruct (skipsBlockScan st); [by apply IH|].
  pose proof (scanFile_damage s root fd) as Hx. destruct (scanFile s root fd) as [dmg res]. cbn [fst] in Hx.
  set (d1 := match dmg with Some x => _ | None => d end).
  assert (whole d1) as Hd1.
  { subst d1. destruct dmg as [x|]; [|done]. apply whole_put; [done|]. cbn. intros ->. by edestruct Hx. }
  destruct res as [evs1|e|]; [| |done];
    destruct (scan_files s root (S i) fds d1) as [[[d2 evs2] err2]| |] eqn:Hrec;
    cbn [mbind result_bind]; try done; intros [= <- _ _]; by eapply IH.
Qed.

Lemma scan_whole s sched root cands resolved d d' :
  whole d → scan s sched root cands resolved d = Ok d' → whole d'.
Proof.
  intros Hd. unfold scan.
  destruct (scan_files _ _ _ _ _) as [[[d1 evs1] err1]| |] eqn:H1; cbn [mbind result_bind]; [|done..].
  apply scan_files_whole in H1; [|done].
  destruct (scan_candidates _ _ _ _ _ _) as [[evs2 err2]| |]; cbn [mbind result_bind]; [|done..].
  destruct (foldM collect d1 _) as [d2| |] eqn:H2; cbn [mbind result_bind]; [|done..].
  destruct err1, err2; try done. intros [= <-]. revert H2. apply foldM_ok_list; [|done]. intros d3 e d4 _. apply collect_whole.
Qed.

Lemma verify_hash_whole root d fd d' : whole d → verify_hash root d fd = Ok d' → whole d'.
Proof.
  intros Hd. unfold verify_hash.
  destruct (get_state (fd_FileID fd) d) as [s| |] eqn:Hg; cbn [mbind result_bind]; [|done..].
  destruct (_ || _ : bool); [by intros [= <-]|]. cbv zeta.
  destruct (bool_decide (Damage s = damageMissing)).
  { case_bool_decide; intros [= <-]; [done|]. apply whole_put; [done|]. by apply (whole_get d (fd_FileID fd) s Hd). }
  destruct (isAllShardsConsecutive d fd s) eqn:Hc; intros [= <-]; (apply whole_put; [done|]).
  - intros _. cbn. unfold isAllShardsConsecutive in Hc. rewrite forallb_forall in Hc.
    apply Forall_lookup. intros i l Hl. destruct Hd as [H0 _].
    assert ((i, l) ∈ indexed (ShardLocations s)) as Hin.
    { apply list_elem_of_lookup. exists i. unfold indexed. apply lookup_zip_Some. split; [|done].
      apply lookup_seq. split; [done|]. by apply lookup_lt_Some in Hl. }
    apply list_elem_of_In, Hc, andb_true_iff in Hin as [Ho%Z.eqb_eq _]. nia.
  - by case_bool_decide.
Qed.

Lemma VerifyScans_whole sched root d0 d :
  decoder_ok d0 → VerifyScans sched root d0 = Ok d → whole d.
Proof.
  intros [Hslice _ Hids _ _ _]. unfold VerifyScans. cbv zeta.
  destruct (initFileIntegrity d0) as [d1| |] eqn:H1; cbn [mbind result_bind]; [|done..].
  apply (initFileIntegrity_verifying ∅ d0 (λ _, True) false Hids) in H1 as [Hv1 Hst1].
  assert (whole d1) as Hw1.
  { split; [rewrite (verifying_slice _ _ _ _ d1 Hv1); destruct Hslice as [->|[]]; lia|].
    rewrite Hst1. intros id s [(fd & _ & _ & ->)|[_ Hs]]%initial_states_lookup;
      [done|by rewrite lookup_empty in Hs|done]. }
  destruct (checkFileExistence _ _ d1) as [d2| |] eqn:H2; cbn [mbind result_bind]; [|done..].
  assert (whole d2) as Hw2.
  { revert H2. apply foldM_ok_list; [|done]. intros d' x d'' _. apply check_exists_whole. }
  destruct (prescanCandidateMatches _ _ _ d2) as [[d3 res]| |] eqn:H3; cbn [mbind result_bind]; [|done..].
  apply prescanCandidateMatches_whole in H3; [|done].
  destruct (prescanProtectedMatches _ _ d3) as [d4| |] eqn:H4; cbn [mbind result_bind]; [|done..].
  apply prescanProtectedMatches_whole in H4; [|done].
  destruct (newCRC32Window _); cbn [mbind result_bind]; [|done..].
  destruct (buildLookupTable _ _); cbn [mbind result_bind]; [|done..].
  destruct (scan _ _ _ _ _ d4) as [d5| |] eqn:H5; cbn [mbind result_bind]; [|done..].
  apply scan_whole in H5; [|done].
  destruct (verifyProtectedFilesHashes root d5) as [d6| |] eqn:H6; cbn [mbind result_bind]; [|done..].
  destruct (ctx_polls sched AtEnd 0%nat); [done|]. intros [= <-]. revert H6.
  apply foldM_ok_list; [|done]. intros d' x d'' _. apply verify_hash_whole.
Qed.
