(* ===== verification/Repair.v ===== *)
(** * Repair of a set (src/par2/repair.go, and renaming in src/par2/scan.go)

    [renameMisnamedFiles], the plan, the pipeline that rebuilds files chunk by
    chunk in temp files, and [install].

    The operating system is an [Env]: which operations succeed, the random part
    of temp names, and what the contexts answer.  An operation of the pipeline is
    a function from the pipeline's state to the new state and a result: an
    operation that fails keeps what it did before.  A handle on a source is the
    file as it was opened; a handle on an output is the name of its temp file.
    Nothing else writes to the directory while a repair runs. *)

From stdpp Require Import gmap.
From S2P Require Import Prelude Gf16 Kernels Dispatch Matrix ReedSolomon.
From S2P Require Import Md5 Packet CrcTable Decoder Blocks Verify.

(** ** The environment *)

Record Env := {
  mkdir_ok : list Z → bool;
  rename_ok : list Z → list Z → bool;
  rand_text : list Z → list Z;
  create_ok : list Z → bool;
  write_ok : list Z → Z → bool;
  truncate_ok : list Z → bool;
  sync_ok : list Z → bool;
  hash_ok : list Z → bool;
  close_ok : list Z → bool;
  stat_ok : list Z → bool;
  chmod_ok : list Z → bool;
  remove_ok : list Z → bool;
  chunk_polls : Z → bool;
  rs_ctx : Z → ReedSolomon.Ctx;
  rs_schedule : Z → list Z;
  default_goroutines : Z;
  candidates_order : list (list Z * FileID) → list (list Z * FileID)
}.

Section Env.
Context (env : Env).

(** [root.Rename]. *)
Definition Rename (root : Root) (old new : list Z) : option Root :=
  if negb (rename_ok env old new) then None else
  match root !! old with
  | None => None
  | Some f => Some (<[new := f]> (delete old root))
  end.

(** ** Renaming misnamed files *)

(** Blocks located in the candidate [candidateID] are in the file [id] now. *)
Definition repoint (candidateID id : FileID) (s : fileIntegrityState) : fileIntegrityState :=
  set_ShardLocations
    ((λ loc, if bool_decide (FileID_ loc = candidateID) && negb (Offset loc =? -1)
             then {| FileID_ := id; Offset := Offset loc |} else loc) <$> ShardLocations s) s.

Definition rename_file (st : Root * Decoder * Z) (fd : FileDescPacket) : result (Root * Decoder * Z) :=
  let '(root, d, renamed) := st in
  state ← get_state (fd_FileID fd) d;
  if bool_decide (RenameSource state = []) then Ok st else
  let failed := Ok (root, put_state (fd_FileID fd) (set_RenameSource [] state) d, renamed) in
  if negb (mkdir_ok env (Filename fd)) then failed else
  match Rename root (RenameSource state) (Filename fd) with
  | None => failed
  | Some root =>
      let d := match candidateFiles d !! RenameSource state with
               | Some candidateID =>
                   set_fileIntegrity (repoint candidateID (fd_FileID fd) <$> fileIntegrity d) d
               | None => d
               end in
      state ← get_state (fd_FileID fd) d;
      let state := located (sliceByteCount d) (fd_FileID fd)
                     (set_Damage damageNone (set_RenameSource [] state)) in
      Ok (root, put_state (fd_FileID fd) state d, renamed + 1)
  end.

Definition renameMisnamedFiles (root : Root) (d : Decoder) : result (Root * Decoder * Z) :=
  foldM rename_file (root, d, 0) (protectedFiles d).

(** ** The plan *)

Record flattenedLocation := {
  fl_targetFileID : FileID;
  targetFilename : list Z;
  fl_shardIndex : Z;
  fl_sourceFileID : FileID;
  sourceFilename : list Z;
  diskOffset : Z
}.

Record repairPlan := {
  counts : ShardCounts;
  totalDataShards : Z;
  totalParityShards : Z;
  chunkSize : Z;
  plan_numChunks : Z;
  flatLocs : list flattenedLocation;
  needsWrite : gset (list Z);
  filesRenamed : Z
}.

Definition validateParityShards (d : Decoder) : result unit :=
  err_if (negb (bool_decide (map_Forall (λ _ bs, len bs = sliceByteCount d) (parityShards d))))
    "recovery packet data length differs from sliceByteCount".

Definition computeChunkSize (d : Decoder) (totalDataShards unusableDataShards : Z) : result Z :=
  let denom := totalDataShards + unusableDataShards in
  _ ← err_if (denom <=? 0) "invalid shard configuration for repair";
  let chunkSize := Z.min (Z.quot (memoryLimit d) denom) (sliceByteCount d) in
  Ok (Z.max (Z.quot chunkSize 16 * 16) 16).

Definition buildFileIDToFilenameMap (d : Decoder) : gmap FileID (list Z) :=
  let m : gmap FileID (list Z) :=
    foldl (λ m f, <[fd_FileID f := Filename f]> m) ∅ (protectedFiles d) in
  foldl (λ m '(path, id), <[id := path]> m) m (candidates_order env (map_to_list (candidateFiles d))).

Definition flat_loc (m : gmap FileID (list Z)) (f : FileDescPacket) (il : nat * shardLocation) :
    flattenedLocation :=
  let '(shardIdx, loc) := il in
  {| fl_targetFileID := fd_FileID f; targetFilename := Filename f;
     fl_shardIndex := Z.of_nat shardIdx; fl_sourceFileID := FileID_ loc;
     sourceFilename := if Offset loc =? -1 then [] else default [] (m !! FileID_ loc);
     diskOffset := Offset loc |}.

Definition buildFlatLocs (d : Decoder) (m : gmap FileID (list Z)) : result (list flattenedLocation) :=
  foldM (λ flat f, state ← get_state (fd_FileID f) d;
    Ok (flat ++ (flat_loc m f <$> indexed (ShardLocations state)))) [] (protectedFiles d).

Definition needs_write (d : Decoder) (f : FileDescPacket) (state : fileIntegrityState) : bool :=
  needsRebuild state ||
  negb (forallb (λ '(idx, loc), (Offset loc =? Z.of_nat idx * sliceByteCount d) &&
                                bool_decide (FileID_ loc = fd_FileID f))
          (indexed (ShardLocations state))).

Definition buildNeedsWrite (d : Decoder) : result (gset (list Z)) :=
  foldM (λ w f, state ← get_state (fd_FileID f) d;
    Ok (if needs_write d f state then {[Filename f]} ∪ w else w)) ∅ (protectedFiles d).

Definition count_shards (d : Decoder) : result Z :=
  foldM (λ n f, state ← get_state (fd_FileID f) d; Ok (n + len (ShardLocations state))) 0
    (protectedFiles d).

Definition maxExp (d : Decoder) : Z := map_fold (λ exp _ m, Z.max exp m) 0 (parityShards d).

Definition planRepair (d : Decoder) (filesRenamed : Z) : result repairPlan :=
  _ ← validateParityShards d;
  let counts := shardCountsLocked d in
  totalDataShards ← count_shards d;
  chunkSize ← computeChunkSize d totalDataShards (UnusableDataShardCount counts);
  flatLocs ← buildFlatLocs d (buildFileIDToFilenameMap d);
  needsWrite ← buildNeedsWrite d;
  Ok {| counts := counts; totalDataShards := totalDataShards;
        totalParityShards := maxExp d + 1; chunkSize := chunkSize;
        plan_numChunks := Z.quot (sliceByteCount d + chunkSize - 1) chunkSize;
        flatLocs := flatLocs; needsWrite := needsWrite; filesRenamed := filesRenamed |}.

(** ** The pipeline *)

Record pipeline := {
  fs : Root;
  sources : gmap (list Z) file;
  outputs : gmap (list Z) (list Z);
  tempNames : gmap (list Z) (list Z)
}.

Definition set_fs (x : Root) (p : pipeline) : pipeline :=
  {| fs := x; sources := sources p; outputs := outputs p; tempNames := tempNames p |}.
Definition set_sources (x : gmap (list Z) file) (p : pipeline) : pipeline :=
  {| fs := fs p; sources := x; outputs := outputs p; tempNames := tempNames p |}.
Definition set_outputs (x : gmap (list Z) (list Z)) (p : pipeline) : pipeline :=
  {| fs := fs p; sources := sources p; outputs := x; tempNames := tempNames p |}.
Definition set_tempNames (x : gmap (list Z) (list Z)) (p : pipeline) : pipeline :=
  {| fs := fs p; sources := sources p; outputs := outputs p; tempNames := x |}.

(** An operation of the pipeline, and the monad of operations. *)
Definition M (A : Type) : Type := pipeline → pipeline * result A.

#[global] Instance M_ret : MRet M := λ _ a p, (p, Ok a).
#[global] Instance M_bind : MBind M := λ _ _ f m p,
  match m p with
  | (p, Ok a) => f a p
  | (p, Err e) => (p, Err e)
  | (p, Panic e) => (p, Panic e)
  end.

Definition lift {A} (r : result A) : M A := λ p, (p, r).
Definition modify (f : pipeline → pipeline) : M unit := λ p, (f p, Ok tt).
Definition gets {A} (f : pipeline → A) : M A := λ p, (p, Ok (f p)).
Definition check (b : bool) (e : string) : M unit := lift (err_if (negb b) e).

Fixpoint forM {A} (f : A → M unit) (l : list A) : M unit :=
  match l with
  | [] => mret tt
  | x :: l => _ ← f x; forM f l
  end.

Definition getSource (name : list Z) : M file :=
  known ← gets sources;
  match known !! name with
  | Some f => mret f
  | None =>
      root ← gets fs;
      f ← lift (Open root name);
      _ ← modify (set_sources (<[name := f]> known)); mret f
  end.

Definition repairTempMarker : list Z := ascii ".par2engine-".
Definition repairTempExt : list Z := ascii ".tmp".

Definition temp_name (target : list Z) : list Z :=
  target ++ repairTempMarker ++ rand_text env target ++ repairTempExt.

(** The temp file [target] is rebuilt in. *)
Definition getOutput (target : list Z) : M (list Z) :=
  open ← gets outputs;
  match open !! target with
  | Some tmp => mret tmp
  | None =>
      _ ← check (mkdir_ok env target) "failed to create directory";
      let tmp := temp_name target in
      root ← gets fs;
      _ ← check (create_ok env target && bool_decide (root !! tmp = None)) "failed to create temp file";
      _ ← modify (set_fs (<[tmp := Contents []]> root));
      _ ← modify (set_outputs (<[target := tmp]> open));
      temps ← gets tempNames;
      _ ← modify (set_tempNames (<[target := tmp]> temps));
      mret tmp
  end.

(** [f.WriteAt] on the contents of a file. *)
Definition write_at (content : list Z) (off : Z) (bs : list Z) : list Z :=
  let o := Z.to_nat off in
  take o content ++ replicate (o - length content) 0 ++ bs ++ drop (o + length bs) content.

(** What a handle on [tmp] reads. *)
Definition contents_of (root : Root) (tmp : list Z) : result (list Z) :=
  match root !! tmp with Some f => ReadAll f | None => Err ErrRead end.

Definition WriteAt (target tmp : list Z) (bs : list Z) (off : Z) : M unit :=
  _ ← check (write_ok env target off) "write error";
  root ← gets fs;
  content ← lift (contents_of root tmp);
  modify (set_fs (<[tmp := Contents (write_at content off bs)]> root)).

Section Pipeline.
Context (tb : tables) `{VK : !VectorKernels} (b : build).
Context (d : Decoder) (plan : repairPlan) (coder : Coder).

(** The bytes of every shard that chunk [chunkIdx] covers. *)
Definition currChunkSize (chunkIdx : Z) : Z :=
  if chunkIdx =? plan_numChunks plan - 1
  then sliceByteCount d - chunkIdx * chunkSize plan else chunkSize plan.

Definition read_shard (chunkIdx : Z) (fl : flattenedLocation) : M shard :=
  if diskOffset fl =? -1 then mret None else
  f ← getSource (sourceFilename fl);
  match f with
  | Contents data =>
      mret (Some (ReadAt data (diskOffset fl + chunkIdx * chunkSize plan)
                    (Z.to_nat (currChunkSize chunkIdx))))
  | _ => lift (Err ErrRead)
  end.

Definition parity_shard (chunkIdx exp : Z) : result shard :=
  match parityShards d !! exp with
  | None => Ok None
  | Some parityBytes =>
      let offset := chunkIdx * chunkSize plan in
      bs ← slice_at parityBytes offset (offset + currChunkSize chunkIdx); Ok (Some bs)
  end.

Definition write_shard (chunkIdx : Z) (active : list shard) (ifl : nat * flattenedLocation) : M unit :=
  let '(i, fl) := ifl in
  if negb (bool_decide (targetFilename fl ∈ needsWrite plan)) then mret tt else
  tmp ← getOutput (targetFilename fl);
  bs ← lift (index_at active (Z.of_nat i));
  WriteAt (targetFilename fl) tmp (default [] bs)
    (fl_shardIndex fl * sliceByteCount d + chunkIdx * chunkSize plan).

Definition executeChunk (chunkIdx : Z) : M unit :=
  active ← mapM (read_shard chunkIdx) (flatLocs plan);
  parity ← lift (mapM (parity_shard chunkIdx) (range 0 (totalParityShards plan)));
  active ← lift (Reconstruct tb b coder (rs_ctx env chunkIdx) (rs_schedule env chunkIdx)
                   (default_goroutines env) active parity (numGoroutines d));
  forM (write_shard chunkIdx active) (indexed (flatLocs plan)).

(** ** Installing the rebuilt files *)

(** [f.Truncate(n)]: it also extends. *)
Definition Truncate (content : list Z) (n : Z) : list Z :=
  take (Z.to_nat n) content ++ replicate (Z.to_nat n - length content) 0.

Definition finishRebuiltFile (tmp : list Z) (fd : FileDescPacket) : M unit :=
  _ ← check (truncate_ok env (Filename fd)) "failed to truncate rebuilt file";
  root ← gets fs;
  content ← lift (contents_of root tmp);
  _ ← modify (set_fs (<[tmp := Contents (Truncate content (ByteCount fd))]> root));
  _ ← check (sync_ok env (Filename fd)) "failed to sync rebuilt file";
  _ ← check (hash_ok env (Filename fd)) "failed to hash rebuilt file";
  root ← gets fs;
  content ← lift (contents_of root tmp);
  check (bool_decide (md5_Sum content = fd_Hash fd)) "rebuilt file failed hash verification".

(** Every file is finished; the errors are joined. *)
Fixpoint finishRebuiltFiles (rebuilt : list FileDescPacket) : M unit :=
  match rebuilt with
  | [] => mret tt
  | fd :: rebuilt => λ p,
      let tmp := default [] (outputs p !! Filename fd) in
      let '(p, r) := finishRebuiltFile tmp fd p in
      let '(p, rs) := finishRebuiltFiles rebuilt p in
      (p, match r with Ok _ => rs | _ => r end)
  end.

Definition install_file (fd : FileDescPacket) : M unit :=
  temps ← gets tempNames;
  let tmp := default [] (temps !! Filename fd) in
  root ← gets fs;
  _ ← check (stat_ok env (Filename fd)) "failed to stat file before replacing it";
  _ ← check (bool_decide (root !! Filename fd = None) || chmod_ok env (Filename fd))
        "failed to set permissions on rebuilt file";
  match Rename root tmp (Filename fd) with
  | None => lift (Err "failed to install rebuilt file")
  | Some root => modify (set_fs root)
  end.

Definition install : M unit :=
  open ← gets outputs;
  _ ← check (bool_decide (set_Forall (λ target, is_Some (open !! target)) (needsWrite plan)))
        "repair produced no output";
  let rebuilt := filter (λ fd, is_Some (open !! Filename fd)) (protectedFiles d) in
  _ ← finishRebuiltFiles rebuilt;
  _ ← modify (set_sources ∅);
  _ ← check (forallb (λ fd, close_ok env (Filename fd)) rebuilt) "failed to close rebuilt file";
  _ ← modify (set_outputs ∅);
  forM install_file rebuilt.

Definition repair_chunk (chunkIdx : Z) : M unit :=
  _ ← check (negb (chunk_polls env chunkIdx)) ErrCanceled;
  executeChunk chunkIdx.

Definition run_pipeline : M unit :=
  _ ← forM repair_chunk (range 0 (plan_numChunks plan));
  install.

End Pipeline.

(** [close]: every temp file is removed, if the system lets it. *)
Definition close (p : pipeline) : Root :=
  map_fold (λ _ tmp root, if remove_ok env tmp then delete tmp root else root) (fs p) (tempNames p).

Definition newRepairPipeline (tb : tables) (plan : repairPlan) : result Coder :=
  NewCoderPAR2Vandermonde tb (totalDataShards plan) (totalParityShards plan).

Definition no_handles (root : Root) : pipeline :=
  {| fs := root; sources := ∅; outputs := ∅; tempNames := ∅ |}.

(** ** Repair: the directory and the decoder it leaves, and its error *)

Definition Repair (tb : tables) `{VK : !VectorKernels} (b : build) (root : Root) (d : Decoder) :
    Root * Decoder * result unit :=
  match renameMisnamedFiles root d with
  | Err e => (root, d, Err e)
  | Panic m => (root, d, Panic m)
  | Ok (root, d, filesRenamed) =>
      let counts := shardCountsLocked d in
      if negb (RepairNeeded counts) then (root, d, Ok tt)
      else if negb (RepairPossible counts) then (root, d, Err "repair not possible")
      else match planRepair d filesRenamed with
      | Err e => (root, d, Err e)
      | Panic m => (root, d, Panic m)
      | Ok plan =>
          match newRepairPipeline tb plan with
          | Err e => (root, d, Err e)
          | Panic m => (root, d, Panic m)
          | Ok coder =>
              let '(p, r) := run_pipeline tb b d plan coder (no_handles root) in
              (close p, d, r)
          end
      end
  end.

End Env.
