(* ===== verification/Progress.v ===== *)
(** * Progress messages (src/par2/scan.go, src/par2/repair.go, src/par2/decoder.go)

    What [VerifyScans] and [Repair] send to the progress channel: the number of
    bytes or chunks that are done, and of how many.  The percentage is
    the quotient of the two numbers (at most 100) as a float64 and is not
    modelled. *)

From stdpp Require Import gmap.
From S2P Require Import Prelude Gf16 Kernels Dispatch.
From S2P Require Import Md5 Crc32 Packet CrcTable Decoder Blocks Verify Repair.

Inductive phase := PhaseVerifying | PhaseRepairing.

Record Progress := { Phase : phase; Current : Z; Total : Z }.

#[export] Instance phase_eq_dec : EqDecision phase.
Proof. solve_decision. Defined.
#[export] Instance Progress_eq_dec : EqDecision Progress.
Proof. solve_decision. Defined.

(** ** The scan *)

(** The described sizes of the protected files that the block scan will read. *)
Definition calculateBytesToScan (d : Decoder) : result Z :=
  foldM (λ totalBytesToScan fd,
      state ← get_state (fd_FileID fd) d;
      Ok (if skipsBlockScan state then totalBytesToScan
          else plus64 totalBytesToScan (int64 (ByteCount fd))))
    0 (protectedFiles d).

(** The first message, if there is something to scan. *)
Definition initProgress (totalBytes : Z) : option Progress :=
  if totalBytes <=? 0 then None
  else Some {| Phase := PhaseVerifying; Current := 0; Total := totalBytes |}.

(** [add]: the counter after it, and the message. *)
Definition add_progress (totalBytes scannedBytes bytes : Z) : Z * Progress :=
  let scanned := plus64 scannedBytes bytes in
  (scanned, {| Phase := PhaseVerifying; Current := scanned; Total := totalBytes |}).

(** The messages of the calls of [add], one after the other. *)
Fixpoint add_all (totalBytes scannedBytes : Z) (calls : list Z) : list Progress :=
  match calls with
  | [] => []
  | bytes :: calls =>
      let '(scanned, m) := add_progress totalBytes scannedBytes bytes in
      m :: add_all totalBytes scanned calls
  end.

(** What the goroutines of a file's chunks call [add] with: each that has
    scanned its chunk without an error. *)
Fixpoint chunks_progress (s : Scanner) (f : file) (source : FileID) (fileSize : Z) (idxs : list Z) :
    list Z :=
  match idxs with
  | [] => []
  | i :: idxs =>
      if sc_ctx s AtChunks (Z.to_nat i) then [] else
      let rest := chunks_progress s f source fileSize idxs in
      if sc_ctx s AtSemaphore (Z.to_nat i) then rest else
      match scan_chunk_of s f source fileSize i with
      | Ok _ => Z.min scanChunkSize (fileSize - chunk_start i) :: rest
      | _ => rest
      end
  end.

Definition contents_progress (s : Scanner) (root : Root) (name : list Z) (source : FileID) : list Z :=
  match Open root name with
  | Ok f =>
      if Size f =? 0 then []
      else chunks_progress s f source (Size f) (range 0 (numChunks (Size f)))
  | _ => []
  end.

(** The files that are scanned.  Scanning a file changes its own state only, so
    which files are skipped is known before the scan. *)
Fixpoint files_progress (s : Scanner) (root : Root) (i : nat) (fds : list FileDescPacket) (d : Decoder) :
    result (list Z) :=
  match fds with
  | [] => Ok []
  | fd :: fds =>
      if sc_ctx s AtScanFiles i then Ok [] else
      state ← get_state (fd_FileID fd) d;
      calls ← files_progress s root (S i) fds d;
      Ok (if skipsBlockScan state then calls
          else contents_progress s root (Filename fd) (fd_FileID fd) ++ calls)
  end.

Fixpoint candidates_progress (s : Scanner) (root : Root) (i : nat) (resolved names : gset (list Z))
    (cands : list (list Z * FileID)) : list Z :=
  match cands with
  | [] => []
  | (path, id) :: cands =>
      if sc_ctx s AtScanCandidates i then [] else
      let rest := candidates_progress s root (S i) resolved names cands in
      if bool_decide (path ∈ resolved) || bool_decide (path ∈ names) then rest
      else contents_progress s root path id ++ rest
  end.

(** [VerifyScans] up to the block scan. *)
Definition prescans (sched : Schedule) (root : Root) (d : Decoder) : result (Decoder * gset (list Z)) :=
  let ctx := ctx_polls sched in
  let cands := candidate_order sched (map_to_list (candidateFiles d)) in
  d ← initFileIntegrity d;
  d ← checkFileExistence ctx root d;
  '(d, resolved) ← prescanCandidateMatches ctx root cands d;
  d ← prescanProtectedMatches ctx root d;
  Ok (d, resolved).

Definition new_scanner (sched : Schedule) (window : crc32Window) (table : crcLookupTable) (d : Decoder) :
    Scanner :=
  {| sc_window := window; sc_table := table; sc_slice := sliceByteCount d;
     sc_candidates := candidateByID d; chunk_env := chunk_flags sched;
     tail_env := tail_flags sched; sc_ctx := ctx_polls sched |}.

(** The messages of a verification.  The chunks are scanned concurrently: the
    orders in which they count their bytes and then reach the channel are the
    scheduler's. *)
Section Messages.
Context (add_order : list Z → list Z) (send_order : list Progress → list Progress).

Definition scan_messages (s : Scanner) (root : Root) (cands : list (list Z * FileID))
    (resolved : gset (list Z)) (totalBytes : Z) (d : Decoder) : result (list Progress) :=
  let names := list_to_set (Filename <$> protectedFiles d) in
  calls ← files_progress s root 0 (protectedFiles d) d;
  Ok (send_order (add_all totalBytes 0
        (add_order (calls ++ candidates_progress s root 0 resolved names cands)))).

Definition VerifyScans_messages (sched : Schedule) (root : Root) (d : Decoder) : result (list Progress) :=
  let cands := candidate_order sched (map_to_list (candidateFiles d)) in
  '(d, resolved) ← prescans sched root d;
  totalBytesToScan ← calculateBytesToScan d;
  match initProgress totalBytesToScan with
  | None => Ok []
  | Some m =>
      match newCRC32Window (sliceByteCount d), buildLookupTable sched d with
      | Ok window, Ok table =>
          ms ← scan_messages (new_scanner sched window table d) root cands resolved totalBytesToScan d;
          Ok (m :: ms)
      | _, _ => Ok [m]
      end
  end.

End Messages.

(** ** The repair *)

(** [Repair]'s loop: a message after every chunk that is done. *)
Fixpoint chunk_messages (env : Env) (b : build) (tb : tables) `{VK : !VectorKernels}
    (d : Decoder) (plan : repairPlan) (coder : ReedSolomon.Coder) (idxs : list Z) (p : pipeline) :
    list Progress :=
  match idxs with
  | [] => []
  | i :: idxs =>
      match repair_chunk env tb b d plan coder i p with
      | (p, Ok _) =>
          {| Phase := PhaseRepairing; Current := i + 1; Total := plan_numChunks plan |} ::
          chunk_messages env b tb d plan coder idxs p
      | _ => []
      end
  end.

Definition repair_messages (env : Env) (b : build) (tb : tables) `{VK : !VectorKernels}
    (d : Decoder) (plan : repairPlan) (coder : ReedSolomon.Coder) (p : pipeline) : list Progress :=
  chunk_messages env b tb d plan coder (range 0 (plan_numChunks plan)) p.
