(* ===== verification/ProgressFacts.v ===== *)
(** * Facts about progress messages

    The goroutines of a scan that is not disturbed count every byte of the files
    they read; whatever the order they count in, the counter ends at the sum. *)

From stdpp Require Import gmap.
From S2P Require Import Prelude Gf16 Kernels Dispatch.
From S2P Require Import Md5 Crc32 Packet CrcTable Decoder DecoderFacts Blocks BlocksFacts Verify VerifyFacts VerifyOutcome Repair Progress.

(** ** Sums *)

Definition bytes_sum (l : list Z) : Z := foldr Z.add 0 l.

Lemma bytes_sum_cons x l : bytes_sum (x :: l) = x + bytes_sum l.
Proof. reflexivity. Qed.

Lemma bytes_sum_app l1 l2 : bytes_sum (l1 ++ l2) = bytes_sum l1 + bytes_sum l2.
Proof. unfold bytes_sum. induction l1 as [|x l1 IH]; cbn; [done|]. rewrite IH. lia. Qed.

Lemma bytes_sum_perm l1 l2 : l1 ≡ₚ l2 → bytes_sum l1 = bytes_sum l2.
Proof. unfold bytes_sum. induction 1; cbn in *; lia. Qed.

Lemma bytes_sum_nonneg l : Forall (λ x, 0 <= x) l → 0 <= bytes_sum l.
Proof. unfold bytes_sum. induction 1; cbn in *; lia. Qed.

(** ** The counter *)

(** Every message is a count on the way to the sum, and the last one is the sum. *)
Lemma add_all_spec T n calls :
  Forall (λ x, 0 <= x) calls → 0 <= n → n + bytes_sum calls <= maxInt →
  Forall (λ m, Phase m = PhaseVerifying ∧ Total m = T ∧ n <= Current m <= n + bytes_sum calls)
    (add_all T n calls) ∧
  (calls ≠ [] → Exists (λ m, Current m = n + bytes_sum calls) (add_all T n calls)).
Proof.
  intros Hpos. revert n. induction Hpos as [|x calls Hx Hpos IH]; intros n Hn Hmax; [done|].
  pose proof (bytes_sum_nonneg calls Hpos). rewrite bytes_sum_cons in *. cbn [add_all add_progress].
  rewrite plus64_small by lia. destruct (IH (n + x)) as [Hall Hlast]; [lia..|]. split.
  - constructor; [cbn; split_and!; (done || lia)|].
    eapply Forall_impl; [exact Hall|]. intros m (H1 & H2 & H3). split_and!; (done || lia).
  - intros _. destruct calls as [|y calls]; [left; cbn; lia|right].
    eapply Exists_impl; [by apply Hlast|]. intros m ->. lia.
Qed.

(** ** What a scan counts *)

(** The size of a file on disk; none for a file that is not there. *)
Definition size_on (root : Root) (name : list Z) : Z :=
  if root !! name is Some f then Z.max 0 (Size f) else 0.

Lemma size_on_nonneg root name : 0 <= size_on root name.
Proof. unfold size_on. destruct (root !! name); lia. Qed.

Lemma chunk_inside size i : i ∈ range 0 (numChunks size) → chunk_start i < size.
Proof.
  unfold chunk_start, numChunks. assert (0 < scanChunkSize) as HC by done. revert HC.
  generalize scanChunkSize as C. intros C HC Hi%elem_of_range.
  pose proof (Z.div_mod (size + C - 1) C ltac:(lia)).
  pose proof (Z.mod_pos_bound (size + C - 1) C HC). nia.
Qed.

Lemma chunk_outside size k : numChunks size <= k → size <= chunk_start k.
Proof.
  unfold chunk_start, numChunks. assert (0 < scanChunkSize) as HC by done. revert HC.
  generalize scanChunkSize as C. intros C HC Hk.
  pose proof (Z.div_mod (size + C - 1) C ltac:(lia)).
  pose proof (Z.mod_pos_bound (size + C - 1) C HC). nia.
Qed.

(** The chunks of a file make up its size. *)
Lemma chunk_sizes size : 0 <= size →
  bytes_sum ((λ i, Z.min scanChunkSize (size - chunk_start i)) <$> range 0 (numChunks size)) = size.
Proof.
  intros Hs. assert (∀ k, 0 <= k → bytes_sum ((λ i, Z.min scanChunkSize (size - chunk_start i)) <$>
    range k (numChunks size)) = Z.max 0 (size - chunk_start k)) as H.
  { refine (range_ind _ (numChunks size) _ _); intros k Hk.
    - intros _. rewrite range_nil by done. pose proof (chunk_outside size k Hk). cbn. lia.
    - intros IH H0. rewrite range_cons, fmap_cons, bytes_sum_cons by done.
      rewrite IH by lia. pose proof (chunk_inside size k ltac:(apply elem_of_range; lia)).
      unfold chunk_start in *. assert (0 < scanChunkSize) by done. lia. }
  rewrite H by done. unfold chunk_start. lia.
Qed.

Section Scan.
Context (s : Scanner) (Hctx : ∀ p n, sc_ctx s p n = false).

Lemma chunks_progress_all f source size idxs evs :
  scan_chunks s f source size idxs = Ok evs →
  chunks_progress s f source size idxs =
  (λ i, Z.min scanChunkSize (size - chunk_start i)) <$> idxs.
Proof using Hctx.
  revert evs. induction idxs as [|i idxs IH]; intros evs; cbn [scan_chunks chunks_progress]; [done|].
  rewrite !Hctx. destruct (scan_chunk_of _ _ _ _ _) as [st|e|]; [| |done].
  - destruct (scan_chunks _ _ _ _ _) as [evs1| |]; cbn [mbind result_bind]; [|done..].
    intros _. rewrite fmap_cons. f_equal. by eapply IH.
  - by destruct (scan_chunks _ _ _ _ _).
Qed.

(** A file that is scanned without an error counts all its bytes, once. *)
Lemma contents_progress_sum root name source f n evs :
  Open root name = Ok f → scan_contents s f source (Size f) n = Ok evs →
  Forall (λ x, 0 <= x) (contents_progress s root name source) ∧
  bytes_sum (contents_progress s root name source) = size_on root name.
Proof using Hctx.
  intros Ho. assert (size_on root name = Z.max 0 (Size f)) as ->.
  { unfold Open, size_on in *. by destruct (root !! name) as [[]|]; try done; injection Ho as <-. }
  unfold contents_progress. rewrite Ho. unfold scan_contents, scanFileChunks.
  destruct (Z.eqb_spec (Size f) 0) as [->|H0]; [by intros _|].
  destruct (scan_chunks _ _ _ _ _) as [evs1| |] eqn:Hc; cbn [mbind result_bind]; [|done..].
  intros _. rewrite (chunks_progress_all _ _ _ _ _ Hc). destruct (Z.le_gt_cases 0 (Size f)) as [Hk|Hk].
  - split; [|rewrite chunk_sizes; lia]. apply Forall_fmap, Forall_forall. intros i Hi. cbn.
    pose proof (chunk_inside (Size f) i Hi). assert (0 < scanChunkSize) by done. lia.
  - rewrite range_nil; [cbn; split; [done|lia]|]. unfold numChunks.
    apply Z.lt_succ_r, Z.div_lt_upper_bound; [done|]. assert (0 < scanChunkSize) by done. lia.
Qed.

Definition counts_all (root : Root) (names : list (list Z)) (calls : list Z) : Prop :=
  Forall (λ x, 0 <= x) calls ∧ bytes_sum calls = bytes_sum (size_on root <$> names).

Lemma counts_all_app root name names l1 l2 :
  Forall (λ x, 0 <= x) l1 ∧ bytes_sum l1 = size_on root name →
  counts_all root names l2 → counts_all root (name :: names) (l1 ++ l2).
Proof.
  intros [H1 H2] [H3 H4]. split; [by apply Forall_app|].
  by rewrite bytes_sum_app, fmap_cons, bytes_sum_cons, H2, H4.
Qed.

Lemma missing_progress root name source :
  Open root name = Err ErrNotExist →
  Forall (λ x, 0 <= x) (contents_progress s root name source) ∧
  bytes_sum (contents_progress s root name source) = size_on root name.
Proof.
  intros Ho. unfold contents_progress. rewrite Ho. split; [done|].
  unfold Open, size_on in *. by destruct (root !! name) as [[]|].
Qed.

Lemma scanFile_progress root fd dmg evs :
  scanFile s root fd = (dmg, Ok evs) →
  Forall (λ x, 0 <= x) (contents_progress s root (Filename fd) (fd_FileID fd)) ∧
  bytes_sum (contents_progress s root (Filename fd) (fd_FileID fd)) = size_on root (Filename fd).
Proof using Hctx.
  unfold scanFile. destruct (Open root (Filename fd)) as [f|e|] eqn:Ho; [| |done].
  - intros [= _ H]. by eapply contents_progress_sum.
  - case_bool_decide as He; [|done]. subst e. intros _. by apply missing_progress.
Qed.

Lemma scanCandidateFile_progress root path id evs :
  scanCandidateFile s root path id = Ok evs →
  Forall (λ x, 0 <= x) (contents_progress s root path id) ∧
  bytes_sum (contents_progress s root path id) = size_on root path.
Proof using Hctx.
  unfold scanCandidateFile. destruct (Open root path) as [f|e|] eqn:Ho; [| |done].
  - intros H. by eapply contents_progress_sum.
  - case_bool_decide as He; [|done]. subst e. intros _. by apply missing_progress.
Qed.

(** The files that the block scan reads. *)
Definition scanned (d : Decoder) (fd : FileDescPacket) : bool :=
  if fileIntegrity d !! fd_FileID fd is Some st then negb (skipsBlockScan st) else false.

Lemma files_progress_sum root i fds d d1 d' evs :
  NoDup (fd_FileID <$> fds) →
  (∀ fd, fd ∈ fds → fileIntegrity d !! fd_FileID fd = fileIntegrity d1 !! fd_FileID fd) →
  scan_files s root i fds d = Ok (d', evs, None) →
  ∃ l, files_progress s root i fds d1 = Ok l ∧
       counts_all root (Filename <$> List.filter (scanned d1) fds) l.
Proof using Hctx.
  revert i d evs. induction fds as [|fd fds IH]; intros i d evs Hnd Hst; cbn [scan_files files_progress].
  { intros _. by exists []. }
  rewrite fmap_cons, NoDup_cons in Hnd. destruct Hnd as [Hni Hnd].
  rewrite Hctx. unfold get_state. rewrite (Hst fd (list_elem_of_here _ _)).
  cbn [List.filter]. unfold scanned at 1.
  destruct (fileIntegrity d1 !! fd_FileID fd) as [st|] eqn:Hfd; cbn [mbind result_bind]; [|done].
  assert (∀ x d2, d2 = (if x is Some y then put_state (fd_FileID fd) (set_Damage y st) d else d) →
    ∀ fd', fd' ∈ fds → fileIntegrity d2 !! fd_FileID fd' = fileIntegrity d1 !! fd_FileID fd') as Hother.
  { intros x d2 -> fd' Hfd'. rewrite <- Hst by (apply elem_of_cons; by right).
    destruct x; [|done]. cbn [put_state set_fileIntegrity fileIntegrity]. apply lookup_insert_ne.
    intros He. apply Hni. rewrite He. by apply list_elem_of_fmap_2. }
  destruct (skipsBlockScan st); cbn [negb].
  - intros H. destruct (IH (S i) d evs) as (l & -> & Hl); [done| |done|by exists l].
    by apply (Hother None).
  - destruct (scanFile s root fd) as [dmg res] eqn:Hf.
    set (d2 := if dmg is Some _ then _ else _). destruct res as [evs1|e|]; [| |done].
    + destruct (scan_files _ _ _ _ _) as [[[d3 evs2] err]| |] eqn:Hr; cbn [mbind result_bind]; [|done..].
      intros [= -> <- ->]. destruct (IH (S i) d2 evs2) as (l & -> & Hl); [done|by apply (Hother dmg)|done|].
      cbn [mbind result_bind]. eexists. split; [reflexivity|]. rewrite fmap_cons.
      by apply counts_all_app; [eapply scanFile_progress|].
    + by destruct (scan_files _ _ _ _ _) as [[[d3 evs2] err]| |].
Qed.

(** The candidates that the block scan reads. *)
Definition leftover (resolved names : gset (list Z)) (c : list Z * FileID) : bool :=
  negb (bool_decide (c.1 ∈ resolved) || bool_decide (c.1 ∈ names)).

Lemma candidates_progress_sum root i resolved names cands evs :
  scan_candidates s root i resolved names cands = Ok (evs, None) →
  counts_all root (List.filter (leftover resolved names) cands).*1
    (candidates_progress s root i resolved names cands).
Proof using Hctx.
  revert i evs. induction cands as [|[path id] cands IH]; intros i evs; cbn [scan_candidates candidates_progress].
  { intros _. by split. }
  rewrite Hctx. cbn [List.filter]. unfold leftover at 1. cbn [fst].
  destruct (_ || _); cbn [negb]; [apply IH|].
  destruct (scanCandidateFile s root path id) as [evs1|e|] eqn:Hf; [| |done].
  - destruct (scan_candidates _ _ _ _ _ _) as [[evs2 err]| |] eqn:Hr; cbn [mbind result_bind]; [|done..].
    intros [= <- ->]. rewrite fmap_cons. apply counts_all_app; [by eapply scanCandidateFile_progress|by eapply IH].
  - by destruct (scan_candidates _ _ _ _ _ _) as [[evs2 err]| |].
Qed.

End Scan.

(** ** The total *)

Lemma calculateBytesToScan_sum d :
  Forall file_ok (protectedFiles d) →
  (∀ fd, fd ∈ protectedFiles d → is_Some (fileIntegrity d !! fd_FileID fd)) →
  bytes_sum (ByteCount <$> List.filter (scanned d) (protectedFiles d)) <= maxInt →
  calculateBytesToScan d = Ok (bytes_sum (ByteCount <$> List.filter (scanned d) (protectedFiles d))).
Proof.
  unfold calculateBytesToScan. generalize (protectedFiles d) as fds. intros fds Hok Hst Hmax.
  set (step := λ totalBytesToScan fd, _).
  assert (∀ n, 0 <= n → n + bytes_sum (ByteCount <$> List.filter (scanned d) fds) <= maxInt →
    foldM step n fds = Ok (n + bytes_sum (ByteCount <$> List.filter (scanned d) fds))) as H;
    [|by apply (H 0)].
  clear Hmax. induction Hok as [|fd fds Hfd Hok IH]; intros n Hn Hmax.
  { cbn. f_equal. lia. }
  destruct (Hst fd (list_elem_of_here _ _)) as [st Hs].
  assert (step n fd = Ok (if scanned d fd then n + ByteCount fd else n)) as Hstep.
  { unfold step, get_state, scanned. rewrite Hs. cbn [mbind result_bind]. f_equal.
    destruct (skipsBlockScan st) eqn:Hsk; [done|]. cbn [negb]. destruct Hfd as (_ & _ & _ & Hb & _).
    assert (0 <= bytes_sum (ByteCount <$> List.filter (scanned d) fds)).
    { apply bytes_sum_nonneg, Forall_fmap, Forall_forall. intros x [Hx _]%list_elem_of_In%filter_In.
      rewrite Forall_forall in Hok. cbn. destruct (Hok x) as (_ & _ & _ & Hbx & _); [by apply list_elem_of_In|lia]. }
    cbn [List.filter] in Hmax. unfold scanned at 1 in Hmax. rewrite Hs, Hsk in Hmax. cbn [negb] in Hmax.
    rewrite fmap_cons, bytes_sum_cons in Hmax. rewrite int64_small by lia. apply plus64_small. lia. }
  cbn [foldM]. rewrite Hstep. cbn [mbind result_bind].
  assert (∀ fd', fd' ∈ fds → is_Some (fileIntegrity d !! fd_FileID fd')) as Hst'
    by (intros; apply Hst, elem_of_cons; by right).
  destruct Hfd as (_ & _ & _ & Hb & _). cbn [List.filter] in *. destruct (scanned d fd).
  - rewrite fmap_cons, bytes_sum_cons in *. rewrite IH by (done || lia). f_equal. lia.
  - by apply IH.
Qed.

(** ** The phases of a verification *)

Lemma VerifyScans_prescans sched root d0 d :
  VerifyScans sched root d0 = Ok d → ∃ dp resolved window table ds,
    prescans sched root d0 = Ok (dp, resolved) ∧
    newCRC32Window (sliceByteCount dp) = Ok window ∧ buildLookupTable sched dp = Ok table ∧
    scan (new_scanner sched window table dp) sched root
      (candidate_order sched (map_to_list (candidateFiles d0))) resolved dp = Ok ds.
Proof.
  unfold VerifyScans, prescans. cbv zeta.
  destruct (initFileIntegrity d0) as [d1| |]; cbn [mbind result_bind]; [|done..].
  destruct (checkFileExistence _ _ _) as [d2| |]; cbn [mbind result_bind]; [|done..].
  destruct (prescanCandidateMatches _ _ _ _) as [[d3 resolved]| |]; cbn [mbind result_bind]; [|done..].
  destruct (prescanProtectedMatches _ _ _) as [d4| |]; cbn [mbind result_bind]; [|done..].
  destruct (newCRC32Window _) as [window| |] eqn:Hw; cbn [mbind result_bind]; [|done..].
  destruct (buildLookupTable _ _) as [table| |] eqn:Ht; cbn [mbind result_bind]; [|done..].
  intros H. exists d4, resolved, window, table. unfold new_scanner.
  destruct (scan _ _ _ _ _ _) as [ds| |] eqn:Hs; cbn [mbind result_bind] in H; [|done..].
  exists ds. done.
Qed.

Lemma prescans_verifying sched root d0 dp resolved :
  NoDup (fd_FileID <$> protectedFiles d0) → prescans sched root d0 = Ok (dp, resolved) →
  verifying root d0 (λ _, True) false dp.
Proof.
  intros Hnd. unfold prescans. cbv zeta.
  destruct (initFileIntegrity d0) as [d1| |] eqn:H1; cbn [mbind result_bind]; [|done..].
  destruct (checkFileExistence _ _ _) as [d2| |] eqn:H2; cbn [mbind result_bind]; [|done..].
  destruct (prescanCandidateMatches _ _ _ _) as [[d3 r]| |] eqn:H3; cbn [mbind result_bind]; [|done..].
  destruct (prescanProtectedMatches _ _ _) as [d4| |] eqn:H4; cbn [mbind result_bind]; [|done..].
  intros [= <- _]. eapply prescanProtectedMatches_verifying, H4; [done..|].
  eapply prescanCandidateMatches_verifying, H3; [done..|]. eapply checkFileExistence_verifying, H2; [done|].
  by eapply initFileIntegrity_verifying.
Qed.

(** The order of the goroutines does not matter for the messages: each count is
    on the way to the sum of all. *)
Lemma scan_messages_counts add_order send_order s root cands resolved total d0 d ds sched :
  (∀ p n, sc_ctx s p n = false) → (∀ l, add_order l ≡ₚ l) → (∀ l, send_order l ≡ₚ l) →
  NoDup (fd_FileID <$> protectedFiles d) → verifying root d0 (λ _, True) false d →
  scan s sched root cands resolved d = Ok ds →
  let names := list_to_set (Filename <$> protectedFiles d) in
  let read := (Filename <$> List.filter (scanned d) (protectedFiles d)) ++
              (List.filter (leftover resolved names) cands).*1 in
  let n := bytes_sum (size_on root <$> read) in n <= maxInt →
  ∃ ms, scan_messages add_order send_order s root cands resolved total d = Ok ms ∧
    (∀ m, m ∈ ms → Phase m = PhaseVerifying ∧ Total m = total ∧ 0 <= Current m <= n) ∧
    (0 < n → ∃ m, m ∈ ms ∧ Current m = n).
Proof.
  intros Hctx Hadd Hsend Hnd Hv. unfold scan. cbv zeta.
  destruct (scan_files _ _ _ _ _) as [[[d1 evs1] err1]| |] eqn:H1; cbn [mbind result_bind]; [|done..].
  destruct (scan_candidates _ _ _ _ _ _) as [[evs2 err2]| |] eqn:H2; cbn [mbind result_bind]; [|done..].
  destruct (foldM _ _ _); cbn [mbind result_bind]; [|done..]. destruct err1, err2; try done. intros _ Hmax.
  pose proof (verifying_files root d0 (λ _, True) false d Hv) as Hd.
  assert (protectedFiles d1 = protectedFiles d) as Hd1.
  { rewrite Hd. apply (verifying_files root d0 (λ _, True) false).
    eapply scan_files_verifying; [by rewrite <- Hd|done| |exact Hv|exact H1]. by rewrite Hd. }
  rewrite Hd1 in H2.
  apply (files_progress_sum s Hctx root 0 _ d d) in H1 as (calls & Hcalls & Hp1 & Hs1); [|done..].
  apply (candidates_progress_sum s Hctx) in H2 as [Hp2 Hs2].
  unfold scan_messages. rewrite Hcalls. cbn [mbind result_bind]. eexists. split; [reflexivity|].
  rewrite fmap_app, bytes_sum_app, <- Hs1, <- Hs2, <- bytes_sum_app in Hmax.
  rewrite fmap_app, bytes_sum_app, <- Hs1, <- Hs2, <- bytes_sum_app.
  set (all := calls ++ _) in *. assert (bytes_sum (add_order all) = bytes_sum all) as Hsum by by apply bytes_sum_perm.
  destruct (add_all_spec total 0 (add_order all)) as [Hall Hlast]; [| |rewrite Hsum; lia|].
  { rewrite (Hadd all). by apply Forall_app. } { done. }
  rewrite Hsum, Forall_forall, Exists_exists in *. split.
  - intros m Hm. rewrite (Hsend _) in Hm. by apply Hall.
  - intros Hn. destruct Hlast as (m & Hm & Hc); [intros He; rewrite He in Hsum; cbn in Hsum; lia|].
    exists m. split; [by rewrite (Hsend _)|done].
Qed.
