(* ===== verification/RepairFacts.v ===== *)
(** * Facts about repair

    Triples for the operations of the repair pipeline, the invariant of the
    pipeline (it changes temp files only), what [install] does to the directory,
    and what renaming misnamed files keeps. *)

From stdpp Require Import gmap.
From S2P Require Import Prelude Gf16 Kernels Dispatch Matrix ReedSolomon.
From S2P Require Import Md5 Packet CrcTable Decoder DecoderFacts Blocks Verify VerifyFacts Repair.

(** ** Triples *)

(** From a state with [P], [m] ends in a state with [Q a] when it returns [a],
    and with [E] when it fails. *)
Definition triple {A} (P : pipeline → Prop) (m : M A) (Q : A → pipeline → Prop)
    (E : pipeline → Prop) : Prop :=
  ∀ p, P p → match m p with (p', Ok a) => Q a p' | (p', _) => E p' end.

Lemma triple_bind {A B} P (m : M A) (f : A → M B) Q R E :
  triple P m Q E → (∀ a, triple (Q a) (f a) R E) → triple P (m ≫= f) R E.
Proof.
  intros Hm Hf p Hp. specialize (Hm p Hp). unfold mbind, M_bind.
  destruct (m p) as [p' [a|e|e]]; [by apply Hf|done..].
Qed.

Lemma triple_ret {A} (a : A) (Q : A → pipeline → Prop) E : triple (Q a) (mret a) Q E.
Proof. by intros p Hp. Qed.

Lemma triple_conseq {A} P P' (m : M A) Q Q' E E' :
  triple P' m Q' E' → (∀ p, P p → P' p) → (∀ a p, Q' a p → Q a p) → (∀ p, E' p → E p) →
  triple P m Q E.
Proof.
  intros Hm HP HQ HE p Hp. specialize (Hm p (HP p Hp)). destruct (m p) as [p' [a|e|e]]; auto.
Qed.

Lemma triple_lift {A} (r : result A) P (Q : A → pipeline → Prop) (E : pipeline → Prop) :
  (∀ a p, r = Ok a → P p → Q a p) → (∀ p, P p → E p) → triple P (lift r) Q E.
Proof. intros HQ HE p Hp. unfold lift. destruct r; auto. Qed.

Lemma triple_check b e (P E : pipeline → Prop) :
  (∀ p, P p → E p) → triple P (check b e) (λ _ p, b = true ∧ P p) E.
Proof. intros HE p Hp. unfold check, lift, err_if. destruct b; cbn [negb]; auto. Qed.

Lemma triple_gets {A} (f : pipeline → A) P E :
  triple P (gets f) (λ a p, a = f p ∧ P p) E.
Proof. by intros p Hp. Qed.

Lemma triple_modify f (P Q : pipeline → Prop) E :
  (∀ p, P p → Q (f p)) → triple P (modify f) (λ _, Q) E.
Proof. intros H p Hp. by apply H. Qed.

Lemma triple_forM {A} (f : A → M unit) (l : list A) (I : list A → pipeline → Prop) E :
  (∀ done x l', l = done ++ x :: l' → triple (I done) (f x) (λ _, I (done ++ [x])) E) →
  triple (I []) (forM f l) (λ _, I l) E.
Proof.
  intros H. assert (∀ done l', l = done ++ l' → triple (I done) (forM f l') (λ _, I l) E) as Hgen.
  { intros done l'. revert done. induction l' as [|x l' IH]; intros done Hl.
    - rewrite app_nil_r in Hl. subst l. by intros p Hp.
    - cbn [forM]. eapply triple_bind; [by apply (H done x l')|]. intros u. cbv beta.
      apply IH. by rewrite <- app_assoc. }
  by apply Hgen.
Qed.

(** Run an operation symbolically. *)
Ltac fields :=
  cbn [negb fs sources outputs tempNames set_fs set_sources set_outputs set_tempNames].
Ltac run :=
  unfold mbind, M_bind, mret, M_ret, gets, modify, check, lift, err_if; cbn beta iota; fields.

Lemma triple_state {A} P (m : M A) Q (E : pipeline → Prop) p :
  triple P m Q E → (∀ a p, Q a p → E p) → P p → E (m p).1.
Proof. intros Hm HQ Hp. specialize (Hm p Hp). destruct (m p) as [p' [a|e|e]]; eauto. Qed.

Lemma triple_ok {A} P (m : M A) Q E p a : triple P m Q E → P p → (m p).2 = Ok a → Q a (m p).1.
Proof. intros Hm Hp. specialize (Hm p Hp). destruct (m p) as [p' [a'|e|e]]; by intros [= ->]. Qed.

(** An operation keeps [I], whatever its result. *)
Definition keeps {A} (I : pipeline → Prop) (m : M A) : Prop := triple I m (λ _, I) I.

Lemma keeps_bind {A B} I (m : M A) (f : A → M B) :
  keeps I m → (∀ a, keeps I (f a)) → keeps I (m ≫= f).
Proof. intros. by eapply triple_bind. Qed.
Lemma keeps_ret {A} I (a : A) : keeps I (mret a).
Proof. by intros p Hp. Qed.
Lemma keeps_lift {A} I (r : result A) : keeps I (lift r).
Proof. by apply triple_lift. Qed.
Lemma keeps_check I b e : keeps I (check b e).
Proof. apply keeps_lift. Qed.
Lemma keeps_gets {A} I (f : pipeline → A) : keeps I (gets f).
Proof. by intros p Hp. Qed.
Lemma keeps_modify (I : pipeline → Prop) f : (∀ p, I p → I (f p)) → keeps I (modify f).
Proof. intros H p Hp. by apply H. Qed.
Lemma keeps_forM {A} I (f : A → M unit) l : (∀ x, keeps I (f x)) → keeps I (forM f l).
Proof.
  intros H. induction l as [|x l IH]; [apply keeps_ret|]. cbn [forM]. by apply keeps_bind.
Qed.
Lemma keeps_mapM {A B} I (f : A → M B) l : (∀ x, keeps I (f x)) → keeps I (mapM f l).
Proof.
  intros H. induction l as [|x l IH]; [apply keeps_ret|]. cbn [mapM].
  apply keeps_bind; [done|]. intros y. apply keeps_bind; [done|]. intros k. apply keeps_ret.
Qed.

Create HintDb pipeline.
#[export] Hint Resolve keeps_bind keeps_ret keeps_lift keeps_check keeps_gets keeps_forM keeps_mapM
  : pipeline.

(** ** The pipeline changes temp files only *)

Section Facts.
Context (env : Env).

Record pipe_ok (root : Root) (p : pipeline) : Prop := {
  pk_outside : ∀ name, (∀ target, tempNames p !! target ≠ Some name) → fs p !! name = root !! name;
  pk_outputs : ∀ target tmp, outputs p !! target = Some tmp → tempNames p !! target = Some tmp;
  pk_fresh : ∀ target tmp, tempNames p !! target = Some tmp →
    tmp = temp_name env target ∧ root !! tmp = None;
  pk_here : ∀ target tmp, tempNames p !! target = Some tmp → is_Some (fs p !! tmp);
  pk_inj : ∀ t1 t2 tmp, tempNames p !! t1 = Some tmp → tempNames p !! t2 = Some tmp → t1 = t2
}.

Lemma no_handles_ok root : pipe_ok root (no_handles root).
Proof. split; cbn; intros *; rewrite ?lookup_empty; done. Qed.

Lemma pipe_ok_set_sources root x p : pipe_ok root p → pipe_ok root (set_sources x p).
Proof. intros [H1 H2 H3 H4 H5]. by split. Qed.

Lemma pipe_ok_write root p target tmp f :
  pipe_ok root p → tempNames p !! target = Some tmp → pipe_ok root (set_fs (<[tmp := f]> (fs p)) p).
Proof.
  intros [H1 H2 H3 H4 H5] Ht. split; fields; [|done..| |done].
  - intros name Hn. rewrite lookup_insert_ne; [by apply H1|]. intros ->. by eapply Hn.
  - intros t tmp' Ht'. destruct (decide (tmp = tmp')) as [<-|Hne].
    + rewrite lookup_insert_eq. by eexists.
    + rewrite lookup_insert_ne by done. by eapply H4.
Qed.

Lemma getSource_keeps root name : keeps (pipe_ok root) (getSource name).
Proof.
  unfold getSource. apply keeps_bind; [apply keeps_gets|]. intros known.
  destruct (known !! name); [apply keeps_ret|]. apply keeps_bind; [apply keeps_gets|]. intros r.
  apply keeps_bind; [apply keeps_lift|]. intros f. apply keeps_bind; [|intros _; apply keeps_ret].
  apply keeps_modify. intros p. apply pipe_ok_set_sources.
Qed.

(** The output of [target] is a temp file of its own. *)
Lemma getOutput_spec root target :
  triple (pipe_ok root) (getOutput env target)
    (λ tmp p, pipe_ok root p ∧ outputs p !! target = Some tmp) (pipe_ok root).
Proof.
  intros p Hp. unfold getOutput. run.
  destruct (outputs p !! target) as [tmp|] eqn:Ho; [by split|].
  run. destruct (mkdir_ok env target); run; [|done].
  destruct (_ && bool_decide _) eqn:Hc; run; [|done].
  apply andb_true_iff in Hc as [_ Hnone%bool_decide_eq_true].
  set (tmp := temp_name env target) in *.
  destruct Hp as [H1 H2 H3 H4 H5].
  assert (∀ t, tempNames p !! t ≠ Some tmp) as Hnew.
  { intros t Ht. destruct (H4 t tmp Ht). congruence. }
  split; [|apply lookup_insert_eq]. split; fields.
  - intros name Hn. assert (name ≠ tmp) as Hne.
    { intros ->. apply (Hn target). by rewrite lookup_insert_eq. }
    rewrite lookup_insert_ne by done. apply H1. intros t Ht.
    destruct (decide (t = target)) as [->|Htn].
    + by destruct (H3 _ _ Ht) as [-> _].
    + apply (Hn t). by rewrite lookup_insert_ne.
  - intros t tmp'. destruct (decide (t = target)) as [->|Htn].
    + by rewrite !lookup_insert_eq.
    + rewrite !lookup_insert_ne by done. apply H2.
  - intros t tmp'. destruct (decide (t = target)) as [->|Htn].
    + rewrite lookup_insert_eq. intros [= <-]. split; [done|]. by rewrite <- H1.
    + rewrite lookup_insert_ne by done. apply H3.
  - intros t tmp'. destruct (decide (tmp = tmp')) as [<-|Hne]; [by rewrite lookup_insert_eq|].
    rewrite (lookup_insert_ne (fs p)) by done. destruct (decide (t = target)) as [->|Htn].
    + by rewrite lookup_insert_eq; intros [= ->].
    + rewrite lookup_insert_ne by done. apply H4.
  - intros t1 t2 tmp'. destruct (decide (t1 = target)) as [->|Hn1], (decide (t2 = target)) as [->|Hn2];
      rewrite ?lookup_insert_eq, ?lookup_insert_ne by done; try done.
    + by intros [= <-] ?%Hnew.
    + by intros Ht [= <-]; apply Hnew in Ht.
    + apply H5.
Qed.

Lemma contents_of_inv root tmp data : contents_of root tmp = Ok data → root !! tmp = Some (Contents data).
Proof.
  unfold contents_of. destruct (root !! tmp) as [f|]; [|done]. by destruct f; intros [= ->].
Qed.

Lemma WriteAt_keeps root target tmp bs off :
  triple (λ p, pipe_ok root p ∧ outputs p !! target = Some tmp) (WriteAt env target tmp bs off)
    (λ _, pipe_ok root) (pipe_ok root).
Proof.
  intros p [Hp Ho]. unfold WriteAt. run. destruct (write_ok _ _ _); run; [|done].
  destruct (contents_of (fs p) tmp) as [c| |] eqn:Hc; run; [|done..].
  eapply pipe_ok_write; [done|]. by eapply pk_outputs.
Qed.

Section Run.
Context (tb : tables) `{VK : !VectorKernels} (b : build).
Context (d : Decoder) (plan : repairPlan) (coder : Coder).

Lemma read_shard_keeps root i fl : keeps (pipe_ok root) (read_shard d plan i fl).
Proof.
  unfold read_shard. destruct (_ =? _); [apply keeps_ret|].
  apply keeps_bind; [apply getSource_keeps|]. intros [data| |]; apply keeps_ret || apply keeps_lift.
Qed.

Lemma write_shard_keeps root i active ifl : keeps (pipe_ok root) (write_shard env d plan i active ifl).
Proof.
  destruct ifl as [k fl]. unfold write_shard. destruct (negb _); [apply keeps_ret|].
  eapply triple_bind; [apply getOutput_spec|]. intros tmp.
  eapply triple_bind; [apply triple_lift|].
  - intros bs p _ Hp. exact Hp.
  - by intros p [Hp _].
  - intros bs. apply WriteAt_keeps.
Qed.

Lemma repair_chunk_keeps root i : keeps (pipe_ok root) (repair_chunk env tb b d plan coder i).
Proof.
  unfold repair_chunk, executeChunk. apply keeps_bind; [apply keeps_check|]. intros _.
  apply keeps_bind; [apply keeps_mapM; intros; apply read_shard_keeps|]. intros active.
  do 2 (apply keeps_bind; [apply keeps_lift|intros ?]).
  apply keeps_forM. intros ifl. apply write_shard_keeps.
Qed.

(** *** Finishing and installing *)

(** The temp file of [fd] has the contents that [fd] describes. *)
Definition ready (p : pipeline) (fd : FileDescPacket) : Prop :=
  ∃ tmp, tempNames p !! Filename fd = Some tmp ∧ verified (fs p) tmp fd.

Lemma ready_write root p fd tmp f target :
  pipe_ok root p → tempNames p !! target = Some tmp → Filename fd ≠ target →
  ready p fd → ready (set_fs (<[tmp := f]> (fs p)) p) fd.
Proof.
  intros Hp Ht Hne (tmp' & Ht' & data & Hd & Hh). exists tmp'. split; [done|]. exists data.
  split; [|done]. cbn [fs set_fs]. rewrite lookup_insert_ne; [done|]. intros <-.
  by apply Hne, (pk_inj _ _ Hp _ _ tmp).
Qed.

Definition finishing (root : Root) (open : gmap (list Z) (list Z)) (J : list FileDescPacket)
    (p : pipeline) : Prop :=
  pipe_ok root p ∧ outputs p = open ∧ Forall (ready p) J.

Lemma finishing_nil root open J p : finishing root open J p → finishing root open [] p.
Proof. intros (H1 & H2 & _). by split. Qed.

Lemma finishRebuiltFile_spec root open J fd tmp :
  open !! Filename fd = Some tmp → Filename fd ∉ Filename <$> J →
  triple (finishing root open J) (finishRebuiltFile env tmp fd)
    (λ _, finishing root open (fd :: J)) (finishing root open []).
Proof.
  intros Ht Hnew p Hfin. pose proof Hfin as (Hp & Ho & HJ). apply finishing_nil in Hfin.
  unfold finishRebuiltFile. run. destruct (truncate_ok _ _); run; [|done].
  destruct (contents_of (fs p) tmp) as [c| |] eqn:Hc; run; [|done..].
  set (p1 := set_fs _ p).
  assert (tempNames p !! Filename fd = Some tmp) as Htmp.
  { eapply pk_outputs; [done|by rewrite Ho]. }
  assert (finishing root open J p1) as Hfin1.
  { split; [by eapply pipe_ok_write|]. split; [done|]. apply Forall_forall. intros fd' Hin.
    rewrite Forall_forall in HJ. eapply ready_write; [done|done| |by apply HJ].
    intros He. apply Hnew. rewrite <- He. by apply list_elem_of_fmap_2. }
  destruct (sync_ok _ _); run; [|by eapply finishing_nil].
  destruct (hash_ok _ _); run; [|by eapply finishing_nil].
  destruct (contents_of (<[tmp:=_]> _) tmp) as [c'| |] eqn:Hc'; run; [|by eapply finishing_nil..].
  destruct (bool_decide _) eqn:Hh; cbn [negb]; [|by eapply finishing_nil].
  apply bool_decide_eq_true in Hh. destruct Hfin1 as (H1 & H2 & H3). split; [done|]. split; [done|].
  constructor; [|done]. exists tmp. split; [done|]. exists c'.
  split; [|done]. by apply contents_of_inv in Hc'.
Qed.

Lemma finishRebuiltFiles_spec root open rebuilt J :
  NoDup (Filename <$> (rebuilt ++ J)) → Forall (λ fd, is_Some (open !! Filename fd)) rebuilt →
  triple (finishing root open J) (finishRebuiltFiles env rebuilt)
    (λ _, finishing root open (rebuilt ++ J)) (finishing root open []).
Proof.
  revert J. induction rebuilt as [|fd rebuilt IH]; intros J Hnd Hopen p Hfin; [done|].
  apply Forall_cons in Hopen as [[tmp Htmp] Hopen].
  assert (NoDup (Filename <$> rebuilt ++ fd :: J)) as Hnd' by (by rewrite <- Permutation_middle).
  rewrite <- app_comm_cons, fmap_cons, fmap_app in Hnd. apply NoDup_cons in Hnd as [Hnew Hnd].
  cbn [finishRebuiltFiles]. assert (outputs p = open) as Ho by apply Hfin. rewrite Ho, Htmp.
  assert (Filename fd ∉ Filename <$> J) as HJ.
  { intros Hin. apply Hnew. apply elem_of_app. by right. }
  pose proof (finishRebuiltFile_spec root open J fd tmp Htmp HJ p Hfin) as Hone.
  cbn [default from_option id]. destruct (finishRebuiltFile env tmp fd p) as [p1 r1].
  assert (∀ p1, finishing root open [] p1 →
    finishing root open [] (finishRebuiltFiles env rebuilt p1).1) as Hany.
  { intros q Hq. pose proof (IH [] ltac:(rewrite app_nil_r; apply (proj1 (NoDup_app _ _) Hnd)) Hopen q Hq)
      as Hr. destruct (finishRebuiltFiles env rebuilt q) as [q' [|e|e]]; [|done..].
    by eapply finishing_nil. }
  destruct r1 as [[]|e|e].
  - pose proof (IH (fd :: J) Hnd' Hopen p1 Hone) as Hr.
    destruct (finishRebuiltFiles env rebuilt p1) as [p2 [u|e|e]]; [|done..].
    destruct Hr as (H1 & H2 & H3). split; [done|]. split; [done|]. by rewrite <- Permutation_middle in H3.
  - specialize (Hany p1 Hone). by destruct (finishRebuiltFiles env rebuilt p1).
  - specialize (Hany p1 Hone). by destruct (finishRebuiltFiles env rebuilt p1).
Qed.

(** [fs] differs from [root] in temp files and in verified files of the set. *)
Record partly_installed (root : Root) (p : pipeline) : Prop := {
  pi_files : ∀ fd, fd ∈ protectedFiles d →
    fs p !! Filename fd = root !! Filename fd ∨ verified (fs p) (Filename fd) fd;
  pi_others : ∀ name, (∀ t, name ≠ temp_name env t) → name ∉ Filename <$> protectedFiles d →
    fs p !! name = root !! name;
  pi_temps : ∀ t tmp, tempNames p !! t = Some tmp → tmp = temp_name env t
}.

Hypothesis (Hnames : NoDup (Filename <$> protectedFiles d)).
Hypothesis (Hfresh : ∀ t fd, fd ∈ protectedFiles d → temp_name env t ≠ Filename fd).

Lemma pipe_ok_partly root p : pipe_ok root p → partly_installed root p.
Proof.
  intros [H1 H2 H3 H4 H5]. split.
  - intros fd Hfd. left. apply H1. intros t [Ht _]%H3. by eapply Hfresh.
  - intros name Hn _. apply H1. intros t [Ht _]%H3. by eapply Hn.
  - intros t tmp [Ht _]%H3. done.
Qed.

(** The state of the renames: [todo] is still to be installed. *)
Record installing (root : Root) (rebuilt todo : list FileDescPacket) (p : pipeline) : Prop := {
  in_ready : Forall (ready p) todo;
  in_done : ∀ fd, fd ∈ rebuilt → fd ∈ todo ∨ verified (fs p) (Filename fd) fd;
  in_others : ∀ name, (∀ t, name ≠ temp_name env t) → name ∉ Filename <$> rebuilt →
    fs p !! name = root !! name;
  in_todo : ∀ fd, fd ∈ todo → fs p !! Filename fd = root !! Filename fd;
  in_temps : ∀ t tmp, tempNames p !! t = Some tmp → tmp = temp_name env t;
  in_inj : ∀ t1 t2 tmp, tempNames p !! t1 = Some tmp → tempNames p !! t2 = Some tmp → t1 = t2
}.

Lemma installing_partly root rebuilt todo p :
  (∀ fd, fd ∈ rebuilt → fd ∈ protectedFiles d) → installing root rebuilt todo p →
  partly_installed root p.
Proof.
  intros Hsub [H1 H2 H3 H4 H5 H6]. split; [|intros name Hn Hni; apply H3; [done|]|done].
  - intros fd Hfd. destruct (decide (Filename fd ∈ Filename <$> rebuilt)) as [Hin|Hni].
    + apply list_elem_of_fmap in Hin as (fd' & He & Hin).
      assert (fd' = fd) as -> by (apply (NoDup_key Filename _ _ _ Hnames); auto).
      destruct (H2 fd Hin); [left; by apply H4|by right].
    + left. apply H3; [|done]. intros t He. by eapply Hfresh.
  - intros (fd & -> & Hin)%list_elem_of_fmap. apply Hni, list_elem_of_fmap_2. auto.
Qed.

Lemma install_file_spec root rebuilt fd todo :
  (∀ fd, fd ∈ rebuilt → fd ∈ protectedFiles d) → fd ∈ rebuilt →
  NoDup (Filename <$> fd :: todo) → (∀ fd, fd ∈ todo → fd ∈ protectedFiles d) →
  triple (installing root rebuilt (fd :: todo)) (install_file env fd)
    (λ _, installing root rebuilt todo) (installing root rebuilt (fd :: todo)).
Proof.
  intros Hsub Hin Hnd Htodo p Hp. pose proof Hp as [H1 H2 H3 H4 H5 H6].
  apply Forall_cons in H1 as [(tmp & Htmp & data & Hdata & Hh) H1].
  unfold install_file. run. rewrite Htmp. cbn [default from_option id].
  destruct (stat_ok _ _); run; [|done].
  destruct (_ || _ : bool); run; [|done].
  unfold Rename. destruct (negb _); [done|]. rewrite Hdata. run.
  rewrite fmap_cons in Hnd. apply NoDup_cons in Hnd as [Hnew Hnd].
  assert (∀ fd', fd' ∈ protectedFiles d → tmp ≠ Filename fd') as Htf.
  { intros fd' Hfd'. rewrite (H5 _ _ Htmp). by apply Hfresh. }
  assert (∀ fd', fd' ∈ todo → Filename fd' ≠ Filename fd) as Hne.
  { intros fd' Hfd' He. apply Hnew. rewrite <- He. by apply list_elem_of_fmap_2. }
  split; fields; [| | | |done|done].
  - apply Forall_forall. intros fd' Hfd'. rewrite Forall_forall in H1.
    destruct (H1 fd' Hfd') as (tmp' & Ht' & data' & Hd' & Hh'). exists tmp'. split; [done|].
    exists data'. split; [|done]. fields.
    rewrite lookup_insert_ne, lookup_delete_ne; [done| |].
    + intros <-. eapply (Hne fd'); [done|]. by eapply H6.
    + rewrite (H5 _ _ Ht'). intros He. by eapply (Hfresh (Filename fd') fd); [auto|].
  - intros fd' Hfd'. destruct (decide (Filename fd' = Filename fd)) as [He|Hn].
    + assert (fd' = fd) as -> by (apply (NoDup_key Filename _ _ _ Hnames); auto).
      right. exists data. by rewrite lookup_insert_eq.
    + destruct (H2 fd' Hfd') as [Hi|(data' & Hd' & Hh')].
      * left. by apply elem_of_cons in Hi as [->|].
      * right. exists data'. split; [|done].
        rewrite lookup_insert_ne, lookup_delete_ne; [done|by apply Htf, Hsub|done].
  - intros name Hn Hni. rewrite lookup_insert_ne, lookup_delete_ne; [by apply H3| |].
    + rewrite (H5 _ _ Htmp). intros He. by eapply Hn.
    + intros <-. by apply Hni, list_elem_of_fmap_2.
  - intros fd' Hfd'. rewrite lookup_insert_ne, lookup_delete_ne; [|by apply Htf, Htodo|].
    + apply H4. by apply elem_of_cons; right.
    + intros He. by eapply (Hne fd').
Qed.

Definition installed (root : Root) (p : pipeline) : Prop :=
  partly_installed root p ∧
  ∀ fd, fd ∈ protectedFiles d → Filename fd ∈ needsWrite plan → verified (fs p) (Filename fd) fd.

Lemma install_spec root :
  triple (pipe_ok root) (install env d plan) (λ _, installed root) (partly_installed root).
Proof.
  unfold install. eapply triple_bind; [apply triple_gets|]. intros open. cbv beta.
  eapply triple_bind; [apply triple_check; by intros p [_ ?%pipe_ok_partly]|]. intros u. cbv beta.
  set (rebuilt := filter _ _).
  assert (∀ fd, fd ∈ rebuilt → fd ∈ protectedFiles d) as Hsub.
  { intros fd Hin. by apply list_elem_of_filter in Hin as [_ ?]. }
  assert (NoDup (Filename <$> rebuilt)) as Hnd.
  { by apply NoDup_fmap_filter. }
  set (complete := ∀ target, target ∈ needsWrite plan → is_Some (open !! target)).
  eapply (triple_bind _ _ _ (λ _ p, finishing root open rebuilt p ∧ complete)).
  { intros p (Hall%bool_decide_eq_true & -> & Hp).
    pose proof (finishRebuiltFiles_spec root (outputs p) rebuilt [] ltac:(by rewrite app_nil_r)) as Hf.
    specialize (Hf ltac:(apply Forall_forall; intros fd Hin;
      by apply list_elem_of_filter in Hin as [? _]) p (conj Hp (conj eq_refl (Forall_nil_2 _)))).
    rewrite app_nil_r in Hf.
    destruct (finishRebuiltFiles env rebuilt p) as [p' [[]|e|e]];
      [by split|by apply pipe_ok_partly, Hf..]. }
  intros u'. eapply (triple_bind _ _ _ (λ _ p, finishing root open rebuilt p ∧ complete)).
  { intros p [(H1 & H2 & H3) H4]. run. split; [|exact H4].
    split; [by apply pipe_ok_set_sources|]. by split. }
  intros u2. eapply triple_bind; [apply triple_check; by intros p [[?%pipe_ok_partly _] _]|].
  intros u3. cbv beta.
  eapply (triple_bind _ _ _ (λ _ p, installing root rebuilt rebuilt p ∧ complete)).
  { intros p (_ & (Hp & _ & Hr) & H4). run. split; [|exact H4].
    pose proof (pipe_ok_partly root p Hp) as [_ _ Ht]. pose proof Hp as [H1 _ H3 _ H5].
    split; fields; [exact Hr|by left| | |done|done].
    - intros name Hn _. apply H1. intros t He. apply (Hn t). by apply Ht.
    - intros fd Hfd. apply H1. intros t He%Ht. by eapply (Hfresh t fd); [apply Hsub|]. }
  intros u4. cbv beta.
  intros p [Hp Hall].
  assert (∀ l done, rebuilt = done ++ l →
    triple (installing root rebuilt l) (forM (install_file env) l)
      (λ _, installing root rebuilt []) (partly_installed root)) as Hloop.
  { induction l as [|fd l IH]; intros dn Hl; [by intros q Hq|]. cbn [forM].
    assert (∀ x, x ∈ fd :: l → x ∈ rebuilt) as Hl'.
    { intros x Hx. rewrite Hl. apply elem_of_app. by right. }
    eapply triple_bind.
    - eapply triple_conseq; [apply (install_file_spec root rebuilt fd l)| | |]; [done| | | |done|done|].
      + apply Hl', list_elem_of_here.
      + rewrite Hl, fmap_app in Hnd. by apply NoDup_app in Hnd as (_ & _ & ?).
      + intros x Hx. apply Hsub, Hl'. by apply elem_of_cons; right.
      + intros q Hq. by eapply installing_partly.
    - intros []. apply (IH (dn ++ [fd])). by rewrite <- app_assoc. }
  pose proof (Hloop rebuilt [] eq_refl p Hp) as Hr.
  destruct (forM (install_file env) rebuilt p) as [q [[]|e|e]]; [|done..].
  split; [by eapply installing_partly|]. intros fd Hfd Hw.
  destruct (in_done _ _ _ _ Hr fd) as [Hn|]; [|by apply elem_of_nil in Hn|done].
  apply list_elem_of_filter. split; [|done]. by apply Hall.
Qed.

Lemma run_pipeline_spec root :
  triple (pipe_ok root) (run_pipeline env tb b d plan coder) (λ _, installed root)
    (partly_installed root).
Proof.
  unfold run_pipeline. apply (triple_bind _ _ _ (λ _, pipe_ok root)); [|intros []; apply install_spec].
  eapply triple_conseq; [apply (keeps_forM (pipe_ok root))| | |apply pipe_ok_partly]; [|done|done].
  intros i. apply repair_chunk_keeps.
Qed.

End Run.

(** [close] removes temp files only. *)
Lemma close_lookup p name :
  (∀ t, tempNames p !! t ≠ Some name) → close env p !! name = fs p !! name.
Proof.
  intros Hn. unfold close.
  apply (map_fold_weak_ind (λ (root : Root) (m : gmap (list Z) (list Z)),
    (∀ t, m !! t ≠ Some name) → root !! name = fs p !! name)); [done| |done].
  intros t tmp m root Ht IH Hm.
  assert (root !! name = fs p !! name) as <-.
  { apply IH. intros t' Ht'. apply (Hm t'). rewrite lookup_insert_ne; [done|].
    intros ->. congruence. }
  destruct (remove_ok env tmp); [|done]. apply lookup_delete_ne. intros ->.
  apply (Hm t). by rewrite lookup_insert_eq.
Qed.

End Facts.
