(* ===== verification/RepairSound.v ===== *)
(** * Repair is sound

    Renaming misnamed files puts verified contents under the protected names and
    takes nothing from them; together with the pipeline (RepairFacts.v) and the
    verdict of the scan (VerifyFacts.v) this gives what [Repair] leaves behind,
    whatever happens: every protected file is untouched or verified, and all are
    verified when it succeeds. *)

From stdpp Require Import gmap.
From S2P Require Import Prelude Gf16 Kernels Dispatch Matrix ReedSolomon.
From S2P Require Import Md5 Packet CrcTable Decoder DecoderFacts Blocks Verify VerifyFacts Repair RepairFacts.

Section Rename.
Context (env : Env) (src : list Z → Prop) (root0 : Root) (d0 : Decoder).
Hypothesis (Hids : NoDup (fd_FileID <$> protectedFiles d0)).
Hypothesis (Hnames : NoDup (Filename <$> protectedFiles d0)).
Hypothesis (Hsrc : ∀ fd, fd ∈ protectedFiles d0 → ¬ src (Filename fd)).

Lemma src_other name fd : src name → fd ∈ protectedFiles d0 → name ≠ Filename fd.
Proof. intros Hs Hfd ->. by apply (Hsrc fd). Qed.

(** What is known of the file [fd] in the state [s]. *)
Record known (root : Root) (fd : FileDescPacket) (s : fileIntegrityState) : Prop := {
  kn_checked : Damage s ≠ damageUnchecked;
  kn_none : Damage s = damageNone → verified root (Filename fd) fd;
  kn_source : RenameSource s ≠ [] → src (RenameSource s);
  kn_rename : RenameSource s ≠ [] → ∀ f, root !! RenameSource s = Some f →
    verified root (RenameSource s) fd
}.

(** The file [name] has become the file of the set whose contents it had. *)
Definition moved (root : Root) (name : list Z) : Prop :=
  src name ∧ root !! name = None ∧
  ∃ fd, fd ∈ protectedFiles d0 ∧ verified root0 name fd ∧ verified root (Filename fd) fd.

Record renaming (root : Root) (d : Decoder) : Prop := {
  rn_same : d = set_fileIntegrity (fileIntegrity d) d0;
  rn_state : ∀ fd, fd ∈ protectedFiles d0 →
    ∃ s, fileIntegrity d !! fd_FileID fd = Some s ∧ known root fd s;
  rn_files : ∀ fd, fd ∈ protectedFiles d0 →
    root !! Filename fd = root0 !! Filename fd ∨ verified root (Filename fd) fd;
  rn_others : ∀ name, name ∉ Filename <$> protectedFiles d0 →
    root !! name = root0 !! name ∨ moved root name
}.

Lemma renaming_set root d m :
  renaming root d →
  (∀ fd, fd ∈ protectedFiles d0 → ∃ s, m !! fd_FileID fd = Some s ∧ known root fd s) →
  renaming root (set_fileIntegrity m d).
Proof.
  intros [H1 H2 H3 H4] Hm. split; [|done..]. cbn [fileIntegrity set_fileIntegrity].
  transitivity (set_fileIntegrity m (set_fileIntegrity (fileIntegrity d) d0)); [by rewrite <- H1|done].
Qed.

Lemma renaming_put root d fd s :
  renaming root d → fd ∈ protectedFiles d0 → known root fd s →
  renaming root (put_state (fd_FileID fd) s d).
Proof.
  intros Hr Hfd Hs. apply renaming_set; [done|]. intros fd' Hfd'.
  destruct (decide (fd_FileID fd = fd_FileID fd')) as [He|Hne].
  - assert (fd = fd') as <- by (by apply (NoDup_key fd_FileID _ _ _ Hids)).
    rewrite lookup_insert_eq. by exists s.
  - rewrite lookup_insert_ne by done. by apply (rn_state _ _ Hr).
Qed.

(** Renaming [old] over the protected [fd]. *)
Lemma known_rename root fd fd' s old f :
  fd ∈ protectedFiles d0 → fd' ∈ protectedFiles d0 → src old → root !! old = Some f →
  Filename fd' ≠ Filename fd ∨ verified root old fd' →
  known root fd' s → known (<[Filename fd := f]> (delete old root)) fd' s.
Proof.
  intros Hfd Hfd' Hold Hf Hor [H1 H2 H3 H4].
  assert (∀ name, src name → Filename fd ≠ name) as Hne.
  { intros name Hs He. by apply (src_other name fd). }
  split; [done| |done|].
  - intros Hd. destruct Hor as [Hn|(data & Hdata & Hh)].
    + destruct (H2 Hd) as (data & Hdata & Hh). exists data. split; [|done].
      rewrite lookup_insert_ne, lookup_delete_ne; [done|by apply src_other|done].
    + destruct (decide (Filename fd' = Filename fd)) as [->|Hn].
      * exists data. rewrite lookup_insert_eq. split; [congruence|done].
      * destruct (H2 Hd) as (data' & Hdata' & Hh'). exists data'. split; [|done].
        rewrite lookup_insert_ne, lookup_delete_ne; [done|by apply src_other|done].
  - intros Hr g. rewrite lookup_insert_ne by auto. unfold verified.
    destruct (decide (old = RenameSource s)) as [->|Hn]; [by rewrite lookup_delete_eq|].
    rewrite lookup_delete_ne by done. intros Hg. destruct (H4 Hr g Hg) as (data & Hdata & Hh).
    exists data. split; [|done]. rewrite lookup_insert_ne by auto.
    by rewrite lookup_delete_ne.
Qed.

Lemma others_rename root fd old f name :
  fd ∈ protectedFiles d0 → src old → root !! old = Some f → verified root old fd →
  (∀ name, name ∉ Filename <$> protectedFiles d0 → root !! name = root0 !! name ∨ moved root name) →
  name ∉ Filename <$> protectedFiles d0 →
  let root' := <[Filename fd := f]> (delete old root) in root' !! name = root0 !! name ∨ moved root' name.
Proof.
  intros Hfd Hold Hf Hver Hoth Hni. cbv zeta.
  assert (Filename fd ≠ name) as Hne by (intros <-; by apply Hni, list_elem_of_fmap_2).
  assert (verified (<[Filename fd := f]> (delete old root)) (Filename fd) fd) as Hnew.
  { destruct Hver as (data & Hd & Hh). exists data. rewrite lookup_insert_eq. split; [congruence|done]. }
  destruct (decide (old = name)) as [<-|Hon].
  - right. split; [done|]. split; [by rewrite lookup_insert_ne, lookup_delete_eq|].
    exists fd. split; [done|]. split; [|done].
    destruct (Hoth old Hni) as [He|(_ & Hnone & _)]; [|congruence]. unfold verified. by rewrite <- He.
  - destruct (Hoth name Hni) as [He|(H1 & H2 & fd2 & H3 & H4 & data & H5 & H6)].
    { left. by rewrite lookup_insert_ne, lookup_delete_ne. }
    right. split; [done|]. split; [by rewrite lookup_insert_ne, lookup_delete_ne|].
    exists fd2. split; [done|]. split; [done|].
    destruct (decide (Filename fd2 = Filename fd)) as [He|Hn2].
    + by assert (fd2 = fd) as -> by (by apply (NoDup_key Filename _ _ _ Hnames)).
    + exists data. split; [|done].
      rewrite lookup_insert_ne, lookup_delete_ne; [done|by apply src_other|done].
Qed.

Lemma rename_file_renaming root d n fd st :
  fd ∈ protectedFiles d0 → renaming root d → rename_file env (root, d, n) fd = Ok st →
  renaming st.1.1 st.1.2.
Proof.
  intros Hfd Hr. unfold rename_file.
  destruct (get_state (fd_FileID fd) d) as [s| |] eqn:Hg; cbn [mbind result_bind]; [|done..].
  apply get_state_inv in Hg.
  assert (known root fd s) as Hk.
  { destruct (rn_state _ _ Hr fd Hfd) as (s' & Hs' & Hk). by simplify_eq. }
  case_bool_decide as Hs; [by intros [= <-]|]. cbv zeta.
  assert (renaming root (put_state (fd_FileID fd) (set_RenameSource [] s) d)) as Hfail.
  { apply renaming_put; [done..|]. destruct Hk. by split. }
  destruct (negb _); [by intros [= <-]|].
  unfold Rename. destruct (negb _); [by intros [= <-]|].
  destruct (root !! RenameSource s) as [f|] eqn:Hf; [|by intros [= <-]].
  set (root' := <[Filename fd := f]> (delete (RenameSource s) root)).
  set (d1 := match candidateFiles d !! _ with Some _ => _ | None => d end).
  pose proof (kn_source _ _ _ Hk Hs) as Hsrcs.
  pose proof (kn_rename _ _ _ Hk Hs f Hf) as Hver.
  assert (∀ fd', fd' ∈ protectedFiles d0 →
    ∃ s', fileIntegrity d1 !! fd_FileID fd' = Some s' ∧ known root' fd' s') as Hst.
  { intros fd' Hfd'. destruct (rn_state _ _ Hr fd' Hfd') as (s' & Hs' & Hk').
    assert (known root' fd' s') as Hk2.
    { eapply known_rename; [done..| |done].
      destruct (decide (Filename fd' = Filename fd)) as [He|]; [right|by left].
      by assert (fd' = fd) as -> by (by apply (NoDup_key Filename _ _ _ Hnames)). }
    subst d1. destruct (candidateFiles d !! RenameSource s) as [c|]; [|by exists s'].
    cbn [fileIntegrity set_fileIntegrity]. rewrite lookup_fmap, Hs'. eexists. split; [done|].
    destruct Hk2. by split. }
  assert (renaming root' d1) as Hr1.
  { destruct Hr as [H1 H2 H3 H4]. split.
    - subst d1. destruct (candidateFiles d !! RenameSource s); [|done].
      cbn [fileIntegrity set_fileIntegrity]. rewrite H1 at 2. done.
    - exact Hst.
    - intros fd' Hfd'. destruct (decide (Filename fd' = Filename fd)) as [He|Hn].
      + assert (fd' = fd) as -> by (by apply (NoDup_key Filename _ _ _ Hnames)). right.
        destruct Hver as (data & Hd & Hh). exists data. subst root'. rewrite lookup_insert_eq.
        split; [congruence|done].
      + unfold verified. subst root'. rewrite lookup_insert_ne, lookup_delete_ne; [by apply H3|by apply src_other|done].
    - intros name Hni. by apply (others_rename root fd (RenameSource s) f). }
  destruct (get_state (fd_FileID fd) d1) as [s1| |] eqn:Hg1; cbn [mbind result_bind]; [|done..].
  intros [= <-]. cbn [fst snd]. apply renaming_put; [done..|]. split; [done| |done|done].
  intros _. destruct Hver as (data & Hd & Hh). exists data. subst root'. rewrite lookup_insert_eq.
  split; [congruence|done].
Qed.

Lemma renameMisnamedFiles_renaming root' d d' n :
  renaming root0 d → renameMisnamedFiles env root0 d = Ok (root', d', n) → renaming root' d'.
Proof.
  intros Hr. unfold renameMisnamedFiles.
  assert (protectedFiles d = protectedFiles d0) as -> by (by rewrite (rn_same _ _ Hr)).
  intros Hrun. apply (foldM_ok_list _ (λ st, renaming st.1.1 st.1.2)) in Hrun; [done| |done].
  intros [[root1 d1] n1] fd st Hfd H1. by apply rename_file_renaming.
Qed.

(** Renaming never fails: every protected file has a state. *)
Lemma renameMisnamedFiles_ok d : renaming root0 d → ∃ st, renameMisnamedFiles env root0 d = Ok st.
Proof.
  intros Hr. unfold renameMisnamedFiles.
  assert (protectedFiles d = protectedFiles d0) as -> by (by rewrite (rn_same _ _ Hr)).
  assert (∀ fds root d n, (∀ fd, fd ∈ fds → fd ∈ protectedFiles d0) → renaming root d →
    ∃ st, foldM (rename_file env) (root, d, n) fds = Ok st) as H; [|by apply H].
  clear d Hr. intros fds. induction fds as [|fd fds IH]; intros root d n Hfds Hr; [by eexists|].
  cbn [foldM].
  assert (∃ st, rename_file env (root, d, n) fd = Ok st) as [[[root1 d1] n1] Hst].
  { assert (fd ∈ protectedFiles d0) as Hfd by (apply Hfds, list_elem_of_here).
    unfold rename_file. destruct (rn_state _ _ Hr fd Hfd) as (s & Hs & _).
    rewrite (proj2 (get_state_inv _ _ _) Hs). cbn [mbind result_bind].
    case_bool_decide; [by eexists|]. cbv zeta. destruct (negb _); [by eexists|].
    destruct (Rename _ _ _ _) as [root1|]; [|by eexists].
    set (d1 := match candidateFiles d !! _ with Some _ => _ | None => d end).
    assert (∃ s1, fileIntegrity d1 !! fd_FileID fd = Some s1) as [s1 Hs1].
    { subst d1. destruct (candidateFiles d !! _); [|by exists s].
      cbn [fileIntegrity set_fileIntegrity]. rewrite lookup_fmap, Hs. by eexists. }
    rewrite (proj2 (get_state_inv _ _ _) Hs1). by eexists. }
  rewrite Hst. cbn [mbind result_bind]. apply IH.
  - intros. apply Hfds. by apply elem_of_cons; right.
  - eapply (rename_file_renaming root d n fd (root1, d1, n1)); [|done|done].
    apply Hfds, list_elem_of_here.
Qed.

End Rename.

(** What verification leaves is what renaming starts from. *)
Lemma verified_renaming root d0 (src : list Z → Prop) d :
  NoDup (fd_FileID <$> protectedFiles d0) →
  verifying root d0 src true d → (∀ fd, fd ∈ protectedFiles d0 → checked d fd) →
  renaming src root d0 root d.
Proof.
  intros Hids Hv Hch. split; [by eapply v_same| |by left|by left].
  intros fd Hfd. destruct (v_all _ _ _ _ _ Hv fd Hfd) as [s Hs]. exists s. split; [done|].
  pose proof (verifying_get root d0 src true Hids d fd s Hv Hfd Hs) as [_ _ Hd Hr].
  split; [|done| |].
  - destruct (Hch fd Hfd) as [s' [[Hs' Hc]|[Hs' Hc]]]; assert (s' = s) as -> by congruence; [done|].
    destruct (Hr Hc) as (_ & _ & [->|[_ ->]]); done.
  - intros Hne. by apply Hr.
  - intros Hne f _. by apply Hr.
Qed.

Lemma buildNeedsWrite_spec d w fd :
  buildNeedsWrite d = Ok w → fd ∈ protectedFiles d →
  ∃ s, fileIntegrity d !! fd_FileID fd = Some s ∧
       (needs_write d fd s = true → Filename fd ∈ w).
Proof.
  unfold buildNeedsWrite. generalize (protectedFiles d). intros fds.
  assert (∀ w0, foldM (λ w f, state ← get_state (fd_FileID f) d;
      Ok (if needs_write d f state then {[Filename f]} ∪ w else w)) w0 fds = Ok w →
    w0 ⊆ w ∧ (fd ∈ fds → ∃ s, fileIntegrity d !! fd_FileID fd = Some s ∧
       (needs_write d fd s = true → Filename fd ∈ w))) as H.
  { induction fds as [|f fds IH]; intros w0; cbn [foldM].
    - intros [= <-]. split; [done|]. by intros ?%elem_of_nil.
    - destruct (get_state (fd_FileID f) d) as [s| |] eqn:Hg; cbn [mbind result_bind]; [|done..].
      apply get_state_inv in Hg. intros [Hsub Hin]%IH. split.
      + destruct (needs_write d f s); [|done]. etransitivity; [|exact Hsub].
        apply union_subseteq_r.
      + intros [->|Hf]%elem_of_cons; [|by apply Hin]. exists s. split; [done|].
        intros Hw. rewrite Hw in Hsub. apply Hsub, elem_of_union_l, elem_of_singleton. done. }
  intros Hw Hfd. destruct (H ∅ Hw) as [_ Hr]. by apply Hr.
Qed.

(** ** The plan *)

Lemma computeChunkSize_spec d n u c :
  0 < memoryLimit d → 0 < sliceByteCount d → computeChunkSize d n u = Ok c →
  0 < n + u ∧ 16 <= c ∧ c mod 16 = 0 ∧ c * (n + u) <= Z.max (memoryLimit d) (16 * (n + u)) ∧
  (c <= sliceByteCount d ∨ c = 16).
Proof.
  intros Hm Hs. unfold computeChunkSize.
  destruct (Z.leb_spec (n + u) 0) as [|Hd]; cbn [err_if mbind result_bind]; [done|].
  intros [= <-]. rewrite !Z.quot_div_nonneg by (try apply Z.min_glb; lia || apply Z.quot_pos; lia).
  set (q := memoryLimit d / (n + u)). set (k := Z.min q (sliceByteCount d)).
  pose proof (Z.mul_div_le (memoryLimit d) (n + u) Hd) as Hq. fold q in Hq.
  pose proof (Z.mul_div_le k 16 ltac:(lia)) as Hk.
  assert (0 <= q) by (apply Z.div_pos; lia).
  assert (0 <= k / 16) by (apply Z.div_pos; lia).
  split; [done|]. split; [lia|].
  destruct (Z.max_spec (k / 16 * 16) 16) as [[Hlt ->]|[Hge ->]].
  - split; [done|]. split; [lia|by right].
  - split; [apply Z.mod_mul; lia|]. split; [|left; lia].
    etransitivity; [|apply Z.le_max_l]. etransitivity; [|exact Hq]. rewrite Z.mul_comm.
    apply Z.mul_le_mono_nonneg_l; lia.
Qed.

Lemma planRepair_inv env d n plan :
  planRepair env d n = Ok plan →
  map_Forall (λ _ bs, len bs = sliceByteCount d) (Decoder.parityShards d) ∧
  counts plan = shardCountsLocked d ∧
  count_shards d = Ok (totalDataShards plan) ∧
  computeChunkSize d (totalDataShards plan) (UnusableDataShardCount (counts plan)) =
    Ok (chunkSize plan) ∧
  buildFlatLocs d (buildFileIDToFilenameMap env d) = Ok (flatLocs plan) ∧
  buildNeedsWrite d = Ok (needsWrite plan) ∧
  totalParityShards plan = maxExp d + 1 ∧
  plan_numChunks plan = Z.quot (sliceByteCount d + chunkSize plan - 1) (chunkSize plan).
Proof.
  unfold planRepair, validateParityShards.
  destruct (bool_decide _) eqn:Hp; cbn [negb err_if mbind result_bind]; [|done].
  apply bool_decide_eq_true in Hp.
  destruct (count_shards d) as [m| |]; cbn [mbind result_bind]; [|done..].
  destruct (computeChunkSize _ _ _) as [c| |] eqn:Hc; cbn [mbind result_bind]; [|done..].
  destruct (buildFlatLocs _ _) as [fl| |]; cbn [mbind result_bind]; [|done..].
  destruct (buildNeedsWrite d) as [w| |]; cbn [mbind result_bind]; [|done..].
  intros [= <-]. by split_and!.
Qed.

Lemma planRepair_needsWrite env d n plan :
  planRepair env d n = Ok plan → buildNeedsWrite d = Ok (needsWrite plan).
Proof. by intros (_ & _ & _ & _ & _ & ? & _)%planRepair_inv. Qed.

Section Outcome.
Context (env : Env) (tb : tables) `{VK : !VectorKernels} (b : build).
Context (src : list Z → Prop) (root0 : Root) (d0 : Decoder).
Hypothesis (Hids : NoDup (fd_FileID <$> protectedFiles d0)).
Hypothesis (Hnames : NoDup (Filename <$> protectedFiles d0)).
Hypothesis (Hsrc : ∀ fd, fd ∈ protectedFiles d0 → ¬ src (Filename fd)).
Hypothesis (Hfresh : ∀ t fd, fd ∈ protectedFiles d0 → temp_name env t ≠ Filename fd).

(** What a repair leaves: every file of the set untouched or verified, other
    files untouched or moved to the set, and everything verified if it succeeds. *)
Definition outcome (root' : Root) (r : result unit) : Prop :=
  (∀ fd, fd ∈ protectedFiles d0 →
     root' !! Filename fd = root0 !! Filename fd ∨ verified root' (Filename fd) fd) ∧
  (∀ name, name ∉ Filename <$> protectedFiles d0 → (∀ t, name ≠ temp_name env t) →
     root' !! name = root0 !! name ∨ moved src root0 d0 root' name) ∧
  (r = Ok tt → ∀ fd, fd ∈ protectedFiles d0 → verified root' (Filename fd) fd).

Lemma renaming_outcome root d r :
  renaming src root0 d0 root d → r ≠ Ok tt → outcome root r.
Proof. intros [H1 H2 H3 H4] Hr. split; [done|]. split; [auto|done]. Qed.

Lemma renaming_healthy root d :
  renaming src root0 d0 root d → RepairNeeded (shardCountsLocked d) = false →
  outcome root (Ok tt).
Proof.
  intros [H1 H2 H3 H4] Hn. split; [done|]. split; [auto|]. intros _ fd Hfd.
  destruct (H2 fd Hfd) as (s & Hs & [Hc Hv _ _]). apply Hv.
  destruct (proj1 (RepairNeeded_spec d) Hn _ _ Hs) as (_ & Hb & _).
  unfold needsRebuild in Hb. by destruct (Damage s).
Qed.

(** Removing the temp files touches nothing else. *)
Lemma close_outcome root d p r :
  renaming src root0 d0 root d → partly_installed env d root p →
  (r = Ok tt → ∀ fd, fd ∈ protectedFiles d0 → verified (fs p) (Filename fd) fd) →
  outcome (close env p) r.
Proof.
  intros [H1 H2 H3 H4] [Hp1 Hp2 Hp3] Hall.
  assert (protectedFiles d = protectedFiles d0) as Hpf by (by rewrite H1). rewrite Hpf in Hp1, Hp2.
  assert (∀ name, (∀ t, name ≠ temp_name env t) → close env p !! name = fs p !! name) as Hcl.
  { intros name Hn. apply close_lookup. intros t Ht%Hp3. by eapply Hn. }
  assert (∀ fd, fd ∈ protectedFiles d0 → close env p !! Filename fd = fs p !! Filename fd) as Hcf.
  { intros fd Hfd. apply Hcl. intros t He. by eapply Hfresh. }
  split; [|split].
  - intros fd Hfd. unfold verified. rewrite (Hcf fd Hfd).
    destruct (Hp1 fd Hfd) as [->|]; [by apply H3|by right].
  - intros name Hni Ht. unfold moved. rewrite Hcl, Hp2 by done.
    destruct (H4 name Hni) as [?|(Hs & Hnone & fd & Hfd & Hv0 & Hv)]; [by left|right].
    split; [done|]. split; [done|]. exists fd. split; [done|]. split; [done|].
    unfold verified. rewrite (Hcf fd Hfd). destruct (Hp1 fd Hfd) as [->|]; [exact Hv|done].
  - intros Hr fd Hfd. unfold verified. rewrite (Hcf fd Hfd). by apply Hall.
Qed.

(** What was installed is everything. *)
Lemma installed_verified root d plan p n fd :
  renaming src root0 d0 root d → planRepair env d n = Ok plan → installed env d plan root p →
  fd ∈ protectedFiles d0 → verified (fs p) (Filename fd) fd.
Proof.
  intros [H1 H2 H3 H4] Hplan [Hpi Hall] Hfd.
  assert (protectedFiles d = protectedFiles d0) as Hpf by (by rewrite H1).
  assert (fd ∈ protectedFiles d) as Hfd' by (by rewrite Hpf).
  destruct (decide (Filename fd ∈ needsWrite plan)) as [Hin|Hni]; [by apply Hall|].
  apply planRepair_needsWrite in Hplan.
  destruct (buildNeedsWrite_spec d _ fd Hplan Hfd') as (s & Hs & Hn).
  destruct (H2 fd Hfd) as (s' & Hs' & [Hc Hv _ _]). assert (s' = s) as -> by congruence.
  unfold verified. destruct (pi_files _ _ _ _ Hpi fd Hfd') as [->|Hok]; [|exact Hok].
  apply Hv. destruct (Damage s) eqn:Hd; try done; destruct Hni; apply Hn;
    unfold needs_write, needsRebuild; by rewrite Hd.
Qed.

Lemma pipeline_outcome root d plan coder n :
  renaming src root0 d0 root d → planRepair env d n = Ok plan →
  let run := run_pipeline env tb b d plan coder (no_handles root) in
  outcome (close env run.1) run.2.
Proof.
  intros Hr Hplan. cbv zeta.
  assert (protectedFiles d = protectedFiles d0) as Hpf by (by rewrite (rn_same _ _ _ _ _ Hr)).
  assert (triple (pipe_ok env root) (run_pipeline env tb b d plan coder)
    (λ _, installed env d plan root) (partly_installed env d root)) as Hspec.
  { apply run_pipeline_spec; by rewrite Hpf. }
  generalize dependent (run_pipeline env tb b d plan coder). intros m Hspec.
  pose proof (no_handles_ok env root) as H0.
  eapply close_outcome; [exact Hr| |].
  - eapply triple_state; [exact Hspec| |exact H0]. by intros [] p [Hp _].
  - intros Hok fd Hfd. eapply installed_verified; [done|done| |done].
    exact (triple_ok _ _ _ _ _ tt Hspec H0 Hok).
Qed.

Lemma Repair_outcome d root' d' r :
  renaming src root0 d0 root0 d → Repair env tb b root0 d = (root', d', r) → outcome root' r.
Proof.
  intros Hr. unfold Repair.
  destruct (renameMisnamedFiles_ok env src root0 d0 Hids Hnames Hsrc d Hr) as [[[root1 d1] n] Hrun].
  rewrite Hrun. apply (renameMisnamedFiles_renaming env src root0 d0 Hids Hnames Hsrc) in Hrun; [|done].
  cbv zeta. destruct (RepairNeeded (shardCountsLocked d1)) eqn:Hn; cbn [negb].
  2:{ intros [= <- <- <-]. by eapply renaming_healthy. }
  destruct (negb _); [intros [= <- <- <-]; by eapply renaming_outcome|].
  destruct (planRepair env d1 n) as [plan| |] eqn:Hplan;
    [|intros [= <- <- <-]; by eapply renaming_outcome..].
  destruct (newRepairPipeline tb plan) as [coder| |];
    [|intros [= <- <- <-]; by eapply renaming_outcome..].
  pose proof (pipeline_outcome root1 d1 plan coder n Hrun Hplan) as Hout.
  cbv zeta in Hout. destruct (run_pipeline _ _ _ _ _ _ _) as [p r']. by intros [= <- <- <-].
Qed.

End Outcome.
