(* ===== verification/RepairChunks.v ===== *)
(** * Blocks and chunks of a repair

    What the pipeline of src/par2/repair.go reads and writes, as arithmetic on
    byte lists: a chunk of a block is a window of it, a chunk of a parity row is
    the parity row of the chunks, what [WriteAt] leaves, which chunk holds a
    byte, and the flat list of blocks that the rows of the matrix stand for. *)

From stdpp Require Import gmap.
From S2P Require Import Prelude Gf16 Kernels Dispatch LinAlg Matrix ReedSolomon RsApply RsReconstruct.
From S2P Require Import Packet CrcTable Decoder DecoderFacts Blocks BlocksFacts Verify VerifyFacts Repair.
From S2P Require Import RepairFacts RepairSound.

(** ** Windows of padded reads *)

Lemma ReadAt_seg content off lo hi n :
  0 <= off → 0 <= lo <= hi → hi <= Z.of_nat n →
  ReadAt content (off + lo) (Z.to_nat (hi - lo)) = seg lo hi (ReadAt content off n).
Proof.
  intros H0 H1 H2. apply list_eq_same_length with (n := Z.to_nat (hi - lo)).
  - unfold seg. rewrite length_take, length_drop, ReadAt_length. lia.
  - by rewrite ReadAt_length.
  - intros k x y Hk. unfold seg. rewrite lookup_take_lt, lookup_drop by done.
    rewrite !ReadAt_lookup by lia.
    replace (Z.to_nat (off + lo) + k)%nat with (Z.to_nat off + (Z.to_nat lo + k))%nat by lia.
    congruence.
Qed.

(** ** Chunks of parity rows *)

Lemma to_words_take n l : to_words (take (2 * n) l) = take n (to_words l).
Proof.
  revert n. pattern l. apply pairs_ind; [intros [|n]; by rewrite ?take_nil|intros a [|[|n]]; done|].
  intros a b l' IH [|n]; [done|]. replace (2 * S n)%nat with (S (S (2 * n))) by lia.
  cbn [take to_words]. by rewrite IH.
Qed.

Lemma to_words_drop n l : to_words (drop (2 * n) l) = drop n (to_words l).
Proof.
  revert n. pattern l. apply pairs_ind; [intros [|n]; by rewrite ?drop_nil| |].
  - intros a [|n]; [done|]. by rewrite drop_ge by (simpl; lia).
  - intros a b l' IH [|n]; [done|]. replace (2 * S n)%nat with (S (S (2 * n))) by lia.
    cbn [drop to_words]. by rewrite IH.
Qed.

Lemma of_words_take n ws : of_words (take n ws) = take (2 * n) (of_words ws).
Proof.
  revert ws. induction n as [|n IH]; intros [|w ws]; rewrite ?take_nil; try done.
  replace (2 * S n)%nat with (S (S (2 * n))) by lia. cbn. by rewrite IH.
Qed.

Lemma of_words_drop n ws : of_words (drop n ws) = drop (2 * n) (of_words ws).
Proof.
  revert ws. induction n as [|n IH]; intros [|w ws]; rewrite ?drop_nil; try done.
  replace (2 * S n)%nat with (S (S (2 * n))) by lia. cbn. by rewrite IH.
Qed.

Lemma word_seg l lo hi q :
  0 <= lo → lo mod 2 = 0 → hi mod 2 = 0 → 0 <= q < (hi - lo) / 2 →
  word (seg lo hi l) q = word l (lo / 2 + q).
Proof.
  intros H0 Hlo Hhi Hq. unfold word, seg.
  replace (Z.to_nat (hi - lo)) with (2 * Z.to_nat ((hi - lo) / 2))%nat by dlia.
  replace (Z.to_nat lo) with (2 * Z.to_nat (lo / 2))%nat by dlia.
  rewrite to_words_take, to_words_drop, lookup_take_lt, lookup_drop by lia. do 2 f_equal. dlia.
Qed.

(** The parity of the chunks is the chunk of the parity. *)
Lemma product_row_seg f c L lo hi i D :
  0 <= lo <= hi → hi <= L → lo mod 2 = 0 → hi mod 2 = 0 → L mod 2 = 0 →
  product_row f c (hi - lo) i (seg lo hi <$> D) = seg lo hi (product_row f c L i D).
Proof.
  intros H1 H2 Hlo Hhi HL. unfold product_row, seg at 2.
  replace (Z.to_nat (hi - lo)) with (2 * Z.to_nat ((hi - lo) / 2))%nat by dlia.
  replace (Z.to_nat lo) with (2 * Z.to_nat (lo / 2))%nat by dlia.
  rewrite <- of_words_drop, <- of_words_take, <- fmap_drop, <- fmap_take. f_equal.
  apply list_eq_same_length with (n := Z.to_nat ((hi - lo) / 2)).
  - rewrite length_fmap, length_take, length_drop, range_length. dlia.
  - rewrite length_fmap, range_length. lia.
  - intros k x y Hk. rewrite !list_lookup_fmap, lookup_take_lt, lookup_drop by done.
    rewrite !range_lookup by dlia. cbn [fmap option_fmap option_map]. intros [= <-] [= <-].
    apply sum_ext. intros j _. f_equal. rewrite list_lookup_fmap.
    transitivity (word (seg lo hi (default [] (D !! Z.to_nat j))) (0 + Z.of_nat k)).
    { destruct (D !! Z.to_nat j); [done|]. cbn. unfold seg. by rewrite drop_nil, take_nil. }
    rewrite word_seg by (done || dlia). f_equal. dlia.
Qed.

(** ** Writing at an offset *)

Lemma write_at_inside content off bs k :
  0 <= off → (Z.to_nat off <= k < Z.to_nat off + length bs)%nat →
  write_at content off bs !! k = bs !! (k - Z.to_nat off)%nat.
Proof.
  intros H0 Hk. unfold write_at.
  rewrite lookup_app_r by (rewrite length_take; lia).
  rewrite lookup_app_r by (rewrite length_take, length_replicate; lia).
  rewrite length_take, length_replicate, lookup_app_l by lia. f_equal. lia.
Qed.

Lemma write_at_outside content off bs k :
  0 <= off → (k < length content)%nat →
  (k < Z.to_nat off ∨ Z.to_nat off + length bs <= k)%nat →
  write_at content off bs !! k = content !! k.
Proof.
  intros H0 Hk Hor. unfold write_at. destruct Hor as [Hlt|Hge].
  - rewrite lookup_app_l by (rewrite length_take; lia). by rewrite lookup_take_lt.
  - rewrite lookup_app_r by (rewrite length_take; lia).
    rewrite lookup_app_r by (rewrite length_take, length_replicate; lia).
    rewrite length_take, length_replicate, lookup_app_r by lia.
    rewrite lookup_drop. f_equal. lia.
Qed.

(** A file that agrees with [content], read to its length and truncated. *)
Lemma Truncate_agrees content x :
  (∀ k y, content !! k = Some y → x !! k = Some y) → Truncate x (len content) = content.
Proof.
  intros H. unfold Truncate, len. rewrite Nat2Z.id.
  assert (length content <= length x)%nat as Hl.
  { destruct (decide (length content = 0%nat)) as [->|Hn]; [lia|].
    destruct (lookup_lt_is_Some_2 content (length content - 1)) as [y Hy]; [lia|].
    apply H, lookup_lt_Some in Hy. lia. }
  replace (length content - length x)%nat with 0%nat by lia. rewrite app_nil_r.
  apply list_eq_same_length with (n := length content); [done|rewrite length_take; lia|].
  intros k a b Hk. rewrite lookup_take_lt by done. intros Ha Hb. apply H in Hb. congruence.
Qed.

(** ** The chunks of a slice *)

Section Chunks.
Context (d : Decoder) (plan : repairPlan).
Let c := chunkSize plan.
Let s := sliceByteCount d.
Hypothesis (Hc : 0 < c) (Hs : 0 < s).
Hypothesis (Hn : plan_numChunks plan = Z.quot (s + c - 1) c).

Lemma chunk_bounds i : 0 <= i < plan_numChunks plan →
  0 < currChunkSize d plan i <= c ∧
  i * c + currChunkSize d plan i = (if i =? plan_numChunks plan - 1 then s else (i + 1) * c) ∧
  i * c + currChunkSize d plan i <= s.
Proof.
  intros Hi. rewrite Z.quot_div_nonneg in Hn by lia. unfold currChunkSize. fold c s.
  pose proof (Z.div_mod (s + c - 1) c ltac:(lia)) as Hdiv. rewrite <- Hn in Hdiv.
  pose proof (Z.mod_pos_bound (s + c - 1) c ltac:(lia)) as Hrem.
  destruct (Z.eqb_spec i (plan_numChunks plan - 1)) as [->|]; nia.
Qed.

Lemma numChunks_pos : 0 < plan_numChunks plan.
Proof.
  rewrite Z.quot_div_nonneg in Hn by lia.
  pose proof (Z.div_mod (s + c - 1) c ltac:(lia)) as Hdiv. rewrite <- Hn in Hdiv.
  pose proof (Z.mod_pos_bound (s + c - 1) c ltac:(lia)) as Hrem. nia.
Qed.

(** Every byte of the slice is in a chunk. *)
Lemma chunk_cover k : 0 <= k < s →
  ∃ i, 0 <= i < plan_numChunks plan ∧ i * c <= k < i * c + currChunkSize d plan i.
Proof.
  intros Hk. pose proof Hn as Hn'. rewrite Z.quot_div_nonneg in Hn' by lia.
  pose proof (Z.div_mod (s + c - 1) c ltac:(lia)) as Hdiv. rewrite <- Hn' in Hdiv.
  pose proof (Z.mod_pos_bound (s + c - 1) c ltac:(lia)) as Hrem.
  pose proof (Z.div_mod k c ltac:(lia)) as Hkd.
  pose proof (Z.mod_pos_bound k c ltac:(lia)) as Hkm.
  assert (0 <= k / c) by (apply Z.div_pos; lia).
  assert (0 <= k / c < plan_numChunks plan) as Hi by nia.
  exists (k / c). split; [done|].
  destruct (chunk_bounds (k / c) Hi) as (Hb & He & _). rewrite He.
  destruct (Z.eqb_spec (k / c) (plan_numChunks plan - 1)); nia.
Qed.

Lemma chunk_even i : c mod 2 = 0 → s mod 2 = 0 → 0 <= i < plan_numChunks plan →
  (i * c) mod 2 = 0 ∧ (i * c + currChunkSize d plan i) mod 2 = 0.
Proof.
  intros H1 H2 Hi. destruct (chunk_bounds i Hi) as (_ & -> & _).
  split; [|destruct (_ =? _); [done|]]; rewrite Zmult_mod, H1, Z.mul_0_r; done.
Qed.
End Chunks.

(** ** The flat list of blocks *)

(** The blocks of [content] in [n] slices of [bs] bytes, padded with zeros. *)
Definition blocks_of (bs : Z) (content : list Z) (n : Z) : list (list Z) :=
  (λ i, block_at bs content (Z.of_nat i * bs)) <$> seq 0 (Z.to_nat n).

(** The data shards of the set: the blocks of the files, in order. [orig] gives
    the contents of each name. *)
Definition data_blocks (bs : Z) (orig : list Z → list Z) (fds : list FileDescPacket) :
    list (list Z) :=
  mjoin ((λ fd, blocks_of bs (orig (Filename fd)) (shard_count (ByteCount fd) bs)) <$> fds).

Definition locations (d : Decoder) (fd : FileDescPacket) : list shardLocation :=
  match fileIntegrity d !! fd_FileID fd with Some s => ShardLocations s | None => [] end.

Definition flat_locations (d : Decoder) (m : gmap FileID (list Z)) (fds : list FileDescPacket) :
    list flattenedLocation :=
  mjoin ((λ fd, flat_loc m fd <$> indexed (locations d fd)) <$> fds).

(** The block that a row of the matrix stands for. *)
Definition row_block (bs : Z) (orig : list Z → list Z) (fl : flattenedLocation) : list Z :=
  block_at bs (orig (targetFilename fl)) (fl_shardIndex fl * bs).

Definition has_states (d : Decoder) : Prop :=
  ∀ fd, fd ∈ protectedFiles d → is_Some (fileIntegrity d !! fd_FileID fd).

Lemma has_states_get d fd : has_states d → fd ∈ protectedFiles d →
  ∃ s, get_state (fd_FileID fd) d = Ok s ∧ fileIntegrity d !! fd_FileID fd = Some s ∧
       locations d fd = ShardLocations s.
Proof.
  intros H Hfd. destruct (H fd Hfd) as [s Hs]. exists s.
  split; [by apply get_state_inv|]. unfold locations. by rewrite Hs.
Qed.

Lemma buildFlatLocs_ok d m :
  has_states d → buildFlatLocs d m = Ok (flat_locations d m (protectedFiles d)).
Proof.
  intros H. unfold buildFlatLocs, flat_locations.
  assert (∀ fds flat, (∀ fd, fd ∈ fds → fd ∈ protectedFiles d) →
    foldM (λ flat f, state ← get_state (fd_FileID f) d;
             Ok (flat ++ (flat_loc m f <$> indexed (ShardLocations state)))) flat fds =
    Ok (flat ++ mjoin ((λ fd, flat_loc m fd <$> indexed (locations d fd)) <$> fds))) as Hgen.
  { induction fds as [|fd fds IH]; intros flat Hfds; cbn [foldM].
    - cbn. by rewrite app_nil_r.
    - destruct (has_states_get d fd H) as (s & -> & _ & Hl); [apply Hfds, list_elem_of_here|].
      cbn [mbind result_bind]. rewrite IH by (intros; apply Hfds; by apply elem_of_cons; right).
      rewrite fmap_cons, Hl. cbn [mjoin list_join]. by rewrite <- app_assoc. }
  by rewrite Hgen.
Qed.

Lemma count_shards_ok d m :
  has_states d → count_shards d = Ok (len (flat_locations d m (protectedFiles d))).
Proof.
  intros H. unfold count_shards, flat_locations.
  assert (∀ fds n, (∀ fd, fd ∈ fds → fd ∈ protectedFiles d) →
    foldM (λ n f, state ← get_state (fd_FileID f) d; Ok (n + len (ShardLocations state))) n fds =
    Ok (n + len (mjoin ((λ fd, flat_loc m fd <$> indexed (locations d fd)) <$> fds)))) as Hgen.
  { induction fds as [|fd fds IH]; intros n Hfds; cbn [foldM].
    - cbn. by rewrite Z.add_0_r.
    - destruct (has_states_get d fd H) as (s & -> & _ & Hl); [apply Hfds, list_elem_of_here|].
      cbn [mbind result_bind]. rewrite IH by (intros; apply Hfds; by apply elem_of_cons; right).
      rewrite fmap_cons, Hl. cbn [mjoin list_join]. unfold len.
      rewrite length_app, length_fmap. unfold indexed. rewrite length_zip, length_seq. by rewrite Nat.min_id, Nat2Z.inj_add, Z.add_assoc. }
  by rewrite Hgen.
Qed.

Lemma flat_locations_elem d m fds fl :
  fl ∈ flat_locations d m fds ↔
  ∃ fd i loc, fd ∈ fds ∧ locations d fd !! i = Some loc ∧ fl = flat_loc m fd (i, loc).
Proof.
  unfold flat_locations. rewrite list_elem_of_join. split.
  - intros (l & Hfl & (fd & -> & Hfd)%list_elem_of_fmap).
    apply list_elem_of_fmap in Hfl as ([i loc] & -> & Hin). exists fd, i, loc.
    split; [done|]. split; [|done]. apply list_elem_of_lookup in Hin as [k Hk].
    apply lookup_zip_Some in Hk as [Hi Hl]. apply lookup_seq in Hi as [-> _]. done.
  - intros (fd & i & loc & Hfd & Hl & ->). eexists. split; [|by apply list_elem_of_fmap_2].
    apply list_elem_of_fmap_2, list_elem_of_lookup. exists i. apply lookup_zip_Some.
    split; [|done]. apply lookup_lt_Some in Hl. by rewrite lookup_seq_lt.
Qed.

(** The rows stand for the data blocks. *)
Lemma data_blocks_rows d m bs orig fds :
  (∀ fd, fd ∈ fds → length (locations d fd) = Z.to_nat (shard_count (ByteCount fd) bs)) →
  data_blocks bs orig fds = row_block bs orig <$> flat_locations d m fds.
Proof.
  induction fds as [|fd fds IH]; intros Hl; [done|]. unfold data_blocks, flat_locations.
  rewrite !fmap_cons. cbn [mjoin list_join]. rewrite fmap_app. f_equal.
  - unfold blocks_of. rewrite <- Hl by apply list_elem_of_here.
    rewrite <- list_fmap_compose. unfold indexed.
    rewrite <- (fst_zip (seq 0 (length (locations d fd))) (locations d fd)) at 1
      by (by rewrite length_seq). rewrite <- list_fmap_compose.
    apply list_fmap_ext. by intros _ [i loc] _.
  - apply IH. intros fd' Hfd'. apply Hl. by apply elem_of_cons; right.
Qed.

(** ** Which rows are there *)

(** The rows of the matrix with a located block. *)
Definition rows_there (fls : list flattenedLocation) : list shard :=
  (λ fl, if diskOffset fl =? -1 then None else Some []) <$> fls.

(** The recovery blocks by exponent. *)
Definition parity_rows (d : Decoder) (p : Z) : list shard :=
  (λ k, Decoder.parityShards d !! k) <$> range 0 p.

(** Shards of other contents. *)
Definition map_shards (g : list Z → list Z) (l : list shard) : list shard :=
  (λ sh : shard, g <$> sh) <$> l.

Lemma map_shards_length g l : length (map_shards g l) = length l.
Proof. apply length_fmap. Qed.

Lemma absent_fmap (g : list Z → list Z) (is_ : list Z) (l : list shard) :
  absent (zip is_ (map_shards g l)) = absent (zip is_ l).
Proof.
  revert is_. induction l as [|[v|] l IH]; intros [|i is_]; cbn; try done; rewrite IH; done.
Qed.

Lemma present_fmap (g : list Z → list Z) (is_ : list Z) (l : list shard) :
  present (zip is_ (map_shards g l)) = (λ ib, (ib.1, g ib.2)) <$> present (zip is_ l).
Proof.
  revert is_. induction l as [|[v|] l IH]; intros [|i is_]; cbn; try done; rewrite IH; done.
Qed.

Lemma missing_of_fmap g data : missing_of (map_shards g data) = missing_of data.
Proof. unfold missing_of, ReedSolomon.indexed. rewrite map_shards_length. apply absent_fmap. Qed.

Lemma used_of_fmap g h data parity :
  used_of (map_shards g data) (map_shards h parity) = used_of data parity.
Proof.
  unfold used_of. rewrite missing_of_fmap. unfold ReedSolomon.indexed. rewrite map_shards_length.
  rewrite present_fmap, <- fmap_take, <- list_fmap_compose. done.
Qed.

Lemma present_count_fmap h parity :
  length (present (ReedSolomon.indexed (map_shards h parity))) = length (present (ReedSolomon.indexed parity)).
Proof. unfold ReedSolomon.indexed. by rewrite map_shards_length, present_fmap, length_fmap. Qed.

Lemma missing_of_count fls :
  len (missing_of (rows_there fls)) = len (filter (λ fl, diskOffset fl = -1) fls).
Proof.
  unfold missing_of, ReedSolomon.indexed, rows_there, len. rewrite length_fmap. f_equal.
  assert (∀ is_ : list Z, length is_ = length fls →
    length (absent (zip is_ ((λ fl, if diskOffset fl =? -1 then None else Some []) <$> fls))) =
    length (filter (λ fl, diskOffset fl = -1) fls)) as H.
  { induction fls as [|fl fls IH]; intros [|i is_] Hl; try done. cbn in Hl.
    rewrite fmap_cons, filter_cons. cbn [zip zip_with].
    destruct (Z.eqb_spec (diskOffset fl) (-1)); destruct (decide (diskOffset fl = -1)); try done;
      unfold absent in *; cbn; rewrite IH by lia; done. }
  apply H. rewrite range_length. lia.
Qed.

Lemma present_parity_rows d p :
  present (ReedSolomon.indexed (parity_rows d p)) =
  omap (λ k, pair k <$> Decoder.parityShards d !! k) (range 0 p).
Proof.
  unfold ReedSolomon.indexed, parity_rows, present. rewrite length_fmap, range_length.
  assert (range 0 (Z.of_nat (Z.to_nat (p - 0))) = range 0 p) as ->.
  { unfold range. f_equal. lia. }
  induction (range 0 p) as [|k l IH]; [done|]. cbn. by rewrite IH.
Qed.

Lemma present_parity_count d p :
  map_Forall (λ k _, 0 <= k < p) (Decoder.parityShards d) →
  length (present (ReedSolomon.indexed (parity_rows d p))) = size (Decoder.parityShards d).
Proof.
  intros Hk. rewrite present_parity_rows. set (m := Decoder.parityShards d) in *.
  rewrite <- length_map_to_list. apply Permutation_length, NoDup_Permutation.
  - assert (∀ l : list Z, NoDup l → NoDup (omap (λ k, pair k <$> m !! k) l)) as Hnd; [|apply Hnd, range_NoDup].
    induction 1 as [|k l Hni Hnd IH]; [constructor|]. cbn.
    destruct (m !! k); cbn; [|done]. constructor; [|done].
    rewrite list_elem_of_omap. intros (k' & Hin & Hk'). destruct (m !! k'); [|done].
    cbn in Hk'. congruence.
  - apply NoDup_map_to_list.
  - intros [k v]. rewrite elem_of_map_to_list, list_elem_of_omap. split.
    + intros (k' & _ & Hk'). destruct (m !! k') as [v'|] eqn:Hv; [|done]. cbn in Hk'. congruence.
    + intros Hv. exists k. rewrite elem_of_range, Hv. split; [|done]. by apply (Hk k v).
Qed.

(** Recovery blocks of consecutive exponents are the rows from the first on. *)
Lemma present_consecutive d p k0 :
  (∀ k, is_Some (Decoder.parityShards d !! k) ↔
        k0 <= k < k0 + Z.of_nat (size (Decoder.parityShards d))) →
  0 <= k0 → k0 + Z.of_nat (size (Decoder.parityShards d)) <= p →
  fst <$> present (ReedSolomon.indexed (parity_rows d p)) =
  range k0 (k0 + Z.of_nat (size (Decoder.parityShards d))).
Proof.
  intros Hk H0 Hp. rewrite present_parity_rows. set (m := Decoder.parityShards d) in *.
  set (hi := k0 + Z.of_nat (size m)) in *.
  rewrite (range_app 0 k0 p), (range_app k0 hi p) by lia. rewrite !omap_app.
  assert (∀ l : list Z, (∀ k, k ∈ l → ¬ k0 <= k < hi) → omap (λ k, pair k <$> m !! k) l = []) as Hnone.
  { induction l as [|k l IH]; intros Hl; [done|]. cbn.
    destruct (m !! k) as [v|] eqn:Hv; cbn.
    - destruct (Hl k (list_elem_of_here _ _)). apply Hk. by exists v.
    - apply IH. intros. apply Hl. by apply elem_of_cons; right. }
  assert (∀ l : list Z, (∀ k, k ∈ l → k0 <= k < hi) → fst <$> omap (λ k, pair k <$> m !! k) l = l) as Hsome.
  { induction l as [|k l IH]; intros Hl; [done|]. cbn.
    destruct (proj2 (Hk k) (Hl k (list_elem_of_here _ _))) as [v Hv]. rewrite Hv. cbn.
    f_equal. apply IH. intros. apply Hl. by apply elem_of_cons; right. }
  rewrite (Hnone (range 0 k0)), (Hnone (range hi p)), app_nil_r by (intros k ?%elem_of_range; lia).
  apply Hsome. intros k ?%elem_of_range. lia.
Qed.

(** The states are those of the protected files. *)
Definition only_states (d : Decoder) : Prop :=
  ∀ id s, fileIntegrity d !! id = Some s → id ∈ fd_FileID <$> protectedFiles d.

Lemma missing_count d m :
  NoDup (fd_FileID <$> protectedFiles d) → has_states d → only_states d →
  UnusableDataShardCount (shardCountsLocked d) =
  len (missing_of (rows_there (flat_locations d m (protectedFiles d)))).
Proof.
  intros Hnd Hall Honly. rewrite shardCounts_spec, missing_of_count. cbn [UnusableDataShardCount].
  assert (sum_states missing_locs (fileIntegrity d) =
    foldr (λ fd n, of_file missing_locs d fd + n) 0 (protectedFiles d)) as ->.
  { apply sum_states_files; [done| |exact Honly]. intros fd Hfd. by destruct (Hall fd Hfd) as [s Hs]; eexists. }
  clear Hnd Honly. unfold flat_locations, of_file, locations. unfold has_states in Hall. revert Hall. generalize (protectedFiles d).
  induction l as [|fd fds IH]; intros Hall; [done|]. cbn [foldr].
  rewrite IH by (intros; apply Hall; by apply elem_of_cons; right). rewrite fmap_cons.
  cbn [mjoin list_join]. rewrite filter_app. unfold len. rewrite length_app, Nat2Z.inj_add. f_equal.
  destruct (Hall fd (list_elem_of_here _ _)) as [s ->]. unfold missing_locs, len, indexed. f_equal.
  generalize 0%nat. induction (ShardLocations s) as [|loc locs IH']; intros i; [done|].
  cbn [length seq zip zip_with]. rewrite fmap_cons, !filter_cons. cbn [flat_loc diskOffset].
  destruct (decide (Offset loc = -1)); cbn [length]; by rewrite (IH' (S i)).
Qed.
