(* ===== verification/RepairRun.v ===== *)
(** * The pipeline runs to its end

    Strong triples for the operations of src/par2/repair.go: on a system that
    refuses nothing, from located blocks and recovery blocks that are right, the
    pipeline writes every byte of every file it rebuilds as it was, and installs
    them, unless the matrix of the missing rows is singular. *)

From stdpp Require Import gmap.
From S2P Require Import Prelude Gf16 Kernels Dispatch LinAlg Matrix ReedSolomon RsApply RsReconstruct.
From S2P Require Import Md5 Packet CrcTable Decoder DecoderFacts Blocks BlocksFacts Verify VerifyFacts Repair.
From S2P Require Import RepairFacts RepairSound RepairChunks.

(** ** Strong triples *)

(** From a state with [P], [m] returns some [a] in a state with [Q a], or fails
    with an error that [X] allows; it never panics. *)
Definition runs {A} (X : string → Prop) (P : pipeline → Prop) (m : M A) (Q : A → pipeline → Prop) : Prop :=
  ∀ p, P p → match m p with (p', Ok a) => Q a p' | (_, Err e) => X e | (_, Panic _) => False end.

(** The pipeline as it is made. *)
Definition pipe_start (root : Root) (q : pipeline) : Prop := q = no_handles root.

Section Rules.
Context (X : string → Prop).

Lemma runs_bind {A B} P (m : M A) (f : A → M B) Q R :
  runs X P m Q → (∀ a, runs X (Q a) (f a) R) → runs X P (m ≫= f) R.
Proof.
  intros Hm Hf p Hp. specialize (Hm p Hp). unfold mbind, M_bind.
  destruct (m p) as [p' [a|e|e]]; [by apply Hf|done..].
Qed.

Lemma runs_ret {A} (a : A) (P : pipeline → Prop) (Q : A → pipeline → Prop) :
  (∀ p, P p → Q a p) → runs X P (mret a) Q.
Proof. intros H p Hp. by apply H. Qed.

Lemma runs_conseq {A} (P P' : pipeline → Prop) (m : M A) (Q Q' : A → pipeline → Prop) :
  runs X P' m Q' → (∀ p, P p → P' p) → (∀ a p, Q' a p → Q a p) → runs X P m Q.
Proof.
  intros Hm HP HQ p Hp. specialize (Hm p (HP p Hp)). destruct (m p) as [p' [a|e|e]]; auto.
Qed.

Lemma runs_lift {A} (r : result A) (P : pipeline → Prop) (Q : A → pipeline → Prop) :
  (∃ a, r = Ok a ∧ ∀ p, P p → Q a p) ∨ (∃ e, r = Err e ∧ X e) → runs X P (lift r) Q.
Proof. intros [(a & -> & H)|(e & -> & H)] p Hp; [by apply H|done]. Qed.

Lemma runs_check b e (P : pipeline → Prop) : b = true → runs X P (check b e) (λ _, P).
Proof. intros -> p Hp. exact Hp. Qed.

Lemma runs_gets {A} (f : pipeline → A) P : runs X P (gets f) (λ a p, a = f p ∧ P p).
Proof. by intros p Hp. Qed.

Lemma runs_modify f (P Q : pipeline → Prop) : (∀ p, P p → Q (f p)) → runs X P (modify f) (λ _, Q).
Proof. intros H p Hp. by apply H. Qed.

Lemma runs_forM {A} (f : A → M unit) (l : list A) (I : list A → pipeline → Prop) :
  (∀ done x l', l = done ++ x :: l' → runs X (I done) (f x) (λ _, I (done ++ [x]))) →
  runs X (I []) (forM f l) (λ _, I l).
Proof.
  intros H. assert (∀ done l', l = done ++ l' → runs X (I done) (forM f l') (λ _, I l)) as Hgen.
  { intros done l'. revert done. induction l' as [|x l' IH]; intros done Hl.
    - rewrite app_nil_r in Hl. subst l. by intros p Hp.
    - cbn [forM]. eapply runs_bind; [by apply (H done x l')|]. intros u. cbv beta.
      apply IH. by rewrite <- app_assoc. }
  by apply Hgen.
Qed.

(** Operations with an answer known beforehand, which keep [P]. *)
Lemma runs_mapM {A B} P (f : A → M B) (g : A → B) l :
  (∀ x, x ∈ l → runs X P (f x) (λ a p, a = g x ∧ P p)) →
  runs X P (mapM f l) (λ a p, a = g <$> l ∧ P p).
Proof.
  induction l as [|x l IH]; intros H; [by intros p Hp|]. cbn [mapM].
  eapply runs_bind; [apply H, list_elem_of_here|]. intros y p [-> Hp].
  revert p Hp. change (runs X P (k ← mapM f l; mret (g x :: k)) (λ a p, a = g <$> x :: l ∧ P p)).
  eapply runs_bind; [apply IH; intros; apply H; by apply elem_of_cons; right|].
  intros k p [-> Hp]. by split.
Qed.
End Rules.

Lemma mapM_ok {A B} (f : A → result B) (g : A → B) l :
  (∀ x, x ∈ l → f x = Ok (g x)) → mapM f l = Ok (g <$> l).
Proof.
  induction l as [|x l IH]; intros H; [done|]. cbn [mapM]. rewrite H by apply list_elem_of_here.
  cbn [mbind result_bind]. rewrite IH; [done|]. intros. apply H. by apply elem_of_cons; right.
Qed.

(** ** A system that refuses nothing *)

Record obliging (env : Env) : Prop := {
  ob_mkdir : ∀ t, mkdir_ok env t = true;
  ob_rename : ∀ t t', rename_ok env t t' = true;
  ob_rand : ∀ t, length (rand_text env t) = 16%nat;
  ob_create : ∀ t, create_ok env t = true;
  ob_write : ∀ t off, write_ok env t off = true;
  ob_truncate : ∀ t, truncate_ok env t = true;
  ob_sync : ∀ t, sync_ok env t = true;
  ob_hash : ∀ t, hash_ok env t = true;
  ob_close : ∀ t, close_ok env t = true;
  ob_stat : ∀ t, stat_ok env t = true;
  ob_chmod : ∀ t, chmod_ok env t = true;
  ob_polls : ∀ i, chunk_polls env i = false;
  ob_before : ∀ i, ReedSolomon.before (rs_ctx env i) = None;
  ob_after : ∀ i, after (rs_ctx env i) = None;
  ob_sticky : ∀ i, ctx_sticky (rs_ctx env i);
  ob_goroutines : 1 <= default_goroutines env
}.

Lemma temp_name_inj env t1 t2 :
  obliging env → temp_name env t1 = temp_name env t2 → t1 = t2.
Proof.
  intros Hob He. unfold temp_name in He. apply app_inj_2 in He as [? _]; [done|].
  by rewrite !length_app, !(ob_rand env Hob).
Qed.

Section Run.
Context (env : Env) (Hob : obliging env).
Context (tb : tables) `{!TablesReady tb} `{VK : !VectorKernels} `{!VectorKernelsOk tb VK} (b : build).
Context (root : Root) (d : Decoder) (plan : repairPlan) (orig : list Z → list Z).

Let s := sliceByteCount d.
Let c := chunkSize plan.
Let fls := flatLocs plan.
Let n := len fls.
Let p := totalParityShards plan.
Let D := row_block s orig <$> fls.

Hypothesis (Hs : 0 < s) (Hse : s mod 2 = 0) (Hc : 0 < c) (Hce : c mod 2 = 0).
Hypothesis (Hn : plan_numChunks plan = Z.quot (s + c - 1) c).
Hypothesis (Hrows : 0 < n <= 32768) (Hparity : 0 < p <= 65535).
Hypothesis (Hindex : ∀ fl, fl ∈ fls → 0 <= fl_shardIndex fl).
Hypothesis (Horig : ∀ t, bytes (orig t)).
(** A located block is where the plan says. *)
Hypothesis (Hlocated : ∀ fl, fl ∈ fls → diskOffset fl ≠ -1 →
  0 <= diskOffset fl ∧ ∃ data, root !! sourceFilename fl = Some (Contents data) ∧
    block_at s data (diskOffset fl) = row_block s orig fl).
(** A recovery block is the parity of the data. *)
Hypothesis (Hrecovery : ∀ k bs, Decoder.parityShards d !! k = Some bs →
  bs = product_row vandermonde n s k D).
Hypothesis (Htemps : ∀ t, root !! temp_name env t = None).

Context (mx : Matrix) (Hmx : mrel p n mx vandermonde).
Let coder := mkCoder n p mx.

Let lost := missing_of (rows_there fls).
Let used := used_of (rows_there fls) (parity_rows d p).
Hypothesis (Henough : (length lost <= length (present (ReedSolomon.indexed (parity_rows d p))))%nat).
Hypothesis (Hsched : ∀ i, 0 <= i < plan_numChunks plan →
  complete_schedule
    (perGoroutineSplit b (currChunkSize d plan i) (numGoroutines' (default_goroutines env) (numGoroutines d)))
    (currChunkSize d plan i) (calls_of (rs_ctx env i) n (len lost)) (rs_schedule env i)).

(** The only error. *)
Definition singular (e : string) : Prop :=
  e = "singular matrix"%string ∧ kernel_nonzero (len lost) (missing_matrix lost used).

(** ** A chunk of the data *)

Let lo i := i * c.
Let hi i := i * c + currChunkSize d plan i.

Definition chunk_of_row (i : Z) (fl : flattenedLocation) : list Z :=
  seg (i * chunkSize plan) (i * chunkSize plan + currChunkSize d plan i)
    (row_block (sliceByteCount d) orig fl).

Lemma row_block_length fl : len (row_block s orig fl) = s.
Proof. unfold row_block, block_at, len. rewrite ReadAt_length. lia. Qed.

Lemma row_block_bytes fl : bytes (row_block s orig fl).
Proof. apply ReadAt_bytes, Horig. Qed.

Lemma chunk_window i : 0 <= i < plan_numChunks plan →
  0 <= lo i <= hi i ∧ hi i <= s ∧ 0 < hi i - lo i ∧ lo i mod 2 = 0 ∧ hi i mod 2 = 0 ∧
  hi i - lo i = currChunkSize d plan i ∧ (hi i - lo i) mod 2 = 0.
Proof.
  intros Hi. destruct (chunk_bounds d plan Hc Hs Hn i Hi) as (H1 & _ & H3).
  destruct (chunk_even d plan Hc Hs Hn i Hce Hse Hi) as [He1 He2].
  unfold lo, hi. fold c in H1, H3, He1, He2. fold s in H3. split; [nia|]. split; [done|]. split; [lia|].
  split; [done|]. split; [done|]. split; [lia|]. rewrite Zminus_mod, He1, He2. done.
Qed.

Lemma chunk_of_row_length i fl : 0 <= i < plan_numChunks plan →
  len (chunk_of_row i fl) = currChunkSize d plan i.
Proof.
  intros Hi. destruct (chunk_window i Hi) as (H1 & H2 & _ & _ & _ & H6 & _).
  unfold chunk_of_row, len. fold c s (lo i) (hi i).
  pose proof (row_block_length fl) as Hl. unfold len in Hl. rewrite seg_length; lia.
Qed.

Lemma parity_length k bs : Decoder.parityShards d !! k = Some bs → len bs = s.
Proof. intros H. rewrite (Hrecovery k bs H). apply (product_row_length s Hse ltac:(lia) []). Qed.

(** The shards of chunk [i]: what is read, what the recovery blocks hold, and the
    data they are a part of. *)
Definition chunk_read (i : Z) (fl : flattenedLocation) : shard :=
  if diskOffset fl =? -1 then None else Some (chunk_of_row i fl).

Lemma parity_shard_ok i k : 0 <= i < plan_numChunks plan →
  parity_shard d plan i k = Ok (seg (lo i) (hi i) <$> Decoder.parityShards d !! k).
Proof.
  intros Hi. destruct (chunk_window i Hi) as (H1 & H2 & _). unfold parity_shard.
  destruct (Decoder.parityShards d !! k) as [bs|] eqn:Hk; [|done].
  pose proof (parity_length k bs Hk) as Hl. unfold len in Hl. 
  change (i * chunkSize plan) with (lo i). change (lo i + currChunkSize d plan i) with (hi i).
  by rewrite slice_at_ok by lia.
Qed.

Lemma chunk_data_of i : 0 <= i < plan_numChunks plan →
  data_of (chunk_of_row i <$> fls) (chunk_read i <$> fls).
Proof.
  intros Hi. split; [by rewrite !length_fmap|]. intros k bs. rewrite !list_lookup_fmap.
  destruct (fls !! k) as [fl|]; [|done]. cbn. unfold chunk_read. destruct (_ =? _); [done|].
  by intros [= <-].
Qed.

Lemma chunk_rows i : chunk_of_row i <$> fls = seg (lo i) (hi i) <$> D.
Proof. unfold D. rewrite <- list_fmap_compose. done. Qed.

Lemma chunk_parity_of i : 0 <= i < plan_numChunks plan →
  parity_of n p (hi i - lo i) (chunk_of_row i <$> fls) (map_shards (seg (lo i) (hi i)) (parity_rows d p)).
Proof.
  intros Hi. destruct (chunk_window i Hi) as (H1 & H2 & _ & H4 & H5 & _).
  split; [rewrite map_shards_length; unfold parity_rows; rewrite length_fmap, range_length; lia|].
  intros k bs. unfold map_shards, parity_rows. rewrite !list_lookup_fmap.
  destruct (range 0 p !! k) as [x|] eqn:Hx; [|done].
  pose proof (lookup_lt_Some _ _ _ Hx) as Hlt. rewrite range_length in Hlt.
  rewrite range_lookup in Hx by lia. injection Hx as <-. cbn [fmap option_fmap option_map].
  destruct (Decoder.parityShards d !! _) as [bs'|] eqn:Hk; [|done]. intros [= <-].
  rewrite (Hrecovery _ _ Hk), chunk_rows. symmetry. by apply product_row_seg.
Qed.

Lemma chunk_missing i : missing_of (chunk_read i <$> fls) = lost.
Proof.
  unfold lost. rewrite <- (missing_of_fmap (λ _, []) (chunk_read i <$> fls)). f_equal.
  unfold map_shards, rows_there. rewrite <- list_fmap_compose. apply list_fmap_ext.
  intros _ fl _. cbn. unfold chunk_read. by destruct (_ =? _).
Qed.

Lemma chunk_used i :
  used_of (chunk_read i <$> fls) (map_shards (seg (lo i) (hi i)) (parity_rows d p)) = used.
Proof.
  unfold used, used_of. rewrite chunk_missing.
  unfold ReedSolomon.indexed. rewrite map_shards_length, present_fmap.
  by rewrite <- fmap_take, <- list_fmap_compose.
Qed.

(** The reconstruction of a chunk. *)
Lemma Reconstruct_chunk i : 0 <= i < plan_numChunks plan →
  let r := Reconstruct tb b coder (rs_ctx env i) (rs_schedule env i) (default_goroutines env)
             (chunk_read i <$> fls) (map_shards (seg (lo i) (hi i)) (parity_rows d p)) (numGoroutines d) in
  r = Ok (Some <$> (chunk_of_row i <$> fls)) ∨ ∃ e, r = Err e ∧ singular e.
Proof.
  intros Hi. cbv zeta. destruct (chunk_window i Hi) as (H1 & H2 & H3 & H4 & H5 & H6 & H7).
  set (L := hi i - lo i) in *.
  assert (Forall bytes (chunk_of_row i <$> fls)) as Hb.
  { apply Forall_fmap, Forall_true. intros fl. apply seg_bytes, row_block_bytes. }
  assert (Forall (λ v, Z.of_nat (length v) = L) (chunk_of_row i <$> fls)) as HL.
  { apply Forall_fmap, Forall_true. intros fl. cbn.
    pose proof (chunk_of_row_length i fl Hi) as Hl. unfold len in Hl. rewrite Hl. by rewrite H6. }
  assert (Z.of_nat (length (chunk_of_row i <$> fls)) = n) as Hlen by (by rewrite length_fmap).
  destruct (decide (lost = [])) as [Hnil|Hne].
  - left. unfold coder. rewrite (Reconstruct_nothing_missing tb b n p mx Hrows L H7 ltac:(lia) _ Hlen HL _ _
      (chunk_data_of i Hi) (chunk_parity_of i Hi)); [|by apply ob_before|by rewrite chunk_missing].
    f_equal. eapply nothing_missing; [by apply chunk_data_of|by rewrite chunk_missing].
  - pose proof (Hsched i Hi) as Hsc. rewrite <- H6 in Hsc.
    destruct (Reconstruct_run tb b n p mx Hrows Hmx L H7 ltac:(lia) _ Hlen Hb HL _ _
      (chunk_data_of i Hi) (chunk_parity_of i Hi)) with (ctx := rs_ctx env i)
      (schedule := rs_schedule env i) (dflt := default_goroutines env) (n := numGoroutines d)
      as [Hr|[Hr Hk]]; rewrite ?chunk_missing; try done.
    + rewrite present_count_fmap. exact Henough.
    + by apply ob_before.
    + by apply ob_sticky.
    + by apply ob_goroutines.
    + left. rewrite (ob_after env Hob i) in Hr. exact Hr.
    + right. eexists. split; [exact Hr|]. split; [done|].
      rewrite chunk_missing, chunk_used in Hk. exact Hk.
Qed.

(** ** The writes *)

(** The byte of [t] at [k], with the padding of its last block. *)
Definition original (t : list Z) (k : nat) : Z := default 0 (orig t !! k).

(** Byte [k] of its file is in chunk [i] of the block of [fl]. *)
Definition covers (i : Z) (fl : flattenedLocation) (k : nat) : Prop :=
  fl_shardIndex fl * s + lo i <= Z.of_nat k < fl_shardIndex fl * s + hi i.

#[local] Instance covers_dec i fl k : Decision (covers i fl k).
Proof. unfold covers. apply _. Defined.

(** The state of the pipeline after the blocks in [done], as pairs of a chunk
    and a row, have been written. *)
Record working (done : list (Z * flattenedLocation)) (q : pipeline) : Prop := {
  wk_ok : pipe_ok env root q;
  wk_sources : ∀ name f, sources q !! name = Some f → root !! name = Some f;
  wk_temps : tempNames q = outputs q;
  wk_wanted : ∀ t, is_Some (outputs q !! t) → t ∈ needsWrite plan;
  wk_written : ∀ t tmp, outputs q !! t = Some tmp → ∃ x, fs q !! tmp = Some (Contents x) ∧
    ∀ i fl k, (i, fl) ∈ done → targetFilename fl = t → covers i fl k → x !! k = Some (original t k);
  wk_open : ∀ i fl, (i, fl) ∈ done → targetFilename fl ∈ needsWrite plan →
    is_Some (outputs q !! targetFilename fl)
}.

Lemma working_start : working [] (no_handles root).
Proof.
  split; [apply no_handles_ok|..]; cbn; try done.
  - intros t [x Hx]. by rewrite lookup_empty in Hx.
  - by intros i fl ?%elem_of_nil.
Qed.

Lemma chunk_of_row_lookup i fl k : 0 <= i < plan_numChunks plan → fl ∈ fls → covers i fl k →
  chunk_of_row i fl !! (k - Z.to_nat (fl_shardIndex fl * s + lo i))%nat =
  Some (original (targetFilename fl) k).
Proof.
  intros Hi Hfl Hk. destruct (chunk_window i Hi) as (H1 & H2 & _). pose proof (Hindex fl Hfl) as Hx.
  unfold covers in Hk. assert (0 <= fl_shardIndex fl * s) by nia.
  unfold chunk_of_row. change (i * chunkSize plan) with (lo i).
  change (lo i + currChunkSize d plan i) with (hi i). unfold seg.
  rewrite lookup_take_lt, lookup_drop by lia. unfold row_block, block_at. fold s.
  rewrite ReadAt_lookup by lia. unfold original. do 3 f_equal. lia.
Qed.

(** A source is the file that was there before the repair. *)
Lemma getSource_runs X done name f :
  root !! name = Some f → is_ok (Open root name) = true →
  runs X (working done) (getSource name) (λ a q, a = f ∧ working done q).
Proof.
  intros Hf Ho q Hq. unfold getSource. run. destruct (sources q !! name) as [f'|] eqn:Hs'.
  - split; [|done]. pose proof (wk_sources _ _ Hq _ _ Hs'). congruence.
  - run. assert (Open (fs q) name = Ok f) as ->.
    { assert (fs q !! name = root !! name) as Hsame.
      { apply (pk_outside _ _ _ (wk_ok _ _ Hq)). intros t Ht.
        destruct (pk_fresh _ _ _ (wk_ok _ _ Hq) _ _ Ht) as [_ Hnone]. congruence. }
      unfold Open in *. rewrite Hsame. rewrite Hf in *. by destruct f. }
    run. split; [done|]. destruct Hq as [H1 H2 H3 H4 H5 H6].
    split; fields; [by apply pipe_ok_set_sources| |done..].
    intros name' f'. destruct (decide (name = name')) as [<-|Hne].
    + rewrite lookup_insert_eq. by intros [= <-].
    + rewrite lookup_insert_ne by done. apply H2.
Qed.

Lemma read_shard_runs X done i fl : 0 <= i < plan_numChunks plan → fl ∈ fls →
  runs X (working done) (read_shard d plan i fl) (λ a q, a = chunk_read i fl ∧ working done q).
Proof.
  intros Hi Hfl. unfold read_shard, chunk_read. destruct (Z.eqb_spec (diskOffset fl) (-1)) as [|Hne].
  { by apply runs_ret. }
  destruct (Hlocated fl Hfl Hne) as (H0 & data & Hdata & Hblock).
  eapply runs_bind; [apply (getSource_runs X done _ _ Hdata); unfold Open; by rewrite Hdata|].
  intros f q [-> Hq]. run. split; [|done]. f_equal.
  destruct (chunk_window i Hi) as (H1 & H2 & _ & _ & _ & H6 & _).
  unfold chunk_of_row. fold s. rewrite <- Hblock. unfold block_at.
  change (i * chunkSize plan) with (lo i). change (lo i + currChunkSize d plan i) with (hi i).
  rewrite <- H6. apply ReadAt_seg; [done..|lia].
Qed.

(** The temp file of a wanted target. *)
Lemma getOutput_runs X done t : t ∈ needsWrite plan →
  runs X (working done) (getOutput env t) (λ tmp q, working done q ∧ outputs q !! t = Some tmp).
Proof.
  intros Ht q Hq. pose proof (getOutput_spec env root t q (wk_ok _ _ Hq)) as Hspec. revert Hspec.
  unfold getOutput. run. destruct (outputs q !! t) as [tmp|] eqn:Ho; [by split|].
  run. rewrite (ob_mkdir env Hob), (ob_create env Hob). cbn [andb]. run.
  assert (fs q !! temp_name env t = None) as Hfree.
  { rewrite (pk_outside _ _ _ (wk_ok _ _ Hq)); [apply Htemps|]. intros t' Ht'.
    destruct (pk_fresh _ _ _ (wk_ok _ _ Hq) _ _ Ht') as [He _].
    apply (temp_name_inj env t t' Hob) in He as <-. rewrite (wk_temps _ _ Hq) in Ht'. congruence. }
  rewrite bool_decide_eq_true_2 by done. run. intros [Hok _].
  destruct Hq as [H1 H2 H3 H4 H5 H6]. split; [|apply lookup_insert_eq].
  split; fields; [exact Hok|done|by rewrite H3| | |].
  - intros t' [x Hx]. destruct (decide (t = t')) as [<-|Hne]; [done|].
    rewrite lookup_insert_ne in Hx by done. apply H4. by eexists.
  - intros t' tmp. destruct (decide (t = t')) as [<-|Hne].
    + rewrite !lookup_insert_eq. intros [= <-]. rewrite lookup_insert_eq. exists []. split; [done|].
      intros i fl k Hin He _. destruct (H6 i fl Hin) as [y Hy]; [by rewrite He|]. congruence.
    + rewrite lookup_insert_ne by done. intros Htmp. rewrite lookup_insert_ne; [by apply H5|].
      intros Heq. rewrite Heq in Hfree. destruct (H5 _ _ Htmp) as (x & Hx & _). congruence.
  - intros i fl Hin Hw. destruct (decide (t = targetFilename fl)) as [<-|Hne].
    + rewrite lookup_insert_eq. by eexists.
    + rewrite lookup_insert_ne by done. by eapply H6.
Qed.

(** Writing the chunk of a row. *)
Lemma WriteAt_runs X done i fl tmp : 0 <= i < plan_numChunks plan → fl ∈ fls →
  runs X (λ q, working done q ∧ outputs q !! targetFilename fl = Some tmp)
    (WriteAt env (targetFilename fl) tmp (chunk_of_row i fl) (fl_shardIndex fl * s + lo i))
    (λ _, working (done ++ [(i, fl)])).
Proof.
  intros Hi Hfl q [Hq Ho]. unfold WriteAt. run. rewrite (ob_write env Hob). run.
  pose proof Hq as [H1 H2 H3 H4 H5 H6]. destruct (H5 _ _ Ho) as (x & Hx & Hdone).
  unfold contents_of. rewrite Hx. cbn [ReadAll]. run.
  destruct (chunk_window i Hi) as (W1 & W2 & _ & _ & _ & W6 & _). pose proof (Hindex fl Hfl) as Hix.
  assert (0 <= fl_shardIndex fl * s + lo i) as Hoff by nia.
  pose proof (chunk_of_row_length i fl Hi) as Hlen. unfold len in Hlen.
  set (off := fl_shardIndex fl * s + lo i) in *.
  assert (∀ k, covers i fl k ↔ (Z.to_nat off <= k < Z.to_nat off + length (chunk_of_row i fl))%nat) as Hcov.
  { intros k. unfold covers. subst off. split; intros; lia. }
  split; fields; [|done|done|done| |].
  - eapply pipe_ok_write; [exact H1|]. by eapply (pk_outputs _ _ _ H1).
  - intros t tmp' Ht. destruct (decide (tmp = tmp')) as [<-|Hne].
    + assert (t = targetFilename fl) as ->.
      { apply (pk_inj _ _ _ H1 t (targetFilename fl) tmp); rewrite H3; done. }
      rewrite lookup_insert_eq. eexists. split; [done|]. intros i' fl' k Hin He Hk.
      destruct (decide (covers i fl k)) as [Hc1|Hc1].
      * rewrite write_at_inside by (by apply Hcov || done). by apply chunk_of_row_lookup.
      * apply elem_of_app in Hin as [Hin|Hin].
        2:{ apply list_elem_of_singleton in Hin as [= -> ->]. done. }
        pose proof (Hdone i' fl' k Hin He Hk) as Hold. rewrite Hcov in Hc1.
        rewrite write_at_outside; [done|done|by eapply lookup_lt_Some|lia].
    + rewrite lookup_insert_ne by done. destruct (H5 _ _ Ht) as (x' & Hx' & Hd'). exists x'.
      split; [done|]. intros i' fl' k Hin He Hk. apply elem_of_app in Hin as [Hin|Hin]; [by eapply Hd'|].
      apply list_elem_of_singleton in Hin as [= -> ->]. subst t. congruence.
  - intros i' fl' Hin Hw. apply elem_of_app in Hin as [Hin|Hin]; [by eapply H6|].
    apply list_elem_of_singleton in Hin as [= -> ->]. by eexists.
Qed.

(** The invariant ignores rows of files that are not rebuilt. *)
Lemma working_skip done i fl q :
  targetFilename fl ∉ needsWrite plan → working done q → working (done ++ [(i, fl)]) q.
Proof.
  intros Hni [H1 H2 H3 H4 H5 H6]. split; try done.
  - intros t tmp Ht. destruct (H5 _ _ Ht) as (x & Hx & Hd). exists x. split; [done|].
    intros i' fl' k [Hin|Hin]%elem_of_app He Hk; [by eapply Hd|].
    apply list_elem_of_singleton in Hin as [= -> ->]. destruct Hni. rewrite He. apply H4. by eexists.
  - intros i' fl' [Hin|Hin]%elem_of_app Hw; [by eapply H6|].
    by apply list_elem_of_singleton in Hin as [= -> ->].
Qed.

Lemma write_shard_runs X done i k fl : 0 <= i < plan_numChunks plan → fls !! k = Some fl →
  runs X (working done) (write_shard env d plan i (Some <$> (chunk_of_row i <$> fls)) (k, fl))
    (λ _, working (done ++ [(i, fl)])).
Proof.
  intros Hi Hk. assert (fl ∈ fls) as Hfl by (by eapply list_elem_of_lookup_2).
  unfold write_shard. destruct (bool_decide (targetFilename fl ∈ needsWrite plan)) eqn:Hw; cbn [negb].
  - apply bool_decide_eq_true in Hw. eapply runs_bind; [by apply getOutput_runs|]. intros tmp.
    eapply (runs_bind _ _ _ _ (λ a q, a = Some (chunk_of_row i fl) ∧ working done q ∧
      outputs q !! targetFilename fl = Some tmp)).
    + apply runs_lift. left. exists (Some (chunk_of_row i fl)). split; [|by intros q].
      apply index_at_lookup; [lia|]. rewrite Nat2Z.id, !list_lookup_fmap, Hk. done.
    + intros a q [-> Hq]. cbn [default]. by apply (WriteAt_runs X done i fl tmp).
  - apply bool_decide_eq_false in Hw. apply runs_ret. intros q. by apply working_skip.
Qed.

(** The blocks that a list of chunks writes. *)
Definition chunk_rows_of (i : Z) : list (Z * flattenedLocation) := (λ fl, (i, fl)) <$> fls.
Definition chunks_rows (is_ : list Z) : list (Z * flattenedLocation) := mjoin (chunk_rows_of <$> is_).

Lemma write_chunk_runs X done i : 0 <= i < plan_numChunks plan →
  runs X (working done)
    (forM (write_shard env d plan i (Some <$> (chunk_of_row i <$> fls))) (indexed fls))
    (λ _, working (done ++ chunk_rows_of i)).
Proof.
  intros Hi.
  assert (chunk_rows_of i = (λ ifl, (i, ifl.2)) <$> indexed fls) as ->.
  { unfold chunk_rows_of, indexed. rewrite <- (snd_zip (seq 0 (length fls)) fls) at 1 by (by rewrite length_seq).
    by rewrite <- list_fmap_compose. }
  eapply runs_conseq; [apply (runs_forM X _ (indexed fls)
    (λ l, working (done ++ ((λ ifl, (i, ifl.2)) <$> l))))| |done].
  - intros l [k fl] l' Hl. rewrite fmap_app, app_assoc. apply write_shard_runs; [done|].
    assert (indexed fls !! length l = Some (k, fl)) as Hk.
    { by rewrite Hl, lookup_app_r, Nat.sub_diag by lia. }
    apply lookup_zip_Some in Hk as [Hk1 Hk2]. apply lookup_seq in Hk1 as [-> _]. exact Hk2.
  - intros q Hq. cbn. by rewrite app_nil_r.
Qed.

Lemma repair_chunk_runs done i : 0 <= i < plan_numChunks plan →
  runs singular (working done) (repair_chunk env tb b d plan coder i)
    (λ _, working (done ++ chunk_rows_of i)).
Proof.
  intros Hi. unfold repair_chunk. eapply runs_bind; [apply runs_check; by rewrite (ob_polls env Hob)|].
  intros []. unfold executeChunk. fold fls p.
  eapply runs_bind; [apply (runs_mapM singular (working done) _ (chunk_read i)); intros fl Hfl; by apply read_shard_runs|].
  intros active. cbv beta.
  eapply (runs_bind _ _ _ _ (λ a q, a = map_shards (seg (lo i) (hi i)) (parity_rows d p) ∧
    active = chunk_read i <$> fls ∧ working done q)).
  { apply runs_lift. left. eexists. split; [|intros q Hq; split; [reflexivity|exact Hq]].
    rewrite (mapM_ok _ (λ k, seg (lo i) (hi i) <$> Decoder.parityShards d !! k))
      by (intros k _; by apply parity_shard_ok).
    unfold map_shards, parity_rows. by rewrite <- list_fmap_compose. }
  intros parity. cbv beta.
  eapply (runs_bind _ _ _ _ (λ a q, a = Some <$> (chunk_of_row i <$> fls) ∧ working done q)).
  { intros q (-> & -> & Hq).
    destruct (Reconstruct_chunk i Hi) as [Hr|(e & Hr & He)]; unfold lift; rewrite Hr; done. }
  intros act q [-> Hq]. by apply write_chunk_runs.
Qed.

Lemma chunks_run :
  runs singular (working []) (forM (repair_chunk env tb b d plan coder) (range 0 (plan_numChunks plan)))
    (λ _, working (chunks_rows (range 0 (plan_numChunks plan)))).
Proof.
  apply (runs_forM singular _ _ (λ l, working (chunks_rows l))). intros l i l' Hl.
  unfold chunks_rows. rewrite fmap_app, join_app. cbn [fmap list_fmap mjoin list_join]. rewrite app_nil_r.
  apply repair_chunk_runs. apply elem_of_range. rewrite Hl. apply elem_of_app. right. apply list_elem_of_here.
Qed.

(** ** The installation *)

Hypothesis (Hnames : NoDup (Filename <$> protectedFiles d)).
Hypothesis (Hfresh : ∀ t fd, fd ∈ protectedFiles d → temp_name env t ≠ Filename fd).
Hypothesis (Hcontents : ∀ fd, fd ∈ protectedFiles d →
  0 < ByteCount fd ∧ len (orig (Filename fd)) = ByteCount fd ∧ md5_Sum (orig (Filename fd)) = fd_Hash fd).
Hypothesis (Hcover : ∀ fd j, fd ∈ protectedFiles d → 0 <= j → j * s < ByteCount fd →
  ∃ fl, fl ∈ fls ∧ targetFilename fl = Filename fd ∧ fl_shardIndex fl = j).
Hypothesis (Hwanted : ∀ t, t ∈ needsWrite plan → t ∈ Filename <$> protectedFiles d).

(** The temp file of [fd] has its bytes, possibly more. *)
Definition built (q : pipeline) (fd : FileDescPacket) : Prop :=
  ∃ tmp x, tempNames q !! Filename fd = Some tmp ∧ fs q !! tmp = Some (Contents x) ∧
    ∀ k y, orig (Filename fd) !! k = Some y → x !! k = Some y.

(** The temp file of [fd] has its contents. *)
Definition finished (q : pipeline) (fd : FileDescPacket) : Prop :=
  ∃ tmp, tempNames q !! Filename fd = Some tmp ∧ fs q !! tmp = Some (Contents (orig (Filename fd))).

Lemma elem_of_chunks_rows i fl : 0 <= i < plan_numChunks plan → fl ∈ fls →
  (i, fl) ∈ chunks_rows (range 0 (plan_numChunks plan)).
Proof.
  intros Hi Hfl. apply list_elem_of_join. exists (chunk_rows_of i). split.
  - by apply list_elem_of_fmap_2.
  - by apply list_elem_of_fmap_2, elem_of_range.
Qed.

Lemma working_built q fd : working (chunks_rows (range 0 (plan_numChunks plan))) q →
  fd ∈ protectedFiles d → Filename fd ∈ needsWrite plan → built q fd.
Proof.
  intros Hq Hfd Hw. destruct (Hcontents fd Hfd) as (Hpos & Hlen & _).
  pose proof (numChunks_pos d plan Hc Hs Hn) as Hnum.
  destruct (Hcover fd 0 Hfd) as (fl0 & Hfl0 & Ht0 & _); [lia|lia|].
  destruct (wk_open _ _ Hq 0 fl0) as [tmp Htmp].
  { by apply elem_of_chunks_rows. } { by rewrite Ht0. }
  rewrite Ht0 in Htmp. destruct (wk_written _ _ Hq _ _ Htmp) as (x & Hx & Hdone).
  exists tmp, x. split; [by rewrite (wk_temps _ _ Hq)|]. split; [done|]. intros k y Hy.
  pose proof (lookup_lt_Some _ _ _ Hy) as Hk. unfold len in Hlen.
  set (j := Z.of_nat k / s). pose proof (Z.div_mod (Z.of_nat k) s ltac:(lia)) as Hdm. fold j in Hdm.
  pose proof (Z.mod_pos_bound (Z.of_nat k) s Hs) as Hm.
  assert (0 <= j) by (apply Z.div_pos; lia).
  destruct (Hcover fd j Hfd) as (fl & Hfl & Ht & Hj); [done|nia|].
  destruct (chunk_cover d plan Hc Hs Hn (Z.of_nat k mod s) Hm) as (i & Hi & Hik). fold c in Hik.
  rewrite (Hdone i fl k).
  - unfold original. by rewrite Hy.
  - by apply elem_of_chunks_rows.
  - done.
  - unfold covers. change (lo i) with (i * c). change (hi i) with (i * c + currChunkSize d plan i). nia.
Qed.

(** While the rebuilt files are finished: [todo] are built, [fin] finished. *)
Record finishing_all (open : gmap (list Z) (list Z)) (todo fin : list FileDescPacket) (q : pipeline) : Prop := {
  fa_ok : pipe_ok env root q;
  fa_open : outputs q = open ∧ tempNames q = open;
  fa_todo : Forall (built q) todo;
  fa_fin : Forall (finished q) fin
}.

Lemma other_temp q fd fd' tmp tmp' : pipe_ok env root q → Filename fd ≠ Filename fd' →
  tempNames q !! Filename fd = Some tmp → tempNames q !! Filename fd' = Some tmp' → tmp ≠ tmp'.
Proof. intros Hq Hne H1 H2 <-. apply Hne. by eapply (pk_inj _ _ _ Hq). Qed.

Lemma finishRebuiltFile_runs X open fd todo fin tmp :
  fd ∈ protectedFiles d → NoDup (Filename <$> fd :: todo ++ fin) → open !! Filename fd = Some tmp →
  runs X (finishing_all open (fd :: todo) fin) (finishRebuiltFile env tmp fd)
    (λ _, finishing_all open todo (fd :: fin)).
Proof.
  intros Hfd Hnd Ht q [H1 [H2 H3] H4 H5]. apply Forall_cons in H4 as [(tmp' & x & Htmp & Hx & Hag) H4].
  assert (tmp' = tmp) as -> by congruence. destruct (Hcontents fd Hfd) as (_ & Hlen & Hmd5).
  unfold finishRebuiltFile. run. rewrite (ob_truncate env Hob). run.
  unfold contents_of. rewrite Hx. cbn [ReadAll]. run. rewrite (ob_sync env Hob). run.
  rewrite (ob_hash env Hob). run. rewrite lookup_insert_eq. cbn [ReadAll]. run.
  assert (Truncate x (ByteCount fd) = orig (Filename fd)) as ->.
  { rewrite <- Hlen. by apply Truncate_agrees. }
  rewrite bool_decide_eq_true_2 by done. cbn [negb].
  rewrite fmap_cons in Hnd. apply NoDup_cons in Hnd as [Hnew Hnd].
  assert (∀ fd' tmp', fd' ∈ todo ++ fin → tempNames q !! Filename fd' = Some tmp' → tmp ≠ tmp') as Hoth.
  { intros fd' tmp' Hin Ht'. eapply other_temp; [exact H1| |exact Htmp|exact Ht'].
    intros He. apply Hnew. rewrite He. by apply list_elem_of_fmap_2. }
  split; fields; [by eapply pipe_ok_write|done| |].
  - apply Forall_forall. intros fd' Hin. rewrite Forall_forall in H4.
    destruct (H4 fd' Hin) as (t' & x' & Ht' & Hx' & Ha'). exists t', x'. split; [done|]. fields.
    split; [|done]. rewrite lookup_insert_ne; [done|]. eapply Hoth; [|exact Ht'].
    apply elem_of_app. by left.
  - constructor.
    + exists tmp. split; [done|]. fields. by rewrite lookup_insert_eq.
    + apply Forall_forall. intros fd' Hin. rewrite Forall_forall in H5.
      destruct (H5 fd' Hin) as (t' & Ht' & Hx'). exists t'. split; [done|]. fields.
      rewrite lookup_insert_ne; [done|]. eapply Hoth; [|exact Ht']. apply elem_of_app. by right.
Qed.

Lemma finishRebuiltFiles_runs X open todo fin :
  (∀ fd, fd ∈ todo → fd ∈ protectedFiles d ∧ is_Some (open !! Filename fd)) →
  NoDup (Filename <$> todo ++ fin) →
  runs X (finishing_all open todo fin) (finishRebuiltFiles env todo)
    (λ _, finishing_all open [] (rev todo ++ fin)).
Proof.
  revert fin. induction todo as [|fd todo IH]; intros fin Hin Hnd q Hq; [done|].
  destruct (Hin fd (list_elem_of_here _ _)) as [Hfd [tmp Htmp]].
  cbn [finishRebuiltFiles rev]. destruct (fa_open _ _ _ _ Hq) as [-> _]. rewrite Htmp.
  cbn [default from_option id].
  pose proof (finishRebuiltFile_runs X open fd todo fin tmp Hfd Hnd Htmp q Hq) as Hone.
  destruct (finishRebuiltFile env tmp fd q) as [q1 [[]|e|e]];
    [|by destruct (finishRebuiltFiles env todo q1)|done].
  assert (NoDup (Filename <$> todo ++ fd :: fin)) as Hnd' by (by rewrite <- Permutation_middle).
  pose proof (IH (fd :: fin) ltac:(intros; apply Hin; by apply elem_of_cons; right) Hnd' q1 Hone) as Hr.
  rewrite <- app_assoc. destruct (finishRebuiltFiles env todo q1) as [q2 [[]|e|e]]; exact Hr.
Qed.

(** The renames: [todo] is to be installed, [inst] is. *)
Record installing_all (todo inst : list FileDescPacket) (q : pipeline) : Prop := {
  ia_temps : ∀ t tmp, tempNames q !! t = Some tmp → tmp = temp_name env t;
  ia_inj : ∀ t1 t2 tmp, tempNames q !! t1 = Some tmp → tempNames q !! t2 = Some tmp → t1 = t2;
  ia_todo : Forall (finished q) todo;
  ia_inst : ∀ fd, fd ∈ inst → fs q !! Filename fd = Some (Contents (orig (Filename fd)));
  ia_rest : ∀ fd, fd ∈ protectedFiles d → Filename fd ∉ needsWrite plan →
    fs q !! Filename fd = root !! Filename fd
}.

Lemma install_file_runs X fd todo inst :
  fd ∈ protectedFiles d → Filename fd ∈ needsWrite plan → NoDup (Filename <$> fd :: todo) →
  (∀ fd', fd' ∈ inst → fd' ∈ protectedFiles d) →
  runs X (installing_all (fd :: todo) inst) (install_file env fd)
    (λ _, installing_all todo (fd :: inst)).
Proof.
  intros Hfd Hw Hnd Hinst q [H1 H2 H3 H4 H5]. apply Forall_cons in H3 as [(tmp & Htmp & Hx) H3].
  unfold install_file. run. rewrite Htmp. cbn [default from_option id].
  rewrite (ob_stat env Hob), (ob_chmod env Hob), orb_true_r. run.
  unfold Rename. rewrite (ob_rename env Hob). cbn [negb]. rewrite Hx. run.
  assert (∀ fd', fd' ∈ protectedFiles d → tmp ≠ Filename fd') as Htf.
  { intros fd' Hfd'. rewrite (H1 _ _ Htmp). by apply Hfresh. }
  rewrite fmap_cons in Hnd. apply NoDup_cons in Hnd as [Hnew Hnd].
  split; fields; [done|done| | |].
  - apply Forall_forall. intros fd' Hin. rewrite Forall_forall in H3.
    destruct (H3 fd' Hin) as (t' & Ht' & Hx'). exists t'. split; [done|]. fields.
    rewrite lookup_insert_ne, lookup_delete_ne; [done| |].
    + intros <-. apply Hnew. rewrite (H2 _ _ _ Htmp Ht'). by apply list_elem_of_fmap_2.
    + rewrite (H1 _ _ Ht'). intros He. by eapply (Hfresh (Filename fd') fd).
  - intros fd' Hin. destruct (decide (Filename fd' = Filename fd)) as [->|Hne].
    + by rewrite lookup_insert_eq.
    + rewrite lookup_insert_ne by done. apply elem_of_cons in Hin as [->|Hin]; [done|].
      rewrite lookup_delete_ne by (by apply Htf, Hinst). by apply H4.
  - intros fd' Hfd' Hni. rewrite lookup_insert_ne by congruence.
    rewrite lookup_delete_ne by (by apply Htf). by apply H5.
Qed.

Lemma install_files_run X l inst :
  (∀ fd, fd ∈ l → fd ∈ protectedFiles d ∧ Filename fd ∈ needsWrite plan) → NoDup (Filename <$> l) →
  (∀ fd, fd ∈ inst → fd ∈ protectedFiles d) →
  runs X (installing_all l inst) (forM (install_file env) l) (λ _, installing_all [] (rev l ++ inst)).
Proof.
  revert inst. induction l as [|fd l IH]; intros inst Hsub Hnd Hinst; [by intros q' Hq'|].
  cbn [forM rev]. destruct (Hsub fd (list_elem_of_here _ _)) as [Hfd Hw].
  eapply runs_bind; [by apply install_file_runs|]. intros u. cbv beta. rewrite <- app_assoc.
  apply IH.
  - intros. apply Hsub. by apply elem_of_cons; right.
  - rewrite fmap_cons in Hnd. by apply NoDup_cons in Hnd as [_ ?].
  - intros fd' [->|Hin]%elem_of_cons; [done|by apply Hinst].
Qed.

Lemma install_runs X :
  runs X (working (chunks_rows (range 0 (plan_numChunks plan)))) (install env d plan)
    (λ _ q, ∀ fd, fd ∈ protectedFiles d → fs q !! Filename fd =
       if bool_decide (Filename fd ∈ needsWrite plan) then Some (Contents (orig (Filename fd)))
       else root !! Filename fd).
Proof.
  intros q Hq. unfold install. run.
  assert (∀ t, t ∈ needsWrite plan → is_Some (outputs q !! t)) as Hopen.
  { intros t Ht. destruct (list_elem_of_fmap_1 _ _ _ (Hwanted t Ht)) as (fd & -> & Hfd).
    destruct (working_built q fd Hq Hfd Ht) as (tmp & x & Htmp & _).
    rewrite <- (wk_temps _ _ Hq), Htmp. by eexists. }
  rewrite bool_decide_eq_true_2 by exact Hopen. run.
  set (rebuilt := filter _ _).
  assert (∀ fd, fd ∈ rebuilt ↔ fd ∈ protectedFiles d ∧ Filename fd ∈ needsWrite plan) as Hreb.
  { intros fd. unfold rebuilt. rewrite list_elem_of_filter. split.
    - intros [Ho Hfd]. split; [done|]. by apply (wk_wanted _ _ Hq).
    - intros [Hfd Hw]. split; [|done]. by apply Hopen. }
  assert (NoDup (Filename <$> rebuilt)) as Hnd by (by apply NoDup_fmap_filter).
  pose proof (finishRebuiltFiles_runs X (outputs q) rebuilt []) as Hfin.
  rewrite app_nil_r in Hfin.
  specialize (Hfin ltac:(intros fd [Hfd Hw]%Hreb; split; [done|by apply Hopen]) Hnd q).
  assert (finishing_all (outputs q) rebuilt [] q) as Hstart.
  { split; [apply (wk_ok _ _ Hq)|split; [done|apply (wk_temps _ _ Hq)]| |constructor].
    apply Forall_forall. intros fd [Hfd Hw]%Hreb. by apply working_built. }
  specialize (Hfin Hstart). destruct (finishRebuiltFiles env rebuilt q) as [q1 [[]|e|e]]; [|done..].
  destruct Hfin as [Hok [Ho1 Ht1] _ Hfin]. rewrite app_nil_r in Hfin.
  rewrite (proj2 (List.forallb_forall _ _)) by (intros fd _; by rewrite (ob_close env Hob)). run. set (q2 := set_outputs _ _).
  assert (Forall (finished q2) rebuilt) as Hf2.
  { apply Forall_forall. intros fd Hin. rewrite Forall_forall in Hfin.
    apply Hfin. by rewrite list_elem_of_In, <- in_rev, <- list_elem_of_In. }
  pose proof (install_files_run X rebuilt [] ltac:(by intros fd ?%Hreb) Hnd
    ltac:(by intros fd ?%elem_of_nil) q2) as Hloop.
  assert (installing_all rebuilt [] q2) as Hst.
  { subst q2. split; fields; [|apply (pk_inj _ _ _ Hok)|exact Hf2|by intros fd ?%elem_of_nil|].
    - intros t tmp Ht. by apply (pk_fresh _ _ _ Hok).
    - intros fd Hfd _. apply (pk_outside _ _ _ Hok). intros t Ht.
      apply (pk_fresh _ _ _ Hok) in Ht as [He _]. by eapply (Hfresh t fd). }
  specialize (Hloop Hst). destruct (forM (install_file env) rebuilt q2) as [q3 [[]|e|e]]; [|done..].
  intros fd Hfd. case_bool_decide as Hw; [|by apply (ia_rest _ _ _ Hloop)].
  apply (ia_inst _ _ _ Hloop). rewrite app_nil_r.
  rewrite list_elem_of_In, <- in_rev, <- list_elem_of_In. by apply Hreb.
Qed.

Lemma run_pipeline_runs :
  runs singular (pipe_start root) (run_pipeline env tb b d plan coder)
    (λ _ q, ∀ fd, fd ∈ protectedFiles d → fs q !! Filename fd =
       if bool_decide (Filename fd ∈ needsWrite plan) then Some (Contents (orig (Filename fd)))
       else root !! Filename fd).
Proof.
  unfold run_pipeline. eapply runs_bind; [|intros u; apply install_runs].
  eapply runs_conseq; [apply chunks_run| |done]. intros q ->. apply working_start.
Qed.
End Run.
