(* ===== verification/Cli.v ===== *)
(** * The command (src/cmd/gopar/main.go)

    Command-line flags, the limits derived from them, candidates, and the exit
    codes of the verify and repair commands.  Packages flag, strconv and
    path/filepath of the standard library are modelled as far as the command
    uses them; the directory, the patterns of [filepath.Glob] and the schedules
    are an environment. *)

From stdpp Require Import gmap.
From S2P Require Import Prelude Gf16 Kernels Dispatch.
From S2P Require Import Md5 Packet CrcTable Decoder Blocks Verify Repair.

Definition ExitSuccess : Z := 0.
Definition ExitRepairPossible : Z := 1.
Definition ExitRepairNotPossible : Z := 2.
Definition ExitInvalidCommandLineArguments : Z := 3.
Definition ExitLogicError : Z := 4.

(** ** Package strconv *)

Definition ParseBool (s : list Z) : option bool :=
  if existsb (λ t, bool_decide (s = ascii t)) ["1"; "t"; "T"; "TRUE"; "true"; "True"] then Some true
  else if existsb (λ t, bool_decide (s = ascii t)) ["0"; "f"; "F"; "FALSE"; "false"; "False"]
  then Some false else None.

Definition digit_value (c : Z) : option Z :=
  if is_digit c then Some (c - 48)
  else if (97 <=? lower c) && (lower c <=? 122) then Some (lower c - 87) else None.

Definition underscore : Z := 95.

Fixpoint digits (base acc : Z) (s : list Z) : option Z :=
  match s with
  | [] => Some acc
  | c :: s =>
      if c =? underscore then digits base acc s else
      match digit_value c with
      | Some v => if v <? base then digits base (acc * base + v) s else None
      | None => None
      end
  end.

(** The base that a prefix of [s] gives, and what follows the prefix. *)
Definition base_of (s : list Z) : Z * list Z :=
  match s with
  | 48 :: c :: _ :: _ =>
      if lower c =? 98 then (2, drop 2 s)
      else if lower c =? 111 then (8, drop 2 s)
      else if lower c =? 120 then (16, drop 2 s)
      else (8, drop 1 s)
  | 48 :: s' => (8, s')
  | _ => (10, s)
  end.

(** Underscores separate digits, or a base prefix and a digit.  [seen] is what
    came before: a digit, an underscore, or something else. *)
Inductive seen := SeenDigit | SeenUnderscore | SeenOther.

Fixpoint underscores_ok (hex : bool) (i : seen) (s : list Z) : bool :=
  match s with
  | [] => match i with SeenUnderscore => false | _ => true end
  | c :: s =>
      if is_digit c || (hex && (97 <=? lower c) && (lower c <=? 102))
      then underscores_ok hex SeenDigit s
      else if c =? underscore
      then match i with SeenDigit => underscores_ok hex SeenUnderscore s | _ => false end
      else match i with SeenUnderscore => false | _ => underscores_ok hex SeenOther s end
  end.

Definition underscoreOK (s : list Z) : bool :=
  match s with
  | 48 :: c :: s' =>
      if (lower c =? 98) || (lower c =? 111) || (lower c =? 120)
      then underscores_ok (lower c =? 120) SeenDigit s'
      else underscores_ok false SeenOther s
  | _ => underscores_ok false SeenOther s
  end.

Definition ParseUint (s : list Z) : option Z :=
  if bool_decide (s = []) then None else
  let '(base, s') := base_of s in
  n ← digits base 0 s';
  if (18446744073709551615 <? n) || (bool_decide (underscore ∈ s) && negb (underscoreOK s))
  then None else Some n.

(** [strconv.ParseInt(s, 0, 64)]. *)
Definition ParseInt (s : list Z) : option Z :=
  match s with
  | [] => None
  | c :: s' =>
      let neg := c =? 45 in
      un ← ParseUint (if neg || (c =? 43) then s' else s);
      if neg then (if 9223372036854775808 <? un then None else Some (- un))
      else (if 9223372036854775808 <=? un then None else Some un)
  end.

(** ** Flags *)

Record flagValues := {
  fv_numThreads : Z;
  fv_memMB : Z;
  fv_cpuProfile : list Z;
  fv_memProfile : list Z;
  fv_maxFileSizeMB : Z;
  fv_verbose : bool;
  fv_version : bool;
  fv_candidates : list (list Z)
}.

Definition flag_defaults (NumCPU : Z) : flagValues :=
  {| fv_numThreads := NumCPU; fv_memMB := 16; fv_cpuProfile := []; fv_memProfile := [];
     fv_maxFileSizeMB := 100; fv_verbose := false; fv_version := false; fv_candidates := [] |}.

Inductive flagName :=
  | FlagT | FlagM | FlagCpuProfile | FlagMemProfile | FlagMaxFileSize | FlagV | FlagVersion
  | FlagCandidate.

Definition flag_of (name : list Z) : option flagName :=
  snd <$> find (λ p, bool_decide (ascii p.1 = name))
    [("t", FlagT); ("m", FlagM); ("cpuprofile", FlagCpuProfile); ("memprofile", FlagMemProfile);
     ("max-file-size", FlagMaxFileSize); ("v", FlagV); ("version", FlagVersion);
     ("candidate", FlagCandidate)]%string.

Definition is_bool_flag (f : flagName) : bool :=
  match f with FlagV | FlagVersion => true | _ => false end.

(** [Value.Set]; [None] for a value that does not parse. *)
Definition set_flag (f : flagName) (value : list Z) (fv : flagValues) : option flagValues :=
  let '(Build_flagValues t m cpu mem size v ver cand) := fv in
  match f with
  | FlagT => (λ x, Build_flagValues x m cpu mem size v ver cand) <$> ParseInt value
  | FlagM => (λ x, Build_flagValues t x cpu mem size v ver cand) <$> ParseInt value
  | FlagCpuProfile => Some (Build_flagValues t m value mem size v ver cand)
  | FlagMemProfile => Some (Build_flagValues t m cpu value size v ver cand)
  | FlagMaxFileSize => (λ x, Build_flagValues t m cpu mem x v ver cand) <$> ParseInt value
  | FlagV => (λ x, Build_flagValues t m cpu mem size x ver cand) <$> ParseBool value
  | FlagVersion => (λ x, Build_flagValues t m cpu mem size v x cand) <$> ParseBool value
  | FlagCandidate => Some (Build_flagValues t m cpu mem size v ver (cand ++ [value]))
  end.

(** [name=value]: the parts around the first [=] that is not in front. *)
Fixpoint split_value (before s : list Z) : list Z * option (list Z) :=
  match s with
  | [] => (before, None)
  | c :: s => if (c =? 61) && negb (bool_decide (before = [])) then (before, Some s)
              else split_value (before ++ [c]) s
  end.

Inductive flag_step :=
  | FlagDone (rest : list (list Z))
  | FlagSet (fv : flagValues) (rest : list (list Z))
  | FlagError.

(** [FlagSet.parseOne]. *)
Definition parseOne (fv : flagValues) (args : list (list Z)) : flag_step :=
  match args with
  | [] => FlagDone []
  | s :: rest =>
      match s with
      | 45 :: c :: s' =>
          if (c =? 45) && bool_decide (s' = []) then FlagDone rest else
          let name := if c =? 45 then s' else c :: s' in
          match name with
          | [] => FlagError
          | n :: _ =>
              if (n =? 45) || (n =? 61) then FlagError else
              let '(name, value) := split_value [] name in
              match flag_of name with
              | None => FlagError
              | Some f =>
                  let set value rest :=
                    match set_flag f value fv with
                    | Some fv => FlagSet fv rest
                    | None => FlagError
                    end in
                  match value, rest with
                  | Some value, _ => set value rest
                  | None, _ =>
                      if is_bool_flag f then set (ascii "true") rest
                      else match rest with
                           | [] => FlagError
                           | value :: rest => set value rest
                           end
                  end
              end
          end
      | _ => FlagDone args
      end
  end.

(** [FlagSet.Parse]; each turn takes an argument. *)
Fixpoint Parse (fuel : nat) (fv : flagValues) (args : list (list Z)) :
    result (flagValues * list (list Z)) :=
  match fuel with
  | O => Panic no_fuel
  | S fuel =>
      match parseOne fv args with
      | FlagDone rest => Ok (fv, rest)
      | FlagSet fv rest => Parse fuel fv rest
      | FlagError => Err "flag parsing failed"
      end
  end.

(** ** Options *)

Record cliOptions := {
  numThreads : Z;
  memMB : Z;
  cpuProfile : list Z;
  memProfile : list Z;
  maxFileSizeMB : Z;
  verbose : bool;
  versionFlag : bool;
  candidates : list (list Z);
  cmd : list Z;
  par2Path : list Z
}.

Definition is_verify (cmd : list Z) : bool :=
  bool_decide (cmd = ascii "v") || bool_decide (cmd = ascii "verify").
Definition is_repair (cmd : list Z) : bool :=
  bool_decide (cmd = ascii "r") || bool_decide (cmd = ascii "repair").

(** The options, or the exit code. *)
Definition parseCLIFlags (NumCPU : Z) (args : list (list Z)) : result (cliOptions + Z) :=
  match Parse (S (length args)) (flag_defaults NumCPU) args with
  | Panic m => Panic m
  | Err _ => Ok (inr ExitInvalidCommandLineArguments)
  | Ok (fv, parsedArgs) =>
      if fv_version fv then
        Ok (inl {| numThreads := 0; memMB := 0; cpuProfile := []; memProfile := [];
                   maxFileSizeMB := 0; verbose := false; versionFlag := true; candidates := [];
                   cmd := []; par2Path := [] |})
      else match parsedArgs with
      | c :: par2Path :: _ =>
          let cmd := ToLower c in
          if negb (is_verify cmd) && negb (is_repair cmd)
          then Ok (inr ExitInvalidCommandLineArguments)
          else Ok (inl {| numThreads := fv_numThreads fv; memMB := fv_memMB fv;
                          cpuProfile := fv_cpuProfile fv; memProfile := fv_memProfile fv;
                          maxFileSizeMB := fv_maxFileSizeMB fv; verbose := fv_verbose fv;
                          versionFlag := false; candidates := fv_candidates fv;
                          cmd := cmd; par2Path := par2Path |})
      | _ => Ok (inr ExitInvalidCommandLineArguments)
      end
  end.

(** ** Paths of the host *)

(** [p] up to and including its last slash, and what follows. *)
Fixpoint split_last (p : list Z) : list Z * list Z :=
  match p with
  | [] => ([], [])
  | c :: p =>
      let '(dir, base) := split_last p in
      if (c =? slash) || negb (bool_decide (dir = [])) then (c :: dir, base) else ([], c :: base)
  end.

(** [filepath.Dir] and [filepath.Base]. *)
Definition Dir (p : list Z) : list Z := Clean (split_last p).1.

Fixpoint strip_slashes (rev_p : list Z) : list Z :=
  match rev_p with
  | c :: p => if c =? slash then strip_slashes p else rev_p
  | [] => []
  end.

Definition Base (p : list Z) : list Z :=
  if bool_decide (p = []) then dot else
  let base := (split_last (rev (strip_slashes (rev p)))).2 in
  if bool_decide (base = []) then [slash] else base.

(** [filepath.Join] of a directory and a pattern. *)
Definition Join (dir c : list Z) : list Z :=
  if bool_decide (c = []) then Clean dir else Clean (dir ++ [slash] ++ c).

(** ** The environment of the command

    The profiles are files of the host.  [place] says where a path of the host
    lies when it is in the directory of the set, and [profile_written] what that
    directory is after the profile with the path has been written: the file may
    have been renamed or replaced since it was created.  The functions deferred
    by [runCLI] run before the process ends, also after a panic of the main
    goroutine, but not after one of another goroutine ([deferred]). *)

Record CliEnv := {
  NumCPU : Z;
  goroutines : Z;
  os_create : list Z → bool;
  StartCPUProfile : list Z → bool;
  place : list Z → option (list Z);
  profile_written : list Z → Root → Root;
  deferred : string → bool;
  sandbox_ok : list Z → bool;
  entries : list (list Z);
  load_ctx : LoadCtx;
  Glob : list Z → result (list (list Z));
  Rel : list Z → list Z → result (list Z);
  schedule : Schedule;
  repair_env : Env
}.

(** A signed 64-bit product wraps. *)
Definition times64 (x y : Z) : Z := int64 (wrap64 (x * y)).

Definition limits (opts : cliOptions) : DecoderOptions :=
  let memLimitBytes := times64 (times64 (memMB opts) 1024) 1024 in
  let maxFileLimitBytes := times64 (times64 (maxFileSizeMB opts) 1024) 1024 in
  let maxPacketLimitBytes := Z.max (Z.quot (times64 maxFileLimitBytes 5) 4) (128 * 1024 * 1024) in
  {| NumGoroutines := numThreads opts; MemoryLimit := memLimitBytes;
     MaxFileSize := maxFileLimitBytes; MaxPacketSize := maxPacketLimitBytes |}.

(** ** Profiles *)

Section Profiles.
Context (env : CliEnv).

(** [os.Create]: a file in the directory of the set is empty then. *)
Definition Create (path : list Z) (root : Root) : option Root :=
  if os_create env path then
    Some match place env path with Some name => <[name := Contents []]> root | None => root end
  else None.

(** The profile [path] is written to its end, and closed. *)
Definition finish_profile (path : list Z) (root : Root) : Root :=
  match place env path with Some _ => profile_written env path root | None => root end.

(** The closure that [setupProfiling] returns. *)
Definition cleanup (cpuProfile memProfile : list Z) (root : Root) : Root :=
  let root := if bool_decide (cpuProfile = []) then root else finish_profile cpuProfile root in
  if bool_decide (memProfile = []) then root else
  match Create memProfile root with
  | None => root
  | Some root => finish_profile memProfile root
  end.

(** The directory that is left, and the cleanup to be done at the end. *)
Definition setupProfiling (cpuProfile memProfile : list Z) (root : Root) :
    Root * result (Root → Root) :=
  if bool_decide (cpuProfile = []) then (root, Ok (cleanup cpuProfile memProfile)) else
  match Create cpuProfile root with
  | None => (root, Err "failed to create CPU profile file")
  | Some root =>
      (root, if StartCPUProfile env cpuProfile then Ok (cleanup cpuProfile memProfile)
             else Err "failed to start CPU profiling")
  end.

End Profiles.

(** ** Candidates *)

(** [d.AddCandidateFile(path)], which fails without changing [d]. *)
Definition add_candidate (d : Decoder) (path : list Z) : result Decoder :=
  let '(d, r) := AddCandidateFile path d in r;; Ok d.

(** [strings.ContainsAny(c, "*?[")]. *)
Definition is_pattern (c : list Z) : bool :=
  existsb (λ x, (x =? 42) || (x =? 63) || (x =? 91)) c.

Definition expand_candidate (env : CliEnv) (par2Dir : list Z) (d : Decoder) (c : list Z) :
    result Decoder :=
  if negb (is_pattern c) then add_candidate d c else
  matches ← Glob env (Join par2Dir c);
  foldM (λ d m, rel ← Rel env par2Dir m; add_candidate d rel) d matches.

Definition expandCandidates (env : CliEnv) (par2Path : list Z) (candidates : list (list Z))
    (d : Decoder) : result Decoder :=
  foldM (expand_candidate env (Dir par2Path)) d candidates.

(** ** The commands *)

Definition handleVerifyCommand (counts : ShardCounts) : Z :=
  if negb (RepairNeeded counts) then ExitSuccess
  else if RepairPossible counts then ExitRepairPossible
  else ExitRepairNotPossible.

(** The counts, or the exit code; with the decoder after verification. *)
Definition runVerificationAndReport (env : CliEnv) (root : Root) (d : Decoder) :
    result ((Decoder * ShardCounts) + Z) :=
  match VerifyScans (schedule env) root d with
  | Ok d => Ok (inl (d, shardCountsLocked d))
  | Err _ => Ok (inr ExitLogicError)
  | Panic m => Panic m
  end.

Section Commands.
Context (tb : tables) `{VK : !VectorKernels} (b : build) (env : CliEnv).

Definition handleRepairCommand (root : Root) (d : Decoder) (counts : ShardCounts) : Root * result Z :=
  if negb (RepairNeeded counts) then (root, Ok ExitSuccess)
  else if negb (RepairPossible counts) then (root, Ok ExitRepairNotPossible)
  else
    let '(root, _, r) := Repair (repair_env env) tb b root d in
    (root, match r with
           | Ok _ => Ok ExitSuccess
           | Err _ => Ok ExitRepairNotPossible
           | Panic m => Panic m
           end).

(** Verification, and the command [cmd] on its outcome. *)
Definition run_command (cmd : list Z) (root : Root) (d : Decoder) : Root * result Z :=
  match runVerificationAndReport env root d with
  | Panic m => (root, Panic m)
  | Err e => (root, Err e)
  | Ok (inr code) => (root, Ok code)
  | Ok (inl (d, counts)) =>
      if is_verify cmd then (root, Ok (handleVerifyCommand counts))
      else if is_repair cmd then handleRepairCommand root d counts
      else (root, Ok ExitInvalidCommandLineArguments)
  end.

(** The decoder for the options, with its candidates; an error is exit code 3. *)
Definition load_set (root : Root) (opts : cliOptions) : result Decoder :=
  if negb (sandbox_ok env (Dir (par2Path opts))) then Err "failed to sandbox target directory" else
  d ← NewDecoder (load_ctx env) (goroutines env) root (entries env) (Base (par2Path opts)) (limits opts);
  expandCandidates env (par2Path opts) (candidates opts) d.

(** What [runCLI] does between the profiles. *)
Definition load_and_run (opts : cliOptions) (root : Root) : Root * result Z :=
  match load_set root opts with
  | Panic m => (root, Panic m)
  | Err _ => (root, Ok ExitInvalidCommandLineArguments)
  | Ok d => run_command (cmd opts) root d
  end.

(** The deferred cleanup. *)
Definition end_run (cleanup : Root → Root) (run : Root * result Z) : Root * result Z :=
  let '(root, r) := run in
  (match r with Panic m => if deferred env m then cleanup root else root | _ => cleanup root end, r).

(** The directory that is left, and the exit code. *)
Definition runCLI (args : list (list Z)) (root : Root) : Root * result Z :=
  match parseCLIFlags (NumCPU env) args with
  | Panic m => (root, Panic m)
  | Err e => (root, Err e)
  | Ok (inr exitCode) => (root, Ok exitCode)
  | Ok (inl opts) =>
      if versionFlag opts then (root, Ok ExitSuccess) else
      let '(root, profiling) := setupProfiling env (cpuProfile opts) (memProfile opts) root in
      match profiling with
      | Panic m => (root, Panic m)
      | Err _ => (root, Ok ExitLogicError)
      | Ok cleanup => end_run cleanup (load_and_run opts root)
      end
  end.

End Commands.
