(* ===== verification/PacketProperties.v ===== *)
(** * Properties of packets, names and loading

    The properties of [Crc32], [CrcTable], [Packet] and [Decoder], each with a
    witness where it has hypotheses. *)

From stdpp Require Import gmap sorting.
From S2P Require Import Prelude Md5 Crc32 Packet PacketFacts PathFacts CrcTable Decoder DecoderFacts.

(** C16: The sliding CRC32.  [newCRC32Window] refuses windows of fewer than four
    bytes, panics on those that Go's allocator refuses (a slice size of a packet
    can be one), and succeeds otherwise; one [update] with the byte that leaves the
    window and the byte that enters it turns the IEEE checksum of the window
    into the checksum of the next one, whatever the bytes. *)
Theorem crc32_rolls n :
  (n < 4 → newCRC32Window n = Err "window size too small for sliding calculation") ∧
  (maxAlloc <= n → newCRC32Window n = Panic makeslice) ∧
  (4 <= n < maxAlloc → ∃ w, newCRC32Window n = Ok w ∧
     ∀ x data y, bytes (x :: data) → u8 y → len (x :: data) = n →
       update w (ChecksumIEEE (x :: data)) x y = ChecksumIEEE (data ++ [y])).
Proof.
  split; [|split]; intros Hn.
  - unfold newCRC32Window. by rewrite (proj2 (Z.ltb_lt n 4)).
  - by apply newCRC32Window_panics.
  - destruct (newCRC32Window_ok n Hn) as (w & Hw & Hs & Hok). exists w. split; [done|].
    intros x data y Hb Hy Hlen. apply update_ok; [done|by rewrite Hs|done|done].
Qed.

Lemma crc32_rolls_witness :
  ∃ w, newCRC32Window 4 = Ok w ∧
    update w (ChecksumIEEE [1; 2; 3; 4]) 1 5 = ChecksumIEEE [2; 3; 4; 5].
Proof.
  destruct (proj2 (proj2 (crc32_rolls 4))) as (w & Hw & Hu); [decided|]. exists w. split; [exact Hw|].
  apply (Hu 1 [2; 3; 4] 5); [decided|decided|reflexivity].
Defined.

(** C25: The open-addressing table answers like the map it was built from.  For
    every list of entries with distinct keys (every order in which Go may visit
    the map) the construction ends, every lookup ends, a known CRC gives its
    locations and an unknown one nothing; each location gets a [reported] flag,
    no two the same. *)
Theorem crc_table_correct es :
  NoDup es.*1 → len es <= 536870912 →
  (∃ t, newCRCLookupTable es = Ok t ∧
     ∀ c, Lookup t c = Ok ((list_to_map (flagged 0 es) : gmap Z _) !! c)) ∧
  (flagged 0 es).*1 = es.*1 ∧
  mjoin ((λ p, reported <$> p.2) <$> flagged 0 es) = Some <$> seq 0 (numLocs es).
Proof.
  intros Hnd Hlen. split; [by apply newCRCLookupTable_ok|].
  split; [apply flagged_keys|apply flagged_flags].
Qed.

Definition sample_location (i : Z) : checksumLocation :=
  {| fileID := [1]; shardIndex := i; md5Hash := [2]; reported := None |}.

(** Two values that collide in a table of sixteen slots. *)
Lemma crc_table_correct_witness :
  ∃ t, newCRCLookupTable [(5, [sample_location 0]); (21, [sample_location 1])] = Ok t ∧
    Lookup t 21 = Ok (Some [with_flag (sample_location 1) 1]) ∧ Lookup t 37 = Ok None.
Proof.
  destruct (crc_table_correct [(5, [sample_location 0]); (21, [sample_location 1])])
    as ((t & Ht & Hl) & _); [decided|decided|]. exists t. split; [exact Ht|].
  split; rewrite Hl; reflexivity.
Defined.

(** [FileIDLess] is the order of the 128-bit little-endian integers that
    the identifiers encode: a strict total order on identifiers.
    [validateFileIDSorted] accepts a list exactly when it is ordered. *)
Theorem FileIDLess_order a b c ids :
  is_id a → is_id b → is_id c → Forall is_id ids →
  (FileIDLess a b = true ↔ le_combine a < le_combine b) ∧
  FileIDLess a a = false ∧
  (FileIDLess a b = true → FileIDLess b c = true → FileIDLess a c = true) ∧
  (FileIDLess a b = true ∨ a = b ∨ FileIDLess b a = true) ∧
  (validateFileIDSorted ids = Ok tt ↔ Sorted (λ x y, le_combine x <= le_combine y) ids).
Proof.
  intros Ha Hb Hc Hids. rewrite !FileIDLess_spec, !Z.ltb_lt by done.
  split; [done|]. split; [apply Z.ltb_irrefl|]. split; [lia|]. split.
  - destruct (Z.lt_trichotomy (le_combine a) (le_combine b)) as [?|[He|?]]; [by left| |by right; right].
    right; left. destruct Ha, Hb. by apply le_combine_inj; [..|congruence|].
  - rewrite <- (IsSorted_spec ids Hids). unfold validateFileIDSorted, err_if.
    by destruct (IsSorted ids).
Qed.

Definition id_of (n : Z) : FileID := le_split 16 n.

Lemma FileIDLess_order_witness :
  FileIDLess (id_of 3) (id_of 256) = true ∧
  validateFileIDSorted [id_of 3; id_of 256] = Ok tt.
Proof.
  destruct (FileIDLess_order (id_of 3) (id_of 256) (id_of 0) [id_of 3; id_of 256])
    as (H1 & _ & _ & _ & H2); [decided|decided|decided|decided|].
  split; [apply H1; vm_compute; reflexivity|apply H2; repeat constructor; vm_compute; discriminate].
Defined.

(** C23: The parsers of Main, IFSC and Recovery packets are exactly inverse to
    the encoding of the PAR2 format: a body is accepted if and only if it is
    the encoding of a valid packet, and that packet is the result.  So slice
    sizes, counts, the order of the recovery set, the alignment of checksum
    pairs and the limit on exponents are all enforced, and nothing else. *)
Theorem parsers_round_trip body :
  bytes body → len body < 68719476736 →
  (∀ p, ParseMainPacket body = Ok p ↔ main_valid p ∧ body = encode_main p) ∧
  (∀ p, ParseIFSCPacket body = Ok p ↔ ifsc_valid p ∧ body = encode_ifsc p) ∧
  (∀ p, ParseRecoveryPacket body = Ok p ↔ recovery_valid p ∧ body = encode_recovery p).
Proof.
  intros Hb Hl. split; [|split]; intros p.
  - by apply ParseMainPacket_iff.
  - by apply ParseIFSCPacket_iff.
  - by apply ParseRecoveryPacket_iff.
Qed.

Definition sample_main : mainPacket :=
  {| SliceByteCount := 4; RecoverySet := [id_of 7; id_of 260]; NonRecoverySet := [id_of 1] |}.

Lemma parsers_round_trip_witness : ParseMainPacket (encode_main sample_main) = Ok sample_main.
Proof.
  destruct (parsers_round_trip (encode_main sample_main)) as (H & _ & _); [decided|reflexivity|].
  apply H. split; [|reflexivity].
  split; [split; vm_compute; [reflexivity|discriminate]|]. split; [reflexivity|].
  split; [decided|]. split; [decided|]. repeat constructor; vm_compute; discriminate.
Defined.

(** C34: A file description is accepted only under the identifier that hashes
    its 16K hash, its length and its name; then a file without bytes is skipped
    (the nil packet), a name that leaves the directory or a length beyond the
    range of [int] is an error, and the packet returned has the fields of the
    body and the sanitised name.  Every accepted packet is well formed. *)
Theorem ParseFileDescPacket_correct id h h16 b8 name :
  is_id id → length h = 16%nat → length h16 = 16%nat → bytes b8 → length b8 = 8%nat →
  bytes (h ++ h16 ++ name) →
  let n := le_combine b8 in
  let r := ParseFileDescPacket (id ++ h ++ h16 ++ b8 ++ name) in
  (id ≠ computeFileID h16 n (NullTerminate name) → r = Err "file description ID mismatch") ∧
  (id = computeFileID h16 n (NullTerminate name) →
     (n = 0 → r = Ok None) ∧
     (∀ e, n ≠ 0 → DefangPath (DecodeNullPaddedASCIIString name) = Err e → r = Err e) ∧
     (∀ p, n ≠ 0 → DefangPath (DecodeNullPaddedASCIIString name) = Ok p →
        (maxInt < n → r = Err "file byte count exceeds memory boundaries") ∧
        (n <= maxInt → r = Ok (Some {| fd_FileID := id; fd_Hash := h; SixteenKHash := h16;
                                       ByteCount := n; Filename := p |})))) ∧
  (∀ p, r = Ok (Some p) → file_ok p).
Proof.
  intros [Hid Hil] Hh H16 Hb8 H8 Hb n r. subst r.
  pose proof (ParseFileDescPacket_total (id ++ h ++ h16 ++ b8 ++ name)) as Ht.
  split; [|split]; [| |intros p Hp; rewrite Hp in Ht; apply Ht].
  - intros Hne. rewrite ParseFileDescPacket_cut by done. cbv zeta. fold n.
    by rewrite bool_decide_eq_false_2 by congruence.
  - intros Heq. rewrite ParseFileDescPacket_cut by done. cbv zeta. fold n.
    rewrite bool_decide_eq_true_2 by congruence. cbn [negb]. split; [by intros ->|].
    split.
    + intros e Hn He. by rewrite (proj2 (Z.eqb_neq n 0)), He.
    + intros p Hn Hp. rewrite (proj2 (Z.eqb_neq n 0)), Hp by done. cbn [mbind result_bind].
      rewrite Z.gtb_ltb. split; intros Hm.
      * by rewrite (proj2 (Z.ltb_lt _ _)).
      * by rewrite (proj2 (Z.ltb_ge _ _)).
  - unfold bytes in *. rewrite !Forall_app in *. destruct Hb as (? & ? & ?). done.
Qed.

Definition sample_name : list Z := ascii "dir\..\b.txt" ++ [0; 0; 0; 0].
Definition sample_id : FileID := computeFileID (id_of 5) 7 (ascii "dir\..\b.txt").

Lemma ParseFileDescPacket_correct_witness :
  ParseFileDescPacket (sample_id ++ id_of 9 ++ id_of 5 ++ le_split 8 7 ++ sample_name) =
  Ok (Some {| fd_FileID := sample_id; fd_Hash := id_of 9; SixteenKHash := id_of 5;
              ByteCount := 7; Filename := ascii "b.txt" |}).
Proof.
  destruct (ParseFileDescPacket_correct sample_id (id_of 9) (id_of 5) (le_split 8 7) sample_name)
    as (_ & H & _); [split; [apply md5_bytes|apply md5_length]|reflexivity|reflexivity|decided|
                     reflexivity|decided|].
  apply H; [reflexivity|vm_compute; discriminate|vm_compute; reflexivity|vm_compute; discriminate].
Defined.

(** C14: Sanitised names stay inside the directory.  What [DefangPath] returns is
    a relative path of ordinary elements (or [.]), without backslashes, without
    [..] and without a drive letter, and is returned unchanged when given again.
    An absolute name, and a name whose elements walk out of the directory at any
    point, are errors; an error has one of four reasons. *)
Theorem DefangPath_confines name :
  match DefangPath name with
  | Ok p => confined p ∧ DefangPath p = Ok p ∧
            IsAbs (normalize name) = false ∧ is_Some (depth 0 (path_elements (normalize name)))
  | Err _ => IsAbs (Clean (normalize name)) = true ∨
             Clean (normalize name) !! 1%nat = Some 58 ∨
             HasPrefix (Clean (normalize name)) dotdot = true
  | Panic _ => False
  end.
Proof.
  destruct (DefangPath name) as [p|e|m] eqn:Hd.
  - pose proof (DefangPath_confined name p Hd) as Hc.
    apply DefangPath_inside in Hd as (-> & _ & Hpre & Habs & es & _ & _ & Hdepth & _).
    split; [done|]. split; [by apply DefangPath_accepts|]. split; [done|]. by eexists.
  - rewrite DefangPath_cases in Hd. cbv zeta in Hd.
    destruct (IsAbs (Clean _)); [by left|]. destruct ((1 <? _) && _) eqn:Hdr.
    + right; left. apply andb_true_iff in Hdr as [_ H]. by apply bool_decide_eq_true in H.
    + destruct (HasPrefix _ _); [by right; right|done].
  - by pose proof (DefangPath_total name) as H; rewrite Hd in H.
Qed.

(** C24: A stream of packets is delivered packet by packet.  A file that consists
    of well-formed packets changes the decoder exactly as handling the packets
    one after the other does, those of another recovery set being skipped; a
    truncated header after them, or a packet whose hash is wrong, is reported
    with the effect of the packets before it kept. *)
Theorem stream_round_trip root filename name ps tail d :
  root !! filename = Some (Contents (mjoin (encode_packet <$> ps) ++ tail)) →
  len (mjoin (encode_packet <$> ps) ++ tail) <= maxFileSize d →
  Forall (packet_valid (maxPacketSize d)) ps →
  let r := streamPAR2Packets (λ _, false) root filename (handlePacket name) d in
  let r' := deliver_all (handlePacket name) d ps in
  (is_ok r'.2 = false → r = r') ∧
  (is_ok r'.2 = true →
     (tail = [] → r = r') ∧
     (0 < len tail < 64 → r = (r'.1, Err "failed to read packet header: unexpected EOF")) ∧
     (∀ h body more, tail = encode_header h ++ body ++ more → header_valid h →
        0 < len body → len body = Length h - 64 → len body <= maxPacketSize r'.1 → len body <= maxInt →
        ComputePacketHash (RecoverySetID h) (Type_ h) body ≠ Hash h →
        r = (r'.1, Err "corrupt packet hash mismatch"))).
Proof.
  intros Hf Hlen Hps r r'.
  destruct (streamPAR2Packets_packets root filename (handlePacket name) ps tail d Hf Hlen
    (handlePacket_limit name) Hps) as [fuel Hr]. fold r r' in Hr. destruct r' as [d' res].
  cbn [fst snd]. split; [by destruct res|]. destruct res as [[]| |]; [intros _|done..].
  rewrite Hr. split; [|split].
  - by intros ->.
  - intros Ht. cbn [stream_loop]. unfold ReadHeader, ReadFull. cbn [Z.leb Z.compare].
    rewrite bool_decide_eq_false_2 by (intros ->; unfold len in Ht; simpl in Ht; lia).
    rewrite (proj2 (Z.ltb_lt _ 64)) by (unfold len in Ht; lia). done.
  - intros h body more -> Hh Hb0 Hb Hmax Hint Hhash. cbn [stream_loop].
    rewrite ReadHeader_encode by done. unfold stream_packet.
    rewrite <- Hb. unfold int64. rewrite (proj2 (Z.ltb_lt (len body) _)) by (unfold maxInt in *; lia).
    rewrite (proj2 (Z.ltb_ge _ 0)), Z.gtb_ltb, (proj2 (Z.ltb_ge _ _)) by lia. cbn [orb].
    unfold ReadFull, len in *. rewrite (proj2 (Z.leb_gt _ 0)) by lia.
    rewrite bool_decide_eq_false_2 by (destruct body; simpl in *; [lia|done]).
    rewrite (proj2 (Z.ltb_ge _ _)) by (rewrite length_app; lia).
    rewrite Nat2Z.id, take_app_length, bool_decide_eq_false_2 by done. done.
Qed.

Definition sample_set : list Z := id_of 77.
Definition sample_recovery (e b : Z) : rawPacket :=
  {| pk_set := sample_set; pk_type := RecoveryPacketType; pk_body := le_split 4 e ++ [b; b; b; b] |}.
Definition sample_opts : DecoderOptions :=
  {| NumGoroutines := 1; MemoryLimit := 0; MaxFileSize := 0; MaxPacketSize := 0 |}.
Definition sample_decoder : Decoder := new_decoder (with_defaults 1 sample_opts).
Definition sample_stream : list rawPacket :=
  [sample_recovery 0 1; {| pk_set := id_of 78; pk_type := RecoveryPacketType; pk_body := le_split 4 1 |};
   sample_recovery 0 9].
Definition sample_root : Root := {[ ascii "a.par2" := Contents (mjoin (encode_packet <$> sample_stream)) ]}.

(** Of the second packet, which belongs to another set, and of the third, whose
    exponent is known, nothing remains. *)
Lemma stream_round_trip_witness :
  parityShards (streamPAR2Packets (λ _, false) sample_root (ascii "a.par2")
                  (handlePacket (ascii "a.par2")) sample_decoder).1 = {[ 0 := [1; 1; 1; 1] ]}.
Proof.
  destruct (stream_round_trip sample_root (ascii "a.par2") (ascii "a.par2") sample_stream []
    sample_decoder) as (_ & H).
  - rewrite app_nil_r. apply lookup_singleton_eq.
  - vm_compute. discriminate.
  - repeat constructor; vm_compute; discriminate.
  - destruct H as [H _]; [vm_compute; reflexivity|]. rewrite H by reflexivity.
    vm_compute. reflexivity.
Defined.

(** C17: Loading a set never panics and keeps the decoder's invariant, whatever
    the files contain, whatever the directory lists and whenever the context is
    cancelled: the slice size is zero or a positive multiple of four, the
    protected files are well formed, have distinct identifiers and safe names
    and end up in the order of the identifiers, checksums are filed under their
    own identifier, exponents are at most 32767, and the recovery blocks counted
    per file add up to the blocks stored. *)
Theorem NewDecoder_invariant ctx cores root entries indexFilename opts :
  root_ok root →
  match NewDecoder ctx cores root entries indexFilename opts with
  | Ok d => decoder_ok d ∧ Sorted before (protectedFiles d) ∧
            same_limits (new_decoder (with_defaults cores opts)) d
  | Err _ => True
  | Panic _ => False
  end.
Proof.
  intros Hroot. unfold NewDecoder.
  set (d0 := new_decoder _). pose proof (new_decoder_ok (with_defaults cores opts)) as H0.
  fold d0 in H0.
  destruct (loadIndexFile_ok (index_ctx ctx) root indexFilename d0 Hroot H0) as (H1 & H2 & H3 & H4).
  destruct (loadIndexFile _ _ _ d0) as [d1 [[]| |]]; cbn [fst snd] in *; [|done..].
  cbn [mbind result_bind].
  destruct (load_volumes_ok (volumes_ctx ctx) (volume_ctx ctx) 0 root indexFilename entries Hroot d1 H1)
    as (K1 & K2 & K3 & _).
  pose proof (load_volumes_files (volumes_ctx ctx) (volume_ctx ctx) 0 root indexFilename entries d1) as Kf.
  unfold loadVolumeFiles. destruct (load_volumes _ _ _ _ _ _ d1) as [d2 [[]| |]];
    cbn [fst snd] in *; [|done..]. cbn [mbind result_bind].
  split; [done|]. split; [|by transitivity d1]. rewrite Kf. by apply H4.
Qed.

Definition no_cancel : LoadCtx :=
  {| index_ctx := λ _, false; volumes_ctx := λ _, false; volume_ctx := λ _ _, false |}.

Lemma NewDecoder_invariant_witness :
  ∃ d, NewDecoder no_cancel 1 sample_root [ascii "a.par2"] (ascii "a.par2") sample_opts = Ok d ∧
       decoder_ok d.
Proof.
  pose proof (NewDecoder_invariant no_cancel 1 sample_root [ascii "a.par2"] (ascii "a.par2")
    sample_opts) as H.
  destruct (NewDecoder no_cancel 1 sample_root [ascii "a.par2"] (ascii "a.par2") sample_opts)
    as [d|e|m] eqn:Hd.
  - exists d. split; [reflexivity|]. apply H. apply map_Forall_singleton. decided.
  - vm_compute in Hd. discriminate.
  - vm_compute in Hd. discriminate.
Defined.

(** Recovery blocks are first come, first served.  Loading the volumes of a
    set never replaces a block that is known, and the number of blocks counted
    for the files is the number of blocks stored, whichever volumes fail. *)
Theorem recovery_blocks_kept ctx vctx root indexFilename entries d :
  root_ok root → decoder_ok d →
  let d' := (loadVolumeFiles ctx vctx root entries indexFilename d).1 in
  (∀ e data, parityShards d !! e = Some data → parityShards d' !! e = Some data) ∧
  total_blocks (parityFileBlocks d') = Z.of_nat (size (parityShards d')) ∧
  (∀ e data, parityShards d' !! e = Some data → 0 <= e <= 32767) ∧
  protectedFiles d' = protectedFiles d.
Proof.
  intros Hroot Hd d'.
  destruct (load_volumes_ok ctx vctx 0 root indexFilename entries Hroot d Hd) as (H1 & _ & _ & H4).
  split; [intros e data He; exact (lookup_weaken _ _ _ _ He H4)|].
  split; [apply H1|]. split; [|apply load_volumes_files].
  intros e data He. by destruct (ok_parity _ H1 e data He).
Qed.

Definition volume_root : Root :=
  {[ ascii "a.vol0+1.par2" := Contents (mjoin (encode_packet <$> sample_stream)) ]}.

Lemma recovery_blocks_kept_witness :
  total_blocks (parityFileBlocks
    (loadVolumeFiles (λ _, false) (λ _ _, false) volume_root [ascii "a.vol0+1.par2"] (ascii "a.par2")
       sample_decoder).1) = 1.
Proof.
  destruct (recovery_blocks_kept (λ _, false) (λ _ _, false) volume_root (ascii "a.par2")
    [ascii "a.vol0+1.par2"] sample_decoder) as (_ & H & _ & _).
  - apply map_Forall_singleton. decided.
  - apply new_decoder_ok.
  - rewrite H. vm_compute. reflexivity.
Defined.

(** C35: The volumes of a set are found from any of its files.  The base name of
    [base.volA+B.par2] is [base], and every such volume is loaded when the set
    is opened by [base.par2] or by any other of its volumes. *)
Theorem volume_names base ds sep ds' index :
  tag_ok ds sep ds' →
  index = base ++ par2_ext ∨
    (∃ es sep' es', tag_ok es sep' es' ∧ index = volume_name base es sep' es') →
  setBaseName (volume_name base ds sep ds') = base ∧
  (volume_name base ds sep ds' ≠ index →
   is_volume index (volume_name base ds sep ds') = true) ∧
  is_volume index index = false.
Proof.
  intros Ht Hi. split; [|split].
  - unfold volume_name. by rewrite app_assoc, setBaseName_par2, strip_tag_tag.
  - by apply is_volume_ok.
  - unfold is_volume. by rewrite bool_decide_eq_true_2.
Qed.

Lemma volume_names_witness :
  is_volume (ascii "a.b.par2") (ascii "a.b.vol03+04.par2") = true.
Proof.
  apply (volume_names (ascii "a.b") (ascii "03") 43 (ascii "04") (ascii "a.b.par2")).
  - repeat split; [discriminate|discriminate|decided|decided|left; reflexivity].
  - left. reflexivity.
  - vm_compute. discriminate.
Defined.
