(* ===== verification/ScanProperties.v ===== *)
(** * Properties of the scan and of verification

    The properties of [Blocks] and [Verify], each with a witness where it has
    hypotheses, and what happens to a set whose checksums name blocks that its
    files do not have. *)

From stdpp Require Import gmap.
From S2P Require Import Prelude Md5 Crc32 Packet PacketFacts PathFacts CrcTable Decoder DecoderFacts Blocks.
From S2P Require Import BlocksFacts Verify VerifyFacts VerifyOutcome VerifyCollect VerifyLocated VerifyTotal.

(** ** The states before the scan *)

Lemma shard_count_ceil n s :
  0 < s <= maxInt → 0 < n <= maxInt →
  shard_count n s = (n + s - 1) / s ∧ 0 < shard_count n s ∧
  (shard_count n s - 1) * s < n <= shard_count n s * s.
Proof.
  intros Hs Hn. unfold shard_count, wrap64, maxInt in *.
  rewrite (Z.mod_small (n + s)), Z.mod_small by lia.
  split; [done|].
  pose proof (Z.div_mod (n + s - 1) s ltac:(lia)) as Hd.
  pose proof (Z.mod_pos_bound (n + s - 1) s ltac:(lia)) as Hm.
  set (q := (n + s - 1) / s) in *. split; nia.
Qed.

Lemma initial_counts (d0 : Decoder) (fs : list FileDescPacket) (m : gmap FileID fileIntegrityState) :
  NoDup (fd_FileID <$> fs) → (∀ fd, fd ∈ fs → m !! fd_FileID fd = None) →
  Forall (λ fd, 0 <= shard_count (ByteCount fd) (sliceByteCount d0)) fs →
  sum_states missing_locs (foldl (λ m fd, <[fd_FileID fd := initial_state d0 fd]> m) m fs) =
    total_shards d0 fs + sum_states missing_locs m ∧
  sum_states usable_locs (foldl (λ m fd, <[fd_FileID fd := initial_state d0 fd]> m) m fs) =
    sum_states usable_locs m.
Proof.
  intros Hnd Hm Hfs. revert m Hm. induction Hfs as [|fd fs Hfd Hfs IH]; intros m Hm; [done|].
  rewrite fmap_cons in Hnd. apply NoDup_cons in Hnd as [Hnew Hnd]. cbn [foldl].
  pose proof (Hm fd (list_elem_of_here _ _)) as Hnone.
  destruct (IH Hnd (<[fd_FileID fd := initial_state d0 fd]> m)) as [-> ->].
  { intros fd' Hin. rewrite lookup_insert_ne; [apply Hm; by apply elem_of_cons; right|].
    intros He. apply Hnew. rewrite He. by apply list_elem_of_fmap_2. }
  rewrite !sum_states_insert_fresh by done.
  change (total_shards d0 (fd :: fs))
    with (shard_count (ByteCount fd) (sliceByteCount d0) + total_shards d0 fs).
  unfold missing_locs, usable_locs, initial_state, len. cbn [ShardLocations].
  generalize (shard_count (ByteCount fd) (sliceByteCount d0)) Hfd. intros n Hn.
  assert (∀ k : nat, length (filter (λ l, Offset l = -1)
            (replicate k {| FileID_ := zero16; Offset := -1 |})) = k ∧
          length (filter (λ l, Offset l ≠ -1)
            (replicate k {| FileID_ := zero16; Offset := -1 |})) = 0%nat) as Hk.
  { intros k. induction k as [|k [IH1 IH2]]; [done|]. cbn [replicate].
    rewrite !filter_cons. cbn [Offset]. repeat case_decide; try done. cbn [length]. by rewrite IH1. }
  destruct (Hk (Z.to_nat n)) as [-> ->]. lia.
Qed.

(** C36: The limits of a set.  Each file has as many blocks as slices cover it,
    computed without overflow; the states are built exactly when the set has at
    most 32768 blocks (and a slice size, if it protects any file), and then all
    its blocks count as missing and none as usable. *)
Theorem initFileIntegrity_limits (d0 : Decoder) :
  NoDup (fd_FileID <$> protectedFiles d0) → protectedFiles d0 ≠ [] →
  0 <= sliceByteCount d0 <= maxInt →
  Forall (λ fd, 0 < ByteCount fd <= maxInt) (protectedFiles d0) →
  (is_ok (initFileIntegrity d0) = true ↔
     0 < sliceByteCount d0 ∧ total_shards d0 (protectedFiles d0) <= 32768) ∧
  (∀ d, initFileIntegrity d0 = Ok d →
     UnusableDataShardCount (shardCountsLocked d) = total_shards d0 (protectedFiles d0) ∧
     UsableDataShardCount (shardCountsLocked d) = 0 ∧
     ∀ fd, fd ∈ protectedFiles d0 → ∃ s, fileIntegrity d !! fd_FileID fd = Some s ∧
       let n := len (ShardLocations s) in
       (n - 1) * sliceByteCount d0 < ByteCount fd <= n * sliceByteCount d0) ∧
  no_panic (initFileIntegrity d0).
Proof.
  intros Hnd Hne Hs Hfs.
  assert (0 < sliceByteCount d0 →
    Forall (λ fd, 0 <= shard_count (ByteCount fd) (sliceByteCount d0)) (protectedFiles d0)) as Hsc.
  { intros Hs0. eapply Forall_impl; [exact Hfs|]. intros fd Hfd. cbv beta in *.
    destruct (shard_count_ceil (ByteCount fd) (sliceByteCount d0)) as (_ & ? & _); lia. }
  split; [|split].
  - split.
    + destruct (initFileIntegrity d0) as [d| |] eqn:Hrun; [intros _|done..].
      unfold initFileIntegrity in Hrun.
      destruct (foldM (init_file d0) (0, ∅) (protectedFiles d0)) as [[tot m]| |] eqn:Hf; [|done..].
      apply init_files_inv in Hf as (_ & Htot & Hlim). destruct (Hlim Hne). lia.
    + intros [Hs0 Htot]. unfold initFileIntegrity.
      destruct (init_files_ok d0 (protectedFiles d0) 0 ∅) as [m ->]; [lia|auto|done|lia|done].
  - intros d Hd. pose proof Hd as Hd'.
    unfold initFileIntegrity in Hd'.
    destruct (foldM (init_file d0) (0, ∅) (protectedFiles d0)) as [[tot m]| |] eqn:Hf; [|done..].
    apply init_files_inv in Hf as (_ & _ & Hlim). destruct (Hlim Hne) as [Hs0 _].
    apply (initFileIntegrity_verifying ∅ d0 (λ _, True) true Hnd) in Hd as [_ Hst].
    rewrite shardCounts_spec. cbn [UnusableDataShardCount UsableDataShardCount]. rewrite Hst.
    destruct (initial_counts d0 (protectedFiles d0) ∅ Hnd) as [H1 H2];
      [intros; apply lookup_empty|apply Hsc; lia|].
    unfold initial_states. rewrite H1, H2. unfold sum_states. rewrite map_to_list_empty. cbn.
    split; [lia|]. split; [done|]. intros fd Hfd. exists (initial_state d0 fd).
    split; [apply initial_states_lookup; [done|left; by exists fd]|].
    cbn [initial_state ShardLocations]. unfold len. rewrite length_replicate.
    rewrite Forall_forall in Hfs. specialize (Hfs fd Hfd).
    destruct (shard_count_ceil (ByteCount fd) (sliceByteCount d0)) as (_ & ? & ?); [lia|done|].
    by rewrite Z2Nat.id by lia.
  - unfold initFileIntegrity. clear.
    assert (∀ fs st, no_panic (foldM (init_file d0) st fs)) as H.
    { induction fs as [|fd fs IH]; intros [tot m]; [done|]. cbn [foldM].
      destruct (init_file d0 (tot, m) fd) as [st| |] eqn:Hi; [apply IH|done|].
      unfold init_file in Hi. repeat (destruct (_ : bool) in Hi; [done|]). done. }
    specialize (H (protectedFiles d0) (0, ∅)).
    by destruct (foldM _ _ _) as [[]| |].
Qed.

Definition sample_file (data : list Z) (name : list Z) : FileDescPacket :=
  {| fd_FileID := computeFileID (md5_Sum data) (len data) name; fd_Hash := md5_Sum data;
     SixteenKHash := md5_Sum data; ByteCount := len data; Filename := name |}.

Definition sample_set (slice : Z) (fs : list FileDescPacket) (ifscs : gmap FileID IFSCPacket) : Decoder :=
  {| numGoroutines := 1; memoryLimit := 16777216; maxFileSize := 104857600;
     maxPacketSize := 134217728; sliceByteCount := slice; recoverySetID := zero16;
     protectedFiles := fs; fileChecksums := ifscs; parityShards := ∅; fileIntegrity := ∅;
     candidateFiles := ∅; candidateByID := ∅; parityFileBlocks := ∅ |}.

Definition file_a : FileDescPacket := sample_file (ascii "abcdefghi") (ascii "a.txt").

Lemma initFileIntegrity_limits_witness :
  ∃ d, initFileIntegrity (sample_set 4 [file_a] ∅) = Ok d ∧
       UnusableDataShardCount (shardCountsLocked d) = 3.
Proof.
  destruct (initFileIntegrity_limits (sample_set 4 [file_a] ∅)) as (H1 & H2 & _);
    [apply NoDup_singleton|discriminate|split; vm_compute; discriminate|
     repeat constructor; vm_compute; discriminate|].
  destruct (initFileIntegrity (sample_set 4 [file_a] ∅)) as [d| |] eqn:Hd.
  - exists d. split; [reflexivity|]. destruct (H2 d eq_refl) as [-> _]. reflexivity.
  - vm_compute in Hd. discriminate.
  - vm_compute in Hd. discriminate.
Defined.

(** ** The block scan *)

(** C19: The sliding window computes what it should.  With the window and the
    table that the program builds, scanning a chunk with the rolling checksum
    is the same as computing every checksum afresh: the same windows are hashed,
    the same events sent, the same flags set.  The scan ends and never panics,
    whatever the contents and whatever other goroutines do with the flags. *)
Theorem scanChunk_rolling bs window es t candidates others ctx content source start end_ st :
  newCRC32Window bs = Ok window → NoDup es.*1 → len es <= 536870912 →
  newCRCLookupTable es = Ok t → bytes content → 0 <= start → end_ <= len content →
  scanChunk window t bs candidates others ctx (Contents content) source start end_ st =
    scanChunk_ref t bs candidates others ctx content source start end_ st ∧
  is_ok (scanChunk window t bs candidates others ctx (Contents content) source start end_ st) = true.
Proof.
  intros ([Hbs _] & Hsz & Hok)%newCRC32Window_inv Hnd Hlen Ht Hb Hs He.
  destruct (newCRCLookupTable_spec es Hnd Hlen) as (t' & Ht' & Hl).
  assert (t' = t) as -> by congruence.
  split; [by eapply scanChunk_eq|].
  destruct (scanChunk_spec window t bs candidates others ctx _ Hbs Hok Hsz content source start end_
    st Hb Hs He) as (st' & evs & -> & _). done.
Qed.

Definition sample_entries : list (Z * list checksumLocation) :=
  [(ChecksumIEEE (ascii "wxyz"),
    [{| fileID := fd_FileID file_a; shardIndex := 1; md5Hash := md5_Sum (ascii "wxyz");
        reported := None |}])].

Lemma scanChunk_rolling_witness :
  ∃ window t, newCRC32Window 4 = Ok window ∧ newCRCLookupTable sample_entries = Ok t ∧
    scanChunk window t 4 ∅ (λ _, ∅) (λ _ _, false) (Contents (ascii "aawxyzbbb")) [1] 0 9 scan_start =
    scanChunk_ref t 4 ∅ (λ _, ∅) (λ _ _, false) (ascii "aawxyzbbb") [1] 0 9 scan_start.
Proof.
  destruct (newCRC32Window 4) as [window| |] eqn:Hw; [|vm_compute in Hw; discriminate..].
  destruct (newCRCLookupTable sample_entries) as [t| |] eqn:Ht; [|vm_compute in Ht; discriminate..].
  exists window, t. split; [reflexivity|]. split; [reflexivity|].
  apply (scanChunk_rolling 4 window sample_entries t ∅ (λ _, ∅) (λ _ _, false) (ascii "aawxyzbbb")
    [1] 0 9 scan_start); [exact Hw|decided|vm_compute; discriminate|exact Ht|decided|reflexivity|
    vm_compute; discriminate].
Defined.

(** C15: The scan finds the blocks.  For a readable file every event that the
    scan of the whole file reports is a block of the set, by CRC32 and MD5, at
    the place in the file where it was found (the last block being padded with
    zeros); and when nothing is cancelled and the ends of the chunks are int64
    values, each block that lies on the grid of slices is reported, however the
    file is cut into chunks and whatever the other goroutines do.  The scan of a
    file ends and never panics. *)
Theorem scanFile_finds_blocks (s : Scanner) (es : list (Z * list checksumLocation)) root fd content :
  newCRC32Window (sc_slice s) = Ok (sc_window s) → sc_slice s <= maxInt →
  NoDup es.*1 → len es <= 536870912 → newCRCLookupTable es = Ok (sc_table s) →
  bytes content → len content <= maxInt → 0 < ByteCount fd <= maxInt →
  Open root (Filename fd) = Ok (Contents content) →
  let bs := sc_slice s in
  let last := ByteCount fd / bs * bs in
  let partial := ReadAt content last (Z.to_nat (ByteCount fd mod bs)) ++
                 replicate (Z.to_nat (bs - ByteCount fd mod bs)) 0 in
  ∃ evs, (scanFile s root fd).2 = Ok evs ∧
    (∀ e, e ∈ evs → sourceFileID e = fd_FileID fd ∧
       ((0 <= offset e <= len content - bs ∧
           describes es (block_at bs content (offset e)) (targetFileID e) (ev_shardIndex e)) ∨
        (ByteCount fd mod bs ≠ 0 ∧ offset e = last ∧
           describes es partial (targetFileID e) (ev_shardIndex e)))) ∧
    (never_cancelled (sc_ctx s) → len content + scanChunkSize + bs <= maxInt → ∀ abs id idx,
       0 <= abs <= len content - bs → abs mod bs = 0 → describes es (block_at bs content abs) id idx →
       {| targetFileID := id; ev_shardIndex := idx; sourceFileID := fd_FileID fd; offset := abs |}
         ∈ evs).
Proof.
  intros (Hbs & Hsz & Hok)%newCRC32Window_inv _ Hnd Hlen Ht Hb Hc Hbc Hopen. cbv zeta.
  destruct (newCRCLookupTable_spec es Hnd Hlen) as (t & Ht' & Hl). assert (t = sc_table s) as -> by congruence.
  destruct (scan_contents_spec s _ (Build_scanner_ok s _ Hbs Hok Hsz Hl) content
    (fd_FileID fd) (ByteCount fd) Hb (or_introl Hbc) Hc) as (evs & Hrun & Hsound & Hcomp).
  exists evs. unfold scanFile. rewrite Hopen. cbn [snd Size]. split; [exact Hrun|]. split.
  - intros e He. destruct (Hsound e He) as [(abs & Habs & Hev)|(Hm & Hev)];
      apply block_events_describes in Hev as (Hd & Hsrc & Hoff); [|done| |done].
    + rewrite Hoff. split; [done|]. by left.
    + split; [done|]. right. by rewrite Hoff.
  - intros Hno Hend abs id idx Habs Hm Hd. apply (Hcomp Hno Hend abs); [done..|].
    by apply block_events_describes.
Qed.

Definition schedule0 : Schedule :=
  {| ctx_polls := λ _ _, false; candidate_order := id; ifsc_order := id; crc_order := id;
     event_order := id; chunk_flags := λ _ _ _, ∅; tail_flags := λ _ _, ∅ |}.

Definition disk1 (fd : FileDescPacket) (data : list Z) : Root :=
  {[ Filename fd := Contents data ]}.

Lemma scanFile_finds_blocks_witness :
  ∃ window t, newCRC32Window 4 = Ok window ∧ newCRCLookupTable sample_entries = Ok t ∧
    ∃ evs,
      (scanFile {| sc_window := window; sc_table := t; sc_slice := 4; sc_candidates := ∅;
                   chunk_env := λ _ _ _, ∅; tail_env := λ _ _, ∅; sc_ctx := λ _ _, false |}
         (disk1 file_a (ascii "aaaawxyzb")) file_a).2 = Ok evs ∧
      {| targetFileID := fd_FileID file_a; ev_shardIndex := 1; sourceFileID := fd_FileID file_a;
         offset := 4 |} ∈ evs.
Proof.
  destruct (newCRC32Window 4) as [window| |] eqn:Hw; [|vm_compute in Hw; discriminate..].
  destruct (newCRCLookupTable sample_entries) as [t| |] eqn:Ht; [|vm_compute in Ht; discriminate..].
  exists window, t. split; [reflexivity|]. split; [reflexivity|].
  destruct (scanFile_finds_blocks
    {| sc_window := window; sc_table := t; sc_slice := 4; sc_candidates := ∅;
       chunk_env := λ _ _ _, ∅; tail_env := λ _ _, ∅; sc_ctx := λ _ _, false |}
    sample_entries (disk1 file_a (ascii "aaaawxyzb")) file_a (ascii "aaaawxyzb"))
    as (evs & H1 & _ & H2); [exact Hw|vm_compute; discriminate|decided|vm_compute; discriminate|
      exact Ht|decided|vm_compute; discriminate|split; vm_compute; [reflexivity|discriminate]|
      reflexivity|].
  exists evs. split; [exact H1|]. apply (H2 (λ _ _, eq_refl) ltac:(vm_compute; discriminate) 4); [split; vm_compute; discriminate|
    reflexivity|].
  exists [{| fileID := fd_FileID file_a; shardIndex := 1; md5Hash := md5_Sum (ascii "wxyz");
             reported := None |}],
    {| fileID := fd_FileID file_a; shardIndex := 1; md5Hash := md5_Sum (ascii "wxyz");
       reported := None |}.
  split; [apply list_elem_of_here|]. split; [apply list_elem_of_here|].
  split; [reflexivity|]. split; [reflexivity|]. vm_compute. reflexivity.
Defined.

(** ** What verification concludes *)

(** C5: A clean bill of health is right.  When verification ends without error
    and finds that no repair is needed, every protected file is on disk under
    its name, and its whole contents have the MD5 that the set gives for it:
    whatever the directory and the candidates hold, in whatever order the
    goroutines run and deliver their matches. *)
Theorem VerifyScans_sound sched root d0 d :
  NoDup (fd_FileID <$> protectedFiles d0) → VerifyScans sched root d0 = Ok d →
  RepairNeeded (shardCountsLocked d) = false →
  ∀ fd, fd ∈ protectedFiles d0 →
    ∃ data, root !! Filename fd = Some (Contents data) ∧ md5_Sum data = fd_Hash fd.
Proof.
  intros Hnd Hrun Hn fd Hfd.
  destruct (VerifyScans_verifying sched root d0 (λ _, True) d Hnd (λ _ _ _, I) (λ _ _ _, I) Hrun) as [Hv Hch].
  destruct (v_all _ _ _ _ _ Hv fd Hfd) as [s Hs].
  destruct (proj1 (RepairNeeded_spec d) Hn _ _ Hs) as (Hr & Hb & Hm).
  destruct (v_state _ _ _ _ _ Hv _ _ Hs) as (fd' & Hfd' & He & Hok).
  assert (fd' = fd) as -> by (by eapply same_fd).
  apply (s_damage _ _ _ _ _ _ Hok).
  destruct (Hch fd Hfd) as [s' [[Hs' Hc]|[Hs' Hc]]]; assert (s' = s) as -> by congruence; [|done].
  unfold needsRebuild in Hb. by destruct (Damage s).
Qed.

Definition ifsc_of (fd : FileDescPacket) (blocks : list (list Z)) : IFSCPacket :=
  {| ifsc_FileID := fd_FileID fd;
     ChecksumPairs := (λ b, {| MD5 := md5_Sum b; CRC32 := le_split 4 (ChecksumIEEE b) |}) <$> blocks |}.

Definition set_a : Decoder :=
  sample_set 4 [file_a]
    {[ fd_FileID file_a := ifsc_of file_a [ascii "abcd"; ascii "efgh"; ascii "i" ++ [0; 0; 0]] ]}.

Lemma VerifyScans_sound_witness :
  ∃ data, disk1 file_a (ascii "abcdefghi") !! Filename file_a = Some (Contents data) ∧
          md5_Sum data = fd_Hash file_a.
Proof.
  destruct (VerifyScans schedule0 (disk1 file_a (ascii "abcdefghi")) set_a) as [d| |] eqn:Hd;
    [|vm_compute in Hd; discriminate..].
  apply (VerifyScans_sound schedule0 (disk1 file_a (ascii "abcdefghi")) set_a d);
    [apply NoDup_singleton|exact Hd| |apply list_elem_of_here].
  pose proof (f_equal (λ r, match r with Ok d => RepairNeeded (shardCountsLocked d) | _ => true end) Hd)
    as H. cbv beta iota in H. rewrite <- H. vm_compute. reflexivity.
Defined.

(** C21: Intact sets are recognised.  When every protected file is on disk as
    its description says (name, size, and both hashes), the set is within the
    limits, there are no candidates and nothing is cancelled, verification ends
    without error and finds that no repair is needed, in every order of map
    traversal and of delivery; the slices have to be such that they can be
    allocated (fewer than 2^48 bytes). *)
Theorem VerifyScans_complete sched root d0 :
  NoDup (fd_FileID <$> protectedFiles d0) →
  (∀ fd, fd ∈ protectedFiles d0 → intact root fd) →
  4 <= sliceByteCount d0 < maxAlloc → candidateFiles d0 = ∅ →
  Forall (λ fd, 0 <= shard_count (ByteCount fd) (sliceByteCount d0)) (protectedFiles d0) →
  total_shards d0 (protectedFiles d0) <= 32768 → Z.of_nat (total_pairs d0) <= 536870912 →
  permutes sched → never_cancelled (ctx_polls sched) →
  ∃ d, VerifyScans sched root d0 = Ok d ∧ RepairNeeded (shardCountsLocked d) = false.
Proof.
  intros Hnd Hint Hs Hc Hsc Ht Hp Hperm Hno. apply VerifyScans_intact; try assumption.
  apply Permutation_nil_r. apply Hperm.
Qed.

Lemma VerifyScans_complete_witness :
  ∃ d, VerifyScans schedule0 (disk1 file_a (ascii "abcdefghi")) set_a = Ok d ∧
       RepairNeeded (shardCountsLocked d) = false.
Proof.
  apply (VerifyScans_complete schedule0 (disk1 file_a (ascii "abcdefghi")) set_a).
  - apply NoDup_singleton.
  - intros fd Hfd. apply list_elem_of_singleton in Hfd as ->. exists (ascii "abcdefghi").
    split; [reflexivity|]. split; [reflexivity|]. split; vm_compute; reflexivity.
  - decided.
  - reflexivity.
  - repeat constructor; vm_compute; discriminate.
  - vm_compute. discriminate.
  - vm_compute. discriminate.
  - split; [reflexivity|]. split; [reflexivity|]. split; reflexivity.
  - intros ??. reflexivity.
Defined.

(** C8: Located blocks are right.  After a verification that ends without error,
    a location of a block of a file is its own place in a file on disk that has
    the full MD5 of the file, or a place whose bytes -- up to the length the
    description gives, padded with zeros -- have the CRC32 and the MD5 that the
    set lists for that very block.  Files that need no scan, renamed candidates,
    blocks found in other files and first-come events of concurrent scans are
    all covered, in every order of traversal and of delivery. *)
Theorem VerifyScans_locates sched root d0 d :
  decoder_ok d0 → permutes sched → disk_ok root → Z.of_nat (total_pairs d0) <= 536870912 →
  VerifyScans sched root d0 = Ok d →
  ∀ id s i loc, fileIntegrity d !! id = Some s → ShardLocations s !! i = Some loc →
    Offset loc ≠ -1 → location_ok root d0 id i loc.
Proof.
  intros Hok Hperm Hdisk Htot Hrun id s i loc Hs.
  exact (VerifyScans_located sched root d0 d Hok Hperm Hdisk Htot Hrun id s Hs i loc).
Qed.

Lemma permutes0 : permutes schedule0.
Proof. split; [reflexivity|]. split; [reflexivity|]. split; reflexivity. Qed.

Lemma file_a_ok : file_ok file_a.
Proof.
  split; [decided|]. split; [decided|]. split; [decided|]. split; [vm_compute; done|].
  split; [apply (DefangPath_confined (ascii "a.txt")); vm_compute; reflexivity|].
  exists (ascii "a.txt"). vm_compute. reflexivity.
Qed.

Lemma set_a_ok : decoder_ok set_a.
Proof.
  split.
  - right. split; [split|]; vm_compute; done.
  - constructor; [apply file_a_ok|constructor].
  - apply NoDup_singleton.
  - apply map_Forall_singleton. split; [reflexivity|decided].
  - apply map_Forall_empty.
  - reflexivity.
Qed.

(** [file_a] with its second block overwritten. *)
Definition disk_b : Root := disk1 file_a (ascii "abcdXXXXi").

Definition state_b : fileIntegrityState :=
  {| st_FileID := fd_FileID file_a; st_Filename := Filename file_a; Damage := damageWrongHash;
     RenameSource := [];
     ShardLocations := [ {| FileID_ := fd_FileID file_a; Offset := 0 |};
                         {| FileID_ := zero16; Offset := -1 |};
                         {| FileID_ := fd_FileID file_a; Offset := 8 |} ] |}.

Lemma disk_b_ok : disk_ok disk_b.
Proof. apply map_Forall_singleton. split; [decided|vm_compute; discriminate]. Qed.

Lemma VerifyScans_locates_witness :
  ∃ d s loc, VerifyScans schedule0 disk_b set_a = Ok d ∧ fileIntegrity d !! fd_FileID file_a = Some s ∧
    ShardLocations s !! 2%nat = Some loc ∧ Offset loc = 8 ∧
    location_ok disk_b set_a (fd_FileID file_a) 2 loc.
Proof.
  assert (VerifyScans schedule0 disk_b set_a =
    Ok (set_fileIntegrity {[ fd_FileID file_a := state_b ]} set_a)) as Hd by (vm_compute; reflexivity).
  assert (({[ fd_FileID file_a := state_b ]} : gmap FileID fileIntegrityState) !! fd_FileID file_a =
    Some state_b) as Hs by apply lookup_singleton_eq.
  eexists _, state_b, {| FileID_ := fd_FileID file_a; Offset := 8 |}.
  split; [exact Hd|]. split; [exact Hs|]. split; [reflexivity|]. split; [reflexivity|].
  apply (VerifyScans_locates schedule0 disk_b set_a _ set_a_ok permutes0 disk_b_ok
    ltac:(vm_compute; discriminate) Hd _ state_b); [exact Hs|reflexivity|discriminate].
Defined.

(** C7: How verification can end.  Whatever is on disk -- damaged, grown, cut or
    missing files, candidates of any kind -- and in every order of traversal and
    of delivery, for a set whose checksum packets list no more blocks than their
    files have: [VerifyScans] panics only when the slice size is one that Go's
    allocator refuses (2^48 or more, which a main packet can carry), and then it
    does panic unless it fails before; it returns an error only when the set
    exceeds its limits or has no slice size, a file that is there cannot be
    opened or read, or the context is cancelled; otherwise it returns a decoder.
    In particular no index is out of range, no file state is missing and no loop
    runs out of fuel.  ([extra_checksums_panic] shows that the condition on the
    checksum packets is needed.) *)
Theorem VerifyScans_outcomes sched root d0 :
  decoder_ok d0 → permutes sched → disk_ok root → Z.of_nat (total_pairs d0) <= 536870912 →
  checksums_fit d0 →
  match VerifyScans sched root d0 with
  | Ok _ => sliceByteCount d0 < maxAlloc
  | Err _ => failure (ctx_polls sched) root d0
  | Panic _ => maxAlloc <= sliceByteCount d0
  end.
Proof.
  intros Hok Hperm Hdisk Htot Hfit.
  destruct (Z.lt_ge_cases (sliceByteCount d0) maxAlloc) as [Hlt|Hge].
  - pose proof (VerifyScans_fine sched root d0 Hok Hperm Hdisk Htot Hfit Hlt) as H.
    by destruct (VerifyScans sched root d0).
  - pose proof (VerifyScans_oversized sched root d0 Hok Hge) as H.
    by destruct (VerifyScans sched root d0).
Qed.

Lemma set_a_fits : checksums_fit set_a.
Proof.
  intros fd p ->%list_elem_of_singleton. cbn [set_a sample_set fileChecksums].
  rewrite lookup_singleton_eq. intros [= <-]. vm_compute. discriminate.
Qed.

(** A set with one file of four bytes and slices of 2^62 bytes. *)
Definition set_huge : Decoder := sample_set (2 ^ 62) [file_a] ∅.

Lemma set_huge_ok : decoder_ok set_huge ∧ checksums_fit set_huge.
Proof.
  split; [split|].
  - right. split; [split|]; vm_compute; done.
  - constructor; [apply file_a_ok|constructor].
  - apply NoDup_singleton.
  - apply map_Forall_empty.
  - apply map_Forall_empty.
  - vm_compute. reflexivity.
  - intros fd p _. cbn [set_huge sample_set fileChecksums]. by rewrite lookup_empty.
Qed.

Lemma VerifyScans_outcomes_witness :
  (∃ d, VerifyScans schedule0 disk_b set_a = Ok d ∧ sliceByteCount set_a < maxAlloc) ∧
  (∃ m, VerifyScans schedule0 disk_b set_huge = Panic m ∧ maxAlloc <= sliceByteCount set_huge).
Proof.
  split.
  - pose proof (VerifyScans_outcomes schedule0 disk_b set_a set_a_ok permutes0 disk_b_ok
      ltac:(vm_compute; discriminate) set_a_fits) as H.
    assert (VerifyScans schedule0 disk_b set_a
      = Ok (set_fileIntegrity {[ fd_FileID file_a := state_b ]} set_a)) as Hd by (vm_compute; reflexivity).
    eexists. split; [exact Hd|]. rewrite Hd in H. exact H.
  - assert (VerifyScans schedule0 disk_b set_huge = Panic makeslice) as Hd by (vm_compute; reflexivity).
    exists makeslice. split; [exact Hd|].
    pose proof (VerifyScans_outcomes schedule0 disk_b set_huge (proj1 set_huge_ok) permutes0 disk_b_ok
      ltac:(vm_compute; discriminate) (proj2 set_huge_ok)) as H.
    rewrite Hd in H. exact H.
Defined.

(** C26: The collector records first come, first served.  For events about files
    of the set: when they name blocks that their files have, the collector
    never fails, and afterwards every block that had a location has the same,
    every other one that of the first event about it, if there is any, and
    nothing else of the decoder has changed; so the shard counts at this point
    do not depend on the order of delivery (which of several places is recorded
    does, and with it what the hash phase concludes afterwards:
    [verdict_depends_on_delivery]).  If a single event names a block beyond the
    end of its file, the collector panics, in every order. *)
Theorem collector_first_come d evs :
  (Forall (in_range (view d)) evs →
   ∃ d', foldM collect d evs = Ok d' ∧ d' = set_fileIntegrity (fileIntegrity d') d ∧
     (∀ id, fileIntegrity d' !! id = collected evs id <$> fileIntegrity d !! id) ∧
     ∀ evs', evs ≡ₚ evs' →
       ∃ d2, foldM collect d evs' = Ok d2 ∧ shardCountsLocked d2 = shardCountsLocked d') ∧
  (Forall (λ e, in_range (view d) e ∨ beyond d e) evs → Exists (beyond d) evs →
   ∀ evs', evs ≡ₚ evs' → foldM collect d evs' = Panic oob).
Proof.
  split.
  - intros Hev. destruct (collect_all_records d evs Hev) as (d' & Hrun & Hsame & Hrec).
    exists d'. split_and!; [done..|]. intros evs' Hp.
    destruct (collect_all_view evs d Hev) as (d1 & H1 & Hv1 & Hq1). assert (d1 = d') as -> by congruence.
    destruct (collect_all_view evs' d) as (d2 & H2 & Hv2 & Hq2); [by rewrite <- Hp|].
    exists d2. split; [done|]. assert (same_view d2 d') as ->; [|done].
    split; [|congruence]. rewrite Hv1, Hv2. symmetry. by apply mark_all_perm.
  - intros Hall Hex evs' Hp. apply collect_all_panics; by rewrite <- Hp.
Qed.

Definition event (idx off : Z) (src : FileID) : matchEvent :=
  {| targetFileID := fd_FileID file_a; ev_shardIndex := idx; sourceFileID := src; offset := off |}.

Lemma collector_first_come_witness :
  ∃ d d', initFileIntegrity set_a = Ok d ∧
    foldM collect d [event 0 0 [1]; event 0 4 [2]; event 2 8 [1]] = Ok d' ∧
    (ShardLocations <$> fileIntegrity d' !! fd_FileID file_a) =
      Some [ {| FileID_ := [1]; Offset := 0 |}; {| FileID_ := zero16; Offset := -1 |};
             {| FileID_ := [1]; Offset := 8 |} ] ∧
    foldM collect d [event 0 0 [1]; event 3 12 [1]] = Panic oob.
Proof.
  destruct (initFileIntegrity set_a) as [d| |] eqn:Hd; [|vm_compute in Hd; discriminate..].
  assert (∀ idx off src, off ≠ -1 → 0 <= idx < 3 → in_range (view d) (event idx off src)) as Hin.
  { intros idx off src Ho Hi. vm_compute in Hd. injection Hd as <-. split; [exact Ho|].
    eexists. split; [vm_compute; reflexivity|exact Hi]. }
  destruct (collector_first_come d [event 0 0 [1]; event 0 4 [2]; event 2 8 [1]]) as [H _].
  destruct H as (d' & Hrun & _ & Hrec & _); [repeat constructor; apply Hin; lia|].
  exists d, d'. split; [reflexivity|]. split; [exact Hrun|]. split.
  - rewrite Hrec. vm_compute in Hd. injection Hd as <-. vm_compute. reflexivity.
  - destruct (collector_first_come d [event 0 0 [1]; event 3 12 [1]]) as [_ H].
    assert (beyond d (event 3 12 [1])) as Hb.
    { vm_compute in Hd. injection Hd as <-. eexists. split; [vm_compute; reflexivity|]. vm_compute. discriminate. }
    apply H; [|by right; left|reflexivity]. constructor; [left; apply Hin; lia|]. constructor; [by right|constructor].
Defined.

(** ** The order of delivery

    [file_d] has a wrong second block, and the candidate [c.txt] has its
    contents.  The first block is in both. *)
Definition file_d : FileDescPacket := sample_file (ascii "abcdefgh") (ascii "a.txt").

Definition set_d : Decoder :=
  let id := md5_Sum (ascii "candidate:c.txt") in
  set_candidates {[ ascii "c.txt" := id ]} {[ id := ascii "c.txt" ]}
    (sample_set 4 [file_d] {[ fd_FileID file_d := ifsc_of file_d [ascii "abcd"; ascii "efgh"] ]}).

Definition disk_d : Root :=
  {[ ascii "a.txt" := Contents (ascii "abcdXXXX"); ascii "c.txt" := Contents (ascii "abcdefgh") ]}.

Definition schedule_rev : Schedule :=
  {| ctx_polls := λ _ _, false; candidate_order := id; ifsc_order := id; crc_order := id;
     event_order := @rev _; chunk_flags := λ _ _ _, ∅; tail_flags := λ _ _, ∅ |}.

(** The verdict of a verification can depend on which goroutine is first: the
    file is to be rebuilt when its own first block is delivered first, and to be
    replaced by the candidate when the candidate's is. *)
Theorem verdict_depends_on_delivery :
  ∃ d1 d2, VerifyScans schedule0 disk_d set_d = Ok d1 ∧ VerifyScans schedule_rev disk_d set_d = Ok d2 ∧
    FilesNeedingRebuild (shardCountsLocked d1) = 1 ∧ RenamesNeeded (shardCountsLocked d1) = 0 ∧
    FilesNeedingRebuild (shardCountsLocked d2) = 0 ∧ RenamesNeeded (shardCountsLocked d2) = 1.
Proof.
  eexists _, _. split; [vm_compute; reflexivity|]. split; [vm_compute; reflexivity|].
  split_and!; vm_compute; reflexivity.
Qed.

(** Too many checksums stop the process.  A set of one file of four bytes,
    one block, whose checksum packet lists two blocks: when the file on disk
    holds the second of them, the collector writes to a block the file does not
    have, and verification panics. *)
Theorem extra_checksums_panic :
  let fd := sample_file (ascii "abcd") (ascii "b.txt") in
  VerifyScans schedule0 (disk1 fd (ascii "wxyz"))
    (sample_set 4 [fd] {[ fd_FileID fd := ifsc_of fd [ascii "abcd"; ascii "wxyz"] ]}) = Panic oob.
Proof. vm_compute. reflexivity. Qed.
