(* ===== verification/ReportProperties.v ===== *)
(** * What the user is told *)

From stdpp Require Import gmap sorting.
From S2P Require Import Prelude Md5 Packet Decoder DecoderFacts Blocks Verify VerifyFacts VerifyOutcome.
From S2P Require Import Report ReportFacts ScanProperties.

Lemma final_verdict_all counts damaged missing :
  final_verdict counts damaged missing = AllFilesVerified ↔ RepairNeeded counts = false.
Proof.
  unfold final_verdict, RepairNeeded.
  by destruct (UnusableDataShardCount counts >? 0), (FilesNeedingRebuild counts >? 0), (RenamesNeeded counts >? 0).
Qed.

Lemma RepairNeeded_counts d : RepairNeeded (shardCountsLocked d) = false →
  sum_states is_rename (fileIntegrity d) <= 0 ∧ sum_states is_rebuild (fileIntegrity d) <= 0.
Proof.
  rewrite shardCounts_spec. unfold RepairNeeded. cbn [UnusableDataShardCount RenamesNeeded FilesNeedingRebuild].
  rewrite !orb_false_iff, !Z.gtb_ltb, !Z.ltb_ge. lia.
Qed.

(** The status of a file is so. *)
Definition status_true (root : Root) (fd : FileDescPacket) (x : file_status) : Prop :=
  match x with
  | OK name => name = Filename fd ∧ verified root name fd
  | MISNAMED expected found => expected = Filename fd ∧ verified root found fd
  | DAMAGED _ missing total => 0 < missing <= total
  | _ => True
  end.

Lemma status_of_true root d0 fd s :
  state_ok root d0 (λ _, True) true fd s → (Damage s ≠ damageUnchecked ∨ RenameSource s ≠ []) →
  status_true root fd (status_of fd s).
Proof.
  intros [_ _ Hd Hr] Hc. unfold status_of. case_bool_decide as Hre; cbn [negb].
  - destruct (Damage s) eqn:Hs; try done; [by destruct Hc|split; [done|by apply Hd]|].
    cbv zeta. destruct (Z.gtb_spec (missing_blocks s) 0) as [Hpos|]; [|done]. cbn.
    rewrite missing_blocks_spec in *. split; [lia|]. unfold missing_locs, len.
    pose proof (length_filter (λ l, Offset l = -1) (ShardLocations s)). lia.
  - by destruct (Hr Hre) as (Hv & _).
Qed.

Section Report.
Context (sched : Schedule) (root : Root) (d0 d : Decoder).
Hypothesis (Hok : decoder_ok d0) (Hrun : VerifyScans sched root d0 = Ok d).

Lemma report_verifying :
  verifying root d0 (λ _, True) true d ∧ ∀ fd, fd ∈ protectedFiles d0 → checked d fd.
Proof. by apply (VerifyScans_verifying sched root d0 (λ _, True) d (ok_distinct _ Hok)). Qed.

(** No rename and no rebuild: nothing is left to do. *)
Lemma all_fine_healthy :
  sum_states is_rename (fileIntegrity d) = 0 → sum_states is_rebuild (fileIntegrity d) = 0 →
  RepairNeeded (shardCountsLocked d) = false.
Proof.
  intros Hr Hb. destruct report_verifying as [Hv Hc].
  apply sum_states_zero in Hr; [|intros s; unfold is_rename; case_bool_decide; lia].
  apply sum_states_zero in Hb; [|intros s; unfold is_rebuild; destruct (_ && _); lia].
  apply RepairNeeded_spec. intros id s Hs. specialize (Hr id s Hs). specialize (Hb id s Hs). cbn in Hr, Hb.
  unfold is_rename, is_rebuild in *. case_bool_decide as Hre; [|done]. cbn [andb] in Hb.
  destruct (needsRebuild s) eqn:Hn; [done|]. split; [done|]. split; [done|].
  destruct (v_state _ _ _ _ _ Hv _ _ Hs) as (fd & Hfd & <- & _).
  apply (proj2 (VerifyScans_whole sched root d0 d Hok Hrun) _ _ Hs).
  destruct (Hc fd Hfd) as [s' [[Hs' H']|[Hs' H']]]; assert (s' = s) as -> by congruence; [|done].
  unfold needsRebuild in Hn. by destruct (Damage s).
Qed.

End Report.

(** C11: The report says what the counts say.  After a verification that ends
    without error the report has a status for every protected file: its counts
    add up to the number of files, the renames and the files to rebuild are
    those [Repair] goes by, the verdict is "All files verified OK." exactly when
    no repair is needed, and exactly when every file has status OK; a file with
    status OK is on disk under its name with its MD5, the file found for a
    misnamed one has the MD5 of it, and a damaged file misses some of its
    blocks and no more than it has. *)
Theorem report_agrees sched root d0 d :
  decoder_ok d0 → VerifyScans sched root d0 = Ok d →
  let counts := shardCountsLocked d in
  ∃ r, logVerificationReport d counts = Ok r ∧
    totalFiles r = len (protectedFiles d0) ∧
    okCount r + missingCount r + damagedCount r + renameCount r = totalFiles r ∧
    renameCount r = RenamesNeeded counts ∧ missingCount r + damagedCount r = FilesNeedingRebuild counts ∧
    (verdict_of r = AllFilesVerified ↔ RepairNeeded counts = false) ∧
    (verdict_of r = AllFilesVerified ↔ okCount r = totalFiles r) ∧
    Forall2 (status_true root) (protectedFiles d0) (file_lines r).
Proof.
  intros Hok Hrun. cbv zeta. destruct (report_verifying sched root d0 d Hok Hrun) as [Hv Hc].
  pose proof (verifying_files _ _ _ _ d Hv) as Hpf.
  assert (∀ fd, fd ∈ protectedFiles d → is_Some (fileIntegrity d !! fd_FileID fd)) as Hall
    by (rewrite Hpf; apply Hv).
  destruct (report_steps d (protectedFiles d) [] 0 0 0 0 Hall) as (xs & Hxs & Hfold).
  unfold logVerificationReport. rewrite Hfold. cbn [mbind result_bind app]. eexists. split; [reflexivity|].
  cbn [totalFiles okCount missingCount damagedCount renameCount verdict_of file_lines]. rewrite !Z.add_0_l.
  assert (∀ f, sum_files f d (protectedFiles d) = sum_states f (fileIntegrity d)) as Hsum.
  { intros f. symmetry. apply sum_states_files; [rewrite Hpf; apply ok_distinct, Hok|exact Hall|].
    intros id s Hs. destruct (v_state _ _ _ _ _ Hv _ _ Hs) as (fd & Hfd & <- & _).
    rewrite Hpf. by apply list_elem_of_fmap_2. }
  assert (sum_files is_missing d (protectedFiles d) + sum_files is_damaged d (protectedFiles d) =
    sum_states is_rebuild (fileIntegrity d)) as Hbad.
  { rewrite <- sum_files_add, <- Hsum. apply sum_files_ext. intros s. by rewrite rebuild_missing_damaged. }
  assert (sum_files is_fine d (protectedFiles d) + sum_states is_rebuild (fileIntegrity d) +
    sum_files is_rename d (protectedFiles d) = len (protectedFiles d)) as Htotal.
  { rewrite <- Hsum, <- !sum_files_add, <- (sum_files_one d _ Hall). apply sum_files_ext. intros s.
    unfold is_fine, is_rebuild, is_rename. by destruct (bool_decide _), (needsRebuild s). }
  assert (0 <= sum_states is_rebuild (fileIntegrity d)) as H0.
  { apply sum_states_nonneg. intros s. unfold is_rebuild. destruct (_ && _); lia. }
  assert (0 <= sum_states is_rename (fileIntegrity d)) as H1.
  { apply sum_states_nonneg. intros s. unfold is_rename. case_bool_decide; lia. }
  rewrite (Hsum is_rename) in *. rewrite !final_verdict_all.
  split; [by rewrite Hpf|]. split; [lia|].
  split; [by rewrite shardCounts_spec|]. split; [by rewrite shardCounts_spec|]. split; [done|]. split.
  - split.
    + intros (Hr & Hb)%RepairNeeded_counts. lia.
    + intros Hfine. apply (all_fine_healthy sched root d0 d Hok Hrun); lia.
  - rewrite <- Hpf. eapply Forall2_impl_in; [exact Hxs|].
    intros fd x Hfd (s & Hs & ->). rewrite Hpf in Hfd.
    apply (status_of_true root d0); [by apply (verifying_get root d0 _ true (ok_distinct _ Hok) d)|].
    destruct (Hc fd Hfd) as [s' [[Hs' H']|[Hs' H']]]; assert (s' = s) as -> by congruence; [by left|by right].
Qed.

Lemma report_agrees_witness :
  ∃ d r, VerifyScans schedule0 disk_b set_a = Ok d ∧ logVerificationReport d (shardCountsLocked d) = Ok r ∧
    file_lines r = [DAMAGED (Filename file_a) 1 3] ∧ verdict_of r = MissingOrCorruptBlocks 1 1 0 0 ∧
    okCount r + missingCount r + damagedCount r + renameCount r = totalFiles r.
Proof.
  assert (VerifyScans schedule0 disk_b set_a =
    Ok (set_fileIntegrity {[ fd_FileID file_a := state_b ]} set_a)) as Hd by (vm_compute; reflexivity).
  destruct (report_agrees schedule0 disk_b set_a _ set_a_ok Hd) as (r & Hr & _ & Hsum & _).
  eexists _, r. split; [exact Hd|]. split; [exact Hr|]. vm_compute in Hr. injection Hr as <-.
  split; [reflexivity|]. split; [reflexivity|exact Hsum].
Defined.

(** ** The listing *)

Lemma name_le_refl a : name_le a a = true.
Proof. induction a as [|x a IH]; cbn [name_le]; [done|]. by rewrite Z.ltb_irrefl, Z.eqb_refl, IH. Qed.

Lemma name_le_total a b : name_le a b = true ∨ name_le b a = true.
Proof.
  revert b. induction a as [|x a IH]; intros [|y b]; cbn [name_le]; [by left|by left|by right|].
  destruct (Z.ltb_spec x y); [by left|]. destruct (Z.ltb_spec y x); [by right|].
  assert (x = y) as -> by lia. rewrite Z.eqb_refl. apply IH.
Qed.

Lemma name_le_trans a b c : name_le a b = true → name_le b c = true → name_le a c = true.
Proof.
  revert b c. induction a as [|x a IH]; intros [|y b] [|z c]; cbn [name_le]; try done.
  rewrite !orb_true_iff, !andb_true_iff, !Z.ltb_lt, !Z.eqb_eq.
  intros [H1|[-> H1]] [H2|[-> H2]]; [left; lia..|right; split; [done|by eapply IH]].
Qed.

Lemma name_le_antisym a b : name_le a b = true → name_le b a = true → a = b.
Proof.
  revert b. induction a as [|x a IH]; intros [|y b]; cbn [name_le]; try done.
  rewrite !orb_true_iff, !andb_true_iff, !Z.ltb_lt, !Z.eqb_eq.
  intros [H1|[-> H1]] [H2|[H2 H3]]; try lia. f_equal. by apply IH.
Qed.

#[export] Instance file_le_total : Total file_le.
Proof. intros f g. unfold file_le. destruct (name_le_total (Filename f) (Filename g)) as [-> | ->]; [by left|by right]. Qed.

#[export] Instance file_le_trans : Transitive file_le.
Proof.
  intros f g h. unfold file_le. rewrite !Is_true_true. apply name_le_trans.
Qed.

(** The listing at the start names every file of the set once with its size, in
    the order of the names, and every candidate once; when the names are
    distinct the lines of the files do not depend on the sorting algorithm. *)
Theorem listing_complete ties map_order d :
  (∀ l, ties l ≡ₚ l) → (∀ l, map_order l ≡ₚ l) →
  let l := logFilesAndCandidates ties map_order d in
  protects l ≡ₚ (λ fd, (Filename fd, ByteCount fd)) <$> protectedFiles d ∧
  StronglySorted (λ p q, name_le p.1 q.1 = true) (protects l) ∧
  NoDup (to_consider l) ∧ (∀ path, path ∈ to_consider l ↔ is_Some (candidateFiles d !! path)) ∧
  (NoDup (Filename <$> protectedFiles d) →
   ∀ l', l' ≡ₚ protectedFiles d → StronglySorted file_le l' →
     protects l = (λ fd, (Filename fd, ByteCount fd)) <$> l').
Proof.
  intros Hties Horder. cbv zeta. cbn [logFilesAndCandidates protects to_consider].
  assert (merge_sort file_le (ties (protectedFiles d)) ≡ₚ protectedFiles d) as Hp
    by (by rewrite merge_sort_Permutation).
  pose proof (StronglySorted_merge_sort file_le (ties (protectedFiles d))) as Hsort.
  split; [by rewrite Hp|]. split; [|split; [|split]].
  - clear Hp. induction Hsort as [|fd fds _ IH Hall]; [constructor|]. constructor; [done|].
    apply Forall_fmap. eapply Forall_impl; [exact Hall|]. intros g Hg. by apply Is_true_true.
  - rewrite (Horder _). apply NoDup_fst_map_to_list.
  - intros path. rewrite (Horder _). split.
    + intros ([p id] & -> & Hin)%list_elem_of_fmap. apply elem_of_map_to_list in Hin. by exists id.
    + intros [id Hid]. apply elem_of_map_to_list in Hid. by apply (list_elem_of_fmap_2 fst) in Hid.
  - intros Hnd l' Hl' Hs'. f_equal. apply (StronglySorted_unique_strong file_le); [|done|done|by rewrite Hp, Hl'].
    intros f g Hf Hg Hfg Hgf. rewrite Hp in Hf. rewrite Hl' in Hg.
    apply list_elem_of_lookup in Hf as [i Hi], Hg as [j Hj].
    assert (Filename f = Filename g) as Hn by (apply name_le_antisym; by apply Is_true_true).
    assert (i = j) as ->; [|congruence].
    eapply NoDup_lookup; [exact Hnd|..]; rewrite list_lookup_fmap; [by rewrite Hi|rewrite Hj; cbn; by rewrite Hn].
Qed.
