(* ===== verification/ProgressProperties.v ===== *)
(** * Properties of the progress messages

    The messages of a verification lead from 0 to the bytes that are read, and
    those of a repair from the first chunk to the last. *)

From stdpp Require Import gmap.
From S2P Require Import Prelude Gf16 Kernels Dispatch ReedSolomon.
From S2P Require Import Md5 Crc32 Packet CrcTable Decoder DecoderFacts Blocks BlocksFacts Verify VerifyFacts VerifyOutcome.
From S2P Require Import ScanProperties Repair Progress ProgressFacts.

(** ** The scan *)

(** The files of the set and the candidates that a verification scans. *)
Definition files_read (dp : Decoder) : list FileDescPacket :=
  List.filter (scanned dp) (protectedFiles dp).

Definition candidates_read (sched : Schedule) (d0 dp : Decoder) (resolved : gset (list Z)) : list (list Z) :=
  (List.filter (leftover resolved (list_to_set (Filename <$> protectedFiles dp)))
     (candidate_order sched (map_to_list (candidateFiles d0)))).*1.

Definition bytes_read (root : Root) (files : list FileDescPacket) (cands : list (list Z)) : Z :=
  bytes_sum (size_on root <$> (Filename <$> files) ++ cands).

Lemma bytes_read_described root files cands :
  (∀ fd, fd ∈ files → size_on root (Filename fd) = ByteCount fd) → cands = [] →
  bytes_read root files cands = bytes_sum (ByteCount <$> files).
Proof.
  intros H ->. unfold bytes_read. rewrite app_nil_r, <- list_fmap_compose. f_equal.
  apply list_fmap_ext. intros i fd Hi. apply H. by eapply list_elem_of_lookup_2.
Qed.

(** C39: Progress is complete.  When verification ends without error and nothing
    is cancelled, the prescans have left some files of the set, and some
    candidates, to scan.  If the files of the set have no bytes there are no
    messages.  Otherwise the first message is 0 of the sum of their described
    sizes, every message counts between 0 and the bytes that are read from disk,
    and one of them counts them all, in whatever order the goroutines add and
    send.  If those files have the described sizes and no candidate is left,
    the two sums are the same: the count ends at the total and never exceeds
    it. *)
Theorem verification_progress add_order send_order sched root d0 d :
  decoder_ok d0 → never_cancelled (ctx_polls sched) →
  (∀ l, add_order l ≡ₚ l) → (∀ l, send_order l ≡ₚ l) →
  VerifyScans sched root d0 = Ok d →
  ∃ dp resolved, prescans sched root d0 = Ok (dp, resolved) ∧
    let files := files_read dp in
    let cands := candidates_read sched d0 dp resolved in
    let total := bytes_sum (ByteCount <$> files) in
    let read := bytes_read root files cands in
    ((∀ fd, fd ∈ files → size_on root (Filename fd) = ByteCount fd) → cands = [] → read = total) ∧
    (total <= maxInt → read <= maxInt →
      ∃ ms, VerifyScans_messages add_order send_order sched root d0 = Ok ms ∧
        (total = 0 → ms = []) ∧
        (0 < total →
          head ms = Some {| Phase := PhaseVerifying; Current := 0; Total := total |} ∧
          (∀ m, m ∈ ms → Phase m = PhaseVerifying ∧ Total m = total ∧ 0 <= Current m <= read) ∧
          ∃ m, m ∈ ms ∧ Current m = read)).
Proof.
  intros Hok Hno Hadd Hsend Hrun.
  destruct (VerifyScans_prescans sched root d0 d Hrun) as (dp & resolved & window & table & ds & Hp & Hw & Ht & Hs).
  pose proof (prescans_verifying sched root d0 dp resolved (ok_distinct _ Hok) Hp) as Hv.
  pose proof (verifying_files root d0 (λ _, True) false dp Hv) as Hfiles.
  exists dp, resolved. split; [done|]. cbv zeta. split; [by apply bytes_read_described|].
  intros Htotal Hread.
  pose proof (calculateBytesToScan_sum dp ltac:(rewrite Hfiles; apply Hok) ltac:(rewrite Hfiles; apply Hv) Htotal) as Hcalc.
  destruct (scan_messages_counts add_order send_order (new_scanner sched window table dp) root
    (candidate_order sched (map_to_list (candidateFiles d0))) resolved
    (bytes_sum (ByteCount <$> files_read dp)) d0 dp ds sched)
    as (ms & Hms & Hall & Hlast); [done..|rewrite Hfiles; apply Hok|done|done|done|].
  unfold VerifyScans_messages. rewrite Hp. cbn [mbind result_bind]. rewrite Hcalc. cbn [mbind result_bind].
  fold (files_read dp). unfold initProgress.
  destruct (Z.leb_spec (bytes_sum (ByteCount <$> files_read dp)) 0) as [Hz|Hz].
  { exists []. split; [done|]. split; [done|lia]. }
  rewrite Hw, Ht, Hms. cbn [mbind result_bind]. eexists. split; [reflexivity|]. split; [lia|]. intros _.
  split; [done|]. assert (0 <= bytes_read root (files_read dp) (candidates_read sched d0 dp resolved)) as H0.
  { apply bytes_sum_nonneg, Forall_fmap, Forall_forall. intros n _. apply size_on_nonneg. }
  split.
  - intros m [->|Hm]%elem_of_cons; [by cbn|by apply Hall].
  - destruct (Z.eq_dec (bytes_read root (files_read dp) (candidates_read sched d0 dp resolved)) 0) as [->|Hn].
    + eexists. split; [apply list_elem_of_here|done].
    + destruct Hlast as (m & Hm & Hc); 
        [change (0 < bytes_read root (files_read dp) (candidates_read sched d0 dp resolved)); lia|].
      exists m. split; [by apply elem_of_cons; right|done].
Qed.

Definition verified_b : Decoder := set_fileIntegrity {[ fd_FileID file_a := state_b ]} set_a.

Lemma rev_permutes {A} (l : list A) : rev l ≡ₚ l.
Proof. symmetry. apply Permutation_rev. Qed.

(** The set before its scan. *)
Definition prescanned_b : Decoder :=
  set_fileIntegrity {[ fd_FileID file_a :=
    {| st_FileID := fd_FileID file_a; st_Filename := Filename file_a; Damage := damageUnchecked;
       RenameSource := []; ShardLocations := replicate 3 {| FileID_ := zero16; Offset := -1 |} |} ]} set_a.

Lemma prescans_b : prescans schedule0 disk_b set_a = Ok (prescanned_b, ∅).
Proof. vm_compute. reflexivity. Qed.

(** A schedule in which the chunks finish, and send, in the reverse order. *)
Lemma verification_progress_witness :
  ∃ ms, VerifyScans_messages (@rev Z) (@rev Progress) schedule0 disk_b set_a = Ok ms ∧
    ∃ m, m ∈ ms ∧ Current m = 9 ∧ Total m = 9.
Proof.
  assert (VerifyScans schedule0 disk_b set_a = Ok verified_b) as Hd by (vm_compute; reflexivity).
  pose proof (verification_progress (@rev Z) (@rev Progress) schedule0 disk_b set_a verified_b set_a_ok
    (λ _ _, eq_refl) rev_permutes rev_permutes Hd) as (dp & resolved & Hp & H). cbv zeta in H.
  rewrite prescans_b in Hp. injection Hp as <- <-.
  destruct H as (_ & ms & Hms & _ & H); [vm_compute; discriminate..|].
  destruct H as (_ & Hall & m & Hm & Hc); [vm_compute; reflexivity|].
  exists ms. split; [exact Hms|]. exists m. split; [exact Hm|].
  destruct (Hall m Hm) as (_ & Ht & _). rewrite Hc, Ht. split; vm_compute; reflexivity.
Defined.

(** The total counts described sizes, and no candidates: when the file on disk
    has grown to ten bytes, the last message counts ten of nine bytes. *)
Theorem progress_exceeds_total :
  is_ok (VerifyScans schedule0 (disk1 file_a (ascii "abcdXXXXij")) set_a) = true ∧
  VerifyScans_messages id id schedule0 (disk1 file_a (ascii "abcdXXXXij")) set_a =
  Ok [ {| Phase := PhaseVerifying; Current := 0; Total := 9 |};
       {| Phase := PhaseVerifying; Current := 10; Total := 9 |} ].
Proof. split; vm_compute; reflexivity. Qed.

(** ** The repair *)

Definition chunk_done (plan : repairPlan) (i : Z) : Progress :=
  {| Phase := PhaseRepairing; Current := i + 1; Total := plan_numChunks plan |}.

(** A repair sends one message per chunk that is done, in order: those of the
    first [k] chunks, and of all of them when it goes on to install the files. *)
Theorem repair_progress env b tb `{VK : !VectorKernels} d plan coder p :
  let ms := repair_messages env b tb d plan coder p in
  (∃ k, 0 <= k ∧ (k <= plan_numChunks plan ∨ k = 0) ∧ ms = chunk_done plan <$> range 0 k) ∧
  (∀ p', run_pipeline env tb b d plan coder p = (p', Ok tt) →
     ms = chunk_done plan <$> range 0 (plan_numChunks plan)).
Proof.
  cbv zeta. unfold repair_messages, run_pipeline. set (n := plan_numChunks plan).
  assert (∀ lo p, (∃ k, lo <= k ∧ (k <= n ∨ k = lo) ∧
      chunk_messages env b tb d plan coder (range lo n) p = chunk_done plan <$> range lo k) ∧
    (∀ p', forM (repair_chunk env tb b d plan coder) (range lo n) p = (p', Ok tt) →
      chunk_messages env b tb d plan coder (range lo n) p = chunk_done plan <$> range lo n)) as H.
  { refine (range_ind _ n _ _); intros lo Hlo.
    - intros q. rewrite range_nil by done. split; [|done]. exists lo. rewrite range_nil by lia.
      split; [lia|]. split; [by right|done].
    - intros IH q. rewrite range_cons by done. cbn [chunk_messages forM].
      unfold mbind, M_bind. destruct (repair_chunk env tb b d plan coder lo q) as [q1 [[]|e|e]].
      + destruct (IH q1) as [(k & Hk & Hkn & Hms) Hall]. split.
        * exists k. split; [lia|]. split; [lia|]. by rewrite Hms, (range_cons lo k), fmap_cons by lia.
        * intros p' Hp'. by rewrite (Hall p' Hp').
      + split; [|done]. exists lo. rewrite (range_nil lo lo) by lia. split; [lia|]. by split; [right|].
      + split; [|done]. exists lo. rewrite (range_nil lo lo) by lia. split; [lia|]. by split; [right|]. }
  destruct (H 0 p) as [Hsome Hall]. split; [exact Hsome|]. intros p'. unfold mbind, M_bind.
  destruct (forM _ _ p) as [p1 [[]|e|e]]; [|done..]. intros _. by eapply Hall.
Qed.
