(* ===== verification/RepairRestore.v ===== *)
(** * A repair that succeeds

    From what verification leaves to the end of [Repair]: the plan is made, the
    coder fits it, the pipeline (RepairRun.v) puts every file back, and nothing
    is left to fail but a singular matrix. *)

From stdpp Require Import gmap.
From S2P Require Import Prelude Gf16 Kernels Dispatch LinAlg Matrix ReedSolomon RsApply RsReconstruct.
From S2P Require Import Md5 Packet CrcTable Decoder DecoderFacts Blocks BlocksFacts Verify VerifyFacts.
From S2P Require Import VerifyOutcome VerifyLocated ScanProperties Repair RepairFacts RepairSound RepairChunks RepairRun.

(** ** What a repair needs *)

(** The contents the set describes. [orig] gives them by name; no file of the
    set on disk has the hash of its description by accident. *)
Record originals (root : Root) (d : Decoder) (orig : list Z → list Z) : Prop := {
  or_bytes : ∀ name, bytes (orig name);
  or_file : ∀ fd, fd ∈ protectedFiles d →
    len (orig (Filename fd)) = ByteCount fd ∧ md5_Sum (orig (Filename fd)) = fd_Hash fd;
  or_hash : ∀ fd data, fd ∈ protectedFiles d → root !! Filename fd = Some (Contents data) →
    md5_Sum data = fd_Hash fd → data = orig (Filename fd)
}.

(** A located block is on disk where its location says. *)
Definition located_right (env : Env) (root : Root) (d : Decoder) (orig : list Z → list Z) : Prop :=
  ∀ fd i loc, fd ∈ protectedFiles d → locations d fd !! i = Some loc → Offset loc ≠ -1 →
  0 <= Offset loc ∧ ∃ data,
    root !! default [] (buildFileIDToFilenameMap env d !! FileID_ loc) = Some (Contents data) ∧
    block_at (sliceByteCount d) data (Offset loc) =
    block_at (sliceByteCount d) (orig (Filename fd)) (Z.of_nat i * sliceByteCount d).

(** A recovery block is the row of its exponent times the data blocks. *)
Definition recovery_right (d : Decoder) (orig : list Z → list Z) : Prop :=
  let blocks := data_blocks (sliceByteCount d) orig (protectedFiles d) in
  map_Forall (λ k bs, bs = product_row vandermonde (len blocks) (sliceByteCount d) k blocks)
    (Decoder.parityShards d).

(** The goroutines of every chunk are run to their end. *)
Definition chunks_scheduled (env : Env) (b : build) (d : Decoder) (plan : repairPlan) : Prop :=
  ∀ i, 0 <= i < plan_numChunks plan →
  complete_schedule
    (perGoroutineSplit b (currChunkSize d plan i) (numGoroutines' (default_goroutines env) (numGoroutines d)))
    (currChunkSize d plan i)
    (calls_of (rs_ctx env i) (totalDataShards plan) (UnusableDataShardCount (counts plan)))
    (rs_schedule env i).

(** No file waits to be renamed. *)
Definition nothing_misnamed (d : Decoder) : Prop := map_Forall (λ _ s, RenameSource s = []) (fileIntegrity d).

(** What verification leaves of a set. *)
Record set_ready (root : Root) (d : Decoder) : Prop := {
  sr_slice : 0 < sliceByteCount d ∧ sliceByteCount d mod 4 = 0;
  sr_ids : NoDup (fd_FileID <$> protectedFiles d);
  sr_sizes : ∀ fd, fd ∈ protectedFiles d → 0 < ByteCount fd;
  sr_states : has_states d;
  sr_only : only_states d;
  sr_counts : ∀ fd, fd ∈ protectedFiles d →
    length (locations d fd) = Z.to_nat (shard_count (ByteCount fd) (sliceByteCount d)) ∧
    0 < shard_count (ByteCount fd) (sliceByteCount d) ∧
    (shard_count (ByteCount fd) (sliceByteCount d) - 1) * sliceByteCount d < ByteCount fd <=
      shard_count (ByteCount fd) (sliceByteCount d) * sliceByteCount d;
  sr_limit : ∀ m, len (flat_locations d m (protectedFiles d)) <= 32768;
  sr_verified : ∀ fd s, fd ∈ protectedFiles d → fileIntegrity d !! fd_FileID fd = Some s →
    needsRebuild s = false → RenameSource s = [] → verified root (Filename fd) fd;
  sr_exponents : map_Forall (λ k _, 0 <= k <= 32767) (Decoder.parityShards d)
}.

(** ** Verification leaves it *)

Lemma flat_locations_length d m fds :
  len (flat_locations d m fds) = foldr (λ fd n, len (locations d fd) + n) 0 fds.
Proof.
  unfold flat_locations. induction fds as [|fd fds IH]; [done|]. rewrite fmap_cons.
  cbn [mjoin list_join foldr]. rewrite <- IH. unfold len.
  rewrite length_app, Nat2Z.inj_add, length_fmap. unfold indexed.
  by rewrite length_zip, length_seq, Nat.min_id.
Qed.

Lemma VerifyScans_ready sched root d0 d :
  decoder_ok d0 → permutes sched → protectedFiles d0 ≠ [] → VerifyScans sched root d0 = Ok d →
  set_ready root d ∧ d = set_fileIntegrity (fileIntegrity d) d0.
Proof.
  intros [Hslice Hfiles Hids _ Hpar _] Hperm Hne Hrun.
  assert (∃ d1, initFileIntegrity d0 = Ok d1) as [d1 Hinit].
  { unfold VerifyScans in Hrun. cbv zeta in Hrun. destruct (initFileIntegrity d0); [by eexists|done..]. }
  unfold initFileIntegrity in Hinit.
  destruct (foldM (init_file d0) (0, ∅) (protectedFiles d0)) as [[tot m1]| |] eqn:Hfold;
    cbn [mbind result_bind] in Hinit; [|done..]. clear Hinit d1.
  apply init_files_inv in Hfold as (_ & Htot & Hlim). specialize (Hlim Hne) as [Hs0 Hlim].
  destruct Hslice as [|[Hs1 Hs4]]; [done|].
  apply (VerifyScans_verifying sched root d0 (λ _, True)) in Hrun as [Hv Hch]; [|done..].
  pose proof Hv as [Hsame Hall Hstate].
  assert (protectedFiles d = protectedFiles d0) as Hpf by (by rewrite Hsame).
  assert (sliceByteCount d = sliceByteCount d0) as Hsl by (by rewrite Hsame).
  rewrite Forall_forall in Hfiles.
  assert (∀ fd, fd ∈ protectedFiles d0 → ∃ s, fileIntegrity d !! fd_FileID fd = Some s ∧
    state_ok root d0 (λ _, True) true fd s) as Hget.
  { intros fd Hfd. destruct (Hall fd Hfd) as [s Hs]. exists s. split; [done|].
    by apply (verifying_get root d0 (λ _, True) true Hids d). }
  assert (∀ fd, fd ∈ protectedFiles d0 →
    length (locations d fd) = Z.to_nat (shard_count (ByteCount fd) (sliceByteCount d0)) ∧
    0 < shard_count (ByteCount fd) (sliceByteCount d0) ∧
    (shard_count (ByteCount fd) (sliceByteCount d0) - 1) * sliceByteCount d0 < ByteCount fd <=
      shard_count (ByteCount fd) (sliceByteCount d0) * sliceByteCount d0) as Hcnt.
  { intros fd Hfd. destruct (Hget fd Hfd) as (s & Hs & Hok). unfold locations. rewrite Hs.
    split; [by apply (s_shards _ _ _ _ _ _ Hok)|].
    destruct (shard_count_ceil (ByteCount fd) (sliceByteCount d0)) as (_ & H); [lia| |exact H].
    destruct (Hfiles fd Hfd) as (? & ?). lia. }
  split; [|done]. split; rewrite ?Hpf, ?Hsl; try done.
  - split; [lia|done].
  - intros fd Hfd. destruct (Hfiles fd Hfd) as (? & ?). lia.
  - intros fd. rewrite Hpf. apply Hall.
  - intros id s Hs. rewrite Hpf. destruct (Hstate id s Hs) as (fd & Hfd & <- & _).
    by apply list_elem_of_fmap_2.
  - intros m. rewrite flat_locations_length.
    assert (∀ fds, (∀ fd, fd ∈ fds → fd ∈ protectedFiles d0) →
      foldr (λ fd n, len (locations d fd) + n) 0 fds = total_shards d0 fds) as Hsum.
    { induction fds as [|fd fds IH]; intros Hfds; [done|]. cbn [foldr].
      rewrite IH by (intros; apply Hfds; by apply elem_of_cons; right).
      unfold total_shards. cbn [foldr]. f_equal. unfold len.
      destruct (Hcnt fd) as (-> & ? & _); [apply Hfds, list_elem_of_here|]. lia. }
    rewrite Hsum by done. lia.
  - intros fd s Hfd Hs Hnr Hrs. destruct (Hget fd Hfd) as (s' & Hs' & Hok).
    assert (s' = s) as -> by congruence. apply (s_damage _ _ _ _ _ _ Hok).
    destruct (Hch fd Hfd) as [s' [[Hs'' Hc]|[Hs'' Hc]]]; assert (s' = s) as -> by congruence; [|done].
    unfold needsRebuild in Hnr. by destruct (Damage s).
  - rewrite Hsame. cbn. intros k bs Hk. by apply (Hpar k bs).
Qed.

(** ** Located blocks can be read *)

(** Identifiers of candidates are told apart from those of the set and from each
    other, as MD5s of different texts are. *)
Definition names_apart (d : Decoder) : Prop :=
  (∀ name id, candidateFiles d !! name = Some id → id ∉ fd_FileID <$> protectedFiles d) ∧
  (∀ name name' id, candidateFiles d !! name = Some id → candidateFiles d !! name' = Some id → name' = name).

Lemma insert_names_lookup {A} (key : A → FileID) (val : A → list Z) (l : list A)
    (m : gmap FileID (list Z)) id :
  (∃ x, x ∈ l ∧ key x = id ∧ foldl (λ m x, <[key x := val x]> m) m l !! id = Some (val x)) ∨
  ((∀ x, x ∈ l → key x ≠ id) ∧ foldl (λ m x, <[key x := val x]> m) m l !! id = m !! id).
Proof.
  revert m. induction l as [|x l IH]; intros m; cbn [foldl].
  { right. split; [by intros x ?%elem_of_nil|done]. }
  destruct (IH (<[key x := val x]> m)) as [(y & Hy & Hk & ->)|[Hno ->]].
  { left. exists y. split; [by apply elem_of_cons; right|done]. }
  destruct (decide (key x = id)) as [<-|Hne].
  - left. exists x. split; [apply list_elem_of_here|]. by rewrite lookup_insert_eq.
  - right. rewrite lookup_insert_ne by done. split; [|done].
    intros y [->|Hy]%elem_of_cons; [done|by apply Hno].
Qed.

Lemma cands_insert (cands : list (list Z * FileID)) (m : gmap FileID (list Z)) :
  foldl (λ m '(path, id), <[id := path]> m) m cands = foldl (λ m x, <[snd x := fst x]> m) m cands.
Proof. revert m. induction cands as [|[p j] l IH]; intros m; [done|]. cbn. apply IH. Qed.

Lemma source_name env d id name :
  (∀ l, candidates_order env l ≡ₚ l) → NoDup (fd_FileID <$> protectedFiles d) → names_apart d →
  names_file d id name → buildFileIDToFilenameMap env d !! id = Some name.
Proof.
  intros Hperm Hids [Hap Hinj] Hname. unfold buildFileIDToFilenameMap.
  set (m0 := foldl _ ∅ (protectedFiles d)).
  set (cands := candidates_order env (map_to_list (candidateFiles d))).
  assert (∀ p j, (p, j) ∈ cands ↔ candidateFiles d !! p = Some j) as Hc.
  { intros p j. unfold cands. rewrite (Hperm _). apply elem_of_map_to_list. }
  rewrite cands_insert.
  destruct (insert_names_lookup snd fst cands m0 id) as [([p j] & Hin & Hj & ->)|[Hno ->]]; cbn in *.
  - subst j. apply Hc in Hin. destruct Hname as [(fd & Hfd & <- & <-)|Hcand].
    + exfalso. by eapply Hap, list_elem_of_fmap_2.
    + f_equal. by eapply Hinj.
  - destruct Hname as [(fd & Hfd & <- & <-)|Hcand].
    2:{ exfalso. by apply (Hno (name, id)); [apply Hc|]. }
    unfold m0. destruct (insert_names_lookup fd_FileID Filename (protectedFiles d) ∅ (fd_FileID fd))
      as [(fd' & Hin & He & ->)|[Hno' _]]; [|by destruct (Hno' fd)].
    by rewrite (NoDup_key fd_FileID _ _ _ Hids Hin Hfd He).
Qed.

Lemma source_name_inv env d id name :
  (∀ l, candidates_order env l ≡ₚ l) → buildFileIDToFilenameMap env d !! id = Some name →
  names_file d id name.
Proof.
  intros Hperm. unfold buildFileIDToFilenameMap. set (m0 := foldl _ ∅ (protectedFiles d)).
  set (cands := candidates_order env (map_to_list (candidateFiles d))).
  assert (∀ p j, (p, j) ∈ cands → candidateFiles d !! p = Some j) as Hc.
  { intros p j. unfold cands. rewrite (Hperm _). apply elem_of_map_to_list. }
  rewrite cands_insert.
  destruct (insert_names_lookup snd fst cands m0 id) as [([p j] & Hin & Hj & ->)|[_ ->]]; cbn in *.
  - intros [= <-]. right. subst j. by apply Hc.
  - unfold m0. destruct (insert_names_lookup fd_FileID Filename (protectedFiles d) ∅ id)
      as [(fd & Hin & He & ->)|[_ ->]]; [|by rewrite lookup_empty].
    intros [= <-]. left. by exists fd.
Qed.

(** The checksums of the set are those of the original blocks. *)
Definition checksums_right (d : Decoder) (orig : list Z → list Z) : Prop :=
  ∀ fd p i pr, fd ∈ protectedFiles d → fileChecksums d !! fd_FileID fd = Some p →
    ChecksumPairs p !! i = Some pr →
    MD5 pr = md5_Sum (block_at (sliceByteCount d) (orig (Filename fd)) (Z.of_nat i * sliceByteCount d)).

(** [data] holds nothing but zeros, if anything, in the [m] bytes from [n] on. *)
Definition zeros_after (data : list Z) (n m : Z) : Prop :=
  ReadAt data n (Z.to_nat m) = replicate (Z.to_nat m) 0.

(** The last block of a file read back is what the scan padded with zeros just
    when there are zeros after the described length. *)
Lemma tail_reads bs data n :
  0 < bs → 0 <= n →
  block_at bs data (n / bs * bs) = block_at bs (take (Z.to_nat n) data) (n / bs * bs) ↔
  zeros_after data n (bs - n mod bs).
Proof.
  intros Hbs Hn. pose proof (Z.mod_pos_bound n bs Hbs) as Hm.
  pose proof (Z.div_mod n bs ltac:(lia)) as Hd. assert (0 <= n / bs) by (apply Z.div_pos; lia).
  unfold zeros_after, block_at. split; intros H'; apply list_eq; intros k.
  - destruct (decide (k < Z.to_nat (bs - n mod bs))%nat) as [Hk|].
    2:{ rewrite !lookup_ge_None_2; rewrite ?ReadAt_length, ?length_replicate; lia || done. }
    apply (f_equal (λ l, l !! (Z.to_nat (n mod bs) + k)%nat)) in H'. rewrite !ReadAt_lookup in H' by lia.
    rewrite lookup_replicate_2, ReadAt_lookup by done.
    rewrite (lookup_take_ge data) in H' by nia. cbn in H'. rewrite <- H'. do 3 f_equal. nia.
  - destruct (decide (k < Z.to_nat bs)%nat) as [Hk|].
    2:{ rewrite !lookup_ge_None_2; rewrite ?ReadAt_length; lia || done. }
    rewrite !ReadAt_lookup by done. destruct (decide (k < Z.to_nat (n mod bs))%nat).
    + by rewrite lookup_take_lt by nia.
    + rewrite (lookup_take_ge _ _ (Z.to_nat _ + k)) by nia.
      apply (f_equal (λ l, l !! (k - Z.to_nat (n mod bs))%nat)) in H'.
      rewrite lookup_replicate_2, ReadAt_lookup in H' by lia. cbn. rewrite <- H'. do 3 f_equal. nia.
Qed.

(** No bytes on disk have the MD5 of other data by accident; and when the last
    block of a file of the set is shorter than a slice, then what the file holds
    on disk where the slice goes on, if anything, are zeros: verification pads
    that block with zeros, and the repair reads what is there. *)
Record disk_honest (root : Root) (d : Decoder) (orig : list Z → list Z) : Prop := {
  dh_file : ∀ fd name data, fd ∈ protectedFiles d → root !! name = Some (Contents data) →
    md5_Sum data = fd_Hash fd → data = orig (Filename fd);
  dh_block : ∀ fd i name data n off, fd ∈ protectedFiles d → root !! name = Some (Contents data) →
    n = len data ∨ (∃ fd', fd' ∈ protectedFiles d ∧ n = ByteCount fd') →
    let original := block_at (sliceByteCount d) (orig (Filename fd)) (Z.of_nat i * sliceByteCount d) in
    let found := block_at (sliceByteCount d) (take (Z.to_nat n) data) off in
    md5_Sum found = md5_Sum original → found = original;
  dh_tail : ∀ fd data, fd ∈ protectedFiles d → root !! Filename fd = Some (Contents data) →
    ByteCount fd mod sliceByteCount d ≠ 0 →
    zeros_after data (ByteCount fd) (sliceByteCount d - ByteCount fd mod sliceByteCount d)
}.

(** Nothing is wrong with the end of a file that has not grown. *)
Lemma zeros_after_end data n m : len data <= n → zeros_after data n m.
Proof.
  intros Hn. unfold zeros_after. apply list_eq_same_length with (n := Z.to_nat m);
    [by rewrite length_replicate|apply ReadAt_length|].
  intros k x y Hk. rewrite lookup_replicate_2, ReadAt_lookup by done.
  rewrite lookup_ge_None_2 by (unfold len in Hn; lia). cbn. congruence.
Qed.

(** What verification locates can be read back. *)
Lemma located_readable env root d0 d orig :
  (∀ l, candidates_order env l ≡ₚ l) → NoDup (fd_FileID <$> protectedFiles d0) → names_apart d0 →
  checksums_right d0 orig → disk_honest root d0 orig → 0 < sliceByteCount d0 →
  (∀ fd, fd ∈ protectedFiles d0 → 0 <= ByteCount fd) →
  d = set_fileIntegrity (fileIntegrity d) d0 → all_located root d0 d → located_right env root d orig.
Proof.
  intros Hperm Hids Hap Hsums [Hfile Hblock Htail] Hs Hsize Hsame Hall fd i loc Hfd Hi Hne.
  assert (buildFileIDToFilenameMap env d = buildFileIDToFilenameMap env d0) as -> by (by rewrite Hsame).
  assert (sliceByteCount d = sliceByteCount d0) as -> by (by rewrite Hsame).
  assert (protectedFiles d = protectedFiles d0) as Hpf by (by rewrite Hsame). rewrite Hpf in Hfd.
  unfold locations in Hi. destruct (fileIntegrity d !! fd_FileID fd) as [s|] eqn:Hst; [|done].
  destruct (Hall _ s Hst i loc Hi Hne) as
    [fd' name data Hfd' He Hname Hdata Hh Hoff|name data n Hname Hdata H0 Hread (p & pr & Hp & Hpr & _ & Hmd)].
  - assert (fd' = fd) as -> by (by apply (NoDup_key fd_FileID _ _ _ Hids)).
    rewrite (source_name env d0 _ name Hperm Hids Hap Hname), Hoff. split; [nia|].
    exists data. split; [done|]. by rewrite <- (Hfile fd name data Hfd Hdata Hh).
  - rewrite (source_name env d0 _ name Hperm Hids Hap Hname). split; [done|]. exists data. split; [done|].
    rewrite (Hsums fd p i pr Hfd Hp Hpr) in Hmd. symmetry in Hmd.
    apply (Hblock fd i name data _ _ Hfd Hdata) in Hmd;
      [|destruct Hread as [|(fd' & ? & _ & ? & _)]; [by left|right; by exists fd']].
    rewrite <- Hmd. destruct Hread as [->|(fd' & Hfd' & He & -> & [Hm Hoff])].
    { by rewrite take_ge by (unfold len; lia). }
    rewrite Hoff. apply tail_reads; [done|by apply Hsize|].
    destruct Hname as [(fd2 & Hfd2 & He2 & <-)|Hcand].
    + pose proof (NoDup_key fd_FileID _ fd2 fd' Hids Hfd2 Hfd' (eq_trans He2 (eq_sym He))) as ->. by apply Htail.
    + exfalso. apply (proj1 Hap _ _ Hcand). rewrite <- He. by apply list_elem_of_fmap_2.
Qed.

(** ** The plan is made *)

Lemma newRepairPipeline_made plan :
  0 < totalDataShards plan <= 32768 → 0 < totalParityShards plan <= 65535 →
  ∃ mx, newRepairPipeline gf_tables plan =
          Ok (mkCoder (totalDataShards plan) (totalParityShards plan) mx) ∧
        mrel (totalParityShards plan) (totalDataShards plan) mx vandermonde.
Proof. exact (NewCoder_ok gf_tables (totalDataShards plan) (totalParityShards plan)). Qed.

Lemma buildNeedsWrite_ok d : has_states d →
  ∃ w, buildNeedsWrite d = Ok w ∧ ∀ t, t ∈ w → t ∈ Filename <$> protectedFiles d.
Proof.
  intros H. unfold buildNeedsWrite.
  assert (∀ (fds : list FileDescPacket) (w0 : gset (list Z)), (∀ fd, fd ∈ fds → fd ∈ protectedFiles d) →
    (∀ t, t ∈ w0 → t ∈ Filename <$> protectedFiles d) →
    ∃ w, foldM (λ w f, state ← get_state (fd_FileID f) d;
      Ok (if needs_write d f state then {[Filename f]} ∪ w else w)) w0 fds = Ok w ∧
      ∀ t, t ∈ w → t ∈ Filename <$> protectedFiles d) as Hgen.
  { induction fds as [|fd fds IH]; intros w0 Hfds Hw0; cbn [foldM]; [by eexists|].
    assert (fd ∈ protectedFiles d) as Hfd by (apply Hfds, list_elem_of_here).
    destruct (has_states_get d fd H Hfd) as (s & -> & _). cbn [mbind result_bind]. apply IH.
    - intros. apply Hfds. by apply elem_of_cons; right.
    - intros t. destruct (needs_write d fd s); [|by apply Hw0].
      intros [->%elem_of_singleton|Ht]%elem_of_union; [by apply list_elem_of_fmap_2|by apply Hw0]. }
  apply Hgen; [done|]. intros t Ht. by apply elem_of_empty in Ht.
Qed.

Lemma maxExp_bound d hi : 0 <= hi → map_Forall (λ k _, 0 <= k <= hi) (Decoder.parityShards d) →
  0 <= maxExp d <= hi ∧ map_Forall (λ k _, 0 <= k <= maxExp d) (Decoder.parityShards d).
Proof.
  intros Hhi. unfold maxExp.
  apply (map_fold_weak_ind (λ (r : Z) (m : gmap Z (list Z)), map_Forall (λ k _, 0 <= k <= hi) m →
    0 <= r <= hi ∧ map_Forall (λ k _, 0 <= k <= r) m)).
  - intros _. split; [lia|apply map_Forall_empty].
  - intros k v m r Hk IH Hm. apply map_Forall_insert in Hm as [Hv Hm]; [|done].
    destruct (IH Hm) as [Hr Hall]. split; [lia|]. apply map_Forall_insert_2; [lia|].
    eapply map_Forall_impl; [exact Hall|]. cbn. lia.
Qed.

Section Restore.
Context (env : Env) (b : build) (root : Root) (d : Decoder) (orig : list Z → list Z).
Context `{VK : !VectorKernels} `{!VectorKernelsOk gf_tables VK}.
Hypothesis (Hob : obliging env) (Hready : set_ready root d) (Hmemory : 0 < memoryLimit d).
Hypothesis (Hnames : NoDup (Filename <$> protectedFiles d)).
Hypothesis (Horig : originals root d orig).
Hypothesis (Hloc : located_right env root d orig) (Hrec : recovery_right d orig).
Hypothesis (Htemps : ∀ t, root !! temp_name env t = None).
Hypothesis (Hfresh : ∀ t fd, fd ∈ protectedFiles d → temp_name env t ≠ Filename fd).
Hypothesis (Hsome : protectedFiles d ≠ []).

Let m := buildFileIDToFilenameMap env d.
Let fls := flat_locations d m (protectedFiles d).

Lemma blocks_rows :
  data_blocks (sliceByteCount d) orig (protectedFiles d) = row_block (sliceByteCount d) orig <$> fls.
Proof. apply data_blocks_rows. intros fd Hfd. by apply (sr_counts _ _ Hready). Qed.

Lemma rows_pos : 0 < len fls <= 32768.
Proof.
  split; [|apply (sr_limit _ _ Hready)]. unfold fls. rewrite flat_locations_length.
  pose proof (sr_counts _ _ Hready) as Hc. pose proof Hsome as Hne. revert Hc Hne.
  generalize (protectedFiles d). intros [|fd fds] Hc Hne; [done|].
  cbn [foldr]. destruct (Hc fd (list_elem_of_here _ _)) as (Hl & Hp & _).
  assert (∀ l, 0 <= foldr (λ fd n, len (locations d fd) + n) 0 l) as H0.
  { induction l as [|x l IH]; [done|]. cbn [foldr].
    assert (0 <= len (locations d x)) by (unfold len; lia). lia. }
  specialize (H0 fds). assert (0 < len (locations d fd)) by (unfold len; lia). lia.
Qed.

Lemma recovery_rows k bs : Decoder.parityShards d !! k = Some bs →
  bs = product_row vandermonde (len fls) (sliceByteCount d) k
         (row_block (sliceByteCount d) orig <$> fls).
Proof.
  intros Hk. pose proof (Hrec k bs Hk) as H. cbv beta zeta in H. rewrite blocks_rows in H.
  unfold len in H. by rewrite length_fmap in H.
Qed.

Lemma slice_even : 0 < sliceByteCount d ∧ sliceByteCount d mod 2 = 0.
Proof. destruct (sr_slice _ _ Hready). split; [done|dlia]. Qed.

Lemma plan_made n : ∃ plan, planRepair env d n = Ok plan ∧ flatLocs plan = fls ∧
  totalDataShards plan = len fls ∧ counts plan = shardCountsLocked d ∧
  totalParityShards plan = maxExp d + 1 ∧ 0 < chunkSize plan ∧ chunkSize plan mod 2 = 0 ∧
  plan_numChunks plan = Z.quot (sliceByteCount d + chunkSize plan - 1) (chunkSize plan) ∧
  (∀ t, t ∈ needsWrite plan → t ∈ Filename <$> protectedFiles d).
Proof.
  destruct slice_even as [Hs He]. pose proof (sr_states _ _ Hready) as Hst.
  assert (∃ plan, planRepair env d n = Ok plan) as [plan Hplan].
  { unfold planRepair, validateParityShards.
    rewrite bool_decide_eq_true_2.
    2:{ intros k bs Hk. rewrite (recovery_rows k bs Hk). apply (product_row_length _ He ltac:(lia) []). }
    cbn [negb err_if mbind result_bind]. rewrite (count_shards_ok d m Hst). cbn [mbind result_bind].
    fold fls. unfold computeChunkSize.
    rewrite (proj2 (Z.leb_gt _ 0)).
    2:{ pose proof rows_pos. rewrite shardCounts_spec. cbn [UnusableDataShardCount].
        assert (0 <= sum_states missing_locs (fileIntegrity d)).
        { apply sum_states_nonneg. intros s. unfold missing_locs, len. lia. } lia. }
    cbn [err_if mbind result_bind]. fold m. rewrite (buildFlatLocs_ok d m Hst). cbn [mbind result_bind].
    destruct (buildNeedsWrite_ok d Hst) as (w & -> & _). by eexists. }
  exists plan. split; [done|].
  apply planRepair_inv in Hplan as (_ & Hct & Htot & Hc & Hfl & Hw & Hp & Hn).
  apply computeChunkSize_spec in Hc as (_ & H16 & Hmod & _); [|done..].
  fold m in Hfl. rewrite (buildFlatLocs_ok d m Hst) in Hfl. injection Hfl as Hfl.
  rewrite (count_shards_ok d m Hst) in Htot. injection Htot as Htot.
  split; [done|]. split; [done|]. split; [done|]. split; [done|]. split; [lia|]. split; [dlia|].
  split; [done|]. destruct (buildNeedsWrite_ok d Hst) as (w & Hw' & Hsub).
  assert (w = needsWrite plan) as <- by congruence. done.
Qed.

Lemma file_rows fd j : fd ∈ protectedFiles d → 0 <= j → j * sliceByteCount d < ByteCount fd →
  ∃ fl, fl ∈ fls ∧ targetFilename fl = Filename fd ∧ fl_shardIndex fl = j.
Proof.
  intros Hfd Hj Hlt. destruct (sr_counts _ _ Hready fd Hfd) as (Hl & Hp & _ & Hle).
  destruct slice_even as [Hs _].
  destruct (lookup_lt_is_Some_2 (locations d fd) (Z.to_nat j)) as [loc Hloc']; [nia|].
  exists (flat_loc m fd (Z.to_nat j, loc)). split; [|split; [done|cbn; lia]].
  apply flat_locations_elem. by exists fd, (Z.to_nat j), loc.
Qed.

Lemma located_rows fl : fl ∈ fls → diskOffset fl ≠ -1 →
  0 <= diskOffset fl ∧ ∃ data, root !! sourceFilename fl = Some (Contents data) ∧
    block_at (sliceByteCount d) data (diskOffset fl) = row_block (sliceByteCount d) orig fl.
Proof.
  intros (fd & i & loc & Hfd & Hi & ->)%flat_locations_elem Hne. cbn in Hne.
  destruct (Hloc fd i loc Hfd Hi Hne) as (H0 & data & Hd & Hb). split; [done|]. exists data.
  cbn [flat_loc sourceFilename diskOffset]. rewrite (proj2 (Z.eqb_neq _ _) Hne). by split.
Qed.

(** What the pipeline leaves of the files of the set. *)
Definition rebuilt_all (plan : repairPlan) (q : pipeline) : Prop :=
  ∀ fd, fd ∈ protectedFiles d → fs q !! Filename fd =
    if bool_decide (Filename fd ∈ needsWrite plan) then Some (Contents (orig (Filename fd)))
    else root !! Filename fd.

Lemma pipeline_restores n plan mx :
  planRepair env d n = Ok plan →
  mrel (totalParityShards plan) (totalDataShards plan) mx vandermonde →
  RepairPossible (shardCountsLocked d) = true → chunks_scheduled env b d plan →
  runs (singular d plan) (pipe_start root)
    (run_pipeline env gf_tables b d plan (mkCoder (totalDataShards plan) (totalParityShards plan) mx))
    (λ _, rebuilt_all plan).
Proof.
  intros Hplan Hrel Hpos Hsched.
  destruct (plan_made n) as (plan' & Hplan' & Hfl & Htot & Hct & Hp & Hc & Hce & Hn & Hw).
  assert (plan' = plan) as -> by congruence. destruct slice_even as [Hs Hse].
  pose proof rows_pos as Hrows.
  destruct (maxExp_bound d 32767 ltac:(lia) (sr_exponents _ _ Hready)) as [Hmax Hexp].
  rewrite Htot in *. rewrite <- Hfl in Hrel, Hrows |- *.
  assert (UnusableDataShardCount (shardCountsLocked d) = len (missing_of (rows_there (flatLocs plan)))) as Hmiss.
  { rewrite Hfl. apply missing_count; [apply (sr_ids _ _ Hready)|apply (sr_states _ _ Hready)|apply (sr_only _ _ Hready)]. }
  apply (run_pipeline_runs env Hob gf_tables b root d plan orig);
    [exact Hs|exact Hse|exact Hc|exact Hce|exact Hn|exact Hrows|lia| | | | |exact Htemps
    |exact Hrel| | |exact Hnames|exact Hfresh| | |exact Hw].
  - intros fl. rewrite Hfl. intros (fd & i & loc & _ & _ & ->)%flat_locations_elem. cbn. lia.
  - apply (or_bytes _ _ _ Horig).
  - intros fl. rewrite Hfl. apply located_rows.
  - intros k bs. rewrite Hfl. apply recovery_rows.
  - rewrite present_parity_count.
    2:{ eapply map_Forall_impl; [exact Hexp|]. cbn. lia. }
    unfold RepairPossible in Hpos. rewrite Hmiss, shardCounts_spec in Hpos.
    cbn [UsableParityShardCount] in Hpos. apply Z.geb_le in Hpos. unfold len in Hpos. lia.
  - intros i Hi. specialize (Hsched i Hi). by rewrite Hct, Hmiss, Htot, <- Hfl in Hsched.
  - intros fd Hfd. split; [by apply (sr_sizes _ _ Hready)|]. by apply (or_file _ _ _ Horig).
  - intros fd j Hfd. rewrite Hfl. by apply file_rows.
Qed.

(** The files that no write was planned for are as they should be. *)
Lemma unwritten_original n plan fd :
  planRepair env d n = Ok plan → nothing_misnamed d → fd ∈ protectedFiles d →
  Filename fd ∉ needsWrite plan → root !! Filename fd = Some (Contents (orig (Filename fd))).
Proof.
  intros Hplan Hmis Hfd Hni. apply planRepair_needsWrite in Hplan.
  destruct (buildNeedsWrite_spec d _ fd Hplan Hfd) as (s & Hs & Hn).
  destruct (sr_verified _ _ Hready fd s Hfd Hs) as (data & Hd & Hh); [|by apply (Hmis _ s Hs)|].
  - destruct (needsRebuild s) eqn:Hnr; [|done]. destruct Hni. apply Hn. unfold needs_write. by rewrite Hnr.
  - by rewrite <- (or_hash _ _ _ Horig fd data Hfd Hd Hh).
Qed.

Lemma renameMisnamedFiles_nothing :
  nothing_misnamed d → renameMisnamedFiles env root d = Ok (root, d, 0).
Proof.
  intros Hmis. unfold renameMisnamedFiles.
  assert (∀ fds, (∀ fd, fd ∈ fds → fd ∈ protectedFiles d) →
    foldM (rename_file env) (root, d, 0) fds = Ok (root, d, 0)) as H; [|by apply H].
  induction fds as [|fd fds IH]; intros Hfds; [done|]. cbn [foldM].
  assert (fd ∈ protectedFiles d) as Hfd by (apply Hfds, list_elem_of_here).
  unfold rename_file. destruct (has_states_get d fd (sr_states _ _ Hready) Hfd) as (s & -> & Hs & _).
  cbn [mbind result_bind]. rewrite bool_decide_eq_true_2 by (by apply (Hmis _ s Hs)).
  apply IH. intros. apply Hfds. by apply elem_of_cons; right.
Qed.

(** The end of a repair: everything is there, or the matrix was singular. *)
Definition restored (root' : Root) : Prop :=
  ∀ fd, fd ∈ protectedFiles d → root' !! Filename fd = Some (Contents (orig (Filename fd))).

Lemma run_restores n plan mx :
  planRepair env d n = Ok plan →
  mrel (totalParityShards plan) (totalDataShards plan) mx vandermonde →
  RepairPossible (shardCountsLocked d) = true → chunks_scheduled env b d plan → nothing_misnamed d →
  let coder := mkCoder (totalDataShards plan) (totalParityShards plan) mx in
  let run := run_pipeline env gf_tables b d plan coder (no_handles root) in
  (run.2 = Ok tt ∧ restored (close env run.1)) ∨ ∃ e, run.2 = Err e ∧ singular d plan e.
Proof.
  intros Hplan Hrel Hpos Hsched Hmis. cbv zeta.
  set (coder := mkCoder _ _ _).
  pose proof (pipeline_restores n plan mx Hplan Hrel Hpos Hsched (no_handles root) eq_refl) as Hr.
  fold coder in Hr.
  pose proof (run_pipeline_spec env gf_tables b d plan coder Hnames Hfresh root (no_handles root)
    (no_handles_ok env root)) as Hspec.
  generalize dependent (run_pipeline env gf_tables b d plan coder (no_handles root)).
  intros [q [[]|e|e]] Hr Hspec; cbn [fst snd]; [left|right; by exists e|done].
  split; [done|]. intros fd Hfd. rewrite close_lookup.
  - rewrite (Hr fd Hfd). case_bool_decide; [done|]. by eapply unwritten_original.
  - destruct Hspec as [[_ _ Ht] _]. intros t He%Ht. by eapply (Hfresh t fd).
Qed.

Lemma Repair_run root1 d1 n :
  renameMisnamedFiles env root1 d1 = Ok (root, d, n) →
  (∀ plan, planRepair env d n = Ok plan → chunks_scheduled env b d plan) →
  RepairPossible (shardCountsLocked d) = true → nothing_misnamed d →
  ∃ root' d' r, Repair env gf_tables b root1 d1 = (root', d', r) ∧
    ((r = Ok tt ∧ restored root') ∨
     ∃ plan e, planRepair env d n = Ok plan ∧ r = Err e ∧ singular d plan e).
Proof.
  intros Hren Hsched Hpos Hmis. unfold Repair. rewrite Hren. cbv zeta.
  destruct (RepairNeeded (shardCountsLocked d)) eqn:Hneed; cbn [negb].
  2:{ exists root, d, (Ok tt). split; [done|]. left. split; [done|]. intros fd Hfd.
      rewrite RepairNeeded_spec in Hneed.
      destruct (has_states_get d fd (sr_states _ _ Hready) Hfd) as (s & _ & Hs & _).
      destruct (Hneed _ s Hs) as (Hrs & Hnr & _).
      destruct (sr_verified _ _ Hready fd s Hfd Hs Hnr Hrs) as (data & Hd & Hh).
      by rewrite <- (or_hash _ _ _ Horig fd data Hfd Hd Hh). }
  rewrite Hpos. cbn [negb].
  destruct (plan_made n) as (plan & Hplan & Hfl & Htot & _ & Hp & _). rewrite Hplan.
  pose proof rows_pos as Hrows.
  destruct (maxExp_bound d 32767 ltac:(lia) (sr_exponents _ _ Hready)) as [Hmax _].
  destruct (newRepairPipeline_made plan) as (mx & -> & Hrel); [lia|lia|].
  pose proof (run_restores n plan mx Hplan Hrel Hpos (Hsched plan Hplan) Hmis) as Hr. cbv zeta in Hr.
  generalize dependent (run_pipeline env gf_tables b d plan
    (mkCoder (totalDataShards plan) (totalParityShards plan) mx) (no_handles root)).
  intros [q r] Hr. cbn [fst snd] in Hr. exists (close env q), d, r. split; [done|].
  destruct Hr as [Hr|(e & Hr)]; [by left|right]. by exists plan, e.
Qed.

End Restore.
