(* ===== verification/RepairRename.v ===== *)
(** * Renaming keeps what the repair needs

    [renameMisnamedFiles] moves candidates into the places of files that are not
    there.  When no candidate is a file of the set and no rename replaces a file
    that is on disk, every located block can still be read afterwards, no more
    blocks are missing, and no file waits to be renamed. *)

From stdpp Require Import gmap.
From S2P Require Import Prelude Gf16 Kernels Dispatch LinAlg Matrix ReedSolomon RsApply RsReconstruct.
From S2P Require Import Md5 Packet CrcTable Decoder DecoderFacts Blocks BlocksFacts Verify VerifyFacts.
From S2P Require Import VerifyOutcome VerifyLocated Repair RepairFacts RepairSound RepairChunks RepairRun RepairRestore.

#[export] Instance FileDescPacket_eq_dec : EqDecision FileDescPacket.
Proof. solve_decision. Defined.

(** The names files may be renamed from. *)
Definition listed (d : Decoder) (name : list Z) : Prop := is_Some (candidateFiles d !! name).

(** The reverse index of the candidates is right. *)
Definition candidates_consistent (d : Decoder) : Prop :=
  ∀ id name, candidateByID d !! id = Some name → candidateFiles d !! name = Some id.

(** A rename goes to a name that is free. *)
Definition renames_into_gaps (root : Root) (d : Decoder) : Prop :=
  ∀ fd s, fd ∈ protectedFiles d → fileIntegrity d !! fd_FileID fd = Some s → RenameSource s ≠ [] →
    root !! Filename fd = None.

Section Rename.
Context (env : Env) (root0 : Root) (d0 dv : Decoder) (orig : list Z → list Z).
Hypothesis (Horder : ∀ l, candidates_order env l ≡ₚ l).
Hypothesis (Hids : NoDup (fd_FileID <$> protectedFiles d0)).
Hypothesis (Hnames : NoDup (Filename <$> protectedFiles d0)).
Hypothesis (Hapart : names_apart d0).
Hypothesis (Hsrc : ∀ fd, fd ∈ protectedFiles d0 → ¬ listed d0 (Filename fd)).
Hypothesis (Htemps : ∀ t fd, fd ∈ protectedFiles d0 → temp_name env t ≠ Filename fd).

(** Between two renames. *)
Record mendable (root : Root) (d : Decoder) : Prop := {
  md_renaming : renaming (listed d0) root0 d0 root d;
  md_only : only_states d;
  md_lengths : ∀ fd, fd ∈ protectedFiles d0 → length (locations d fd) = length (locations dv fd);
  md_missing : ∀ fd, fd ∈ protectedFiles d0 → of_file missing_locs d fd <= of_file missing_locs dv fd;
  md_located : located_right env root d orig;
  md_honest : ∀ fd name data, fd ∈ protectedFiles d0 → root !! name = Some (Contents data) →
    md5_Sum data = fd_Hash fd → data = orig (Filename fd);
  md_gaps : renames_into_gaps root d;
  md_temps : ∀ t, root !! temp_name env t = None;
  md_positive : 0 < sliceByteCount d
}.

Lemma mendable_files root d : mendable root d → protectedFiles d = protectedFiles d0.
Proof. intros H. by rewrite (rn_same _ _ _ _ _ (md_renaming _ _ H)). Qed.

(** *** A rename that is given up *)

Lemma put_same_lookup d fd fd' s :
  fd ∈ protectedFiles d0 → fd' ∈ protectedFiles d0 →
  fileIntegrity (put_state (fd_FileID fd) s d) !! fd_FileID fd' =
  if bool_decide (fd' = fd) then Some s else fileIntegrity d !! fd_FileID fd'.
Proof.
  intros Hfd Hfd'. cbn [put_state fileIntegrity set_fileIntegrity]. case_bool_decide as He.
  - subst fd'. by rewrite lookup_insert_eq.
  - rewrite lookup_insert_ne; [done|]. intros Hid. apply He. by apply (NoDup_key fd_FileID _ _ _ Hids).
Qed.

Lemma mendable_clear root d fd s :
  mendable root d → fd ∈ protectedFiles d0 → fileIntegrity d !! fd_FileID fd = Some s →
  mendable root (put_state (fd_FileID fd) (set_RenameSource [] s) d).
Proof.
  intros Hm Hfd Hs. pose proof Hm as [H1 H2 H3 H4 H5 H6 H7 H8 H9].
  pose proof (mendable_files _ _ Hm) as Hpf.
  set (d' := put_state (fd_FileID fd) (set_RenameSource [] s) d).
  assert (∀ fd', fd' ∈ protectedFiles d0 → locations d' fd' = locations d fd') as Hl.
  { intros fd' Hfd'. unfold locations, d'. rewrite put_same_lookup by done.
    case_bool_decide as He; [subst fd'; by rewrite Hs|done]. }
  split; [|intros id s'|intros fd' Hfd'|intros fd' Hfd'|intros fd' i loc Hfd'|done|intros fd' s' Hfd'|done|done].
  - apply (renaming_put (listed d0) root0 d0 Hids); [done..|].
    destruct (rn_state _ _ _ _ _ H1 fd Hfd) as (s' & Hs' & [K1 K2 K3 K4]). assert (s' = s) as -> by congruence.
    by split.
  - unfold d'. cbn [put_state fileIntegrity set_fileIntegrity].
    intros [[<- _]|[_ Hid]]%lookup_insert_Some; [|by apply (H2 id s')].
    change (protectedFiles _) with (protectedFiles d). rewrite Hpf. by apply list_elem_of_fmap_2.
  - rewrite Hl by done. by apply H3.
  - specialize (H4 fd' Hfd'). unfold of_file, d' in *. rewrite put_same_lookup by done.
    case_bool_decide as He; [subst fd'; by rewrite Hs in H4|done].
  - rewrite Hl by (by rewrite <- Hpf). by apply H5.
  - change (protectedFiles d') with (protectedFiles d) in Hfd'. unfold d'.
    rewrite put_same_lookup by (done || by rewrite <- Hpf).
    case_bool_decide as He; [by intros [= <-]|]. by apply (H7 fd' s').
Qed.

(** *** A rename that is done *)

Section Done.
Context (root : Root) (d : Decoder) (fd : FileDescPacket) (s : fileIntegrityState) (f : file) (cid : FileID).
Hypothesis (Hm : mendable root d) (Hfd : fd ∈ protectedFiles d0).
Hypothesis (Hs : fileIntegrity d !! fd_FileID fd = Some s) (Hre : RenameSource s ≠ []).
Hypothesis (Hf : root !! RenameSource s = Some f) (Hcid : candidateFiles d !! RenameSource s = Some cid).

Let root' := <[Filename fd := f]> (delete (RenameSource s) root).
Let d1 := set_fileIntegrity (repoint cid (fd_FileID fd) <$> fileIntegrity d) d.
Let s' := located (sliceByteCount d) (fd_FileID fd)
            (set_Damage damageNone (set_RenameSource [] (repoint cid (fd_FileID fd) s))).
Let d' := put_state (fd_FileID fd) s' d1.

Lemma source_other fd' : fd' ∈ protectedFiles d0 → RenameSource s ≠ Filename fd'.
Proof.
  intros Hfd' He. apply (Hsrc fd' Hfd'). rewrite <- He. unfold listed.
  pose proof (rn_same _ _ _ _ _ (md_renaming _ _ Hm)) as Hsame. rewrite Hsame in Hcid. by exists cid.
Qed.

Lemma renamed_elsewhere name :
  name ≠ Filename fd → name ≠ RenameSource s → root' !! name = root !! name.
Proof. intros H1 H2. unfold root'. by rewrite lookup_insert_ne, lookup_delete_ne by done. Qed.

Lemma renamed_back name data : root' !! name = Some (Contents data) → ∃ name', root !! name' = Some (Contents data).
Proof.
  unfold root'. intros [[_ <-]|[_ [_ H]%lookup_delete_Some]]%lookup_insert_Some; by eexists.
Qed.

Lemma renamed_lookup fd' : fd' ∈ protectedFiles d0 →
  fileIntegrity d' !! fd_FileID fd' =
  if bool_decide (fd' = fd) then Some s' else repoint cid (fd_FileID fd) <$> fileIntegrity d !! fd_FileID fd'.
Proof.
  intros Hfd'. unfold d'. rewrite put_same_lookup by done. case_bool_decide; [done|].
  cbn [d1 fileIntegrity set_fileIntegrity]. by rewrite lookup_fmap.
Qed.

Lemma repoint_offsets st :
  Offset <$> ShardLocations (repoint cid (fd_FileID fd) st) = Offset <$> ShardLocations st.
Proof.
  unfold repoint. cbn [set_ShardLocations ShardLocations]. rewrite <- list_fmap_compose.
  apply list_fmap_ext. intros i loc _. cbn. by destruct (_ && _).
Qed.

Lemma missing_offsets st st' : Offset <$> ShardLocations st = Offset <$> ShardLocations st' →
  missing_locs st = missing_locs st'.
Proof.
  unfold missing_locs, len. generalize (ShardLocations st), (ShardLocations st').
  induction l as [|x l IH]; intros [|y l'] He; try done. cbn in He. injection He as Hx Hl.
  rewrite !filter_cons, Hx. specialize (IH _ Hl). destruct (decide _); cbn [length]; lia.
Qed.

Lemma source_data : ∃ data, f = Contents data ∧ md5_Sum data = fd_Hash fd ∧ data = orig (Filename fd).
Proof.
  destruct (rn_state _ _ _ _ _ (md_renaming _ _ Hm) fd Hfd) as (s2 & Hs2 & [_ _ _ Hk]).
  assert (s2 = s) as -> by congruence. destruct (Hk Hre f Hf) as (data & Hdata & Hh). exists data.
  split; [congruence|]. split; [done|]. by apply (md_honest _ _ Hm fd (RenameSource s)).
Qed.

(** The name of a location's file, and the file, stay together. *)
Lemma repointed_right (id : FileID) data :
  root !! default [] (buildFileIDToFilenameMap env d0 !! id) = Some (Contents data) →
  root' !! default [] (buildFileIDToFilenameMap env d0 !! (if bool_decide (id = cid) then fd_FileID fd else id)) =
  Some (Contents data).
Proof.
  intros Hd. pose proof (rn_same _ _ _ _ _ (md_renaming _ _ Hm)) as Hsame.
  assert (candidateFiles d0 !! RenameSource s = Some cid) as Hc by (by rewrite Hsame in Hcid).
  case_bool_decide as He.
  - subst id. rewrite (source_name env d0 cid (RenameSource s)) in Hd; [|done..|by right].
    rewrite (source_name env d0 (fd_FileID fd) (Filename fd)); [|done..|left; by exists fd].
    unfold root'. cbn. rewrite lookup_insert_eq. cbn in Hd. congruence.
  - rewrite renamed_elsewhere; [done| |].
    + intros Hn. rewrite Hn in Hd.
      rewrite (md_gaps _ _ Hm fd s) in Hd; [done|by rewrite (mendable_files _ _ Hm)|done..].
    + destruct (buildFileIDToFilenameMap env d0 !! id) as [n|] eqn:Hid; cbn; [|intros Hn; by apply Hre].
      intros ->. apply source_name_inv in Hid as [(fd' & Hfd' & _ & Hn)|Hid]; [|congruence|done].
      by apply (source_other fd').
Qed.

Context (n n' : Z).
Hypothesis (Hrun : rename_file env (root, d, n) fd = Ok (root', d', n')).

Lemma renamed_locations fd' : fd' ∈ protectedFiles d0 → fd' ≠ fd →
  locations d' fd' = (λ loc, if bool_decide (FileID_ loc = cid) && negb (Offset loc =? -1)
    then {| FileID_ := fd_FileID fd; Offset := Offset loc |} else loc) <$> locations d fd'.
Proof.
  intros Hfd' Hne. unfold locations. rewrite renamed_lookup by done.
  rewrite bool_decide_eq_false_2 by done. by destruct (fileIntegrity d !! fd_FileID fd').
Qed.

Lemma renamed_here :
  locations d' fd = in_place (sliceByteCount d) (fd_FileID fd) (length (locations d fd)).
Proof.
  unfold locations. rewrite renamed_lookup by done. rewrite bool_decide_eq_true_2, Hs by done.
  unfold s', located, repoint. cbn [set_ShardLocations ShardLocations]. cbn. by rewrite length_fmap.
Qed.

Lemma renamed_located : located_right env root' d' orig.
Proof.
  pose proof (mendable_files _ _ Hm) as Hpf.
  pose proof (rn_same _ _ _ _ _ (md_renaming _ _ Hm)) as Hsame.
  assert (buildFileIDToFilenameMap env d' = buildFileIDToFilenameMap env d0) as Hmap.
  { change (buildFileIDToFilenameMap env d = buildFileIDToFilenameMap env d0). by rewrite Hsame. }
  assert (buildFileIDToFilenameMap env d = buildFileIDToFilenameMap env d0) as Hmap0 by (by rewrite Hsame).
  intros fd' i loc Hfd' Hi Hne. change (protectedFiles d') with (protectedFiles d) in Hfd'.
  change (sliceByteCount d') with (sliceByteCount d). rewrite Hmap.
  assert (fd' ∈ protectedFiles d0) as Hfd0 by (by rewrite <- Hpf).
  destruct (decide (fd' = fd)) as [->|Hother].
  - rewrite renamed_here in Hi. unfold in_place in Hi. rewrite list_lookup_fmap in Hi.
    destruct (seq _ _ !! i) as [k|] eqn:Hk; [|done]. apply lookup_seq in Hk as [-> Hlt]. injection Hi as <-.
    cbn [FileID_ Offset] in *. destruct source_data as (data & Hdata & _ & Ho).
    rewrite (source_name env d0 (fd_FileID fd) (Filename fd)); [|done..|left; by exists fd].
    assert (0 <= Z.of_nat i * sliceByteCount d).
    { pose proof (md_positive _ _ Hm). lia. }
    split; [done|]. exists data. split; [|by rewrite Ho]. cbn. unfold root'. rewrite lookup_insert_eq. congruence.
  - rewrite renamed_locations, list_lookup_fmap in Hi by done.
    destruct (locations d fd' !! i) as [loc0|] eqn:Hl; [|done]. cbn in Hi. injection Hi as Hi.
    assert (Offset loc = Offset loc0) as Ho by (rewrite <- Hi; by destruct (_ && _)).
    destruct (md_located _ _ Hm fd' i loc0 Hfd' Hl ltac:(congruence)) as (H0 & data & Hd & Hb).
    rewrite Hmap0 in Hd. rewrite Ho. split; [done|]. exists data. split; [|done].
    apply repointed_right in Hd. rewrite <- Hi.
    destruct (Z.eqb_spec (Offset loc0) (-1)) as [|Hn1]; [congruence|]. rewrite andb_true_r.
    by case_bool_decide.
Qed.

Lemma mendable_renamed : mendable root' d'.
Proof.
  pose proof Hm as [H1 H2 H3 H4 H5 H6 H7 H8 H9]. pose proof (mendable_files _ _ Hm) as Hpf.
  split.
  - exact (rename_file_renaming env (listed d0) root0 d0 Hids Hnames Hsrc root d n fd _ Hfd H1 Hrun).
  - intros id st. cbn [d' put_state fileIntegrity set_fileIntegrity d1].
    intros [[<- _]|[_ Hid]]%lookup_insert_Some.
    + change (protectedFiles _) with (protectedFiles d). rewrite Hpf. by apply list_elem_of_fmap_2.
    + rewrite lookup_fmap in Hid. destruct (fileIntegrity d !! id) as [st0|] eqn:Hst; [|done].
      by apply (H2 id st0).
  - intros fd' Hfd'. rewrite <- H3 by done. destruct (decide (fd' = fd)) as [->|Hne].
    + rewrite renamed_here. unfold in_place. by rewrite length_fmap, length_seq.
    + rewrite renamed_locations by done. by rewrite length_fmap.
  - intros fd' Hfd'. etransitivity; [|by apply H4]. unfold of_file. rewrite renamed_lookup by done.
    case_bool_decide as He.
    + subst fd'. rewrite Hs. assert (missing_locs s' = 0) as ->; [|unfold missing_locs, len; lia].
      apply missing_locs_zero. unfold s', located. cbn [set_ShardLocations ShardLocations]. unfold in_place.
      apply Forall_fmap, Forall_forall. intros k _. cbn. pose proof (md_positive _ _ Hm). lia.
    + destruct (fileIntegrity d !! fd_FileID fd') as [st|]; [|done]. cbn.
      by rewrite (missing_offsets _ st (repoint_offsets st)).
  - exact renamed_located.
  - intros fd' name data Hfd' [name' Hd]%renamed_back Hh. by apply (H6 fd' name').
  - intros fd' st Hfd' Hst Hr. change (protectedFiles d') with (protectedFiles d) in Hfd'.
    rewrite Hpf in Hfd'. rewrite renamed_lookup in Hst by done. case_bool_decide as He.
    { injection Hst as <-. done. }
    destruct (fileIntegrity d !! fd_FileID fd') as [st0|] eqn:Hst0; [|done]. injection Hst as <-.
    rewrite renamed_elsewhere; [apply (H7 fd' st0); [by rewrite Hpf|done|exact Hr]| |].
    + intros Hn. apply He. by apply (NoDup_key Filename _ _ _ Hnames).
    + intros Hn. by apply (source_other fd').
  - intros t. unfold root'. rewrite lookup_insert_ne by (intros He; by eapply Htemps).
    apply lookup_delete_None. right. apply H8.
  - exact H9.
Qed.

End Done.

(** *** All renames *)

Definition cleared (d : Decoder) (fd : FileDescPacket) : Prop :=
  ∀ s, fileIntegrity d !! fd_FileID fd = Some s → RenameSource s = [].

Lemma rename_file_mendable root d n fd root' d' n' :
  mendable root d → fd ∈ protectedFiles d0 → rename_file env (root, d, n) fd = Ok (root', d', n') →
  mendable root' d' ∧ cleared d' fd ∧ ∀ fd', fd' ∈ protectedFiles d0 → cleared d fd' → cleared d' fd'.
Proof.
  intros Hm Hfd Hrun. pose proof Hrun as Hrun'. unfold rename_file in Hrun.
  destruct (rn_state _ _ _ _ _ (md_renaming _ _ Hm) fd Hfd) as (s & Hs & Hk).
  rewrite (proj2 (get_state_inv _ _ _) Hs) in Hrun. cbn [mbind result_bind] in Hrun.
  case_bool_decide as Hre.
  { injection Hrun as <- <- <-. split; [done|]. split; [|done]. intros s2 Hs2. congruence. }
  assert (Ok (root, put_state (fd_FileID fd) (set_RenameSource [] s) d, n) = Ok (root', d', n') →
    mendable root' d' ∧ cleared d' fd ∧ ∀ fd', fd' ∈ protectedFiles d0 → cleared d fd' → cleared d' fd') as Hfail.
  { intros [= <- <- <-]. split; [by apply mendable_clear|].
    assert (∀ fd', fd' ∈ protectedFiles d0 → fd' = fd ∨ cleared d fd' →
      cleared (put_state (fd_FileID fd) (set_RenameSource [] s) d) fd') as H.
    { intros fd' Hfd' Hor s2. rewrite put_same_lookup by done. case_bool_decide; [by intros [= <-]|].
      destruct Hor; [done|auto]. }
    split; [by apply H; [|left]|]. intros fd' Hfd' Hc. apply H; auto. }
  cbv zeta in Hrun. destruct (negb (mkdir_ok env (Filename fd))); [by apply Hfail|].
  unfold Rename in Hrun. destruct (negb (rename_ok env _ _)); [by apply Hfail|].
  destruct (root !! RenameSource s) as [f|] eqn:Hf; [|by apply Hfail]. clear Hfail.
  destruct (kn_source _ _ _ _ Hk Hre) as [cid Hcid].
  assert (candidateFiles d !! RenameSource s = Some cid) as Hcid'
    by (rewrite (rn_same _ _ _ _ _ (md_renaming _ _ Hm)); exact Hcid).
  rewrite Hcid' in Hrun. unfold get_state in Hrun. cbn [fileIntegrity set_fileIntegrity] in Hrun.
  rewrite lookup_fmap, Hs in Hrun. cbn [fmap option_fmap option_map mbind result_bind] in Hrun.
  injection Hrun as <- <- <-. split.
  { by eapply (mendable_renamed root d fd s f cid). }
  assert (∀ fd', fd' ∈ protectedFiles d0 → fd' = fd ∨ cleared d fd' → cleared (put_state (fd_FileID fd)
    (located (sliceByteCount d) (fd_FileID fd) (set_Damage damageNone (set_RenameSource []
       (repoint cid (fd_FileID fd) s)))) (set_fileIntegrity (repoint cid (fd_FileID fd) <$> fileIntegrity d) d)) fd') as H.
  { intros fd' Hfd' Hor s2. rewrite put_same_lookup by done. case_bool_decide; [by intros [= <-]|].
    cbn [fileIntegrity set_fileIntegrity]. rewrite lookup_fmap.
    destruct (fileIntegrity d !! fd_FileID fd') as [s3|] eqn:Hs3; [|done]. intros [= <-].
    destruct Hor as [|Hc]; [done|]. exact (Hc s3 Hs3). }
  split; [by apply H; [|left]|]. intros fd' Hfd' Hc. apply H; auto.
Qed.

Lemma renames_mendable fds root d n root' d' n' :
  mendable root d → (∀ fd, fd ∈ fds → fd ∈ protectedFiles d0) →
  foldM (rename_file env) (root, d, n) fds = Ok (root', d', n') →
  mendable root' d' ∧ (∀ fd, fd ∈ protectedFiles d0 → fd ∈ fds ∨ cleared d fd → cleared d' fd).
Proof.
  revert root d n. induction fds as [|fd fds IH]; intros root d n Hm Hfds; cbn [foldM].
  { intros [= <- <- <-]. split; [done|]. intros fd _ [?%elem_of_nil|?]; done. }
  destruct (rename_file env (root, d, n) fd) as [[[root1 d1] n1]| |] eqn:H1; cbn [mbind result_bind]; [|done..].
  intros Hrun. apply rename_file_mendable in H1 as (Hm1 & Hc & Hold); [|done|apply Hfds, list_elem_of_here].
  destruct (IH root1 d1 n1) as [Hm' Hc']; [done|intros; apply Hfds; by apply elem_of_cons; right|done|].
  split; [done|]. intros fd' Hfd' Hor. apply Hc'; [done|].
  destruct Hor as [[->|Hin]%elem_of_cons|Hcl]; [by right|by left|right; by apply Hold].
Qed.

(** *** From verification to the repair proper *)

Hypothesis (Hready : set_ready root0 dv) (Hsame : dv = set_fileIntegrity (fileIntegrity dv) d0).

Lemma mendable_verified :
  renaming (listed d0) root0 d0 root0 dv → located_right env root0 dv orig →
  (∀ fd name data, fd ∈ protectedFiles d0 → root0 !! name = Some (Contents data) →
    md5_Sum data = fd_Hash fd → data = orig (Filename fd)) →
  renames_into_gaps root0 dv → (∀ t, root0 !! temp_name env t = None) → mendable root0 dv.
Proof.
  intros Hr Hl Hh Hg Ht. split; try done; [apply (sr_only _ _ Hready)|apply (sr_slice _ _ Hready)].
Qed.

Lemma mendable_ready root d : mendable root d → (∀ fd, fd ∈ protectedFiles d0 → cleared d fd) →
  set_ready root d ∧ nothing_misnamed d.
Proof.
  intros Hm Hc. pose proof Hm as [H1 H2 H3 H4 H5 H6 H7 H8 H9]. pose proof (mendable_files _ _ Hm) as Hpf.
  assert (sliceByteCount d = sliceByteCount d0) as Hsl by (by rewrite (rn_same _ _ _ _ _ H1)).
  assert (Decoder.parityShards d = Decoder.parityShards d0) as Hpar by (by rewrite (rn_same _ _ _ _ _ H1)).
  assert (protectedFiles dv = protectedFiles d0 ∧ sliceByteCount dv = sliceByteCount d0 ∧
    Decoder.parityShards dv = Decoder.parityShards d0) as (Hpv & Hsv & Hparv) by (by rewrite Hsame).
  destruct Hready as [R1 R2 R3 R4 R5 R6 R7 R8 R9]. rewrite ?Hpv, ?Hsv, ?Hparv in *.
  split; [split; rewrite ?Hpf, ?Hsl, ?Hpar; try done|].
  - intros fd Hfd. rewrite Hpf in Hfd. destruct (rn_state _ _ _ _ _ H1 fd Hfd) as (s & Hs & _). by exists s.
  - intros fd Hfd. rewrite H3 by done. by apply R6.
  - intros m. specialize (R7 m). rewrite flat_locations_length in *. rewrite ?Hpv in R7. unfold len in *.
    assert (∀ fds, (∀ fd, fd ∈ fds → fd ∈ protectedFiles d0) →
      foldr (λ fd n, Z.of_nat (length (locations d fd)) + n) 0 fds =
      foldr (λ fd n, Z.of_nat (length (locations dv fd)) + n) 0 fds) as ->; [|exact R7|done].
    induction fds as [|fd fds IH]; intros Hfds; [done|]. cbn [foldr].
    rewrite (H3 fd), IH; [done| |apply Hfds, list_elem_of_here].
    intros. apply Hfds. by apply elem_of_cons; right.
  - intros fd s Hfd Hs Hnr _. destruct (rn_state _ _ _ _ _ H1 fd Hfd) as (s2 & Hs2 & [K1 K2 _ _]).
    assert (s2 = s) as -> by congruence. apply K2. unfold needsRebuild in Hnr. by destruct (Damage s).
  - intros id s Hs. destruct (proj1 (list_elem_of_fmap _ _ _) (H2 id s Hs)) as (fd & -> & Hfd).
    rewrite Hpf in Hfd. by apply (Hc fd).
Qed.

(** No more blocks are missing than before, so repair stays possible. *)
Lemma mendable_possible root d :
  mendable root d → set_ready root d →
  RepairPossible (shardCountsLocked dv) = true → RepairPossible (shardCountsLocked d) = true.
Proof.
  intros Hm Hrd. pose proof (mendable_files _ _ Hm) as Hpf.
  assert (protectedFiles dv = protectedFiles d0) as Hpv by (by rewrite Hsame).
  unfold RepairPossible. rewrite !shardCounts_spec. cbn [UsableParityShardCount UnusableDataShardCount].
  assert (Decoder.parityShards d = Decoder.parityShards dv) as ->.
  { rewrite Hsame. by rewrite (rn_same _ _ _ _ _ (md_renaming _ _ Hm)). }
  assert (sum_states missing_locs (fileIntegrity d) <= sum_states missing_locs (fileIntegrity dv)) as Hle.
  { rewrite (sum_states_files _ d), (sum_states_files _ dv);
      [|apply Hready|apply Hready|apply Hready|apply Hrd|apply Hrd|apply Hrd].
    rewrite Hpf, Hpv. pose proof (md_missing _ _ Hm) as Hmis. revert Hmis. generalize (protectedFiles d0).
    induction l as [|fd fds IH]; intros Hmis; cbn [foldr]; [done|].
    specialize (Hmis fd (list_elem_of_here _ _)) as H1.
    assert (∀ fd, fd ∈ fds → of_file missing_locs d fd <= of_file missing_locs dv fd) as H2
      by (intros; apply Hmis; by apply elem_of_cons; right).
    specialize (IH H2). lia. }
  rewrite !Z.geb_leb, !Z.leb_le. lia.
Qed.

Lemma renames_ready :
  mendable root0 dv →
  ∃ root d n, renameMisnamedFiles env root0 dv = Ok (root, d, n) ∧ mendable root d ∧
    set_ready root d ∧ nothing_misnamed d.
Proof.
  intros Hm. pose proof (mendable_files _ _ Hm) as Hpf.
  destruct (renameMisnamedFiles_ok env (listed d0) root0 d0 Hids Hnames Hsrc dv (md_renaming _ _ Hm))
    as [[[root d] n] Hrun].
  exists root, d, n. split; [done|]. unfold renameMisnamedFiles in Hrun. rewrite Hpf in Hrun.
  apply renames_mendable in Hrun as [Hm' Hc]; [|done|done]. split; [done|].
  apply mendable_ready; [done|]. intros fd Hfd. apply Hc; [done|by left].
Qed.

End Rename.
