(* ===== verification/RepairProperties.v ===== *)
(** * Properties of repair

    What a repair leaves behind, the arithmetic of its chunks, and sets on
    which the code does something other than what it means to. *)

From stdpp Require Import gmap.
From S2P Require Import Prelude Gf16 Kernels Dispatch Simd Matrix ReedSolomon.
From S2P Require Import Md5 Crc32 Packet CrcTable Decoder DecoderFacts Blocks Verify VerifyFacts VerifyOutcome.
From S2P Require Import ScanProperties Repair RepairFacts RepairSound.

(** ** Verification followed by repair *)

(** No candidate is a file of the set. *)
Definition candidates_apart (d : Decoder) : Prop :=
  ∀ fd, fd ∈ protectedFiles d →
    candidateFiles d !! Filename fd = None ∧ ∀ id, candidateByID d !! id ≠ Some (Filename fd).

(** The names of temp files are not names of the set. *)
Definition temps_apart (env : Env) (d : Decoder) : Prop :=
  ∀ t fd, fd ∈ protectedFiles d → temp_name env t ≠ Filename fd.

(** The names files may be renamed from. *)
Definition candidate (d : Decoder) (name : list Z) : Prop :=
  is_Some (candidateFiles d !! name) ∨ ∃ id, candidateByID d !! id = Some name.

Lemma candidate_apart d fd :
  candidates_apart d → fd ∈ protectedFiles d → ¬ candidate d (Filename fd).
Proof.
  intros Ha Hfd [[id Hid]|[id Hid]]; destruct (Ha fd Hfd) as [H1 H2]; [congruence|].
  by eapply H2.
Qed.

Lemma verified_set sched root d0 d :
  NoDup (fd_FileID <$> protectedFiles d0) → permutes sched → VerifyScans sched root d0 = Ok d →
  renaming (candidate d0) root d0 root d.
Proof.
  intros Hids Hperm Hrun.
  destruct (VerifyScans_verifying sched root d0 (candidate d0) d Hids) as [Hv Hch]; [| |done|].
  - intros p id Hin. left. exists id. apply elem_of_map_to_list.
    by rewrite (proj2 (proj2 (proj2 Hperm)) (map_to_list (candidateFiles d0))) in Hin.
  - intros id p Hid. right. by exists id.
  - by apply verified_renaming.
Qed.

(** C2: A repair that succeeds has repaired everything.  If verification ends
    without error and [Repair] then returns nil, every protected file is on disk
    under its name with contents that have the MD5 of its description, whatever
    the damage was, whatever the operating system refused on the way, and in
    every order of traversal and delivery.  It holds for sets with distinct names
    whose candidates are other files. *)
Theorem Repair_sound (env : Env) (tb : tables) `{VK : !VectorKernels} b sched root d0 d root' d' :
  NoDup (fd_FileID <$> protectedFiles d0) → NoDup (Filename <$> protectedFiles d0) →
  candidates_apart d0 → temps_apart env d0 → permutes sched →
  VerifyScans sched root d0 = Ok d → Repair env tb b root d = (root', d', Ok tt) →
  ∀ fd, fd ∈ protectedFiles d0 →
    ∃ data, root' !! Filename fd = Some (Contents data) ∧ md5_Sum data = fd_Hash fd.
Proof.
  intros Hids Hnames Hapart Htemps Hperm Hv Hr.
  apply (Repair_outcome env tb b (candidate d0) root d0 Hids Hnames) in Hr as (_ & _ & Hall).
  - by apply Hall.
  - intros fd. by apply candidate_apart.
  - exact Htemps.
  - by eapply verified_set.
Qed.

(** C6: A repair never makes a file of the set worse.  For sets with distinct
    names of which no file is also a candidate, and whose names are not those of
    temporary files: whatever [Repair] returns after verification -- success, any
    error of the operating system, a cancellation, singular parity, a failed
    hash -- every file of the set is as it was before or has contents with the
    MD5 of its description; and every other file but the repair's own temporary
    files is as it was before, or was a candidate with the contents of a file of
    the set and has become that file, which is now right.  (Without the condition
    on candidates an intact file of the set can be lost:
    [candidate_of_the_set_is_lost].  And under the name of one file there can be
    blocks of another, which can be lost: [rename_destroys_blocks].) *)
Theorem Repair_never_damages (env : Env) (tb : tables) `{VK : !VectorKernels} b sched root d0 d root' d' r :
  NoDup (fd_FileID <$> protectedFiles d0) → NoDup (Filename <$> protectedFiles d0) →
  candidates_apart d0 → temps_apart env d0 → permutes sched →
  VerifyScans sched root d0 = Ok d → Repair env tb b root d = (root', d', r) →
  (∀ fd, fd ∈ protectedFiles d0 →
     root' !! Filename fd = root !! Filename fd ∨ verified root' (Filename fd) fd) ∧
  (∀ name, name ∉ Filename <$> protectedFiles d0 → (∀ t, name ≠ temp_name env t) →
     root' !! name = root !! name ∨
     candidate d0 name ∧ root' !! name = None ∧
     ∃ fd, fd ∈ protectedFiles d0 ∧ verified root name fd ∧ verified root' (Filename fd) fd).
Proof.
  intros Hids Hnames Hapart Htemps Hperm Hv Hr.
  apply (Repair_outcome env tb b (candidate d0) root d0 Hids Hnames) in Hr as (H1 & H2 & _).
  - by split.
  - intros fd. by apply candidate_apart.
  - exact Htemps.
  - by eapply verified_set.
Qed.

(** A system on which every operation succeeds. *)
Definition calm : Env :=
  {| mkdir_ok := λ _, true; rename_ok := λ _ _, true; rand_text := λ _, ascii "ABCDEFGHIJKLMNOP";
     create_ok := λ _, true; write_ok := λ _ _, true; truncate_ok := λ _, true;
     sync_ok := λ _, true; hash_ok := λ _, true; close_ok := λ _, true; stat_ok := λ _, true;
     chmod_ok := λ _, true; remove_ok := λ _, true; chunk_polls := λ _, false;
     rs_ctx := λ _, background; rs_schedule := λ _, []; default_goroutines := 1;
     candidates_order := id |}.

(** The set of [file_a] with a candidate that has its contents. *)
Definition set_x : Decoder :=
  let id := md5_Sum (ascii "candidate:x.bin") in
  set_candidates {[ ascii "x.bin" := id ]} {[ id := ascii "x.bin" ]} set_a.
Definition disk_x : Root := {[ ascii "x.bin" := Contents (ascii "abcdefghi") ]}.

Lemma set_x_files fd : fd ∈ protectedFiles set_x → fd = file_a.
Proof. change (protectedFiles set_x) with [file_a]. by intros ?%list_elem_of_singleton. Qed.

Lemma set_x_apart : candidates_apart set_x.
Proof.
  intros fd ->%set_x_files. cbn [set_x candidateFiles candidateByID set_candidates].
  split; [apply lookup_singleton_ne; discriminate|].
  intros id [_ H]%lookup_singleton_Some. discriminate.
Qed.

(** Names of the set that do not end like a temp file. *)
Lemma temps_apart_suffix env d :
  (∀ fd, fd ∈ protectedFiles d → ∀ s, Filename fd ≠ s ++ repairTempExt) → temps_apart env d.
Proof.
  intros H t fd Hfd He. symmetry in He. unfold temp_name in He. rewrite !app_assoc in He.
  by eapply H.
Qed.

Lemma set_x_temps : temps_apart calm set_x.
Proof.
  apply temps_apart_suffix. intros fd ->%set_x_files s He.
  apply (f_equal last) in He. rewrite last_app in He. discriminate.
Qed.

Lemma Repair_sound_witness :
  ∃ d d' root', VerifyScans schedule0 disk_x set_x = Ok d ∧
    Repair calm gf_tables NonAmd64 disk_x d = (root', d', Ok tt) ∧
    ∃ data, root' !! Filename file_a = Some (Contents data) ∧ md5_Sum data = fd_Hash file_a.
Proof.
  destruct (VerifyScans schedule0 disk_x set_x) as [d| |] eqn:Hd; [|vm_compute in Hd; discriminate..].
  destruct (Repair calm gf_tables NonAmd64 disk_x d) as [[root' d'] r] eqn:Hr.
  assert (r = Ok tt) as ->.
  { vm_compute in Hd. injection Hd as <-.
    apply (f_equal snd) in Hr. vm_compute in Hr. symmetry. exact Hr. }
  exists d, d', root'. split; [reflexivity|]. split; [exact Hr|].
  apply (Repair_sound calm gf_tables NonAmd64 schedule0 disk_x set_x d root' d');
    [apply NoDup_singleton|apply NoDup_singleton|apply set_x_apart|apply set_x_temps|apply permutes0
    |exact Hd|exact Hr|apply list_elem_of_here].
Defined.

Lemma Repair_never_damages_witness :
  ∃ d root' d' r, VerifyScans schedule0 disk_x set_x = Ok d ∧
    Repair calm gf_tables NonAmd64 disk_x d = (root', d', r) ∧
    (root' !! Filename file_a = disk_x !! Filename file_a ∨ verified root' (Filename file_a) file_a) ∧
    root' !! ascii "x.bin" = None ∧
    ∃ fd, fd ∈ protectedFiles set_x ∧ verified disk_x (ascii "x.bin") fd ∧ verified root' (Filename fd) fd.
Proof.
  destruct (VerifyScans schedule0 disk_x set_x) as [d| |] eqn:Hd; [|vm_compute in Hd; discriminate..].
  destruct (Repair calm gf_tables NonAmd64 disk_x d) as [[root' d'] r] eqn:Hr.
  exists d, root', d', r. split; [reflexivity|]. split; [exact Hr|].
  destruct (Repair_never_damages calm gf_tables NonAmd64 schedule0 disk_x set_x d root' d' r) as [H1 H2];
    [apply NoDup_singleton|apply NoDup_singleton|apply set_x_apart|apply set_x_temps|apply permutes0
    |exact Hd|exact Hr|].
  split; [apply H1, list_elem_of_here|].
  destruct (H2 (ascii "x.bin")) as [He|(_ & Hrest)]; [| |exfalso|exact Hrest].
  - decided.
  - intros t He. apply (f_equal last) in He. unfold temp_name in He. rewrite !app_assoc, last_app in He. discriminate.
  - vm_compute in Hd. injection Hd as <-.
    apply (f_equal (λ x, x.1.1 !! ascii "x.bin")) in Hr. cbn [fst] in Hr. rewrite He in Hr.
    vm_compute in Hr. discriminate.
Defined.

(** ** The chunks *)

(** C27: The chunks of a repair.  The chunk size is a positive multiple of 16 and
    keeps the memory limit for as many buffers as there are data shards and
    missing shards, unless even 16 bytes each exceed it.  The chunks partition
    the slice: each begins where the one before ends, none is empty, all but the
    last have the chunk size, and the last ends where the slice does.  Every
    parity shard is long enough for every chunk. *)
Theorem repair_chunks_partition env d n plan :
  0 < memoryLimit d → 0 < sliceByteCount d → planRepair env d n = Ok plan →
  let c := chunkSize plan in
  let buffers := totalDataShards plan + UnusableDataShardCount (counts plan) in
  16 <= c ∧ c mod 16 = 0 ∧ c * buffers <= Z.max (memoryLimit d) (16 * buffers) ∧
  0 < plan_numChunks plan ∧
  (∀ i, 0 <= i < plan_numChunks plan →
     0 < currChunkSize d plan i <= c ∧
     i * c + currChunkSize d plan i =
       (if i =? plan_numChunks plan - 1 then sliceByteCount d else (i + 1) * c) ∧
     ∀ exp, is_ok (parity_shard d plan i exp) = true).
Proof.
  intros Hm Hs Hplan. apply planRepair_inv in Hplan as (Hpar & _ & _ & Hc & _ & _ & _ & Hn).
  apply computeChunkSize_spec in Hc as (_ & H16 & Hmod & Hmem & _); [|done..].
  cbv zeta. set (c := chunkSize plan) in *. set (s := sliceByteCount d) in *.
  rewrite Z.quot_div_nonneg in Hn by lia. set (k := plan_numChunks plan) in *.
  pose proof (Z.div_mod (s + c - 1) c ltac:(lia)) as Hdiv. rewrite <- Hn in Hdiv.
  pose proof (Z.mod_pos_bound (s + c - 1) c ltac:(lia)) as Hrem.
  assert (0 < k) as Hk by nia.
  split; [done|]. split; [done|]. split; [done|]. split; [done|]. intros i Hi.
  assert (0 < currChunkSize d plan i <= c ∧
     i * c + currChunkSize d plan i = (if i =? k - 1 then s else (i + 1) * c)) as [H1 H2].
  { unfold currChunkSize. fold k c s. destruct (Z.eqb_spec i (k - 1)) as [->|]; nia. }
  split; [done|]. split; [done|]. intros exp. unfold parity_shard. fold c.
  destruct (Decoder.parityShards d !! exp) as [bs|] eqn:Hbs; [|done].
  specialize (Hpar _ _ Hbs). cbv beta in Hpar. fold s in Hpar. unfold len in Hpar.
  rewrite slice_at_ok; [done|destruct (Z.eqb_spec i (k - 1)); nia..].
Qed.

(** A set of one block of 64 bytes, with a recovery block of the largest
    exponent, decoded with a limit of a megabyte. *)
Definition file_m : FileDescPacket := sample_file (replicate 64 7) (ascii "m").
Definition set_m : Decoder :=
  let d := sample_set 64 [file_m] ∅ in
  set_parity {[ 32767 := replicate 64 0 ]} ∅
    {| numGoroutines := numGoroutines d; memoryLimit := 1048576; maxFileSize := maxFileSize d;
       maxPacketSize := maxPacketSize d; sliceByteCount := sliceByteCount d;
       recoverySetID := recoverySetID d; protectedFiles := protectedFiles d;
       fileChecksums := fileChecksums d; Decoder.parityShards := ∅; fileIntegrity := fileIntegrity d;
       candidateFiles := candidateFiles d; candidateByID := candidateByID d;
       parityFileBlocks := parityFileBlocks d |}.

Lemma repair_chunks_partition_witness :
  ∃ d plan, initFileIntegrity set_m = Ok d ∧ planRepair calm d 0 = Ok plan ∧
    chunkSize plan mod 16 = 0.
Proof.
  destruct (initFileIntegrity set_m) as [d| |] eqn:Hd; [|vm_compute in Hd; discriminate..].
  destruct (planRepair calm d 0) as [plan| |] eqn:Hp.
  - exists d, plan. split; [reflexivity|]. split; [exact Hp|].
    apply (repair_chunks_partition calm d 0 plan); [| |exact Hp];
      vm_compute in Hd; injection Hd as <-; reflexivity.
  - vm_compute in Hd. injection Hd as <-. vm_compute in Hp. discriminate.
  - vm_compute in Hd. injection Hd as <-. vm_compute in Hp. discriminate.
Defined.

(** ** Where the code does something else *)

(** The buffers of the pipeline: one per data shard and one per parity row up to
    the largest exponent. *)
Definition buffer_bytes (plan : repairPlan) : Z :=
  chunkSize plan * (totalDataShards plan + totalParityShards plan).

(** The memory limit does not bound the buffers.  The chunk size accounts
    for a buffer per data shard and per missing shard, but the pipeline allocates
    one per parity row up to the largest exponent: with a single missing block
    and a single recovery block, of exponent 32767, 64-byte chunks need more
    than twice the limit of a megabyte. *)
Theorem parity_buffers_exceed_limit :
  ∃ d plan, initFileIntegrity set_m = Ok d ∧ planRepair calm d 0 = Ok plan ∧
    Z.of_nat (size (Decoder.parityShards d)) = 1 ∧ UnusableDataShardCount (counts plan) = 1 ∧
    2 * memoryLimit d <= buffer_bytes plan.
Proof.
  eexists _, _. split; [vm_compute; reflexivity|]. split; [vm_compute; reflexivity|].
  split; [vm_compute; reflexivity|]. split; [vm_compute; reflexivity|].
  vm_compute. discriminate.
Qed.

Definition file_b1 : FileDescPacket := sample_file (ascii "abcdefghi") (ascii "b.txt").
Definition set_ab : Decoder :=
  let id := md5_Sum (ascii "candidate:b.txt") in
  set_candidates {[ ascii "b.txt" := id ]} {[ id := ascii "b.txt" ]} (sample_set 4 [file_a; file_b1] ∅).

(** A candidate that belongs to the set is taken away.  Two files of the set
    have the same contents, [a.txt] is missing, [b.txt] is intact and is also
    named as a candidate (as the pattern [*.txt] would name it): the repair
    renames the intact [b.txt] to [a.txt] and reports success, and [b.txt] is
    gone. *)
Theorem candidate_of_the_set_is_lost :
  let root := disk1 file_b1 (ascii "abcdefghi") in
  ∃ d d' root', VerifyScans schedule0 root set_ab = Ok d ∧
    Repair calm gf_tables NonAmd64 root d = (root', d', Ok tt) ∧
    RepairNeeded (shardCountsLocked d') = false ∧
    root !! Filename file_b1 = Some (Contents (ascii "abcdefghi")) ∧ root' !! Filename file_b1 = None.
Proof.
  cbv zeta. eexists _, _, _. split; [vm_compute; reflexivity|].
  split; [vm_compute; reflexivity|]. split; [vm_compute; reflexivity|].
  split; vm_compute; reflexivity.
Qed.

(** The contents of [file_a] with a wrong second block and three bytes too many. *)
Definition disk_tail : Root := disk1 file_a (ascii "abcdXXXXiZZZ").

(** The last block of a file that has grown is read back wrong.  The scan
    locates the last, partial block of [file_a], whose four bytes end in zeros,
    in a file with bytes after it; the repair reads that block with the bytes
    after it instead of the zeros, and so hands the reconstruction of the other
    blocks wrong data. *)
Theorem grown_file_tail_misread :
  ∃ d plan fl, VerifyScans schedule0 disk_tail set_a = Ok d ∧ planRepair calm d 0 = Ok plan ∧
    flatLocs plan !! 2%nat = Some fl ∧ diskOffset fl = 8 ∧
    (ifsc_of file_a [ascii "abcd"; ascii "efgh"; ascii "i" ++ [0; 0; 0]]).(ChecksumPairs) !! 2%nat =
      Some {| MD5 := md5_Sum (ascii "i" ++ [0; 0; 0]);
              CRC32 := le_split 4 (ChecksumIEEE (ascii "i" ++ [0; 0; 0])) |} ∧
    (read_shard d plan 0 fl (no_handles disk_tail)).2 = Ok (Some (ascii "iZZZ")).
Proof.
  eexists _, _, _. split; [vm_compute; reflexivity|]. split; [vm_compute; reflexivity|].
  split; [vm_compute; reflexivity|]. split; [reflexivity|]. split; [reflexivity|].
  vm_compute. reflexivity.
Qed.

(** ** A rename over blocks that are still needed

    [a.txt] holds the contents of [b.txt], which is missing, and the candidate
    [c.txt] those of [a.txt]. *)
Definition file_p : FileDescPacket := sample_file (ascii "abcdefgh") (ascii "a.txt").
Definition file_q : FileDescPacket := sample_file (ascii "ijklmnop") (ascii "b.txt").
Definition set_pq : Decoder :=
  let id := md5_Sum (ascii "candidate:c.txt") in
  set_candidates {[ ascii "c.txt" := id ]} {[ id := ascii "c.txt" ]}
    (sample_set 4 [file_p; file_q]
       {[ fd_FileID file_p := ifsc_of file_p [ascii "abcd"; ascii "efgh"];
          fd_FileID file_q := ifsc_of file_q [ascii "ijkl"; ascii "mnop"] ]}).
Definition disk_pq : Root :=
  {[ ascii "a.txt" := Contents (ascii "ijklmnop"); ascii "c.txt" := Contents (ascii "abcdefgh") ]}.

Definition at_places (id : FileID) : list shardLocation :=
  [{| FileID_ := id; Offset := 0 |}; {| FileID_ := id; Offset := 4 |}].

(** What verification finds: [a.txt] in [c.txt], and [b.txt] in [a.txt]. *)
Definition verified_pq : Decoder :=
  set_fileIntegrity
    {[ fd_FileID file_p := {| st_FileID := fd_FileID file_p; st_Filename := Filename file_p;
         Damage := damageWrongHash; RenameSource := ascii "c.txt";
         ShardLocations := at_places (md5_Sum (ascii "candidate:c.txt")) |};
       fd_FileID file_q := {| st_FileID := fd_FileID file_q; st_Filename := Filename file_q;
         Damage := damageMissing; RenameSource := []; ShardLocations := at_places (fd_FileID file_p) |} ]} set_pq.

(** After the rename nothing is recorded to be wrong with [a.txt]. *)
Definition renamed_pq : Decoder :=
  set_fileIntegrity
    {[ fd_FileID file_p := {| st_FileID := fd_FileID file_p; st_Filename := Filename file_p;
         Damage := damageNone; RenameSource := []; ShardLocations := at_places (fd_FileID file_p) |};
       fd_FileID file_q := {| st_FileID := fd_FileID file_q; st_Filename := Filename file_q;
         Damage := damageMissing; RenameSource := []; ShardLocations := at_places (fd_FileID file_p) |} ]} set_pq.



(** A rename can destroy what the repair needs.  Every block of the two files
    is located, none is missing, and no recovery block is needed: [b.txt] could
    be rebuilt from [a.txt].  But [Repair] first renames [c.txt] over [a.txt].
    The contents of [b.txt] are then nowhere on disk, its blocks are still
    recorded as located in [a.txt], and the repair goes on to read [a.txt]'s own
    bytes for them. *)
Theorem rename_destroys_blocks :
  VerifyScans schedule0 disk_pq set_pq = Ok verified_pq ∧
  RepairPossible (shardCountsLocked verified_pq) = true ∧
  UnusableDataShardCount (shardCountsLocked verified_pq) = 0 ∧
  disk_pq !! Filename file_p = Some (Contents (ascii "ijklmnop")) ∧
  ∃ root1 plan fl, renameMisnamedFiles calm disk_pq verified_pq = Ok (root1, renamed_pq, 1) ∧
    (∀ name, root1 !! name ≠ Some (Contents (ascii "ijklmnop"))) ∧
    planRepair calm renamed_pq 1 = Ok plan ∧ flatLocs plan !! 2%nat = Some fl ∧
    targetFilename fl = Filename file_q ∧ sourceFilename fl = Filename file_p ∧
    (read_shard renamed_pq plan 0 fl (no_handles root1)).2 = Ok (Some (ascii "abcd")).
Proof.
  split; [vm_compute; reflexivity|]. split; [vm_compute; reflexivity|]. split; [vm_compute; reflexivity|].
  split; [vm_compute; reflexivity|]. eexists (disk1 file_p (ascii "abcdefgh")), _, _.
  split; [vm_compute; reflexivity|]. split.
  { intros name H. unfold disk1 in H. apply lookup_singleton_Some in H as [_ H]. discriminate. }
  split; [vm_compute; reflexivity|]. split; [vm_compute; reflexivity|].
  split; [vm_compute; reflexivity|]. split; [vm_compute; reflexivity|]. vm_compute. reflexivity.
Qed.
