(* ===== verification/RestoreProperties.v ===== *)
(** * Repair brings the data back

    The theorems of the other direction: not that a repair which ends well is
    right (RepairProperties.v), but that it ends well.  With blocks and recovery
    data that are right and a system that refuses nothing, [Repair] restores the
    set after [VerifyScans], from the first prescan to the last rename, unless
    the matrix of the missing rows is singular. *)

From stdpp Require Import gmap.
From S2P Require Import Prelude Gf16 Kernels Dispatch Simd LinAlg Matrix ReedSolomon RsApply RsReconstruct.
From S2P Require Import Md5 Crc32 Packet PathFacts CrcTable Decoder DecoderFacts Blocks BlocksFacts Verify VerifyFacts.
From S2P Require Import VerifyOutcome VerifyLocated VerifyTotal ScanProperties Repair RepairFacts RepairSound RepairChunks RepairRun.
From S2P Require Import RepairProperties RepairRestore RepairRename.

(** What the repair of the decoder [d], in the directory [root], can rely on. *)
Record recoverable (env : Env) (b : build) (root : Root) (d : Decoder)
    (orig : list Z → list Z) : Prop := {
  rc_originals : originals root d orig;
  rc_located : located_right env root d orig;
  rc_recovery : recovery_right d orig;
  rc_possible : RepairPossible (shardCountsLocked d) = true;
  rc_honest : ∀ fd name data, fd ∈ protectedFiles d → root !! name = Some (Contents data) →
    md5_Sum data = fd_Hash fd → data = orig (Filename fd);
  rc_order : ∀ l, candidates_order env l ≡ₚ l;
  rc_names : names_apart d;
  rc_consistent : candidates_consistent d;
  rc_apart : candidates_apart d;
  rc_gaps : renames_into_gaps root d;
  rc_scheduled : ∀ root' d' n plan, renameMisnamedFiles env root d = Ok (root', d', n) →
    planRepair env d' n = Ok plan → chunks_scheduled env b d' plan
}.

(** No parity row is left out of the exponents from [k0] on. *)
Definition consecutive_exponents (d : Decoder) (k0 : Z) : Prop :=
  ∀ k, is_Some (Decoder.parityShards d !! k) ↔
       k0 <= k < k0 + Z.of_nat (size (Decoder.parityShards d)).

(** With consecutive exponents the matrix of the missing rows is regular. *)
Lemma consecutive_regular env root d k0 n plan e :
  set_ready root d → protectedFiles d ≠ [] → RepairPossible (shardCountsLocked d) = true →
  consecutive_exponents d k0 → planRepair env d n = Ok plan → ¬ singular d plan e.
Proof.
  intros Hready Hsome Hpos Hcons Hplan (_ & Hker). pose proof (sr_states _ _ Hready) as Hst.
  destruct (maxExp_bound d 32767 ltac:(lia) (sr_exponents _ _ Hready)) as [Hmax Hexp].
  pose proof Hplan as (_ & _ & _ & _ & Hfl & _ & Hp & _)%planRepair_inv.
  rewrite (buildFlatLocs_ok _ _ Hst) in Hfl. injection Hfl as Hfl.
  set (fls := flatLocs plan) in *. set (p := totalParityShards plan) in *.
  pose proof (missing_count d (buildFileIDToFilenameMap env d) (sr_ids _ _ Hready) Hst (sr_only _ _ Hready)) as Hmiss.
  rewrite Hfl in Hmiss.
  unfold RepairPossible in Hpos. rewrite Hmiss, shardCounts_spec in Hpos. cbn [UsableParityShardCount] in Hpos.
  apply Z.geb_le in Hpos. unfold len in Hpos.
  assert (length (missing_of (rows_there fls)) <= size (Decoder.parityShards d))%nat as Hle by lia.
  destruct (decide (size (Decoder.parityShards d) = 0%nat)) as [Hz|Hz].
  { destruct Hker as (x & i & Hi & _). unfold len in Hi. lia. }
  assert (0 <= k0 ∧ k0 + Z.of_nat (size (Decoder.parityShards d)) <= p) as [H0 Hhi].
  { pose proof Hcons as Hk. unfold consecutive_exponents in Hk.
    set (sz := Z.of_nat (size (Decoder.parityShards d))) in *.
    destruct (proj2 (Hk k0) ltac:(lia)) as [v0 Hv0].
    destruct (proj2 (Hk (k0 + sz - 1)) ltac:(lia)) as [v1 Hv1].
    pose proof (Hexp _ _ Hv0). pose proof (Hexp _ _ Hv1). cbv beta in *. lia. }
  pose proof (present_consecutive d p k0 Hcons H0 Hhi) as Hfst.
  assert (length (missing_of (rows_there fls)) <= length (present (ReedSolomon.indexed (parity_rows d p))))%nat
    as Henough by (apply (f_equal length) in Hfst; rewrite length_fmap, range_length in Hfst; lia).
  refine (consecutive_solvable (len fls) _ (replicate (length fls) []) _ (rows_there fls)
    (parity_rows d p) _ Henough k0 H0 _ Hker).
  - pose proof (rows_pos env root d Hready Hsome) as Hr. rewrite Hfl in Hr. exact Hr.
  - by rewrite length_replicate.
  - split; [by unfold rows_there; rewrite length_replicate, length_fmap|].
    intros i bs. unfold rows_there. rewrite list_lookup_fmap.
    destruct (fls !! i) as [fl|] eqn:Hi; [|done]. apply lookup_lt_Some in Hi. cbn.
    destruct (_ =? _); [done|]. intros [= <-]. by apply lookup_replicate_2.
  - intros i Hi. unfold nth_row, used_of. rewrite fmap_take, Hfst.
    rewrite lookup_take_lt, range_lookup by lia. cbn. lia.
Qed.

Section Ends.
Context (env : Env) (b : build) (sched : Schedule) (root : Root) (d0 d : Decoder).
Context (orig : list Z → list Z).
Hypothesis (Hok : decoder_ok d0) (Hmemory : 0 < memoryLimit d0).
Hypothesis (Hnames : NoDup (Filename <$> protectedFiles d0)) (Hperm : permutes sched).
Hypothesis (Hverify : VerifyScans sched root d0 = Ok d).
Hypothesis (Hob : obliging env) (Hapart : temps_apart env d0).
Hypothesis (Htemps : ∀ t, root !! temp_name env t = None).
Hypothesis (Hrec : recoverable env b root d orig).

Lemma no_files : protectedFiles d0 = [] →
  ∃ root' d', Repair env gf_tables b root d = (root', d', Ok tt).
Proof.
  intros Hnil.
  pose proof (VerifyScans_verifying sched root d0 (λ _, True) d (ok_distinct _ Hok)) as Hv.
  destruct Hv as [[Hsame _ Hst] _]; [done..|].
  assert (protectedFiles d = []) as Hpf by (by rewrite Hsame).
  unfold Repair, renameMisnamedFiles. rewrite Hpf. cbn [foldM].
  assert (RepairNeeded (shardCountsLocked d) = false) as ->; [|by exists root, d].
  apply RepairNeeded_spec. intros id s Hs. destruct (Hst id s Hs) as (fd & Hfd & _).
  rewrite Hnil in Hfd. by apply elem_of_nil in Hfd.
Qed.

(** The renames are done, and the repair proper can begin. *)
Lemma repair_begins : protectedFiles d0 ≠ [] →
  ∃ root1 d1 n, renameMisnamedFiles env root d = Ok (root1, d1, n) ∧ set_ready root1 d1 ∧
    d1 = set_fileIntegrity (fileIntegrity d1) d0 ∧ originals root1 d1 orig ∧
    located_right env root1 d1 orig ∧ recovery_right d1 orig ∧ nothing_misnamed d1 ∧
    RepairPossible (shardCountsLocked d1) = true ∧ (∀ t, root1 !! temp_name env t = None).
Proof.
  intros Hne. destruct (VerifyScans_ready sched root d0 d Hok Hperm Hne Hverify) as [Hready Hsame].
  destruct Hrec as [[A1 A2 A3] A4 A5 A6 A7 A8 A9 A10 A11 A12 _].
  assert (protectedFiles d = protectedFiles d0 ∧ candidateFiles d = candidateFiles d0 ∧
    candidateByID d = candidateByID d0) as (Hpf & Hc1 & Hc2) by (by rewrite Hsame).
  pose proof (ok_distinct _ Hok) as Hids.
  assert (renaming (listed d0) root d0 root d) as Hrn.
  { destruct (VerifyScans_verifying sched root d0 (listed d0) d Hids) as [Hv Hch]; [| |done|].
    - intros p id Hin. exists id. apply elem_of_map_to_list.
      by rewrite (proj2 (proj2 (proj2 Hperm)) (map_to_list (candidateFiles d0))) in Hin.
    - intros id p Hid. exists id. rewrite <- Hc1. apply A10. by rewrite Hc2.
    - by apply verified_renaming. }
  assert (names_apart d0) as Hnap by (split; [rewrite <- Hc1, <- Hpf|rewrite <- Hc1]; apply A9).
  assert (∀ fd, fd ∈ protectedFiles d0 → ¬ listed d0 (Filename fd)) as Hsrc.
  { intros fd Hfd [id Hid]. rewrite <- Hpf in Hfd. destruct (A11 fd Hfd) as [Hno _]. congruence. }
  assert (mendable env root d0 d orig root d) as Hm.
  { rewrite Hpf in A7. apply mendable_verified; done. }
  destruct (renames_ready env root d0 d orig A8 Hids Hnames Hnap Hsrc Hapart Hready Hsame Hm)
    as (root1 & d1 & n & Hrun & Hm1 & Hready1 & Hmis).
  pose proof (rn_same _ _ _ _ _ (md_renaming _ _ _ _ _ _ _ Hm1)) as Hsame1.
  exists root1, d1, n. split; [done|]. split; [done|]. split; [done|].
  assert (protectedFiles d1 = protectedFiles d0) as Hpf1 by (by rewrite Hsame1).
  split; [|split; [apply Hm1|split; [|split; [done|split]]]].
  - split; [done| |].
    + intros fd Hfd. apply A2. by rewrite Hpf, <- Hpf1.
    + intros fd data Hfd Hd Hh. apply (md_honest _ _ _ _ _ _ _ Hm1 fd (Filename fd)); [by rewrite <- Hpf1|done..].
  - rewrite Hsame1. rewrite Hsame in A5. exact A5.
  - by apply (mendable_possible env root d0 d orig Hready Hsame root1 d1 Hm1).
  - apply Hm1.
Qed.

Lemma repair_ends :
  ∃ root' d' r, Repair env gf_tables b root d = (root', d', r) ∧
    ((r = Ok tt ∧ ∀ fd, fd ∈ protectedFiles d0 →
        root' !! Filename fd = Some (Contents (orig (Filename fd)))) ∨
     ∃ root1 d1 n plan e, renameMisnamedFiles env root d = Ok (root1, d1, n) ∧
       planRepair env d1 n = Ok plan ∧ r = Err e ∧ singular d1 plan e).
Proof.
  destruct (decide (protectedFiles d0 = [])) as [Hnil|Hne].
  { destruct (no_files Hnil) as (root' & d' & Hr). exists root', d', (Ok tt). split; [done|].
    left. split; [done|]. rewrite Hnil. by intros fd ?%elem_of_nil. }
  destruct (repair_begins Hne) as (root1 & d1 & n & Hren & Hready & Hsame & Ho & Hl & Hre & Hmis & Hpos & Ht).
  assert (protectedFiles d1 = protectedFiles d0) as Hpf by (by rewrite Hsame).
  assert (memoryLimit d1 = memoryLimit d0) as Hml by (by rewrite Hsame).
  destruct (Repair_run env b root1 d1 orig) with (root1 := root) (d1 := d) (n := n)
    as (root' & d' & r & Hr & Hcase); rewrite ?Hpf, ?Hml; try done.
  { intros plan Hplan. by apply (rc_scheduled _ _ _ _ _ Hrec root1 d1 n plan). }
  exists root', d', r. split; [done|]. unfold restored in Hcase. rewrite Hpf in Hcase.
  destruct Hcase as [Hcase|(plan & e & H1 & H2 & H3)]; [by left|right]. by exists root1, d1, n, plan, e.
Qed.

(** With consecutive exponents no matrix is singular. *)
Lemma repair_ends_well k0 : consecutive_exponents d0 k0 →
  ∃ root' d', Repair env gf_tables b root d = (root', d', Ok tt) ∧
    ∀ fd, fd ∈ protectedFiles d0 → root' !! Filename fd = Some (Contents (orig (Filename fd))).
Proof.
  intros Hcons. destruct repair_ends as (root' & d' & r & Hr & Hcase).
  destruct Hcase as [[-> Hall]|(root1 & d1 & n & plan & e & Hren & Hplan & _ & Hsing)]; [by exists root', d'|].
  exfalso. destruct (decide (protectedFiles d0 = [])) as [Hnil|Hne].
  { destruct Hsing as (_ & x & i & Hi & _). apply planRepair_inv in Hplan as (_ & _ & _ & _ & Hfl & _).
    assert (protectedFiles d1 = []) as Hpf.
    { destruct (VerifyScans_verifying sched root d0 (λ _, True) d (ok_distinct _ Hok)) as [[Hs _ _] _]; [done..|].
      unfold renameMisnamedFiles in Hren. assert (protectedFiles d = []) as Hd by (by rewrite Hs).
      rewrite Hd in Hren. injection Hren as _ <- _. exact Hd. }
    unfold buildFlatLocs in Hfl. rewrite Hpf in Hfl. injection Hfl as Hfl. rewrite <- Hfl in Hi.
    change (0 <= i < 0) in Hi. lia. }
  destruct (repair_begins Hne) as (root2 & d2 & n2 & Hren2 & Hready & Hsame & _ & _ & _ & _ & Hpos & _).
  assert (root2 = root1 ∧ d2 = d1 ∧ n2 = n) as (-> & -> & ->) by (split_and!; congruence).
  refine (consecutive_regular env root1 d1 k0 n plan e Hready _ Hpos _ Hplan Hsing).
  - by rewrite Hsame.
  - rewrite Hsame. exact Hcons.
Qed.

End Ends.

(** C10: A repair brings the data back.  After verification, if the located blocks
    are on disk where their locations say, the recovery blocks are the parity of
    the data, there are enough of them, the names of the set are distinct, no
    candidate is a file of the set, files are renamed into free places only, the
    names of temporary files are free, different data have different MD5s, the
    goroutines run to their end and the operating system refuses nothing,
    then [Repair] -- renames, reconstruction, installation -- never panics and
    returns no error but one: nil, and then every protected file has exactly its
    original contents, or "singular matrix", and then the parity rows it used
    really do not determine the missing blocks. *)
Theorem Repair_restores env b sched root d0 d orig :
  decoder_ok d0 → 0 < memoryLimit d0 → NoDup (Filename <$> protectedFiles d0) → permutes sched →
  VerifyScans sched root d0 = Ok d → obliging env → temps_apart env d0 →
  (∀ t, root !! temp_name env t = None) → recoverable env b root d orig →
  ∃ root' d' r, Repair env gf_tables b root d = (root', d', r) ∧
    ((r = Ok tt ∧ ∀ fd, fd ∈ protectedFiles d0 →
        root' !! Filename fd = Some (Contents (orig (Filename fd)))) ∨
     (r = Err "singular matrix" ∧ ∃ root1 d1 n plan, renameMisnamedFiles env root d = Ok (root1, d1, n) ∧
        planRepair env d1 n = Ok plan ∧
        let lost := missing_of (rows_there (flatLocs plan)) in
        let used := used_of (rows_there (flatLocs plan)) (parity_rows d1 (totalParityShards plan)) in
        kernel_nonzero (len lost) (missing_matrix lost used))).
Proof.
  intros Hok Hm Hnames Hperm Hv Hob Hapart Htemps Hrec.
  destruct (repair_ends env b sched root d0 d orig) as (root' & d' & r & Hr & Hcase); [done..|].
  exists root', d', r. split; [done|].
  destruct Hcase as [?|(root1 & d1 & n & plan & e & Hren & Hp & -> & -> & Hk)]; [by left|].
  right. split; [done|]. by exists root1, d1, n, plan.
Qed.

(** What the set and the disk promise before verification: the contents are
    those the set describes, its checksums and its recovery blocks are theirs,
    nothing on disk is taken for something else (by its MD5, or after the end of
    a file that has grown), and the candidates are other files. *)
Record promised (root : Root) (d : Decoder) (orig : list Z → list Z) : Prop := {
  pr_originals : originals root d orig;
  pr_checksums : checksums_right d orig;
  pr_recovery : recovery_right d orig;
  pr_honest : disk_honest root d orig;
  pr_names : names_apart d;
  pr_apart : candidates_apart d
}.

Lemma verified_recoverable env b sched root d0 d orig :
  decoder_ok d0 → permutes sched → protectedFiles d0 ≠ [] → disk_ok root →
  Z.of_nat (total_pairs d0) <= 536870912 → VerifyScans sched root d0 = Ok d →
  (∀ l, candidates_order env l ≡ₚ l) → promised root d0 orig → candidates_consistent d0 →
  RepairPossible (shardCountsLocked d) = true → renames_into_gaps root d →
  (∀ root' d' n plan, renameMisnamedFiles env root d = Ok (root', d', n) →
     planRepair env d' n = Ok plan → chunks_scheduled env b d' plan) →
  recoverable env b root d orig.
Proof.
  intros Hok Hperm Hne Hdisk Htot Hrun Horder [H1 H2 H3 H4 H5 H7] H6 Hpos Hgaps Hsched.
  destruct (VerifyScans_ready sched root d0 d Hok Hperm Hne Hrun) as [Hready Hsame].
  pose proof (VerifyScans_located sched root d0 d Hok Hperm Hdisk Htot Hrun) as Hall.
  split; [| | |exact Hpos| |exact Horder| | | |exact Hgaps|exact Hsched].
  - rewrite Hsame. destruct H1 as [Ha Hb Hc]. split; [exact Ha|exact Hb|exact Hc].
  - apply (located_readable env root d0 d orig Horder (ok_distinct _ Hok) H5 H2 H4);
      [| |exact Hsame|exact Hall].
    + pose proof (proj1 (sr_slice _ _ Hready)) as Hs. rewrite Hsame in Hs. exact Hs.
    + intros fd Hfd. assert (0 < ByteCount fd); [|lia]. apply (sr_sizes _ _ Hready). by rewrite Hsame.
  - rewrite Hsame. exact H3.
  - rewrite Hsame. exact (dh_file _ _ _ H4).
  - rewrite Hsame. exact H5.
  - rewrite Hsame. exact H6.
  - rewrite Hsame. exact H7.
Qed.

(** The repair of what verification leaves. *)
Lemma verified_repairs env b sched root d0 d orig k0 :
  decoder_ok d0 → 0 < memoryLimit d0 → NoDup (Filename <$> protectedFiles d0) → permutes sched →
  disk_ok root → Z.of_nat (total_pairs d0) <= 536870912 → VerifyScans sched root d0 = Ok d →
  promised root d0 orig → candidates_consistent d0 → consecutive_exponents d0 k0 →
  obliging env → (∀ l, candidates_order env l ≡ₚ l) → temps_apart env d0 →
  (∀ t, root !! temp_name env t = None) →
  RepairPossible (shardCountsLocked d) = true → renames_into_gaps root d →
  (∀ root' d' n plan, renameMisnamedFiles env root d = Ok (root', d', n) →
     planRepair env d' n = Ok plan → chunks_scheduled env b d' plan) →
  ∃ root' d', Repair env gf_tables b root d = (root', d', Ok tt) ∧
    ∀ fd, fd ∈ protectedFiles d0 → root' !! Filename fd = Some (Contents (orig (Filename fd))).
Proof.
  intros Hok Hm Hnames Hperm Hdisk Htot Hv Hpr Hcand Hcons Hob Horder Hapart Htemps Hpos Hgaps Hsched.
  destruct (decide (protectedFiles d0 = [])) as [Hnil|Hne].
  { destruct (no_files env b sched root d0 d) as (root' & d' & Hr); [done..|]. exists root', d'.
    split; [exact Hr|]. rewrite Hnil. by intros fd ?%elem_of_nil. }
  pose proof (verified_recoverable env b sched root d0 d orig Hok Hperm Hne Hdisk Htot Hv Horder
    Hpr Hcand Hpos Hgaps Hsched) as Hrec.
  by apply (repair_ends_well env b sched root d0 d orig Hok Hm Hnames Hperm Hv Hob Hapart Htemps Hrec k0).
Qed.


(** ** The last block of a file that has grown *)

(** Two blocks are the same when their chunks are. *)
Lemma chunks_determine d plan (x y : list Z) :
  0 < chunkSize plan → 0 < sliceByteCount d →
  plan_numChunks plan = Z.quot (sliceByteCount d + chunkSize plan - 1) (chunkSize plan) →
  len x = sliceByteCount d → len y = sliceByteCount d →
  (∀ i, 0 <= i < plan_numChunks plan →
     let lo := i * chunkSize plan in
     seg lo (lo + currChunkSize d plan i) x = seg lo (lo + currChunkSize d plan i) y) → x = y.
Proof.
  intros Hc Hs Hn Hx Hy H. unfold len in *.
  apply list_eq_same_length with (n := Z.to_nat (sliceByteCount d)); [lia..|].
  intros k a b Hk Ha Hb.
  destruct (chunk_cover d plan Hc Hs Hn (Z.of_nat k) ltac:(lia)) as (i & Hi & Hik).
  specialize (H i Hi). cbv zeta in H. set (lo := i * chunkSize plan) in *. assert (0 <= lo) by (unfold lo; nia).
  apply (f_equal (λ l, l !! (k - Z.to_nat lo)%nat)) in H. unfold seg in H.
  rewrite !lookup_take_lt, !lookup_drop in H by lia.
  replace (Z.to_nat lo + (k - Z.to_nat lo))%nat with k in H by lia. congruence.
Qed.

(** C40: The last block of a file that has grown.  Verification looks up the last,
    partial block of a file by its described length, padded with zeros
    ([scanLastPartialBlock]); a repair reads a block that is located there
    from the file as it is, chunk by chunk ([read_shard]).  The chunks that it
    reads are those of the block that was looked up if and only if what the file
    holds after the described length, up to the end of the slice, are zeros, if
    anything.  So the last block of a file that has grown into its last slice is
    located, and read back wrong. *)
Theorem tail_read_back env d n plan fl root data size t cands flags source st :
  0 < memoryLimit d → 0 < sliceByteCount d <= maxAlloc → planRepair env d n = Ok plan →
  root !! sourceFilename fl = Some (Contents data) →
  0 < size <= maxInt → size mod sliceByteCount d ≠ 0 →
  let bs := sliceByteCount d in
  diskOffset fl = size / bs * bs →
  let padded := ReadAt data (diskOffset fl) (Z.to_nat (size mod bs)) ++
                replicate (Z.to_nat (bs - size mod bs)) 0 in
  scanLastPartialBlock t bs cands flags (Contents data) source size st =
    ('(_, st) ← matchBlock t bs cands flags source padded (ChecksumIEEE padded) (diskOffset fl) st; Ok st) ∧
  ((∀ i, 0 <= i < plan_numChunks plan →
      (read_shard d plan i fl (no_handles root)).2 =
      Ok (Some (seg (i * chunkSize plan) (i * chunkSize plan + currChunkSize d plan i) padded))) ↔
   zeros_after data size (bs - size mod bs)).
Proof.
  intros Hm Hs Hplan Hfile Hsize Hmod bs Hoff padded.
  apply planRepair_inv in Hplan as (_ & _ & _ & Hc & _ & _ & _ & Hn).
  apply computeChunkSize_spec in Hc as (_ & H16 & _); [|lia..]. fold bs in Hn, Hmod.
  pose proof (Z.mod_pos_bound size bs ltac:(lia)) as Hr.
  pose proof (Z.div_mod size bs ltac:(lia)) as Hd. pose proof (Z.div_pos size bs ltac:(lia) ltac:(lia)).
  assert (0 <= diskOffset fl) by (rewrite Hoff; nia).
  assert (padded = block_at bs (take (Z.to_nat size) data) (diskOffset fl)) as Hpad.
  { unfold padded. rewrite Hoff. apply tail_block; lia. }
  assert (∀ i, 0 <= i < plan_numChunks plan →
    let lo := i * chunkSize plan in
    (read_shard d plan i fl (no_handles root)).2 =
      Ok (Some (seg lo (lo + currChunkSize d plan i) (block_at bs data (diskOffset fl))))) as Hread.
  { intros i Hi. destruct (chunk_bounds d plan ltac:(lia) ltac:(lia) Hn i Hi) as (Hb & _ & Hle).
    fold bs in Hle. cbv zeta. set (lo := i * chunkSize plan) in *. assert (0 <= lo) by (unfold lo; nia).
    unfold read_shard. rewrite (proj2 (Z.eqb_neq (diskOffset fl) (-1))) by lia.
    unfold getSource. run. unfold no_handles at 1. cbn [sources]. rewrite lookup_empty.
    unfold Open. cbn [no_handles fs]. run. rewrite Hfile. run. cbn [snd]. do 2 f_equal. fold lo.
    unfold block_at.
    rewrite <- (ReadAt_seg data (diskOffset fl) lo (lo + currChunkSize d plan i) (Z.to_nat bs)) by lia.
    f_equal. lia. }
  split.
  - unfold scanLastPartialBlock. rewrite (proj2 (Z.eqb_neq _ _)) by done. fold bs.
    assert (wrap64 (size + bs - 1) / bs = size / bs + 1) as ->.
    { unfold wrap64. rewrite Z.mod_small by (unfold maxInt, maxAlloc in *; lia).
      symmetry. apply Z.div_unique with (size mod bs - 1); [left; lia|lia]. }
    replace (size / bs + 1 - 1) with (size / bs) by lia.
    replace (size - size / bs * bs) with (size mod bs) by lia. cbv zeta.
    rewrite make_bytes_ok by lia. cbn [mbind result_bind].
    rewrite drop_replicate, <- Z2Nat.inj_sub, <- Hoff by lia. done.
  - rewrite <- tail_reads, <- Hoff, <- Hpad by lia. split; intros He.
    + apply (chunks_determine d plan); [lia..|exact Hn| | |].
      * unfold len, block_at. rewrite ReadAt_length. lia.
      * rewrite Hpad. unfold len, block_at. rewrite ReadAt_length. lia.
      * intros i Hi. cbv zeta. specialize (He i Hi). rewrite (Hread i Hi) in He. congruence.
    + intros i Hi. rewrite <- He. by apply Hread.
Qed.

Lemma tail_read_back_witness :
  ∃ d plan fl, VerifyScans schedule0 disk_tail set_a = Ok d ∧ planRepair calm d 0 = Ok plan ∧
    flatLocs plan !! 2%nat = Some fl ∧
    ¬ ∀ i, 0 <= i < plan_numChunks plan → (read_shard d plan i fl (no_handles disk_tail)).2 =
        Ok (Some (seg (i * chunkSize plan) (i * chunkSize plan + currChunkSize d plan i)
                    (ascii "i" ++ [0; 0; 0]))).
Proof.
  assert (∃ d plan fl, VerifyScans schedule0 disk_tail set_a = Ok d ∧ planRepair calm d 0 = Ok plan ∧
    flatLocs plan !! 2%nat = Some fl ∧ 0 < memoryLimit d ∧ sliceByteCount d = 4 ∧ diskOffset fl = 8 ∧
    sourceFilename fl = Filename file_a) as (d & plan & fl & H1 & H2 & H3 & H4 & H5 & H6 & H7).
  { eexists _, _, _. do 3 (split; [vm_compute; reflexivity|]). split_and!; vm_compute; reflexivity. }
  exists d, plan, fl. split; [exact H1|]. split; [exact H2|]. split; [exact H3|]. intros Hall.
  destruct (newCRCLookupTable []) as [t| |] eqn:Ht; [|vm_compute in Ht; discriminate..].
  destruct (tail_read_back calm d 0 plan fl disk_tail (ascii "abcdXXXXiZZZ") 9 t ∅ (λ _, ∅) [] scan_start)
    as [_ Hiff]; [exact H4|rewrite H5; decided|exact H2|rewrite H7; vm_compute; reflexivity|decided
    |rewrite H5; discriminate|rewrite H5; exact H6|].
  rewrite H5, H6 in Hiff. apply Hiff in Hall. vm_compute in Hall. discriminate.
Defined.

(** ** A set that comes back

    [file_a] with its middle block overwritten and one recovery block, of
    exponent 0. *)

Definition steady : Env :=
  {| mkdir_ok := λ _, true; rename_ok := λ _ _, true; rand_text := λ _, ascii "ABCDEFGHIJKLMNOP";
     create_ok := λ _, true; write_ok := λ _ _, true; truncate_ok := λ _, true;
     sync_ok := λ _, true; hash_ok := λ _, true; close_ok := λ _, true; stat_ok := λ _, true;
     chmod_ok := λ _, true; remove_ok := λ _, true; chunk_polls := λ _, false;
     rs_ctx := λ _, background; rs_schedule := λ _, [0; 0; 0]; default_goroutines := 1;
     candidates_order := id |}.

Lemma steady_obliging : obliging steady.
Proof. by split. Qed.

Definition set_p (P : list Z) : Decoder :=
  {| numGoroutines := 1; memoryLimit := 16777216; maxFileSize := 104857600;
     maxPacketSize := 134217728; sliceByteCount := 4; recoverySetID := zero16;
     protectedFiles := [file_a]; fileChecksums := fileChecksums set_a;
     Decoder.parityShards := {[ 0 := P ]}; fileIntegrity := ∅;
     candidateFiles := ∅; candidateByID := ∅; parityFileBlocks := {[ ascii "v" := 1 ]} |}.

Definition contents_a (name : list Z) : list Z :=
  if bool_decide (name = Filename file_a) then ascii "abcdefghi" else [].

Definition blocks_a : list (list Z) := data_blocks 4 contents_a [file_a].
Definition parity_a : list Z := product_row vandermonde (len blocks_a) 4 0 blocks_a.

Lemma parity_a_length : len parity_a = 4.
Proof. apply (product_row_length 4 eq_refl ltac:(lia) []). Qed.

Lemma parity_a_bytes : bytes parity_a.
Proof. apply of_words_bytes. Qed.

(** The parity is a variable: nothing of it is computed. *)
Lemma verify_p P :
  VerifyScans schedule0 disk_b (set_p P) =
  Ok (set_fileIntegrity {[ fd_FileID file_a := state_b ]} (set_p P)).
Proof. vm_compute. reflexivity. Qed.

Definition verified_p (P : list Z) : Decoder :=
  set_fileIntegrity {[ fd_FileID file_a := state_b ]} (set_p P).

Lemma set_p_ok P : bytes P → len P = 4 → decoder_ok (set_p P).
Proof.
  intros Hb Hl. split.
  - right. split; [split|]; vm_compute; done.
  - constructor; [apply file_a_ok|constructor].
  - apply NoDup_singleton.
  - apply map_Forall_singleton. split; [reflexivity|decided].
  - apply map_Forall_singleton. split; [lia|]. split; [done|]. by rewrite Hl.
  - vm_compute. reflexivity.
Qed.

Lemma verified_p_plan P plan :
  len P = 4 → planRepair steady (verified_p P) 0 = Ok plan →
  chunkSize plan = 16 ∧ plan_numChunks plan = 1 ∧ totalDataShards plan = 3 ∧
  UnusableDataShardCount (counts plan) = 1.
Proof.
  intros Hl (_ & Hct & Htot & Hc & _ & _ & _ & Hn)%planRepair_inv. rewrite Hct in *.
  assert (totalDataShards plan = 3) as Ht by (vm_compute in Htot; by injection Htot).
  assert (UnusableDataShardCount (shardCountsLocked (verified_p P)) = 1) as Hu by (vm_compute; reflexivity).
  rewrite Ht, Hu in Hc. assert (chunkSize plan = 16) as Hcs by (vm_compute in Hc; by injection Hc).
  rewrite Hcs in Hn. cbn [verified_p set_fileIntegrity set_p sliceByteCount] in Hn.
  split; [exact Hcs|]. split; [rewrite Hn; reflexivity|]. by split.
Qed.

Lemma locations_p i loc : ShardLocations state_b !! i = Some loc → Offset loc ≠ -1 →
  FileID_ loc = fd_FileID file_a ∧ (i = 0%nat ∧ Offset loc = 0 ∨ i = 2%nat ∧ Offset loc = 8).
Proof.
  destruct i as [|[|[|i]]]; cbn; intros [= <-]; cbn; [|done|]; intros _; (split; [done|]); [by left|by right].
Qed.

Lemma source_p P :
  disk_b !! default [] (buildFileIDToFilenameMap steady (verified_p P) !! fd_FileID file_a) =
  Some (Contents (ascii "abcdXXXXi")).
Proof. vm_compute. reflexivity. Qed.

Lemma possible_p P : RepairPossible (shardCountsLocked (verified_p P)) = true.
Proof. vm_compute. reflexivity. Qed.

Lemma recovery_p : recovery_right (verified_p parity_a) contents_a.
Proof.
  unfold recovery_right.
  cbn [verified_p set_fileIntegrity set_p sliceByteCount protectedFiles Decoder.parityShards].
  apply map_Forall_singleton. unfold parity_a, blocks_a. reflexivity.
Qed.

Lemma scheduled_p plan : planRepair steady (verified_p parity_a) 0 = Ok plan →
  chunks_scheduled steady NonAmd64 (verified_p parity_a) plan.
Proof.
  intros Hplan. destruct (verified_p_plan _ plan parity_a_length Hplan) as (Hc & Hn & Ht & Hu).
  intros i Hi. rewrite Hn in Hi. assert (i = 0) as -> by lia. rewrite Ht, Hu.
  assert (currChunkSize (verified_p parity_a) plan 0 = 4) as ->.
  { unfold currChunkSize. rewrite Hn, Hc. reflexivity. }
  change (numGoroutines (verified_p parity_a)) with 1. decided.
Qed.

Lemma renames_p P root' d' n :
  renameMisnamedFiles steady disk_b (verified_p P) = Ok (root', d', n) → d' = verified_p P ∧ n = 0.
Proof.
  assert (renameMisnamedFiles steady disk_b (verified_p P) = Ok (disk_b, verified_p P, 0)) as -> by
    (vm_compute; reflexivity).
  by intros [= <- <- <-].
Qed.

Lemma all_scheduled_p root' d' n plan :
  renameMisnamedFiles steady disk_b (verified_p parity_a) = Ok (root', d', n) →
  planRepair steady d' n = Ok plan → chunks_scheduled steady NonAmd64 d' plan.
Proof. intros [-> ->]%renames_p. apply scheduled_p. Qed.

Lemma gaps_p P : renames_into_gaps disk_b (verified_p P).
Proof.
  intros fd s ->%list_elem_of_singleton. cbn [verified_p set_fileIntegrity fileIntegrity].
  rewrite lookup_singleton_eq. intros [= <-]. done.
Qed.

Lemma no_candidates_p P :
  names_apart (verified_p P) ∧ candidates_consistent (verified_p P) ∧ candidates_apart (verified_p P).
Proof.
  assert (∀ name id, candidateFiles (verified_p P) !! name ≠ Some id) as H1
    by (intros name id; apply lookup_empty_Some).
  assert (∀ id name, candidateByID (verified_p P) !! id ≠ Some name) as H2
    by (intros id name; apply lookup_empty_Some).
  split; [split; [by intros name id ?%H1|by intros name name' id ?%H1]|].
  split; [by intros id name ?%H2|]. intros fd _. split; [apply eq_None_not_Some; by intros [id ?%H1]|].
  intros id. apply H2.
Qed.

Lemma disk_b_data name data : disk_b !! name = Some (Contents data) → data = ascii "abcdXXXXi".
Proof. unfold disk_b, disk1. intros H. apply lookup_singleton_Some in H as [_ [= <-]]. done. Qed.

Lemma no_match_p fd name data : fd ∈ [file_a] → disk_b !! name = Some (Contents data) →
  md5_Sum data = fd_Hash fd → data = contents_a (Filename fd).
Proof. intros ->%list_elem_of_singleton ->%disk_b_data H. vm_compute in H. discriminate. Qed.

Lemma recoverable_p : recoverable steady NonAmd64 disk_b (verified_p parity_a) contents_a.
Proof.
  destruct (no_candidates_p parity_a) as (Hc1 & Hc2 & Hc3).
  split; [| | | |exact no_match_p|done|exact Hc1|exact Hc2|exact Hc3|apply gaps_p|exact all_scheduled_p].
  - split.
    + intros name. unfold contents_a. case_bool_decide; decided.
    + intros fd ->%list_elem_of_singleton. split; vm_compute; reflexivity.
    + intros fd data Hfd. by apply no_match_p.
  - intros fd i loc ->%list_elem_of_singleton Hi Hne.
    change (locations (verified_p parity_a) file_a) with (ShardLocations state_b) in Hi.
    destruct (locations_p i loc Hi Hne) as [Hid Hcase]. rewrite Hid.
    split; [destruct Hcase as [[_ ->]|[_ ->]]; lia|]. exists (ascii "abcdXXXXi").
    split; [apply source_p|]. change (sliceByteCount (verified_p parity_a)) with 4.
    destruct Hcase as [[-> ->]|[-> ->]]; vm_compute; reflexivity.
  - apply recovery_p.
  - apply possible_p.
Qed.

Lemma steady_free t : disk_b !! temp_name steady t = None.
Proof.
  apply lookup_singleton_ne. intros He.
  assert (temps_apart steady (set_p [])) as H; [|by apply (H t file_a); [apply list_elem_of_here|]].
  apply temps_apart_suffix. intros fd ->%list_elem_of_singleton s Hs.
  apply (f_equal last) in Hs. rewrite last_app in Hs. discriminate.
Qed.

Lemma steady_apart P : temps_apart steady (set_p P).
Proof.
  apply temps_apart_suffix. intros fd ->%list_elem_of_singleton s Hs.
  apply (f_equal last) in Hs. rewrite last_app in Hs. discriminate.
Qed.

Lemma Repair_restores_witness :
  ∃ root' d' r, Repair steady gf_tables NonAmd64 disk_b (verified_p parity_a) = (root', d', r) ∧
    (r = Ok tt ∧ root' !! Filename file_a = Some (Contents (ascii "abcdefghi")) ∨
     r = Err "singular matrix").
Proof.
  destruct (Repair_restores steady NonAmd64 schedule0 disk_b (set_p parity_a) (verified_p parity_a) contents_a)
    as (root' & d' & r & Hr & Hcase);
    [apply set_p_ok; [apply parity_a_bytes|apply parity_a_length]|done|apply NoDup_singleton|apply permutes0
    |apply verify_p|apply steady_obliging|apply steady_apart|apply steady_free|apply recoverable_p|].
  exists root', d', r. split; [exact Hr|]. destruct Hcase as [[-> Hall]|[-> _]]; [left|by right].
  split; [done|]. apply (Hall file_a). apply list_elem_of_here.
Defined.

Lemma consecutive_p P : consecutive_exponents (set_p P) 0.
Proof.
  intros k. cbn [set_p Decoder.parityShards]. rewrite map_size_singleton.
  split.
  - intros [v [<- _]%lookup_singleton_Some]. lia.
  - intros Hk. exists P. apply lookup_singleton_Some. split; [lia|done].
Qed.

(** No two of the blocks in question have the same MD5. *)
Definition blocks_of_a (data : list Z) : list (list Z) :=
  flat_map (λ n, map (λ off, block_at 4 (take n data) (Z.of_nat off)) (seq 0 13)) (seq 0 10).

Lemma blocks_of_a_elem data n off : length data = 9%nat → block_at 4 (take n data) off ∈ blocks_of_a data.
Proof.
  intros Hl. unfold blocks_of_a. rewrite list_elem_of_In. apply in_flat_map.
  exists (n `min` 9)%nat. split; [apply in_seq; lia|]. apply in_map_iff.
  exists (Z.to_nat off `min` 12)%nat. split; [|apply in_seq; lia].
  assert (take (n `min` 9) data = take n data) as ->.
  { destruct (decide (n <= 9)%nat); [by rewrite Nat.min_l|]. by rewrite !take_ge by lia. }
  unfold block_at, ReadAt. rewrite Nat2Z.id.
  destruct (decide (Z.to_nat off <= 12)%nat); [by rewrite Nat.min_l|].
  by rewrite !drop_ge by (rewrite length_take; lia).
Qed.

Definition originals_of_a : list (list Z) :=
  [ascii "abcd"; ascii "efgh"; ascii "i" ++ [0; 0; 0]; [0; 0; 0; 0]].

Lemma original_of_a (i : nat) : block_at 4 (ascii "abcdefghi") (Z.of_nat i * 4) ∈ originals_of_a.
Proof.
  destruct i as [|[|[|i]]]; [decided|decided|decided|].
  unfold block_at, ReadAt. rewrite drop_ge by (cbn; lia). decided.
Qed.

Lemma no_collisions :
  Forall (λ found, Forall (λ original, md5_Sum found = md5_Sum original → found = original) originals_of_a)
    (remove_dups (blocks_of_a (ascii "abcdXXXXi"))).
Proof. decided. Qed.

Lemma promised_p : promised disk_b (set_p parity_a) contents_a.
Proof.
  pose proof recoverable_p as [[Ha Hb Hc] _ H3 _ Hh _ Hc1 Hc2 Hc3 _ _].
  split; [by split| |exact H3| |exact Hc1|exact Hc3].
  - intros fd p i pr ->%list_elem_of_singleton.
    change (fileChecksums (set_p parity_a)) with (fileChecksums set_a).
    cbn [set_a sample_set fileChecksums]. rewrite lookup_singleton_eq. intros [= <-].
    change (sliceByteCount (set_p parity_a)) with 4.
    destruct i as [|[|[|i]]]; cbn [ifsc_of ChecksumPairs fmap list_fmap lookup list_lookup];
      [intros [= <-]; vm_compute; reflexivity..|done].
  - split; [exact Hh| |].
    + intros fd i name data n off ->%list_elem_of_singleton ->%disk_b_data _. cbv zeta.
      change (sliceByteCount (set_p parity_a)) with 4.
      change (contents_a (Filename file_a)) with (ascii "abcdefghi"). intros Hmd.
      pose proof no_collisions as Hall. rewrite Forall_forall in Hall.
      assert (block_at 4 (take (Z.to_nat n) (ascii "abcdXXXXi")) off ∈ remove_dups (blocks_of_a (ascii "abcdXXXXi")))
        as Hf by (apply elem_of_remove_dups; by apply blocks_of_a_elem).
      specialize (Hall _ Hf). rewrite Forall_forall in Hall. by apply Hall; [apply original_of_a|].
    + intros fd data ->%list_elem_of_singleton ->%disk_b_data _. apply zeros_after_end. vm_compute. discriminate.
Qed.

Lemma well_p P : ¬ failure (ctx_polls schedule0) disk_b (set_p P).
Proof.
  intros [e He|Hz|p n Hc|name f Hf Hno].
  - vm_compute in He. discriminate.
  - discriminate.
  - discriminate.
  - unfold disk_b, disk1 in Hf. apply lookup_singleton_Some in Hf as [_ <-]. by eapply Hno.
Qed.

