(* ===== verification/CliProperties.v ===== *)
(** * Properties of the command

    What the exit codes of gopar mean.  The composition of everything: an exit
    code of zero says that the data is right. *)

From stdpp Require Import gmap.
From S2P Require Import Prelude Gf16 Kernels Dispatch Simd.
From S2P Require Import Md5 Crc32 Packet PacketFacts CrcTable Decoder DecoderFacts Blocks Verify VerifyFacts VerifyOutcome.
From S2P Require Import ScanProperties PacketProperties Repair RepairFacts RepairSound RepairProperties Cli.

(** ** Flags *)

Lemma parseOne_shorter fv args fv' rest :
  parseOne fv args = FlagSet fv' rest → (length rest < length args)%nat.
Proof.
  unfold parseOne. destruct args as [|s args]; [done|]. destruct s as [|x s]; [done|].
  destruct (decide (x = 45)) as [->|Hx].
  2:{ destruct x as [|x|x]; try done. do 6 (destruct x as [x|x|]; try done). }
  destruct s as [|c s]; [done|]. destruct (_ && _); [done|].
  destruct (if c =? 45 then s else c :: s) as [|n name]; [done|].
  destruct (_ || _); [done|]. destruct (split_value [] (n :: name)) as [nm value].
  destruct (flag_of nm) as [f|]; [|done].
  assert (∀ v r, match set_flag f v fv with Some fv => FlagSet fv r | None => FlagError end =
    FlagSet fv' rest → rest = r) as Hset.
  { intros v r. by destruct (set_flag f v fv); intros [= _ <-]. }
  destruct value as [v|].
  - intros ->%Hset. simpl. lia.
  - destruct (is_bool_flag f); [intros ->%Hset; simpl; lia|].
    destruct args as [|v args]; [done|]. intros ->%Hset. simpl. lia.
Qed.

Lemma Parse_no_panic (fuel : nat) fv args : (length args < fuel)%nat → no_panic (Parse fuel fv args).
Proof.
  revert fv args. induction fuel as [|fuel IH]; intros fv args Hf; [lia|]. cbn [Parse].
  destruct (parseOne fv args) as [rest|fv' rest|] eqn:H1; [done| |done].
  apply IH. apply parseOne_shorter in H1. lia.
Qed.

Lemma parseCLIFlags_total cpus args :
  ∃ r, parseCLIFlags cpus args = Ok r ∧
    match r with
    | inr code => code = ExitInvalidCommandLineArguments
    | inl opts => versionFlag opts = true ∨ is_verify (cmd opts) = true ∨ is_repair (cmd opts) = true
    end.
Proof.
  unfold parseCLIFlags.
  pose proof (Parse_no_panic (S (length args)) (flag_defaults cpus) args ltac:(lia)) as Hp.
  destruct (Parse _ _ _) as [[fv rest]| |]; [|by eexists|done].
  destruct (fv_version fv); [eexists; split; [done|by left]|].
  destruct rest as [|c [|path rest]]; [by eexists..|].
  destruct (negb _ && _) eqn:Hc; [by eexists|]. eexists. split; [done|]. right. cbn [cmd].
  apply andb_false_iff in Hc as [->%negb_false_iff| ->%negb_false_iff]; auto.
Qed.

(** ** Candidates *)

Lemma add_candidate_files d path d' :
  add_candidate d path = Ok d' → protectedFiles d' = protectedFiles d.
Proof.
  unfold add_candidate, AddCandidateFile. destruct (DefangPath path) as [p| |]; [|done..].
  destruct (candidateFiles d !! p); cbn [mbind result_bind]; by intros [= <-].
Qed.

Lemma expandCandidates_files env path cs d d' :
  expandCandidates env path cs d = Ok d' → protectedFiles d' = protectedFiles d.
Proof.
  unfold expandCandidates.
  apply (foldM_ok_list _ (λ d', protectedFiles d' = protectedFiles d)); [|done].
  intros d1 c d2 _ <-. unfold expand_candidate.
  destruct (negb _); [apply add_candidate_files|].
  destruct (Glob env _) as [ms| |]; cbn [mbind result_bind]; [|done..].
  apply (foldM_ok_list _ (λ d', protectedFiles d' = protectedFiles d1)); [|done].
  intros d3 m d4 _ <-. destruct (Rel env _ m) as [rel| |]; cbn [mbind result_bind]; [|done..].
  apply add_candidate_files.
Qed.

Lemma load_set_distinct env root opts d :
  root_ok root → load_set env root opts = Ok d → NoDup (fd_FileID <$> protectedFiles d).
Proof.
  intros Hroot. unfold load_set. destruct (negb _); [done|].
  destruct (NewDecoder _ _ _ _ _ _) as [d1| |] eqn:Hd; cbn [mbind result_bind]; [|done..].
  intros ->%expandCandidates_files. apply NewDecoder_decoder_ok in Hd; [|done]. apply Hd.
Qed.

(** ** Exit codes *)

Section Exit.
Context (tb : tables) `{VK : !VectorKernels} (b : build) (env : CliEnv).

Lemma run_command_codes c root d :
  is_verify c = true ∨ is_repair c = true →
  match run_command tb b env c root d with
  | (root', Ok code) =>
      0 <= code <= 4 ∧ (is_verify c = true → root' = root) ∧
      (code = ExitRepairPossible → is_verify c = true) ∧
      (code = ExitLogicError ↔ ∃ e, VerifyScans (schedule env) root d = Err e)
  | (_, Err _) => False
  | (root', Panic _) => is_verify c = true → root' = root
  end.
Proof.
  intros Hc. unfold run_command, runVerificationAndReport.
  destruct (VerifyScans (schedule env) root d) as [d1|e|m]; [| |done].
  2:{ split; [done|]. split; [done|]. split; [done|]. split; [by exists e|done]. }
  assert (∀ (x : bool) code, x = true ∨ code ≠ ExitRepairPossible → 0 <= code < 4 →
    0 <= code <= 4 ∧ (code = ExitRepairPossible → x = true) ∧
    (code = ExitLogicError ↔ ∃ e, Ok d1 = Err e)) as Hcode.
  { intros x code Hx H. split; [lia|]. split; [by destruct Hx|].
    split; [unfold ExitLogicError; lia|by intros [? ?]]. }
  destruct (is_verify c) eqn:Hv.
  { destruct (Hcode true (handleVerifyCommand (shardCountsLocked d1))) as (H1 & H2 & H3);
      [by left| |done].
    unfold handleVerifyCommand.
    by destruct (RepairNeeded (shardCountsLocked d1)), (RepairPossible (shardCountsLocked d1)). }
  destruct Hc as [|Hr]; [done|]. rewrite Hr. unfold handleRepairCommand.
  assert (∀ code, code ≠ ExitRepairPossible → 0 <= code < 4 →
    0 <= code <= 4 ∧ (false = true → root = root) ∧ (code = ExitRepairPossible → false = true) ∧
    (code = ExitLogicError ↔ ∃ e, Ok d1 = Err e)) as Hfalse.
  { intros code Hne H. destruct (Hcode false code) as (H1 & H2 & H3); [by right|done|done]. }
  destruct (negb _); [by apply Hfalse|]. destruct (negb _); [by apply Hfalse|].
  destruct (Repair _ _ _ _ _) as [[root' d'] [|e|m]]; [| |done];
    (split; [done|]); split; try done; by apply Hfalse.
Qed.

End Exit.

(** ** Profiles *)

(** The profile [path] is not asked for, or not in the directory of the set. *)
Definition outside (env : CliEnv) (path : list Z) : Prop := path = [] ∨ place env path = None.

Definition profiles_outside (env : CliEnv) (opts : cliOptions) : Prop :=
  outside env (cpuProfile opts) ∧ outside env (memProfile opts).

Lemma cleanup_outside env opts root :
  profiles_outside env opts → cleanup env (cpuProfile opts) (memProfile opts) root = root.
Proof.
  unfold cleanup, finish_profile, Create.
  intros [[-> | ->] [-> | ->]]; repeat case_bool_decide; try done; by destruct (os_create _ _).
Qed.

Lemma setupProfiling_cases env opts root :
  let '(root', r) := setupProfiling env (cpuProfile opts) (memProfile opts) root in
  (profiles_outside env opts → root' = root) ∧
  (r = Ok (cleanup env (cpuProfile opts) (memProfile opts)) ∨ ∃ e, r = Err e).
Proof.
  unfold setupProfiling, Create. case_bool_decide as Hc; [by split; [|left]|].
  destruct (os_create _ _); [|by split; [|right; eexists]].
  split; [by intros [[?| ->] _]|]. destruct (StartCPUProfile _ _); [by left|by right; eexists].
Qed.

(** The CPU profile fails, or the set loads and its verification fails. *)
Definition logic_error (env : CliEnv) (root : Root) (opts : cliOptions) : Prop :=
  versionFlag opts = false ∧
  let '(root1, profiling) := setupProfiling env (cpuProfile opts) (memProfile opts) root in
  (∃ e, profiling = Err e) ∨
  ∃ run d e, profiling = Ok run ∧ load_set env root1 opts = Ok d ∧
             VerifyScans (schedule env) root1 d = Err e.

(** C38: What the command can end with.  Unless the process panics, the exit code
    is one of the five documented ones.  Command-line parsing always ends and
    only fails with code 3.  Code 1 is given by the verify command only.  Code 4
    is given exactly when the CPU profile cannot be created or started, or the
    set loads and its verification ends in an error.  And when no profile is
    written to the directory of the set, the verify command never changes that
    directory, even if it panics. *)
Theorem cli_exit_codes tb `{VK : !VectorKernels} b env args root :
  let parsed := parseCLIFlags (NumCPU env) args in
  (∃ r, parsed = Ok r ∧ (∀ code, r = inr code → code = 3)) ∧
  let '(root', r) := runCLI tb b env args root in
  (∀ opts, parsed = Ok (inl opts) → is_verify (cmd opts) = true → profiles_outside env opts →
     root' = root) ∧
  match r with
  | Ok code => 0 <= code <= 4 ∧
      (code = 1 → ∃ opts, parsed = Ok (inl opts) ∧ is_verify (cmd opts) = true) ∧
      (code = 4 ↔ ∃ opts, parsed = Ok (inl opts) ∧ logic_error env root opts)
  | Err _ => False
  | Panic _ => True
  end.
Proof.
  cbv zeta. destruct (parseCLIFlags_total (NumCPU env) args) as (r & Hr & Hcode). split.
  { exists r. split; [done|]. by intros code ->. }
  unfold runCLI. rewrite Hr. destruct r as [opts|code]; [|subst code].
  2:{ split; [done|]. split; [done|]. split; [done|]. split; [done|]. by intros (? & [=] & _). }
  assert ((∃ o, Ok (inl opts) = Ok (inl o : cliOptions + Z) ∧ logic_error env root o) ↔
    logic_error env root opts) as Hiff by (split; [by intros (o & [= <-] & ?)|by exists opts]).
  unfold logic_error at 2 in Hiff. destruct (versionFlag opts) eqn:Hver.
  { split; [done|]. split; [done|]. split; [done|]. rewrite Hiff. split; [done|by intros [? _]]. }
  pose proof (setupProfiling_cases env opts root) as Hprof. revert Hiff.
  destruct (setupProfiling _ _ _ _) as [root1 profiling]. intros Hiff.
  destruct Hprof as [Hsame [->|[e ->]]].
  2:{ split; [by intros o [= <-] _ ?%Hsame|]. split; [done|]. split; [done|].
      rewrite Hiff. split; [|done]. intros _. split; [done|]. left. by eexists. }
  destruct Hcode as [|Hcmd]; [congruence|]. unfold load_and_run.
  destruct (load_set env root1 opts) as [d|e|m] eqn:Hload; cbn [end_run].
  - pose proof (run_command_codes tb b env (cmd opts) root1 d Hcmd) as Hrun.
    destruct (run_command tb b env (cmd opts) root1 d) as [root' [code|e|m]]; [|done|]; cbn [end_run].
    + destruct Hrun as (H1 & H2 & H3 & H4). split.
      { intros o [= <-] Hvf Hout. rewrite cleanup_outside, H2 by done. by apply Hsame. }
      split; [done|]. split; [intros Hc; exists opts; by split; [|apply H3]|]. rewrite H4, Hiff. split.
      * intros [e He]. split; [done|]. right. by eexists _, d, e.
      * intros (_ & [[e [=]]|(run & d' & e & _ & [= <-] & He)]). by exists e.
    + split; [|done]. intros o [= <-] Hvf Hout. specialize (Hrun Hvf) as ->. rewrite <- (Hsame Hout).
      destruct (deferred env m); [by apply cleanup_outside|done].
  - split; [intros o [= <-] _ Hout; rewrite cleanup_outside by done; by apply Hsame|].
    split; [done|]. split; [done|]. rewrite Hiff. split; [done|].
    by intros (_ & [[e' [=]]|(run & d' & e' & _ & [=] & _)]).
  - split; [|done]. intros o [= <-] _ Hout. rewrite <- (Hsame Hout).
    destruct (deferred env m); [by apply cleanup_outside|done].
Qed.

(** C9: Exit code zero means that the data is right.  When gopar ends with code
    0 after a verify or a repair of a set whose files have distinct names, which
    are not those of temporary files, and are not given as candidates, and writes
    no profile to the directory of the set, every protected file of the set is on
    disk with contents that have the MD5 of its description. *)
Theorem cli_exit_zero tb `{VK : !VectorKernels} b env args root root' opts d :
  root_ok root → parseCLIFlags (NumCPU env) args = Ok (inl opts) → versionFlag opts = false →
  load_set env root opts = Ok d →
  NoDup (Filename <$> protectedFiles d) → candidates_apart d → temps_apart (repair_env env) d →
  permutes (schedule env) → profiles_outside env opts →
  runCLI tb b env args root = (root', Ok ExitSuccess) →
  ∀ fd, fd ∈ protectedFiles d →
    ∃ data, root' !! Filename fd = Some (Contents data) ∧ md5_Sum data = fd_Hash fd.
Proof.
  intros Hroot Hargs Hver Hload Hnames Hapart Htemps Hperm Hout. unfold runCLI. rewrite Hargs, Hver.
  pose proof (setupProfiling_cases env opts root) as Hprof.
  destruct (setupProfiling _ _ _ _) as [root1 profiling]. destruct Hprof as [Hsame Hprof].
  specialize (Hsame Hout) as ->. destruct Hprof as [->|[e ->]]; [|done].
  unfold load_and_run, end_run. rewrite Hload.
  assert (∀ run : Root * result Z, (∀ root', run = (root', Ok ExitSuccess) →
      ∀ fd, fd ∈ protectedFiles d → verified root' (Filename fd) fd) →
    (let '(root, r) := run in
     (match r with Panic m => if deferred env m then cleanup env (cpuProfile opts) (memProfile opts) root else root
      | _ => cleanup env (cpuProfile opts) (memProfile opts) root end, r)) = (root', Ok ExitSuccess) →
    ∀ fd, fd ∈ protectedFiles d → verified root' (Filename fd) fd) as Hend.
  { intros [root1 r] H [= <- ->]. rewrite cleanup_outside by done. by apply H. }
  apply Hend. clear Hend root'. intros root'.
  pose proof (load_set_distinct env root opts d Hroot Hload) as Hids.
  unfold run_command, runVerificationAndReport.
  destruct (VerifyScans (schedule env) root d) as [d1| |] eqn:Hv; [|done..].
  pose proof (verified_set (schedule env) root d d1 Hids Hperm Hv) as Hset.
  assert (∀ fd, fd ∈ protectedFiles d → ¬ candidate d (Filename fd)) as Hsrc.
  { intros fd. by apply candidate_apart. }
  assert (RepairNeeded (shardCountsLocked d1) = false → root = root' →
    ∀ fd, fd ∈ protectedFiles d → verified root' (Filename fd) fd) as Hhealthy.
  { intros Hn <-. apply (renaming_healthy (repair_env env) (candidate d) root d) in Hset; [|done].
    destruct Hset as (_ & _ & H). by apply H. }
  destruct (is_verify (cmd opts)).
  { unfold handleVerifyCommand. destruct (RepairNeeded _) eqn:Hn; cbn [negb].
    - by destruct (RepairPossible _).
    - intros [= ->]. by apply Hhealthy. }
  destruct (is_repair (cmd opts)); [|done]. unfold handleRepairCommand.
  destruct (RepairNeeded _) eqn:Hn; cbn [negb]; [|intros [= ->]; by apply Hhealthy].
  destruct (negb _); [done|].
  destruct (Repair (repair_env env) tb b root d1) as [[root1 d2] r] eqn:Hr.
  destruct r as [[]| |]; [|done..]. intros [= ->].
  apply (Repair_outcome (repair_env env) tb b (candidate d) root d Hids Hnames Hsrc Htemps) in Hr
    as (_ & _ & H); [|done]. by apply H.
Qed.

(** ** A run on a small set *)

Definition encode_file_desc (fd : FileDescPacket) : list Z :=
  fd_FileID fd ++ fd_Hash fd ++ SixteenKHash fd ++ le_split 8 (ByteCount fd) ++
  Filename fd ++ replicate (Z.to_nat ((- len (Filename fd)) mod 4)) 0.

Definition index_file (fd : FileDescPacket) : list Z :=
  let packet t body := encode_packet {| pk_set := fd_FileID fd; pk_type := t; pk_body := body |} in
  packet MainPacketType
    (encode_main {| SliceByteCount := 4; RecoverySet := [fd_FileID fd]; NonRecoverySet := [] |}) ++
  packet FileDescPacketType (encode_file_desc fd).

Definition cli_root : Root :=
  {[ ascii "s.par2" := Contents (index_file file_a); ascii "a.txt" := Contents (ascii "abcdefghi") ]}.

Definition cli_env : CliEnv :=
  {| NumCPU := 2; goroutines := 2; os_create := λ _, true; StartCPUProfile := λ _, true;
     place := λ _, None; profile_written := λ _ root, root; deferred := λ _, true; sandbox_ok := λ _, true;
     entries := [ascii "s.par2"; ascii "a.txt"];
     load_ctx := no_cancel; Glob := λ _, Ok []; Rel := λ _ m, Ok m; schedule := schedule0;
     repair_env := calm |}.

Definition cli_args : list (list Z) := [ascii "-v"; ascii "-m=0x20"; ascii "VERIFY"; ascii "s.par2"].

Definition cli_opts : cliOptions :=
  {| numThreads := 2; memMB := 32; cpuProfile := []; memProfile := []; maxFileSizeMB := 100;
     verbose := true; versionFlag := false; candidates := []; cmd := ascii "verify";
     par2Path := ascii "s.par2" |}.

Lemma cli_exit_zero_witness :
  ∃ d, load_set cli_env cli_root cli_opts = Ok d ∧ map Filename (protectedFiles d) = [ascii "a.txt"] ∧
    ∀ fd, fd ∈ protectedFiles d →
      ∃ data, cli_root !! Filename fd = Some (Contents data) ∧ md5_Sum data = fd_Hash fd.
Proof.
  destruct (load_set cli_env cli_root cli_opts) as [d| |] eqn:Hd; [|vm_compute in Hd; discriminate..].
  exists d. split; [reflexivity|].
  assert (∃ id h1 h2, d = set_fileIntegrity ∅ d ∧ protectedFiles d =
    [{| fd_FileID := id; fd_Hash := h1; SixteenKHash := h2; ByteCount := 9; Filename := ascii "a.txt" |}]
    ∧ candidateFiles d = ∅ ∧ candidateByID d = ∅) as (id & h1 & h2 & _ & Hfiles & Hc1 & Hc2).
  { vm_compute in Hd. injection Hd as <-. eexists _, _, _. split; [reflexivity|].
    split; [reflexivity|]. split; reflexivity. }
  split; [rewrite Hfiles; reflexivity|].
  apply (cli_exit_zero gf_tables NonAmd64 cli_env cli_args cli_root cli_root cli_opts d).
  - apply map_Forall_insert_2; [decided|]. apply map_Forall_singleton. decided.
  - vm_compute. reflexivity.
  - reflexivity.
  - exact Hd.
  - rewrite Hfiles. apply NoDup_singleton.
  - intros fd Hfd. rewrite Hc1, Hc2. split; [reflexivity|]. intros i. rewrite lookup_empty. discriminate.
  - apply temps_apart_suffix. intros fd Hfd s He. rewrite Hfiles in Hfd.
    apply list_elem_of_singleton in Hfd as ->. apply (f_equal last) in He.
    rewrite last_app in He. discriminate.
  - apply permutes0.
  - by split; left.
  - vm_compute. reflexivity.
Defined.
