(* ===== verification/CliRestore.v ===== *)
(** * The command restores the data

    The end of the chain: from the command line through loading, verification
    and repair to exit code 0 and the original contents. *)

From stdpp Require Import gmap.
From S2P Require Import Prelude Gf16 Kernels Dispatch Simd LinAlg Matrix ReedSolomon RsApply RsReconstruct.
From S2P Require Import Md5 Crc32 Packet PacketFacts PathFacts CrcTable Decoder DecoderFacts Blocks BlocksFacts Verify.
From S2P Require Import VerifyFacts VerifyOutcome VerifyLocated VerifyTotal PacketProperties ScanProperties Repair RepairFacts.
From S2P Require Import RepairSound RepairChunks RepairRun RepairRestore RepairRename RepairProperties RestoreProperties.
From S2P Require Import Cli CliProperties.

(** ** What loading leaves *)

(** A loaded set, with its candidates so far. *)
Definition loaded (d : Decoder) : Prop :=
  decoder_ok d ∧ 0 < memoryLimit d ∧ candidates_consistent d.

Lemma add_candidate_loaded d path d' : loaded d → add_candidate d path = Ok d' → loaded d'.
Proof.
  intros (H1 & H2 & H3). unfold add_candidate, AddCandidateFile.
  destruct (DefangPath path) as [p| |]; [|done..].
  destruct (candidateFiles d !! p) as [id|] eqn:Hp; cbn [mbind result_bind]; intros [= <-]; [done|].
  split; [by destruct H1|]. split; [done|]. intros id name.
  cbn [set_candidates candidateByID candidateFiles].
  intros [[<- <-]|[Hne Hid]]%lookup_insert_Some; [apply lookup_insert_eq|].
  apply H3 in Hid. rewrite lookup_insert_ne; [done|]. intros <-. congruence.
Qed.

Lemma load_set_loaded env root opts d : root_ok root → load_set env root opts = Ok d → loaded d.
Proof.
  intros Hroot. unfold load_set. destruct (negb _); [done|].
  destruct (NewDecoder _ _ _ _ _ _) as [d1| |] eqn:Hd; cbn [mbind result_bind]; [|done..].
  apply NewDecoder_ok in Hd as [H1 (_ & Hm & _ & _ & _ & Hid)]; [|done].
  assert (loaded d1) as Hl.
  { split; [done|]. split.
    - rewrite Hm. cbn [new_decoder memoryLimit with_defaults MemoryLimit].
      destruct (Z.leb_spec (MemoryLimit (limits opts)) 0); lia.
    - intros id name. rewrite Hid. cbn [new_decoder candidateByID]. by rewrite lookup_empty. }
  unfold expandCandidates. apply foldM_ok_list; [|done].
  intros d2 c d3 _ H2. unfold expand_candidate. destruct (negb _); [by apply add_candidate_loaded|].
  destruct (Glob env _) as [ms| |]; cbn [mbind result_bind]; [|done..].
  apply foldM_ok_list; [|done]. intros d4 m d5 _ H4.
  destruct (Rel env _ m) as [rel| |]; cbn [mbind result_bind]; [|done..]. by apply add_candidate_loaded.
Qed.

Lemma repair_no_verify c : is_repair c = true → is_verify c = false.
Proof.
  unfold is_repair, is_verify. intros [->%bool_decide_eq_true| ->%bool_decide_eq_true]%orb_true_iff;
    reflexivity.
Qed.

(** Where nothing is needed, [Repair] does nothing. *)
Lemma Repair_unneeded env tb `{VK : !VectorKernels} b root d :
  has_states d → RepairNeeded (shardCountsLocked d) = false → Repair env tb b root d = (root, d, Ok tt).
Proof.
  intros Hst Hn. unfold Repair.
  assert (renameMisnamedFiles env root d = Ok (root, d, 0)) as ->; [|by rewrite Hn].
  pose proof (proj1 (RepairNeeded_spec d) Hn) as Hh. unfold renameMisnamedFiles.
  assert (∀ fds, (∀ fd, fd ∈ fds → fd ∈ protectedFiles d) →
    foldM (rename_file env) (root, d, 0) fds = Ok (root, d, 0)) as H; [|by apply H].
  induction fds as [|fd fds IH]; intros Hfds; [done|]. cbn [foldM].
  destruct (has_states_get d fd Hst (Hfds _ (list_elem_of_here _ _))) as (s & Hg & Hs & _).
  unfold rename_file at 2. rewrite Hg. cbn [mbind result_bind].
  rewrite bool_decide_eq_true_2 by apply (Hh _ s Hs). apply IH.
  intros. apply Hfds. by apply elem_of_cons; right.
Qed.

(** C4: [gopar repair] restores the data, under the conditions [promised] and
    these.  Of the command: its profiles, if any, can be created and are outside
    the directory of the set, and the set loads.  Of the set, which loading does
    not check: the names are distinct; the checksums, the recovery blocks and the
    file hashes are those of the original contents; the recovery exponents follow
    each other; every checksum packet lists no more blocks than its file has, all
    together at most 2^29, and the slices are small enough to be allocated.  Of
    the candidates: none is a
    file of the set, and their identifiers differ from the others (a candidate
    that is a file of the set can be lost).  Of the directory: all of it can be
    read; nothing has a name that the repair takes for a temporary file;
    different data have different MD5s; and a file of the set may have grown, but
    where the slice of a shorter last block goes on it holds zeros, if anything
    (else that block is read back wrong).  Of the system: nothing is cancelled,
    every system call succeeds, and the goroutines of each chunk run to their
    end.  If the repair of the damage is then possible with the blocks that
    verification finds, and the renames are into free places, the command ends
    with exit code 0 and every protected file has exactly its original
    contents. *)
Theorem cli_repair_restores b env args root opts d0 orig k0 :
  parseCLIFlags (NumCPU env) args = Ok (inl opts) → versionFlag opts = false →
  is_repair (cmd opts) = true → profiles_outside env opts →
  is_ok (setupProfiling env (cpuProfile opts) (memProfile opts) root).2 = true →
  load_set env root opts = Ok d0 →
  NoDup (Filename <$> protectedFiles d0) → permutes (schedule env) → disk_ok root →
  Z.of_nat (total_pairs d0) <= 536870912 → checksums_fit d0 → sliceByteCount d0 < maxAlloc →
  ¬ failure (ctx_polls (schedule env)) root d0 → promised root d0 orig → consecutive_exponents d0 k0 →
  obliging (repair_env env) → (∀ l, candidates_order (repair_env env) l ≡ₚ l) →
  temps_apart (repair_env env) d0 → (∀ t, root !! temp_name (repair_env env) t = None) →
  (∀ d, VerifyScans (schedule env) root d0 = Ok d →
     RepairPossible (shardCountsLocked d) = true ∧ renames_into_gaps root d ∧
     ∀ root' d' n plan, renameMisnamedFiles (repair_env env) root d = Ok (root', d', n) →
       planRepair (repair_env env) d' n = Ok plan → chunks_scheduled (repair_env env) b d' plan) →
  ∃ root', runCLI gf_tables b env args root = (root', Ok ExitSuccess) ∧
    ∀ fd, fd ∈ protectedFiles d0 → root' !! Filename fd = Some (Contents (orig (Filename fd))).
Proof.
  intros Hargs Hver Hcmd Hout Hprof Hload Hnames Hperm Hdisk Htot Hfit Hbig Hwell Hpr Hcons Hob Horder Hapart Htemps Hafter.
  assert (root_ok root) as Hroot by (eapply map_Forall_impl; [exact Hdisk|]; by intros ? [data|n|] Hf; [apply Hf|..]).
  destruct (load_set_loaded env root opts d0 Hroot Hload) as (Hok & Hm & Hcand).
  pose proof (VerifyScans_fine (schedule env) root d0 Hok Hperm Hdisk Htot Hfit Hbig) as Hfine.
  unfold runCLI. rewrite Hargs, Hver. pose proof (setupProfiling_cases env opts root) as Hcases. revert Hprof.
  destruct (setupProfiling _ _ _ _) as [root1 profiling]. destruct Hcases as [Hsame Hcases].
  specialize (Hsame Hout) as ->. destruct Hcases as [->|[e ->]]; [intros _|done].
  unfold load_and_run. rewrite Hload. unfold run_command, runVerificationAndReport.
  destruct (VerifyScans (schedule env) root d0) as [d| |] eqn:Hv; [|by destruct Hwell|done].
  destruct (Hafter d eq_refl) as (Hpos & Hgaps & Hsched). rewrite (repair_no_verify _ Hcmd), Hcmd.
  destruct (verified_repairs (repair_env env) b (schedule env) root d0 d orig k0)
    as (root' & d' & Hr & Hall); [done..|].
  exists root'. split; [|done].
  assert (handleRepairCommand gf_tables b env root d (shardCountsLocked d) = (root', Ok ExitSuccess)) as ->;
    [|cbn [end_run]; by rewrite cleanup_outside].
  unfold handleRepairCommand. rewrite Hpos, Hr.
  destruct (RepairNeeded (shardCountsLocked d)) eqn:Hn; [done|]. cbn [negb].
  rewrite Repair_unneeded in Hr; [by injection Hr as ->|intros fd Hfd|done].
  destruct (VerifyScans_verifying (schedule env) root d0 (λ _, True) d (ok_distinct _ Hok)) as [Hvf _]; [done..|].
  apply (v_all _ _ _ _ _ Hvf). by rewrite <- (verifying_files _ _ _ _ d Hvf).
Qed.

(** ** A run on a small set

    The two blocks of [a.txt] are on disk in the wrong order, and the file has
    grown by three bytes. *)

Definition file_r : FileDescPacket := sample_file (ascii "abcdefgh") (ascii "a.txt").

Definition index_r : list Z :=
  let packet t body := encode_packet {| pk_set := fd_FileID file_r; pk_type := t; pk_body := body |} in
  index_file file_r ++ packet IFSCPacketType (encode_ifsc (ifsc_of file_r [ascii "abcd"; ascii "efgh"])).

Definition grown_r : list Z := ascii "efghabcdXYZ".

Definition root_r : Root :=
  {[ ascii "s.par2" := Contents index_r; ascii "a.txt" := Contents grown_r ]}.

Definition env_r : CliEnv :=
  {| NumCPU := 1; goroutines := 1; os_create := λ _, true; StartCPUProfile := λ _, true;
     place := λ _, None; profile_written := λ _ root, root; deferred := λ _, true; sandbox_ok := λ _, true;
     entries := [ascii "s.par2"; ascii "a.txt"];
     load_ctx := no_cancel; Glob := λ _, Ok []; Rel := λ _ m, Ok m; schedule := schedule0;
     repair_env := steady |}.

Definition args_r : list (list Z) := [ascii "repair"; ascii "s.par2"].

Definition opts_r : cliOptions :=
  {| numThreads := 1; memMB := 16; cpuProfile := []; memProfile := []; maxFileSizeMB := 100;
     verbose := false; versionFlag := false; candidates := []; cmd := ascii "repair";
     par2Path := ascii "s.par2" |}.

Definition set_r : Decoder :=
  {| numGoroutines := 1; memoryLimit := 16777216; maxFileSize := 104857600;
     maxPacketSize := 134217728; sliceByteCount := 4; recoverySetID := fd_FileID file_r;
     protectedFiles := [file_r];
     fileChecksums := {[ fd_FileID file_r := ifsc_of file_r [ascii "abcd"; ascii "efgh"] ]};
     Decoder.parityShards := ∅; fileIntegrity := ∅;
     candidateFiles := ∅; candidateByID := ∅; parityFileBlocks := ∅ |}.

Definition contents_r (name : list Z) : list Z :=
  if bool_decide (name = Filename file_r) then ascii "abcdefgh" else [].

Definition verified_r : Decoder :=
  set_fileIntegrity
    {[ fd_FileID file_r := {| st_FileID := fd_FileID file_r; st_Filename := Filename file_r;
         Damage := damageWrongSize; RenameSource := [];
         ShardLocations := [ {| FileID_ := fd_FileID file_r; Offset := 4 |};
                             {| FileID_ := fd_FileID file_r; Offset := 0 |} ] |} ]} set_r.

Lemma root_r_data name f : root_r !! name = Some f →
  f = Contents index_r ∨ (name = Filename file_r ∧ f = Contents grown_r).
Proof.
  unfold root_r. intros [[_ <-]|[_ [<- <-]%lookup_singleton_Some]]%lookup_insert_Some; [by left|right].
  split; [vm_compute|]; reflexivity.
Qed.

(** The blocks of a text, and that none has by accident the MD5 of another. *)
Definition windows (l : list Z) : list (list Z) :=
  map (λ off, block_at 4 l (Z.of_nat off)) (seq 0 (S (length l))).

Lemma windows_elem l off : block_at 4 l off ∈ windows l.
Proof.
  unfold windows. rewrite list_elem_of_In. apply in_map_iff.
  exists (Z.to_nat off `min` length l)%nat. split; [|apply in_seq; lia].
  unfold block_at, ReadAt. rewrite Nat2Z.id.
  destruct (decide (Z.to_nat off <= length l)%nat); [by rewrite Nat.min_l|].
  by rewrite !drop_ge by lia.
Qed.

Definition apart (hashes : list (list Z * list Z)) (found : list Z) : bool :=
  let h := md5_Sum found in
  forallb (λ oh, negb (bool_decide (h = oh.2)) || bool_decide (found = oh.1)) hashes.

Lemma apart_spec originals found original :
  apart ((λ o, (o, md5_Sum o)) <$> originals) found = true → original ∈ originals →
  md5_Sum found = md5_Sum original → found = original.
Proof.
  unfold apart. rewrite forallb_forall. intros H Ho Hmd.
  specialize (H (original, md5_Sum original)). cbn [fst snd] in H.
  rewrite bool_decide_eq_true_2 in H by done. cbn [negb orb] in H.
  eapply bool_decide_eq_true_1. apply H, list_elem_of_In. by apply (list_elem_of_fmap_2 (λ o, (o, md5_Sum o))).
Qed.

Definition originals_r : list (list Z) := [ascii "abcd"; ascii "efgh"; [0; 0; 0; 0]].

Lemma original_r (i : nat) : block_at 4 (ascii "abcdefgh") (Z.of_nat i * 4) ∈ originals_r.
Proof.
  destruct i as [|[|i]]; [decided|decided|].
  unfold block_at, ReadAt. rewrite drop_ge by (cbn; lia). decided.
Qed.

Lemma apart_r :
  forallb (apart ((λ o, (o, md5_Sum o)) <$> originals_r))
    (windows index_r ++ windows (take 8 index_r) ++ windows grown_r ++ windows (take 8 grown_r)) = true.
Proof. vm_compute. reflexivity. Qed.

Lemma no_match_r fd name data : fd ∈ [file_r] → root_r !! name = Some (Contents data) →
  md5_Sum data = fd_Hash fd → data = contents_r (Filename fd).
Proof.
  intros ->%list_elem_of_singleton [[= ->]|[_ [= ->]]]%root_r_data H; vm_compute in H; discriminate.
Qed.

Lemma honest_r : disk_honest root_r set_r contents_r.
Proof.
  split; [exact no_match_r| |].
  - intros fd i name data n off ->%list_elem_of_singleton Hd Hn. cbv zeta.
    change (sliceByteCount set_r) with 4. change (contents_r (Filename file_r)) with (ascii "abcdefgh").
    intros Hmd. pose proof apart_r as Hall. rewrite forallb_forall in Hall.
    assert (n = len data ∨ n = 8) as Hn'.
    { destruct Hn as [|(fd' & ->%list_elem_of_singleton & ->)]; [by left|by right]. }
    apply (apart_spec originals_r); [|apply original_r|done]. apply Hall, list_elem_of_In.
    rewrite !elem_of_app. destruct (root_r_data _ _ Hd) as [[= ->]|[_ [= ->]]], Hn' as [->| ->].
    + left. unfold len. rewrite Nat2Z.id, take_ge by done. apply windows_elem.
    + right. left. apply windows_elem.
    + right. right. left. unfold len. rewrite Nat2Z.id, take_ge by done. apply windows_elem.
    + right. right. right. apply windows_elem.
  - intros fd data ->%list_elem_of_singleton _ Hm. by destruct Hm.
Qed.

Lemma promised_r : promised root_r set_r contents_r.
Proof.
  split; [| | |exact honest_r| |].
  - split.
    + intros name. unfold contents_r. case_bool_decide; decided.
    + intros fd ->%list_elem_of_singleton. split; vm_compute; reflexivity.
    + intros fd data Hfd. by apply no_match_r.
  - intros fd p i pr ->%list_elem_of_singleton. cbn [set_r fileChecksums].
    rewrite lookup_singleton_eq. intros [= <-]. change (sliceByteCount set_r) with 4.
    destruct i as [|[|i]]; cbn [ifsc_of ChecksumPairs fmap list_fmap lookup list_lookup];
      [intros [= <-]; vm_compute; reflexivity..|done].
  - apply map_Forall_empty.
  - unfold names_apart. cbn [set_r candidateFiles]. split; intros *; by rewrite lookup_empty.
  - intros fd _. cbn [set_r candidateFiles candidateByID].
    split; [apply lookup_empty|]. intros id. by rewrite lookup_empty.
Qed.

Lemma verify_r : VerifyScans schedule0 root_r set_r = Ok verified_r.
Proof. vm_compute. reflexivity. Qed.

Lemma scheduled_r root' d' n plan :
  renameMisnamedFiles steady root_r verified_r = Ok (root', d', n) →
  planRepair steady d' n = Ok plan → chunks_scheduled steady NonAmd64 d' plan.
Proof.
  assert (renameMisnamedFiles steady root_r verified_r = Ok (root_r, verified_r, 0)) as ->
    by (vm_compute; reflexivity).
  intros [= <- <- <-] Hplan. vm_compute in Hplan. injection Hplan as <-.
  intros i Hi. cbn in Hi. assert (i = 0) as -> by lia. decided.
Qed.

Lemma well_r : ¬ failure (ctx_polls schedule0) root_r set_r.
Proof.
  intros [e He|Hz|p n Hc|name f Hf Hno]; [vm_compute in He; discriminate|discriminate|discriminate|].
  apply root_r_data in Hf as [->|[_ ->]]; by eapply Hno.
Qed.

Lemma temps_r t name : temp_name steady t ≠ name ++ ascii "t" ∧ temp_name steady t ≠ name ++ ascii "2".
Proof. split; intros He; apply (f_equal last) in He; unfold temp_name in He; rewrite !app_assoc, !last_app in He; discriminate. Qed.

Lemma cli_repair_restores_witness :
  ∃ root', runCLI gf_tables NonAmd64 env_r args_r root_r = (root', Ok ExitSuccess) ∧
    root_r !! Filename file_r = Some (Contents grown_r) ∧
    root' !! Filename file_r = Some (Contents (ascii "abcdefgh")).
Proof.
  destruct (cli_repair_restores NonAmd64 env_r args_r root_r opts_r set_r contents_r 0) as (root' & Hrun & Hall).
  - vm_compute. reflexivity.
  - reflexivity.
  - reflexivity.
  - by split; left.
  - reflexivity.
  - vm_compute. reflexivity.
  - apply NoDup_singleton.
  - apply permutes0.
  - intros name f [->|[_ ->]]%root_r_data; split; [decided|vm_compute; discriminate|decided|vm_compute; discriminate].
  - vm_compute. discriminate.
  - intros fd p ->%list_elem_of_singleton. cbn [set_r fileChecksums]. rewrite lookup_singleton_eq.
    intros [= <-]. vm_compute. discriminate.
  - reflexivity.
  - exact well_r.
  - exact promised_r.
  - intros k. cbn [set_r Decoder.parityShards]. rewrite lookup_empty, map_size_empty.
    split; [by intros [? [=]]|lia].
  - apply steady_obliging.
  - done.
  - intros t fd ->%list_elem_of_singleton. exact (proj1 (temps_r t (ascii "a.tx"))).
  - intros t. apply eq_None_not_Some. intros [f Hf]. unfold root_r in Hf.
    apply lookup_insert_Some in Hf as [[Hn _]|[_ [Hn _]%lookup_singleton_Some]].
    + exact (proj2 (temps_r t (ascii "s.par")) (eq_sym Hn)).
    + exact (proj1 (temps_r t (ascii "a.tx")) (eq_sym Hn)).
  - intros d Hd. change (schedule env_r) with schedule0 in Hd. rewrite verify_r in Hd. injection Hd as <-.
    split; [vm_compute; reflexivity|]. split; [|exact scheduled_r].
    intros fd s ->%list_elem_of_singleton. cbn [verified_r set_fileIntegrity fileIntegrity].
    rewrite lookup_singleton_eq. intros [= <-]. done.
  - exists root'. split; [exact Hrun|]. split; [vm_compute; reflexivity|]. apply (Hall file_r), list_elem_of_here.
Defined.
